(** * sheet-generator-js: schema resolution, extraction and deduplication

    A shallow embedding of the schema engine of sheet-generator-js
    (SchemaRefResolverUtil, ExcelToSchemaGeneratorUtil,
    JsonToSchemaGeneratorUtil, TableGeneratorUtil) and the properties its
    specification states about it, followed by the checks of the class
    generator (ObjectGeneratorUtil, SheetGeneratorUtil), the accessors of
    ListGeneratorUtil and the sets of MixinGeneratorUtil, with further
    properties of the code.

    Conventions of the embedding.
    - A JavaScript string is a [string]: a sequence of code units, here the
      code units below 256.
    - A JavaScript number is a [number]: a finite double is named by its
      canonical decimal rendering (what [String(x)] returns), next to the
      three non-finite values and the negative zero.
    - A JavaScript object is an association list in own-property order
      (what [Object.keys] enumerates); property assignment is [obj_set],
      for every key but [__proto__].
    - A [while] loop whose termination depends on its input takes fuel. *)

From Stdlib Require Import List String Ascii Bool Arith NArith Lia.
From Stdlib Require Import Permutation Sorted DecimalString DecimalNat DecimalN.
From Stdlib Require DecimalFacts.
Import ListNotations.
Local Open Scope list_scope.
Local Open Scope string_scope.

(** ** Strings of the runtime *)

Module Js.

(** White space and line terminators, as [String.prototype.trim] and the
    regular expression class [\s] see them. *)
Definition is_ws (c : ascii) : bool :=
  let n := nat_of_ascii c in
  (((9 <=? n) && (n <=? 13)) || (n =? 32) || (n =? 160))%nat.

Fixpoint trimStart (s : string) : string :=
  match s with
  | EmptyString => EmptyString
  | String c r => if is_ws c then trimStart r else s
  end.

Fixpoint trimEnd (s : string) : string :=
  match s with
  | EmptyString => EmptyString
  | String c r =>
      match trimEnd r with
      | EmptyString => if is_ws c then EmptyString else String c EmptyString
      | r' => String c r'
      end
  end.

Definition trim (s : string) : string := trimEnd (trimStart s).

Definition lower_char (c : ascii) : ascii :=
  let n := nat_of_ascii c in
  if (((65 <=? n) && (n <=? 90))
      || ((192 <=? n) && (n <=? 222) && negb (n =? 215)))%nat
  then ascii_of_nat (n + 32) else c.

Fixpoint toLowerCase (s : string) : string :=
  match s with
  | EmptyString => EmptyString
  | String c r => String (lower_char c) (toLowerCase r)
  end.

Definition startsWith (s p : string) : bool := String.prefix p s.

Definition endsWith (s suffix : string) : bool :=
  let n := String.length s in
  let k := String.length suffix in
  (k <=? n)%nat && (String.substring (n - k) k s =? suffix).

(** [s.substring(n)] *)
Fixpoint substringFrom (n : nat) (s : string) : string :=
  match n, s with
  | 0, _ => s
  | S n', String _ r => substringFrom n' r
  | S _, EmptyString => EmptyString
  end.

(** [s.split(sep)] for a one-character separator. *)
Fixpoint split (sep : ascii) (s : string) : list string :=
  match s with
  | EmptyString => [EmptyString]
  | String c r =>
      if Ascii.eqb c sep then EmptyString :: split sep r
      else match split sep r with
           | p :: ps => String c p :: ps
           | [] => [String c EmptyString]
           end
  end.

(** [parts.join(sep)] *)
Fixpoint join (sep : string) (parts : list string) : string :=
  match parts with
  | [] => EmptyString
  | [p] => p
  | p :: ps => p ++ sep ++ join sep ps
  end.

(** [s.split(/\s*,\s*/)]: a separator is a comma with the white space
    around it.  [cur] is the piece being read, [ws] the white space seen
    since its last other character (dropped if a comma follows, kept
    otherwise), [fresh] says that a separator was just consumed.  *)
Fixpoint splitCommaAux (s cur ws : string) (fresh : bool) : list string :=
  match s with
  | EmptyString => [cur ++ ws]
  | String c r =>
      if Ascii.eqb c ","%char then cur :: splitCommaAux r "" "" true
      else if is_ws c then
        if fresh then splitCommaAux r "" "" true
        else splitCommaAux r cur (ws ++ String c "") false
      else splitCommaAux r (cur ++ ws ++ String c "") "" false
  end.

Definition splitComma (s : string) : list string := splitCommaAux s "" "" false.

(** Decimal numerals: [String(n)] for a natural number. *)
Definition natToString (n : nat) : string :=
  NilEmpty.string_of_uint (Nat.to_uint n).

Definition NToString (n : N) : string :=
  NilEmpty.string_of_uint (N.to_uint n).

Definition is_digit (c : ascii) : bool :=
  let n := nat_of_ascii c in ((48 <=? n) && (n <=? 57))%nat.

Fixpoint digitsValue (acc : N) (s : string) : option N :=
  match s with
  | EmptyString => Some acc
  | String c r =>
      if is_digit c
      then digitsValue (acc * 10 + (N_of_ascii c - 48))%N r
      else None
  end.

(** A property name that is an array index: the canonical numeral of an
    integer below 2^32 - 1. *)
Definition arrayIndex (s : string) : option N :=
  match s with
  | EmptyString => None
  | _ =>
      match digitsValue 0%N s with
      | Some n =>
          if (NToString n =? s) && (n <? 4294967295)%N then Some n else None
      | None => None
      end
  end.

(** Order of code units: the default order of [Array.prototype.sort] on strings. *)
Definition codeUnitLeb (a b : string) : bool := String.leb a b.

Fixpoint insertSorted (k : string) (l : list string) : list string :=
  match l with
  | [] => [k]
  | x :: r => if codeUnitLeb k x then k :: l else x :: insertSorted k r
  end.

Fixpoint sort (l : list string) : list string :=
  match l with
  | [] => []
  | k :: r => insertSorted k (sort r)
  end.

End Js.

(** ** Values of the runtime *)

(** A number: a finite double other than the negative zero is named by its
    canonical rendering, the text [String(x)] returns for it. *)
Inductive number : Type :=
| Finite (repr : string)
| NegZero
| NaN
| Infinity (negative : bool).

Definition numberOfNat (n : nat) : number := Finite (Js.natToString n).

(** [String(x)] *)
Definition numberToString (x : number) : string :=
  match x with
  | Finite r => r
  | NegZero => "0"
  | NaN => "NaN"
  | Infinity false => "Infinity"
  | Infinity true => "-Infinity"
  end.

(** [Number.isNaN(x)] *)
Definition isNaN (x : number) : bool :=
  match x with NaN => true | _ => false end.

Definition numberTruthy (x : number) : bool :=
  match x with
  | Finite r => negb (r =? "0")
  | NegZero | NaN => false
  | Infinity _ => true
  end.

(** The values a schema or a workbook instance is made of. *)
#[warnings="-register-all"]
Inductive json : Type :=
| JNull
| JBool (b : bool)
| JNum (x : number)
| JStr (s : string)
| JArr (items : list json)
| JObj (props : list (string * json)).

Definition object : Type := list (string * json).

Section JsonInduction.
Variable P : json -> Prop.
Hypothesis Hnull : P JNull.
Hypothesis Hbool : forall b, P (JBool b).
Hypothesis Hnum : forall x, P (JNum x).
Hypothesis Hstr : forall s, P (JStr s).
Hypothesis Harr : forall items, Forall P items -> P (JArr items).
Hypothesis Hobj : forall props, Forall (fun kv => P (snd kv)) props -> P (JObj props).

Fixpoint json_nested_ind (v : json) : P v :=
  match v with
  | JNull => Hnull
  | JBool b => Hbool b
  | JNum x => Hnum x
  | JStr s => Hstr s
  | JArr items =>
      Harr items
        ((fix go (l : list json) : Forall P l :=
            match l with
            | [] => Forall_nil _
            | x :: r => Forall_cons _ (json_nested_ind x) (go r)
            end) items)
  | JObj props =>
      Hobj props
        ((fix go (l : object) : Forall (fun kv => P (snd kv)) l :=
            match l with
            | [] => Forall_nil _
            | kv :: r => Forall_cons _ (json_nested_ind (snd kv)) (go r)
            end) props)
  end.
End JsonInduction.

(** ToBoolean *)
Definition truthy (v : json) : bool :=
  match v with
  | JNull => false
  | JBool b => b
  | JNum x => numberTruthy x
  | JStr s => negb (s =? "")
  | JArr _ | JObj _ => true
  end.

(** Own properties.  [obj_get] is [Object.hasOwn(o,k) ? o[k] : undefined]. *)
Fixpoint obj_get (k : string) (o : object) : option json :=
  match o with
  | [] => None
  | (k', v) :: r => if k' =? k then Some v else obj_get k r
  end.

Definition obj_has (k : string) (o : object) : bool :=
  match obj_get k o with Some _ => true | None => false end.

Definition obj_keys (o : object) : list string := map fst o.

Fixpoint obj_replace (k : string) (v : json) (o : object) : object :=
  match o with
  | [] => []
  | (k', v') :: r =>
      if k' =? k then (k', v) :: r else (k', v') :: obj_replace k v r
  end.

Fixpoint obj_insert_index (n : N) (k : string) (v : json) (o : object) : object :=
  match o with
  | [] => [(k, v)]
  | (k', v') :: r =>
      match Js.arrayIndex k' with
      | Some n' =>
          if (n' <? n)%N then (k', v') :: obj_insert_index n k v r
          else (k, v) :: o
      | None => (k, v) :: o
      end
  end.

(** [o[k] = v]: an existing property keeps its place; a new one that is an
    array index goes among the index keys in ascending numeric order, which
    come first; any other new one goes last.  This is the assignment for
    every key but [__proto__]: on an object without that own property the
    assignment [o["__proto__"] = v] sets the prototype and defines no
    property, which an association list does not describe.  The statements
    about code that assigns under a key taken from its input are therefore
    about keys other than [__proto__] ([ordinaryKey] below). *)
Definition obj_set (o : object) (k : string) (v : json) : object :=
  if obj_has k o then obj_replace k v o
  else match Js.arrayIndex k with
       | Some n => obj_insert_index n k v o
       | None => (o ++ [(k, v)])%list
       end.

(** ** JSON.stringify *)

Module JSON.

Definition dquote : ascii := ascii_of_nat 34.
Definition backslash : ascii := ascii_of_nat 92.

Definition hexDigit (n : nat) : ascii :=
  if (n <? 10)%nat then ascii_of_nat (48 + n) else ascii_of_nat (87 + n).

Definition quoteChar (c : ascii) : string :=
  let n := nat_of_ascii c in
  if (n =? 8)%nat then String backslash "b"
  else if (n =? 9)%nat then String backslash "t"
  else if (n =? 10)%nat then String backslash "n"
  else if (n =? 12)%nat then String backslash "f"
  else if (n =? 13)%nat then String backslash "r"
  else if (n =? 34)%nat then String backslash (String dquote "")
  else if (n =? 92)%nat then String backslash (String backslash "")
  else if (n <? 32)%nat
       then String backslash
              ("u00" ++ String (hexDigit (n / 16)) (String (hexDigit (n mod 16)) ""))
  else String c "".

Fixpoint quoteBody (s : string) : string :=
  match s with
  | EmptyString => EmptyString
  | String c r => quoteChar c ++ quoteBody r
  end.

(** QuoteJSONString *)
Definition quote (s : string) : string :=
  String dquote (quoteBody s ++ String dquote "").

Definition stringifyNumber (x : number) : string :=
  match x with
  | Finite r => r
  | NegZero => "0"
  | NaN | Infinity _ => "null"
  end.

(** [JSON.stringify(v)] *)
Fixpoint stringify (v : json) : string :=
  match v with
  | JNull => "null"
  | JBool true => "true"
  | JBool false => "false"
  | JNum x => stringifyNumber x
  | JStr s => quote s
  | JArr items => "[" ++ Js.join "," (map stringify items) ++ "]"
  | JObj props =>
      "{" ++ Js.join ","
               (map (fun kv => quote (fst kv) ++ ":" ++ stringify (snd kv)) props)
          ++ "}"
  end.

(** ** JSON.parse

    The parser follows the JSON grammar.  Two limits of the embedding: an
    escape [\uXXXX] above the code units modelled is refused, and a numeral
    is kept as written, which names the number it denotes when the text was
    produced by [stringify] (all that this program ever parses). [None] is
    the SyntaxError. *)

Definition isJsonWs (c : ascii) : bool :=
  let n := nat_of_ascii c in
  ((n =? 32) || (n =? 9) || (n =? 10) || (n =? 13))%nat.

Fixpoint skipWs (s : string) : string :=
  match s with
  | EmptyString => EmptyString
  | String c r => if isJsonWs c then skipWs r else s
  end.

Definition hexValue (c : ascii) : option nat :=
  let n := nat_of_ascii c in
  if ((48 <=? n) && (n <=? 57))%nat then Some (n - 48)
  else if ((97 <=? n) && (n <=? 102))%nat then Some (n - 87)
  else if ((65 <=? n) && (n <=? 70))%nat then Some (n - 55)
  else None.

Definition unescape (e : ascii) : option ascii :=
  let n := nat_of_ascii e in
  if (n =? 34)%nat then Some dquote
  else if (n =? 92)%nat then Some backslash
  else if (n =? 47)%nat then Some "/"%char
  else if (n =? 98)%nat then Some (ascii_of_nat 8)
  else if (n =? 102)%nat then Some (ascii_of_nat 12)
  else if (n =? 110)%nat then Some (ascii_of_nat 10)
  else if (n =? 114)%nat then Some (ascii_of_nat 13)
  else if (n =? 116)%nat then Some (ascii_of_nat 9)
  else None.

Definition consTo (c : ascii) (x : option (string * string)) : option (string * string) :=
  match x with
  | Some (body, rest) => Some (String c body, rest)
  | None => None
  end.

(** The characters of a string after its opening quote, and the text after
    its closing quote. *)
Fixpoint parseStringBody (s : string) : option (string * string) :=
  match s with
  | EmptyString => None
  | String c r =>
      if Ascii.eqb c dquote then Some (EmptyString, r)
      else if Ascii.eqb c backslash then
        match r with
        | EmptyString => None
        | String e r1 =>
            if Ascii.eqb e "u"%char then
              match r1 with
              | String h1 (String h2 (String h3 (String h4 r2))) =>
                  match hexValue h1, hexValue h2, hexValue h3, hexValue h4 with
                  | Some 0, Some 0, Some a, Some b =>
                      consTo (ascii_of_nat (16 * a + b)) (parseStringBody r2)
                  | _, _, _, _ => None
                  end
              | _ => None
              end
            else
              match unescape e with
              | Some c' => consTo c' (parseStringBody r1)
              | None => None
              end
        end
      else if (nat_of_ascii c <? 32)%nat then None
      else consTo c (parseStringBody r)
  end.

Definition isNumberChar (c : ascii) : bool :=
  Js.is_digit c
  || Ascii.eqb c "-"%char || Ascii.eqb c "+"%char || Ascii.eqb c "."%char
  || Ascii.eqb c "e"%char || Ascii.eqb c "E"%char.

Fixpoint spanNumber (s : string) : string * string :=
  match s with
  | EmptyString => (EmptyString, EmptyString)
  | String c r =>
      if isNumberChar c
      then let (tok, rest) := spanNumber r in (String c tok, rest)
      else (EmptyString, s)
  end.

Fixpoint dropDigits (s : string) : string :=
  match s with
  | EmptyString => EmptyString
  | String c r => if Js.is_digit c then dropDigits r else s
  end.

Definition startsWithDigit (s : string) : bool :=
  match s with String c _ => Js.is_digit c | EmptyString => false end.

(** exp? *)
Definition numExp (s : string) : bool :=
  match s with
  | EmptyString => true
  | String c r =>
      if Ascii.eqb c "e"%char || Ascii.eqb c "E"%char then
        let r1 := match r with
                  | String sg r' =>
                      if Ascii.eqb sg "+"%char || Ascii.eqb sg "-"%char then r' else r
                  | EmptyString => r
                  end in
        startsWithDigit r1 && (dropDigits r1 =? "")
      else false
  end.

(** frac? exp? *)
Definition numFrac (s : string) : bool :=
  match s with
  | String c r =>
      if Ascii.eqb c "."%char
      then startsWithDigit r && numExp (dropDigits r)
      else numExp s
  | EmptyString => true
  end.

Definition numInt (s : string) : bool :=
  match s with
  | EmptyString => false
  | String c r =>
      if Ascii.eqb c "0"%char then numFrac r
      else if Js.is_digit c then numFrac (dropDigits r)
      else false
  end.

(** The JSON grammar of a number: [-? int frac? exp?]. *)
Definition isJsonNumber (tok : string) : bool :=
  match tok with
  | String c r => if Ascii.eqb c "-"%char then numInt r else numInt tok
  | EmptyString => false
  end.

Definition parseNumber (s : string) : option (json * string) :=
  let (tok, rest) := spanNumber s in
  if isJsonNumber tok
  then Some (JNum (if tok =? "-0" then NegZero else Finite tok), rest)
  else None.

Definition parseLiteral (s : string) : option (json * string) :=
  if String.prefix "true" s then Some (JBool true, Js.substringFrom 4 s)
  else if String.prefix "false" s then Some (JBool false, Js.substringFrom 5 s)
  else if String.prefix "null" s then Some (JNull, Js.substringFrom 4 s)
  else parseNumber s.

Section Containers.
Variable parseValue : string -> option (json * string).

(** The elements of an array from the first one on, up to the closing bracket. *)
Fixpoint parseElements (fuel : nat) (s : string) : option (list json * string) :=
  match fuel with
  | 0 => None
  | S fuel' =>
      match parseValue s with
      | None => None
      | Some (v, r) =>
          match skipWs r with
          | EmptyString => None
          | String c r' =>
              if Ascii.eqb c ","%char then
                match parseElements fuel' r' with
                | Some (vs, r'') => Some (v :: vs, r'')
                | None => None
                end
              else if Ascii.eqb c "]"%char then Some ([v], r')
              else None
          end
      end
  end.

(** The members of an object from the first one on, up to the closing brace. *)
Fixpoint parseMembers (fuel : nat) (s : string) : option (list (string * json) * string) :=
  match fuel with
  | 0 => None
  | S fuel' =>
      match skipWs s with
      | EmptyString => None
      | String q r0 =>
          if Ascii.eqb q dquote then
            match parseStringBody r0 with
            | None => None
            | Some (k, r1) =>
                match skipWs r1 with
                | EmptyString => None
                | String colon r2 =>
                    if Ascii.eqb colon ":"%char then
                      match parseValue r2 with
                      | None => None
                      | Some (v, r3) =>
                          match skipWs r3 with
                          | EmptyString => None
                          | String c r4 =>
                              if Ascii.eqb c ","%char then
                                match parseMembers fuel' r4 with
                                | Some (kvs, r5) => Some ((k, v) :: kvs, r5)
                                | None => None
                                end
                              else if Ascii.eqb c "}"%char then Some ([(k, v)], r4)
                              else None
                          end
                      end
                    else None
                end
            end
          else None
      end
  end.
End Containers.

(** The syntax tree of a JSON text, the members of an object in the order
    of the text, and the text left behind it. *)
Fixpoint parseValue (fuel : nat) (s : string) : option (json * string) :=
  match fuel with
  | 0 => None
  | S fuel' =>
      match skipWs s with
      | EmptyString => None
      | String c r =>
          if Ascii.eqb c dquote then
            match parseStringBody r with
            | Some (str, r') => Some (JStr str, r')
            | None => None
            end
          else if Ascii.eqb c "["%char then
            match skipWs r with
            | String c' r' =>
                if Ascii.eqb c' "]"%char then Some (JArr [], r')
                else match parseElements (parseValue fuel') fuel' r with
                     | Some (vs, r'') => Some (JArr vs, r'')
                     | None => None
                     end
            | EmptyString => None
            end
          else if Ascii.eqb c "{"%char then
            match skipWs r with
            | String c' r' =>
                if Ascii.eqb c' "}"%char then Some (JObj [], r')
                else match parseMembers (parseValue fuel') fuel' r with
                     | Some (kvs, r'') => Some (JObj kvs, r'')
                     | None => None
                     end
            | EmptyString => None
            end
          else parseLiteral (String c r)
      end
  end.

(** The object a list of members defines, each by a property definition in
    the order of the text. *)
Definition objectOfMembers (members : list (string * json)) : object :=
  fold_left (fun o kv => obj_set o (fst kv) (snd kv)) members [].

(** The value a syntax tree stands for: objects are built bottom-up from
    their members. *)
Fixpoint internalize (tree : json) : json :=
  match tree with
  | JArr items => JArr (map internalize items)
  | JObj members =>
      JObj (objectOfMembers (map (fun kv => (fst kv, internalize (snd kv))) members))
  | _ => tree
  end.

(** [JSON.parse(text)] *)
Definition parse (text : string) : option json :=
  match parseValue (S (String.length text)) text with
  | Some (tree, r) => if skipWs r =? "" then Some (internalize tree) else None
  | None => None
  end.

End JSON.

(** ** Outcomes of a call *)

(** What the code throws: [new Error(message)], the runtime's TypeError
    for a property read on [null] or a call of something that is no
    function, or the SyntaxError of [JSON.parse]. *)
Inductive error : Type :=
| Error (message : string)
| TypeError
| SyntaxError.

(** A call returns, throws, leaves the part of the runtime this development
    describes ([Beyond]: it reached a member of a built-in prototype), or is
    still looping when the fuel is spent ([Timeout]). *)
Inductive outcome (A : Type) : Type :=
| Ret (a : A)
| Throw (e : error)
| Beyond
| Timeout.
Arguments Ret {A} a.
Arguments Throw {A} e.
Arguments Beyond {A}.
Arguments Timeout {A}.

Definition bind {A B : Type} (x : outcome A) (k : A -> outcome B) : outcome B :=
  match x with
  | Ret a => k a
  | Throw e => Throw e
  | Beyond => Beyond
  | Timeout => Timeout
  end.

Notation "'let*' x ':=' c 'in' k" := (bind c (fun x => k))
  (at level 10, x pattern, c at level 100, k at level 200).

(** [v.name] for a name that no built-in prototype defines: the own
    property of an object, [undefined] on any other value that is not
    [null]. *)
Definition prop (v : json) (name : string) : option json :=
  match v with
  | JObj o => obj_get name o
  | _ => None
  end.

(** [a?.name] *)
Definition optProp (a : option json) (name : string) : option json :=
  match a with
  | Some v => prop v name
  | None => None
  end.

(** [a || b] on possibly undefined values *)
Definition orElse (a : option json) (b : json) : json :=
  match a with
  | Some v => if truthy v then v else b
  | None => b
  end.

Definition isTruthy (a : option json) : bool :=
  match a with Some v => truthy v | None => false end.

(** ** SchemaRefResolverUtil *)

Module SchemaRefResolverUtil.

Definition UnsupportedReferenceError (ref : string) : error :=
  Error ("Unsupported $ref format (expected local ref): " ++ ref).

Definition UnresolvedPointerError (pointer : string) : error :=
  Error ("Could not resolve pointer: " ++ pointer).

(** The members every object inherits from [Object.prototype]. *)
Definition objectPrototypeMembers : list string :=
  [ "constructor"; "hasOwnProperty"; "isPrototypeOf"; "propertyIsEnumerable";
    "toLocaleString"; "toString"; "valueOf"; "__proto__";
    "__defineGetter__"; "__defineSetter__"; "__lookupGetter__";
    "__lookupSetter__" ].

Definition inherited (part : string) : bool :=
  existsb (String.eqb part) objectPrototypeMembers.

(** The members with a string name that an array, a string, a number and
    a boolean find on their own prototype (ECMAScript 2024, with its
    Annex B), before those of [Object.prototype]. *)
Definition arrayPrototypeMembers : list string :=
  [ "at"; "concat"; "constructor"; "copyWithin"; "entries"; "every"; "fill";
    "filter"; "find"; "findIndex"; "findLast"; "findLastIndex"; "flat";
    "flatMap"; "forEach"; "includes"; "indexOf"; "join"; "keys";
    "lastIndexOf"; "map"; "pop"; "push"; "reduce"; "reduceRight"; "reverse";
    "shift"; "slice"; "some"; "sort"; "splice"; "toLocaleString";
    "toReversed"; "toSorted"; "toSpliced"; "toString"; "unshift"; "values";
    "with" ].

Definition stringPrototypeMembers : list string :=
  [ "anchor"; "at"; "big"; "blink"; "bold"; "charAt"; "charCodeAt";
    "codePointAt"; "concat"; "constructor"; "endsWith"; "fixed"; "fontcolor";
    "fontsize"; "includes"; "indexOf"; "isWellFormed"; "italics";
    "lastIndexOf"; "link"; "localeCompare"; "match"; "matchAll"; "normalize";
    "padEnd"; "padStart"; "repeat"; "replace"; "replaceAll"; "search";
    "slice"; "small"; "split"; "startsWith"; "strike"; "sub"; "substr";
    "substring"; "sup"; "toLocaleLowerCase"; "toLocaleUpperCase";
    "toLowerCase"; "toString"; "toUpperCase"; "toWellFormed"; "trim";
    "trimEnd"; "trimLeft"; "trimRight"; "trimStart"; "valueOf" ].

Definition numberPrototypeMembers : list string :=
  [ "constructor"; "toExponential"; "toFixed"; "toLocaleString";
    "toPrecision"; "toString"; "valueOf" ].

Definition booleanPrototypeMembers : list string :=
  [ "constructor"; "toString"; "valueOf" ].

(** A name found along a prototype chain that ends in [Object.prototype]. *)
Definition inheritedFrom (members : list string) (part : string) : bool :=
  existsb (String.eqb part) members || inherited part.

Inductive lookup : Type :=
| Found (v : json)
| Undefined
| Host          (* a member of a built-in prototype *)
| NullDeref.    (* a property read on [null] *)

(** [current[part]] *)
Definition getProperty (current : json) (part : string) : lookup :=
  match current with
  | JObj o =>
      match obj_get part o with
      | Some v => Found v
      | None => if inherited part then Host else Undefined
      end
  | JArr items =>
      match Js.arrayIndex part with
      | Some i =>
          match nth_error items (N.to_nat i) with
          | Some v => Found v
          | None => Undefined
          end
      | None =>
          if part =? "length" then Found (JNum (numberOfNat (List.length items)))
          else if inheritedFrom arrayPrototypeMembers part then Host
          else Undefined
      end
  | JStr s =>
      match Js.arrayIndex part with
      | Some i =>
          match String.get (N.to_nat i) s with
          | Some c => Found (JStr (String c ""))
          | None => Undefined
          end
      | None =>
          if part =? "length" then Found (JNum (numberOfNat (String.length s)))
          else if inheritedFrom stringPrototypeMembers part then Host
          else Undefined
      end
  | JNum _ => if inheritedFrom numberPrototypeMembers part then Host else Undefined
  | JBool _ => if inheritedFrom booleanPrototypeMembers part then Host else Undefined
  | JNull => NullDeref
  end.

Fixpoint walk (pointer : string) (parts : list string) (current : json)
  : outcome json :=
  match parts with
  | [] => Ret current
  | part :: rest =>
      match getProperty current part with
      | Found v =>
          if truthy v then walk pointer rest v
          else Throw (UnresolvedPointerError pointer)
      | Undefined => Throw (UnresolvedPointerError pointer)
      | Host => Beyond
      | NullDeref => Throw TypeError
      end
  end.

Definition resolvePointer (pointer : string) (rootSchema : json) : outcome json :=
  walk pointer (Js.split "/" pointer) rootSchema.

(** The loop [while (node.$ref) { ... }]; [fuel] bounds the pointers followed. *)
Fixpoint follow (fuel : nat) (node rootSchema : json) : outcome json :=
  if isTruthy (prop node "$ref") then
    match fuel with
    | 0 => Timeout
    | S fuel' =>
        match prop node "$ref" with
        | Some (JStr ref) =>
            if Js.startsWith ref "#/" then
              let* node' := resolvePointer (Js.substringFrom 2 ref) rootSchema in
              follow fuel' node' rootSchema
            else Throw (UnsupportedReferenceError ref)
        | _ => Throw TypeError   (* [ref.startsWith] is no function *)
        end
    end
  else Ret node.

Definition resolveIfRef (fuel : nat) (node rootSchema : json) : outcome json :=
  if negb (truthy node) then Ret node
  else follow fuel node rootSchema.

End SchemaRefResolverUtil.

(** ** Pieces the two front-ends share *)

(** A [Map] with string keys, in insertion order. *)
Section StringMap.
Context {A : Type}.

Fixpoint mapGet (k : string) (m : list (string * A)) : option A :=
  match m with
  | [] => None
  | (k', a) :: r => if k' =? k then Some a else mapGet k r
  end.

Fixpoint mapSet (m : list (string * A)) (k : string) (a : A) : list (string * A) :=
  match m with
  | [] => [(k, a)]
  | (k', a') :: r => if k' =? k then (k', a) :: r else (k', a') :: mapSet r k a
  end.

Definition mapHas (k : string) (m : list (string * A)) : bool :=
  match mapGet k m with Some _ => true | None => false end.
End StringMap.

(** A block location.  The source keeps a reference to the alternation
    array the block sits in; [blocksOneOf] names that array by the position
    of its sheet in the workbook's alternation. *)
Record location : Type := {
  blocksOneOf : nat;
  index : nat;
  blockSchema : json
}.

Fixpoint locationsFrom (sheet i : nat) (blocksOneOfList : list json) : list location :=
  match blocksOneOfList with
  | [] => []
  | b :: rest =>
      {| blocksOneOf := sheet; index := i; blockSchema := b |}
        :: locationsFrom sheet (S i) rest
  end.

Definition updateProp (name : string) (f : json -> json) (v : json) : json :=
  match v with
  | JObj o =>
      match obj_get name o with
      | Some x => JObj (obj_replace name (f x) o)
      | None => v
      end
  | _ => v
  end.

Fixpoint updateAt (i : nat) (f : json -> json) (l : list json) : list json :=
  match l, i with
  | [], _ => []
  | x :: r, 0 => f x :: r
  | x :: r, S i' => x :: updateAt i' f r
  end.

Definition updateItem (i : nat) (f : json -> json) (v : json) : json :=
  match v with
  | JArr l => JArr (updateAt i f l)
  | _ => v
  end.

(** [loc.blocksOneOf[loc.index] = v], seen from the root schema. *)
Definition setSlot (rootSchema : json) (sheet i : nat) (v : json) : json :=
  updateProp "properties"
    (updateProp "sheets"
       (updateProp "items"
          (updateProp "oneOf"
             (updateItem sheet
                (updateProp "properties"
                   (updateProp "blocks"
                      (updateProp "items"
                         (updateProp "oneOf"
                            (updateItem i (fun _ => v))))))))))
    rootSchema.

Definition refTo (defName : string) : json :=
  JObj [("$ref", JStr ("#/definitions/" ++ defName))].

Definition setProp (v : json) (name : string) (x : json) : json :=
  match v with
  | JObj o => JObj (obj_set o name x)
  | _ => v
  end.

(** ** ExcelToSchemaGeneratorUtil *)

(** The numeric built-ins [buildFieldSchema] calls on the text of a cell.
    They round a decimal text to a double, which this development leaves
    to the runtime: they are parameters of the front-end. *)
Class NumericBuiltins : Type := {
  Number : string -> number;        (* [Number(s)] *)
  parseFloat : string -> number;    (* [parseFloat(s)] *)
  parseInt10 : string -> number     (* [parseInt(s, 10)] *)
}.

Module ExcelToSchemaGeneratorUtil.

(** A cell of [XLSX.utils.sheet_to_json(sheet, {header: 1})]. *)
Inductive cell : Type :=
| CEmpty                (* a hole, [undefined] or [null] *)
| CStr (s : string)
| CNum (x : number)
| CBool (b : bool).

Definition row : Type := list cell.

(** [(c || "").toString().trim()] *)
Definition cellText (c : cell) : string :=
  match c with
  | CEmpty => ""
  | CStr s => Js.trim s
  | CNum x => if numberTruthy x then Js.trim (numberToString x) else ""
  | CBool true => "true"
  | CBool false => ""
  end.

(** [row[i]] *)
Definition cellAt (r : row) (i : nat) : cell := nth i r CEmpty.

Record BlockField : Type := {
  fieldName : string;
  nullAllowed : string;
  type : string;
  minimum : string;
  maximum : string;
  minLength : string;
  maxLength : string;
  pattern : string;
  enumValues : string;
  description : string;
  examples : string
}.

Inductive blockEntity : Type := list_ | table.

(** [BlockModel]: the name, ["list" | "table"], the fields. *)
Record BlockModel : Type := {
  name : string;
  entity : blockEntity;
  fields : list BlockField
}.

Record SheetModel : Type := {
  sheetName : string;
  sheetEntity : string;
  blocks : list BlockModel
}.

Record WorkbookModel : Type := {
  workbookName : string;
  workbookEntity : string;
  sheets : list SheetModel
}.

Definition entityName (e : blockEntity) : string :=
  match e with list_ => "list" | table => "table" end.

(** *** Part 1: spreadsheet to model *)

Definition isBlockHeading (firstCellVal : string) : bool :=
  Js.endsWith firstCellVal "_list" || Js.endsWith firstCellVal "_table".

(** [metaCols]: a [Record<string, number>]; the latest assignment to a key
    is the one read. *)
Definition metaColumns : Type := list (string * nat).

Fixpoint metaGet (colName : string) (m : metaColumns) : option nat :=
  match m with
  | [] => None
  | (k, i) :: r => if k =? colName then Some i else metaGet colName r
  end.

Definition metaKey (lowerVal : string) : option string :=
  if lowerVal =? "null_allowed" then Some "null_allowed"
  else if lowerVal =? "type" then Some "type"
  else if lowerVal =? "minimum" then Some "minimum"
  else if lowerVal =? "maximum" then Some "maximum"
  else if lowerVal =? "minlength" then Some "minLength"
  else if lowerVal =? "maxlength" then Some "maxLength"
  else if lowerVal =? "pattern" then Some "pattern"
  else if lowerVal =? "enum" then Some "enum"
  else if lowerVal =? "description" then Some "description"
  else if lowerVal =? "examples" then Some "examples"
  else None.

Fixpoint findMetaColumnsFrom (index : nat) (cells : row) (map : metaColumns)
  : metaColumns :=
  match cells with
  | [] => map
  | value :: rest =>
      let lowerVal := Js.toLowerCase (cellText value) in
      findMetaColumnsFrom (S index) rest
        match metaKey lowerVal with
        | Some k => (k, index) :: map
        | None => map
        end
  end.

Definition findMetaColumns (metaHeaderRow : row) : metaColumns :=
  findMetaColumnsFrom 0 metaHeaderRow [].

Definition getSafeVal (r : row) (metaCols : metaColumns) (colName : string) : string :=
  match metaGet colName metaCols with
  | None => ""
  | Some idx => cellText (cellAt r idx)
  end.

Definition parseFieldRow (r : row) (metaCols : metaColumns) : BlockField :=
  {| fieldName := cellText (cellAt r 0);
     nullAllowed := getSafeVal r metaCols "null_allowed";
     type := getSafeVal r metaCols "type";
     minimum := getSafeVal r metaCols "minimum";
     maximum := getSafeVal r metaCols "maximum";
     minLength := getSafeVal r metaCols "minLength";
     maxLength := getSafeVal r metaCols "maxLength";
     pattern := getSafeVal r metaCols "pattern";
     enumValues := getSafeVal r metaCols "enum";
     description := getSafeVal r metaCols "description";
     examples := getSafeVal r metaCols "examples" |}.

Definition isBlankRow (r : row) : bool :=
  forallb (fun c => (String.length (cellText c) =? 0)%nat) r.

(** The inner loop of [parseBlocksInSheet]: the field rows of a block and
    the rows left for the outer loop.  A blank row is consumed, the heading
    of the next block is not. *)
Fixpoint gatherFields (metaCols : metaColumns) (rows : list row)
  : list BlockField * list row :=
  match rows with
  | [] => ([], [])
  | dataRow :: rest =>
      if isBlankRow dataRow then ([], rest)
      else if isBlockHeading (cellText (cellAt dataRow 0)) then ([], rows)
      else let (fs, remaining) := gatherFields metaCols rest in
           (parseFieldRow dataRow metaCols :: fs, remaining)
  end.

(** The outer loop, on the rows from [currentRow] on.  Every round moves
    [currentRow] forward, so the number of rows is fuel enough. *)
Fixpoint scanBlocks (fuel : nat) (rows : list row) : list BlockModel :=
  match fuel with
  | 0 => []
  | S fuel' =>
      match rows with
      | [] => []
      | r :: rest =>
          let firstCellVal := cellText (cellAt r 0) in
          if isBlockHeading firstCellVal then
            let metaHeaderRow := hd [] rest in
            let metaCols := findMetaColumns metaHeaderRow in
            let (fs, remaining) := gatherFields metaCols (tl rest) in
            {| name := firstCellVal;
               entity := if Js.endsWith firstCellVal "_list" then list_ else table;
               fields := fs |} :: scanBlocks fuel' remaining
          else scanBlocks fuel' rest
      end
  end.

Definition parseBlocksInSheet (sheetData : list row) : list BlockModel :=
  scanBlocks (List.length sheetData) sheetData.

(** *** Part 2: model to schema *)

Section Build.
Context {builtins : NumericBuiltins}.

Definition nonEmpty (s : string) : bool := negb (s =? "").

Definition stringEnum (s : string) : json :=
  JObj [("type", JStr "string"); ("enum", JArr [JStr s])].

Definition buildFieldSchema (bf : BlockField) : json :=
  let fieldSchema : object := [] in
  let fieldSchema :=
    if nonEmpty bf.(type) then
      if nonEmpty bf.(nullAllowed) && (Js.toLowerCase bf.(nullAllowed) =? "no")
      then obj_set fieldSchema "type" (JStr bf.(type))
      else obj_set fieldSchema "type" (JArr [JStr bf.(type); JStr "null"])
    else obj_set fieldSchema "type" (JStr "string") in
  let fieldSchema :=
    if nonEmpty bf.(minimum) && negb (isNaN (Number bf.(minimum)))
    then obj_set fieldSchema "minimum" (JNum (parseFloat bf.(minimum)))
    else fieldSchema in
  let fieldSchema :=
    if nonEmpty bf.(maximum) && negb (isNaN (Number bf.(maximum)))
    then obj_set fieldSchema "maximum" (JNum (parseFloat bf.(maximum)))
    else fieldSchema in
  let fieldSchema :=
    if nonEmpty bf.(minLength) && negb (isNaN (Number bf.(minLength)))
    then obj_set fieldSchema "minLength" (JNum (parseInt10 bf.(minLength)))
    else fieldSchema in
  let fieldSchema :=
    if nonEmpty bf.(maxLength) && negb (isNaN (Number bf.(maxLength)))
    then obj_set fieldSchema "maxLength" (JNum (parseInt10 bf.(maxLength)))
    else fieldSchema in
  let fieldSchema :=
    if nonEmpty bf.(pattern)
    then obj_set fieldSchema "pattern" (JStr bf.(pattern)) else fieldSchema in
  let fieldSchema :=
    if nonEmpty bf.(enumValues)
    then obj_set fieldSchema "enum" (JArr (map JStr (Js.splitComma bf.(enumValues))))
    else fieldSchema in
  let fieldSchema :=
    if nonEmpty bf.(description)
    then obj_set fieldSchema "description" (JStr bf.(description)) else fieldSchema in
  let fieldSchema :=
    if nonEmpty bf.(examples)
    then obj_set fieldSchema "examples" (JArr [JStr bf.(examples)]) else fieldSchema in
  JObj fieldSchema.

Definition buildTableBlockSchema (block : BlockModel) : json :=
  let headerItems := map (fun f => stringEnum f.(fieldName)) block.(fields) in
  let headerSize := List.length headerItems in
  let headerSchema :=
    JObj [("type", JStr "array");
          ("items", JArr headerItems);
          ("additionalItems", JBool false);
          ("minItems", JNum (numberOfNat headerSize));
          ("maxItems", JNum (numberOfNat headerSize))] in
  let columnSchemas := map buildFieldSchema block.(fields) in
  let rowItemsSchema :=
    JObj [("type", JStr "array");
          ("items", JArr columnSchemas);
          ("additionalItems", JBool false);
          ("minItems", JNum (numberOfNat headerSize));
          ("maxItems", JNum (numberOfNat headerSize))] in
  JObj [("type", JStr "object");
        ("properties",
          JObj [("name", stringEnum block.(name));
                ("@entity", stringEnum "table");
                ("header", headerSchema);
                ("rows", JObj [("type", JStr "array"); ("items", rowItemsSchema)])]);
        ("required", JArr [JStr "name"; JStr "@entity"; JStr "header"; JStr "rows"])].

Definition buildListBlockSchema (block : BlockModel) : json :=
  let itemProps :=
    fold_left (fun itemProps bf => obj_set itemProps bf.(fieldName) (buildFieldSchema bf))
              block.(fields) [] in
  JObj [("type", JStr "object");
        ("properties",
          JObj [("name", stringEnum block.(name));
                ("@entity", stringEnum "list");
                ("items",
                  JObj [("type", JStr "array");
                        ("items",
                          JObj [("type", JStr "object");
                                ("properties", JObj itemProps);
                                ("additionalProperties", JBool false)])])]);
        ("required", JArr [JStr "name"; JStr "@entity"; JStr "items"])].

Definition buildBlockSchema (b : BlockModel) : json :=
  match b.(entity) with
  | list_ => buildListBlockSchema b
  | table => buildTableBlockSchema b
  end.

Definition buildSheetSchema (sheet : SheetModel) : json :=
  JObj [("type", JStr "object");
        ("properties",
          JObj [("name", stringEnum sheet.(sheetName));
                ("@entity", stringEnum sheet.(sheetEntity));
                ("blocks",
                  JObj [("type", JStr "array");
                        ("items",
                          JObj [("oneOf", JArr (map buildBlockSchema sheet.(blocks)))])])]);
        ("required", JArr [JStr "name"; JStr "@entity"; JStr "blocks"])].

Definition buildJsonSchema (workbook : WorkbookModel) : json :=
  JObj [("$schema", JStr "http://json-schema.org/draft-07/schema#");
        ("type", JStr "object");
        ("properties",
          JObj [("name", stringEnum workbook.(workbookName));
                ("@entity", stringEnum workbook.(workbookEntity));
                ("sheets",
                  JObj [("type", JStr "array");
                        ("items",
                          JObj [("oneOf", JArr (map buildSheetSchema workbook.(sheets)))])])]);
        ("required", JArr [JStr "name"; JStr "@entity"; JStr "sheets"])].

End Build.

(** *** Canonical JSON *)

(** A copy of the value whose objects are rebuilt with their keys sorted;
    arrays keep their order. *)
Fixpoint toTreeMapRecursive (value : json) : json :=
  match value with
  | JArr items => JArr (map toTreeMapRecursive items)
  | JObj props =>
      let sortedKeys := Js.sort (obj_keys props) in
      let sub := map (fun kv => (fst kv, toTreeMapRecursive (snd kv))) props in
      JObj (fold_left
              (fun result k =>
                 match obj_get k sub with
                 | Some v => obj_set result k v
                 | None => result
                 end)
              sortedKeys [])
  | _ => value
  end.

Definition toCanonicalJson (obj : json) : string :=
  JSON.stringify (toTreeMapRecursive obj).

Definition fromCanonicalJson (jsonStr : string) : outcome json :=
  match JSON.parse jsonStr with
  | Some v => Ret v
  | None => Throw SyntaxError
  end.

(** *** Part 3: deduplication *)

Definition sheetBlockList (sheetSchema : json) : list json :=
  match prop sheetSchema "properties" with
  | Some sheetProps =>
      if truthy sheetProps then
        match prop sheetProps "blocks" with
        | Some blocks =>
            if truthy blocks then
              let blocksItems := orElse (prop blocks "items") (JObj []) in
              match prop blocksItems "oneOf" with
              | Some (JArr blocksOneOfList) => blocksOneOfList
              | _ => []
              end
            else []
        | None => []
        end
      else []
  | None => []
  end.

Fixpoint sheetLocations (sheet : nat) (oneOfSheets : list json) : outcome (list location) :=
  match oneOfSheets with
  | [] => Ret []
  | sheetSchema :: rest =>
      match sheetSchema with
      | JNull => Throw TypeError
      | _ =>
          let* more := sheetLocations (S sheet) rest in
          Ret (locationsFrom sheet 0 (sheetBlockList sheetSchema) ++ more)%list
      end
  end.

Definition findAllBlockSchemas (rootSchema : json) : outcome (list location) :=
  match rootSchema with
  | JNull => Throw TypeError
  | _ =>
      match prop rootSchema "properties" with
      | Some props =>
          if truthy props then
            match prop props "sheets" with
            | Some sheets =>
                if truthy sheets then
                  let sheetsItems := orElse (prop sheets "items") (JObj []) in
                  match prop sheetsItems "oneOf" with
                  | Some (JArr oneOfSheets) => sheetLocations 0 oneOfSheets
                  | _ => Ret []
                  end
                else Ret []
            | None => Ret []
            end
          else Ret []
      | None => Ret []
      end
  end.

Definition countUsage (blockLocations : list location) : list (string * nat) :=
  fold_left
    (fun usageCount loc =>
       let canon := toCanonicalJson loc.(blockSchema) in
       mapSet usageCount canon
         (match mapGet canon usageCount with Some n => n | None => 0 end + 1))
    blockLocations [].

(** The name a repeated definition gets: the first entry of the block's
    [name] enumeration, or ["Block"]. *)
Definition definitionName (canon : string) : outcome string :=
  let* blockMap := fromCanonicalJson canon in
  match blockMap with
  | JNull => Throw TypeError
  | _ =>
      let props := orElse (prop blockMap "properties") (JObj []) in
      let nameProp := orElse (prop props "name") (JObj []) in
      let blockNameEnum :=
        match prop nameProp "enum" with Some (JArr l) => l | _ => [] end in
      match nth_error blockNameEnum 0 with
      | Some (JStr s) => Ret (if s =? "" then "Block" else s)
      | Some v => if truthy v then Beyond   (* a name that is no string *)
                  else Ret "Block"
      | None => Ret "Block"
      end
  end.

Fixpoint nameRepeated (usageCount : list (string * nat)) : outcome (list (string * string)) :=
  match usageCount with
  | [] => Ret []
  | (canon, count) :: rest =>
      if (1 <? count)%nat then
        let* blockName := definitionName canon in
        let* more := nameRepeated rest in
        Ret ((canon, blockName) :: more)
      else nameRepeated rest
  end.

Fixpoint buildDefinitions (repeatedCanonToDefName : list (string * string))
                          (definitions : object) : outcome object :=
  match repeatedCanonToDefName with
  | [] => Ret definitions
  | (canon, defName) :: rest =>
      let* blockMap := fromCanonicalJson canon in
      buildDefinitions rest (obj_set definitions defName blockMap)
  end.

Definition replaceRepeated (repeatedCanonToDefName : list (string * string))
                           (blockLocations : list location) (rootSchema : json) : json :=
  fold_left
    (fun root loc =>
       let canon := toCanonicalJson loc.(blockSchema) in
       match mapGet canon repeatedCanonToDefName with
       | Some defName => setSlot root loc.(blocksOneOf) loc.(index) (refTo defName)
       | None => root
       end)
    blockLocations rootSchema.

(** [deduplicateBlocks(rootSchema)]: the schema as the call leaves it, and
    the definitions it returns. *)
Definition deduplicateBlocks (rootSchema : json) : outcome (json * object) :=
  let* blockLocations := findAllBlockSchemas rootSchema in
  let usageCount := countUsage blockLocations in
  let* repeatedCanonToDefName := nameRepeated usageCount in
  let* definitions := buildDefinitions repeatedCanonToDefName [] in
  Ret (replaceRepeated repeatedCanonToDefName blockLocations rootSchema, definitions).

Section Generate.
Context {builtins : NumericBuiltins}.

(** [generate], from the model that [parseExcelToModel] read. *)
Definition generate (workbookModel : WorkbookModel) : outcome json :=
  let schema := buildJsonSchema workbookModel in
  let* (schema', definitions) := deduplicateBlocks schema in
  Ret (match definitions with
       | [] => schema'
       | _ => setProp schema' "definitions" (JObj definitions)
       end).

End Generate.

End ExcelToSchemaGeneratorUtil.

(** ** JsonToSchemaGeneratorUtil *)

Module JsonToSchemaGeneratorUtil.

(** The [Block] bean: its [header], [rows] and [items] are optional. *)
Record Block : Type := {
  name : string;
  entity : string;
  header : option (list string);
  rows : option (list json);
  items : option (list json)
}.

Record Sheet : Type := {
  sheetName : string;
  sheetEntity : string;
  blocks : list Block
}.

Record Workbook : Type := {
  workbookName : string;
  workbookEntity : string;
  sheets : list Sheet
}.

(** The kind of a sample value; [None] is [undefined]. *)
Definition deriveJsonSchemaType (value : option json) : string :=
  match value with
  | Some JNull => "null"
  | Some (JBool _) => "boolean"
  | Some (JNum _) => "number"
  | Some (JArr _) => "array"
  | Some (JObj _) => "object"
  | Some (JStr _) | None => "string"
  end.

(** [row[colIndex]] *)
Definition cellOf (r : json) (colIndex : nat) : outcome (option json) :=
  match r with
  | JNull => Throw TypeError
  | JArr cells => Ret (nth_error cells colIndex)
  | JObj o => Ret (obj_get (Js.natToString colIndex) o)
  | JStr s =>
      Ret (match String.get colIndex s with
           | Some c => Some (JStr (String c ""))
           | None => None
           end)
  | JNum _ | JBool _ => Ret None
  end.

(** [uniqueTypes.add(type)] on a [Set], kept in insertion order. *)
Definition setAdd (uniqueTypes : list string) (t : string) : list string :=
  if existsb (String.eqb t) uniqueTypes then uniqueTypes
  else (uniqueTypes ++ [t])%list.

Fixpoint collectTypes (colIndex : nat) (rs : list json) (uniqueTypes : list string)
  : outcome (list string) :=
  match rs with
  | [] => Ret uniqueTypes
  | r :: rest =>
      let* value := cellOf r colIndex in
      let t := deriveJsonSchemaType value in
      collectTypes colIndex rest (if t =? "" then uniqueTypes else setAdd uniqueTypes t)
  end.

Definition typeSchema (types : list string) : json :=
  match types with
  | [t] => JObj [("type", JStr t)]
  | [] => JObj [("type", JStr "null")]
  | _ => JObj [("type", JArr (map JStr types))]
  end.

Definition columnType (block : Block) (colIndex : nat) : outcome json :=
  let* types :=
    match block.(rows) with
    | Some rs => collectTypes colIndex rs []
    | None => Ret []
    end in
  Ret (typeSchema types).

Fixpoint columnTypesFrom (block : Block) (colIndex : nat) (hs : list string)
  : outcome (list json) :=
  match hs with
  | [] => Ret []
  | _ :: rest =>
      let* c := columnType block colIndex in
      let* cs := columnTypesFrom block (S colIndex) rest in
      Ret (c :: cs)
  end.

Definition stringEnum (s : string) : json :=
  JObj [("type", JStr "string"); ("enum", JArr [JStr s])].

(** The block schema [handleTableBlock] pushes on [blocksOneOf]. *)
Definition handleTableBlock (block : Block) (blockName : string) : outcome json :=
  let* columnTypes :=
    match block.(header) with
    | Some (h :: hs) => columnTypesFrom block 0 (h :: hs)
    | _ => Ret []
    end in
  let headerSize := match block.(header) with Some hs => List.length hs | None => 0 end in
  Ret (JObj
    [("type", JStr "object");
     ("properties",
       JObj [("name", stringEnum blockName);
             ("@entity", stringEnum "table");
             ("header",
               JObj [("type", JStr "array");
                     ("items", JArr (match block.(header) with
                                     | Some hs => map stringEnum hs
                                     | None => []
                                     end));
                     ("additionalItems", JBool false);
                     ("minItems", JNum (numberOfNat headerSize));
                     ("maxItems", JNum (numberOfNat headerSize))]);
             ("rows",
               JObj [("type", JStr "array");
                     ("items",
                       JObj [("type", JStr "array");
                             ("items", JArr columnTypes);
                             ("additionalItems", JBool false);
                             ("minItems", JNum (numberOfNat headerSize));
                             ("maxItems", JNum (numberOfNat headerSize))])])]);
     ("required", JArr [JStr "name"; JStr "@entity"; JStr "header"; JStr "rows"])]).

(** [Object.entries(item)[0]], destructured: the first name/value pair. *)
Definition firstEntry (item : json) : outcome (string * json) :=
  match item with
  | JObj ((k, v) :: _) => Ret (k, v)
  | JArr (v :: _) => Ret ("0", v)
  | JStr (String c _) => Ret ("0", JStr (String c ""))
  | _ => Throw TypeError
  end.

Fixpoint listProperties (its : list json) (properties : object) : outcome object :=
  match its with
  | [] => Ret properties
  | item :: rest =>
      let* (key, value) := firstEntry item in
      listProperties rest
        (obj_set properties key
           (JObj [("type", JStr (deriveJsonSchemaType (Some value)))]))
  end.

Definition handleListBlock (block : Block) (blockName : string) : outcome json :=
  let* properties :=
    match block.(items) with
    | Some its => listProperties its []
    | None => Ret []
    end in
  Ret (JObj
    [("type", JStr "object");
     ("properties",
       JObj [("name", stringEnum blockName);
             ("@entity", stringEnum "list");
             ("items",
               JObj [("type", JStr "array");
                     ("items",
                       JObj [("type", JStr "object");
                             ("properties", JObj properties);
                             ("additionalProperties", JBool false)])])]);
     ("required", JArr [JStr "name"; JStr "@entity"; JStr "items"])]).

Fixpoint blockSchemas (bs : list Block) (blocksOneOf : list json) : outcome (list json) :=
  match bs with
  | [] => Ret blocksOneOf
  | block :: rest =>
      if block.(entity) =? "table" then
        let* b := handleTableBlock block block.(name) in
        blockSchemas rest (blocksOneOf ++ [b])%list
      else if block.(entity) =? "list" then
        let* b := handleListBlock block block.(name) in
        blockSchemas rest (blocksOneOf ++ [b])%list
      else blockSchemas rest blocksOneOf
  end.

Definition noBlocksError (sheetName : string) : error :=
  Error ("Invalid data: No blocks found in sheet "
         ++ String JSON.dquote (sheetName ++ String JSON.dquote ".")).

Definition sheetSchema (sheet : Sheet) : outcome json :=
  match sheet.(blocks) with
  | [] => Throw (noBlocksError sheet.(sheetName))
  | bs =>
      let* blocksOneOf := blockSchemas bs [] in
      Ret (JObj
        [("type", JStr "object");
         ("properties",
           JObj [("name", stringEnum sheet.(sheetName));
                 ("@entity", stringEnum sheet.(sheetEntity));
                 ("blocks",
                   JObj [("type", JStr "array");
                         ("items", JObj [("oneOf", JArr blocksOneOf)])])]);
         ("required", JArr [JStr "name"; JStr "@entity"; JStr "blocks"])])
  end.

Fixpoint sheetSchemasOf (ss : list Sheet) : outcome (list json) :=
  match ss with
  | [] => Ret []
  | sheet :: rest =>
      let* s := sheetSchema sheet in
      let* more := sheetSchemasOf rest in
      Ret (s :: more)
  end.

(** The schema [generate] builds before it deduplicates. *)
Definition buildSchema (data : Workbook) : outcome json :=
  match data.(sheets) with
  | [] => Throw (Error "Invalid data: No sheets found.")
  | ss =>
      let* sheetSchemas := sheetSchemasOf ss in
      Ret (JObj
        [("$schema", JStr "http://json-schema.org/draft-07/schema#");
         ("type", JStr "object");
         ("properties",
           JObj [("name", stringEnum data.(workbookName));
                 ("@entity", stringEnum data.(workbookEntity));
                 ("sheets",
                   JObj [("type", JStr "array");
                         ("items", JObj [("oneOf", JArr sheetSchemas)])])]);
         ("required", JArr [JStr "name"; JStr "@entity"; JStr "sheets"])])
  end.

(** *** Deduplication *)

Definition sheetBlockList (sheetSchema : json) : list json :=
  match optProp (optProp (optProp (prop sheetSchema "properties") "blocks") "items") "oneOf" with
  | Some (JArr blocksOneOf) => blocksOneOf
  | _ => []
  end.

Fixpoint sheetLocations (sheet : nat) (sheetList : list json) : outcome (list location) :=
  match sheetList with
  | [] => Ret []
  | sheetSchema :: rest =>
      match sheetSchema with
      | JNull => Throw TypeError
      | _ =>
          let* more := sheetLocations (S sheet) rest in
          Ret (locationsFrom sheet 0 (sheetBlockList sheetSchema) ++ more)%list
      end
  end.

Definition findAllBlockSchemas (schema : json) : outcome (list location) :=
  match schema with
  | JNull => Throw TypeError
  | _ =>
      match optProp (optProp (optProp (prop schema "properties") "sheets") "items") "oneOf" with
      | Some (JArr sheetList) => sheetLocations 0 sheetList
      | Some v => if truthy v then Beyond   (* iterating a value that is no array *)
                  else Ret []
      | None => Ret []
      end
  end.

Definition countUsage (blockLocations : list location) : list (string * nat) :=
  fold_left
    (fun definitionUsageCount loc =>
       let canonical := JSON.stringify loc.(blockSchema) in
       mapSet definitionUsageCount canonical
         (match mapGet canonical definitionUsageCount with Some n => n | None => 0 end + 1))
    blockLocations [].

(** The sum of the code units of the text. *)
Fixpoint charCodeSum (s : string) : nat :=
  match s with
  | EmptyString => 0
  | String c r => nat_of_ascii c + charCodeSum r
  end.

(** [blockSchema.properties.name.enum[0]] *)
Definition blockNameOf (blockSchema : json) : outcome string :=
  match prop blockSchema "properties" with
  | None | Some JNull => Throw TypeError
  | Some props =>
      match prop props "name" with
      | None | Some JNull => Throw TypeError
      | Some nameProp =>
          match prop nameProp "enum" with
          | None | Some JNull => Throw TypeError
          | Some (JArr (JStr s :: _)) => Ret s
          | Some _ => Beyond   (* a name that is no string *)
          end
      end
  end.

(** The definitions, and the [blockDefNames] map, of the blocks used more
    than once. *)
Fixpoint defineRepeated (definitionUsageCount : list (string * nat))
                        (blockDefNames : list (string * string)) (definitions : object)
  : outcome (list (string * string) * object) :=
  match definitionUsageCount with
  | [] => Ret (blockDefNames, definitions)
  | (canonical, count) :: rest =>
      if (1 <? count)%nat then
        match JSON.parse canonical with
        | None => Throw SyntaxError
        | Some blockSchema =>
            let* blockName := blockNameOf blockSchema in
            let hash := Js.natToString (charCodeSum canonical) in
            let defName := blockName ++ "_" ++ hash in
            defineRepeated rest (mapSet blockDefNames canonical defName)
                           (obj_set definitions defName blockSchema)
        end
      else defineRepeated rest blockDefNames definitions
  end.

Definition replaceRepeated (blockDefNames : list (string * string))
                           (blockLocations : list location) (schema : json) : json :=
  fold_left
    (fun root loc =>
       let canonical := JSON.stringify loc.(blockSchema) in
       match mapGet canonical blockDefNames with
       | Some defName => setSlot root loc.(blocksOneOf) loc.(index) (refTo defName)
       | None => root
       end)
    blockLocations schema.

Definition deduplicateBlocks (schema : json) : outcome (json * object) :=
  let* blockLocations := findAllBlockSchemas schema in
  let definitionUsageCount := countUsage blockLocations in
  let* (blockDefNames, definitions) := defineRepeated definitionUsageCount [] [] in
  Ret (replaceRepeated blockDefNames blockLocations schema, definitions).

Definition generate (data : Workbook) : outcome json :=
  let* schema := buildSchema data in
  let* (schema', definitions) := deduplicateBlocks schema in
  Ret (match definitions with
       | [] => schema'
       | _ => setProp schema' "definitions" (JObj definitions)
       end).

End JsonToSchemaGeneratorUtil.

(** ** TableGeneratorUtil *)

(** [GeneratorUtil] is not among the sources at hand; the three helpers of
    it that the row accessors use are parameters. *)
Class GeneratorUtil : Type := {
  toCamelCase : string -> string;
  capitalize : string -> string;
  getTypeScriptType : option json -> string   (* [None] is [undefined] *)
}.

Module TableGeneratorUtil.

Section Generate.
Context {util : GeneratorUtil}.

Definition nl : string := String (ascii_of_nat 10) "".

(** [item.enum?.[0]] *)
Definition firstEnum (item : json) : outcome (option json) :=
  match item with
  | JNull => Throw TypeError
  | _ =>
      match prop item "enum" with
      | Some (JArr l) => Ret (nth_error l 0)
      | Some (JStr (String c _)) => Ret (Some (JStr (String c "")))
      | Some (JObj o) => Ret (obj_get "0" o)
      | _ => Ret None
      end
  end.

Fixpoint firstEnums (headerItems : list json) : outcome (list (option json)) :=
  match headerItems with
  | [] => Ret []
  | item :: rest =>
      let* h := firstEnum item in
      let* hs := firstEnums rest in
      Ret (h :: hs)
  end.

(** [headerEnum]: the first enumerated name of every header item. *)
Definition headerEnum (blockSchema : json) : outcome (list (option json)) :=
  match blockSchema with
  | JNull => Throw TypeError
  | _ =>
      let headerItems :=
        orElse (optProp (optProp (prop blockSchema "properties") "header") "items")
               (JArr []) in
      match headerItems with
      | JArr l => firstEnums l
      | _ => Ret []
      end
  end.

(** [blockSchema.properties?.rows?.items?.items?.[index]?.type] *)
Definition columnTypeAt (blockSchema : json) (index : nat) : option json :=
  match optProp (optProp (optProp (prop blockSchema "properties") "rows") "items") "items" with
  | Some (JArr l) => optProp (nth_error l index) "type"
  | Some (JObj o) => optProp (obj_get (Js.natToString index) o) "type"
  | _ => None
  end.

Definition startsWithDigit (s : string) : bool :=
  match s with String c _ => Js.is_digit c | EmptyString => false end.

(** The text of one getter/setter pair: the cell is [this[index]]. *)
Definition accessorPair (header : string) (index : nat) (type : string) : string :=
  let camelCaseHeader := toCamelCase header in
  let validVarName :=
    if startsWithDigit camelCaseHeader then "_" ++ camelCaseHeader else camelCaseHeader in
  nl ++ nl
  ++ "    get" ++ capitalize camelCaseHeader ++ "(): " ++ type ++ " {" ++ nl
  ++ "            " ++ nl
  ++ "        return this[" ++ Js.natToString index ++ "] as " ++ type ++ ";" ++ nl
  ++ "    }" ++ nl
  ++ nl
  ++ "    set" ++ capitalize camelCaseHeader ++ "(" ++ validVarName ++ ": " ++ type
  ++ "): void {" ++ nl
  ++ "        this[" ++ Js.natToString index ++ "] = " ++ validVarName ++ ";" ++ nl
  ++ "    }".

(** [headerEnum.map((header, index) => ...)]; a header that is no string is
    handed to [GeneratorUtil], which is beyond this model. *)
Fixpoint accessorPairsFrom (blockSchema : json) (index : nat) (hs : list (option json))
  : outcome (list string) :=
  match hs with
  | [] => Ret []
  | Some (JStr header) :: rest =>
      let type := getTypeScriptType (columnTypeAt blockSchema index) in
      let* more := accessorPairsFrom blockSchema (S index) rest in
      Ret (accessorPair header index type :: more)
  | _ :: _ => Beyond
  end.

(** The getter/setter pairs of the row class, one per header entry. *)
Definition accessorPairs (blockSchema : json) : outcome (list string) :=
  let* hs := headerEnum blockSchema in
  accessorPairsFrom blockSchema 0 hs.

(** [gettersSetters] *)
Definition gettersSetters (blockSchema : json) : outcome string :=
  let* pairs := accessorPairs blockSchema in
  Ret (Js.join nl pairs).

End Generate.

End TableGeneratorUtil.

(** ** Instances for evaluation *)

(** The numeric built-ins on the texts of whole numbers: an optional sign
    and at most fifteen decimal digits, which the runtime reads exactly,
    and the texts of the infinities.  Every other text is outside this
    instance, which reads it as NaN.  The instance serves to run the
    front-end on concrete sheets whose numeric cells have that form. *)
Module WholeNumbers.

Definition unsignedValue (s : string) : option N :=
  match s with
  | EmptyString => None
  | _ => if (String.length s <=? 15)%nat then Js.digitsValue 0%N s else None
  end.

Definition signedValue (s : string) : option (bool * N) :=
  match s with
  | String c r =>
      if Ascii.eqb c "-"%char then option_map (pair true) (unsignedValue r)
      else if Ascii.eqb c "+"%char then option_map (pair false) (unsignedValue r)
      else option_map (pair false) (unsignedValue s)
  | EmptyString => None
  end.

Definition ofInteger (negative : bool) (n : N) : number :=
  if (n =? 0)%N then (if negative then NegZero else Finite "0")
  else Finite ((if negative then "-" else "") ++ Js.NToString n).

Definition read (infinities : bool) (t : string) : number :=
  match signedValue t with
  | Some (negative, n) => ofInteger negative n
  | None =>
      if infinities && ((t =? "Infinity") || (t =? "+Infinity")) then Infinity false
      else if infinities && (t =? "-Infinity") then Infinity true
      else NaN
  end.

#[export] Instance builtins : NumericBuiltins := {|
  Number := fun s => let t := Js.trim s in if t =? "" then Finite "0" else read true t;
  parseFloat := fun s => read true (Js.trim s);
  parseInt10 := fun s => read false (Js.trim s)
|}.

End WholeNumbers.

(** Helpers of [GeneratorUtil] for running the row accessors on an example:
    names are kept as they are and every cell has the type [any]. *)
Module PlainNames.

#[export] Instance util : GeneratorUtil := {|
  toCamelCase := fun s => s;
  capitalize := fun s => s;
  getTypeScriptType := fun _ => "any"
|}.

End PlainNames.

(** ** Vocabulary of the specification *)

(** The text contains the character. *)
Fixpoint hasChar (c : ascii) (s : string) : bool :=
  match s with
  | EmptyString => false
  | String c' r => Ascii.eqb c' c || hasChar c r
  end.

(** A pointer segment: any text without the separator. *)
Definition segment (s : string) : Prop := hasChar "/" s = false.

(** [localRef segs]: the reference text [#/s1/.../sn]. *)
Definition localRef (segs : list string) : string := "#/" ++ Js.join "/" segs.

(** [ownPath root segs vs]: every segment of [segs] is present as a mapping
    key on the way down from [root], and [vs] are the values read, one per
    segment. *)
Inductive ownPath : json -> list string -> list json -> Prop :=
| ownPath_nil : forall v, ownPath v [] []
| ownPath_cons : forall o s v segs vs,
    obj_get s o = Some v ->
    ownPath v segs vs ->
    ownPath (JObj o) (s :: segs) (v :: vs).

(** [pointsTo root segs target]: the pointer [#/s1/.../sn] leads from the
    root through mapping keys and truthy values to [target]. *)
Definition pointsTo (rootSchema : json) (segs : list string) (target : json) : Prop :=
  segs <> [] /\ Forall segment segs /\
  exists vs, ownPath rootSchema segs vs
             /\ Forall (fun v => truthy v = true) vs
             /\ last vs rootSchema = target.

(** A node that carries no [$ref]. *)
Definition noRef (node : json) : Prop := prop node "$ref" = None.

(** [chain root node n target]: [n] local pointers lead from [node] to
    [target], which carries no [$ref]. *)
Inductive chain (rootSchema : json) : json -> nat -> json -> Prop :=
| chain_end : forall target,
    noRef target -> chain rootSchema target 0 target
| chain_step : forall node segs next n target,
    prop node "$ref" = Some (JStr (localRef segs)) ->
    pointsTo rootSchema segs next ->
    chain rootSchema next n target ->
    chain rootSchema node (S n) target.

(** The header tuple and the column tuple of a table block schema. *)
Definition headerItems (blockSchema : json) : option json :=
  optProp (optProp (prop blockSchema "properties") "header") "items".

Definition rowItems (blockSchema : json) : option json :=
  optProp (optProp (optProp (prop blockSchema "properties") "rows") "items") "items".

(** The keys of an object are pairwise different, here and below. *)
#[warnings="-register-all"]
Inductive uniqueKeys : json -> Prop :=
| uniqueKeys_null : uniqueKeys JNull
| uniqueKeys_bool : forall b, uniqueKeys (JBool b)
| uniqueKeys_num : forall x, uniqueKeys (JNum x)
| uniqueKeys_str : forall s, uniqueKeys (JStr s)
| uniqueKeys_arr : forall items, Forall uniqueKeys items -> uniqueKeys (JArr items)
| uniqueKeys_obj : forall props,
    NoDup (obj_keys props) ->
    Forall (fun kv => uniqueKeys (snd kv)) props ->
    uniqueKeys (JObj props).

(** Two values that differ at most in the order in which the keys of their
    mappings were inserted: equal primitives, arrays equal element by
    element in order, mappings with the same keys and such values under
    each key. *)
#[warnings="-register-all"]
Inductive sameUpToKeyOrder : json -> json -> Prop :=
| same_null : sameUpToKeyOrder JNull JNull
| same_bool : forall b, sameUpToKeyOrder (JBool b) (JBool b)
| same_num : forall x, sameUpToKeyOrder (JNum x) (JNum x)
| same_str : forall s, sameUpToKeyOrder (JStr s) (JStr s)
| same_arr : forall l1 l2,
    Forall2 sameUpToKeyOrder l1 l2 -> sameUpToKeyOrder (JArr l1) (JArr l2)
| same_obj : forall o1 o2,
    NoDup (obj_keys o1) -> NoDup (obj_keys o2) ->
    (forall k a, obj_get k o1 = Some a ->
                 exists b, obj_get k o2 = Some b /\ sameUpToKeyOrder a b) ->
    (forall k, obj_get k o1 = None -> obj_get k o2 = None) ->
    sameUpToKeyOrder (JObj o1) (JObj o2).

(** A number that JSON text represents: finite, not the negative zero, and
    rendered in the JSON grammar of numbers. *)
Definition representableNumber (x : number) : Prop :=
  match x with
  | Finite r => JSON.isJsonNumber r = true /\ r <> "-0"
  | _ => False
  end.

(** A value all of whose numbers are representable. *)
#[warnings="-register-all"]
Inductive representable : json -> Prop :=
| representable_null : representable JNull
| representable_bool : forall b, representable (JBool b)
| representable_num : forall x, representableNumber x -> representable (JNum x)
| representable_str : forall s, representable (JStr s)
| representable_arr : forall items, Forall representable items -> representable (JArr items)
| representable_obj : forall props,
    Forall (fun kv => representable (snd kv)) props -> representable (JObj props).

(** The alternation of block schemas of the sheet at place [sheet], and the
    slot at place [i] in it. *)
Definition alternationOf (rootSchema : json) (sheet : nat) : option (list json) :=
  match optProp (optProp (optProp (prop rootSchema "properties") "sheets") "items") "oneOf" with
  | Some (JArr sheetList) =>
      match optProp (optProp (optProp (optProp (nth_error sheetList sheet) "properties")
                                      "blocks") "items") "oneOf" with
      | Some (JArr blocksOneOf) => Some blocksOneOf
      | _ => None
      end
  | _ => None
  end.

Definition slotAt (rootSchema : json) (sheet i : nat) : option json :=
  match alternationOf rootSchema sheet with
  | Some blocksOneOf => nth_error blocksOneOf i
  | None => None
  end.

(** What a call returned, for calls that do return. *)
Definition returned {A : Type} (default : A) (o : outcome A) : A :=
  match o with Ret a => a | _ => default end.

(** *** Terms of the proofs on the canonical tree and on JSON text *)

(** One round of the loop that rebuilds an object from its sorted keys. *)
Definition rebuildStep (sub : object) (result : object) (k : string) : object :=
  match obj_get k sub with
  | Some v => obj_set result k v
  | None => result
  end.

(** Every character of the text satisfies [p]. *)
Fixpoint allChars (p : ascii -> bool) (s : string) : bool :=
  match s with
  | EmptyString => true
  | String c r => p c && allChars p r
  end.

(** The text after a value: nothing, or something a numeral cannot go on with. *)
Definition delimited (rest : string) : bool :=
  match rest with
  | EmptyString => true
  | String c _ => negb (JSON.isNumberChar c)
  end.

(** A character a numeral can begin with. *)
Definition numberStart (c : ascii) : bool := Js.is_digit c || Ascii.eqb c "-"%char.

(** Fuel that is enough to read a value back. *)
Fixpoint weight (v : json) : nat :=
  match v with
  | JArr items => S (fold_right (fun x n => weight x + n) 0 items)
  | JObj props => S (fold_right (fun kv n => weight (snd kv) + n) 0 props)
  | _ => 1
  end.

(** A character a value can begin with: no white space, no closing bracket. *)
Definition opensValue (c : ascii) : bool :=
  negb (JSON.isJsonWs c) && negb (Ascii.eqb c "]") && negb (Ascii.eqb c "}").

(** The text of one member of an object. *)
Definition member (kv : string * json) : string :=
  JSON.quote (fst kv) ++ ":" ++ JSON.stringify (snd kv).

(** *** Terms of the spreadsheet front-end and of the table generator *)

Module ExcelTerms.
Import ExcelToSchemaGeneratorUtil TableGeneratorUtil.

(** Where the field rows of a block end: at the end of the sheet, at a
    blank row, or at the heading of the next block. *)
Definition blockEnds (post : list row) : Prop :=
  match post with
  | [] => True
  | r :: _ => isBlankRow r = true \/ isBlockHeading (cellText (cellAt r 0)) = true
  end.

Section Accessors.
Context {builtins : NumericBuiltins} {util : GeneratorUtil}.

(** The accessor text of the field at place [i]. *)
Definition accessorOf (i : nat) (f : BlockField) : string :=
  accessorPair f.(fieldName) i (getTypeScriptType (prop (buildFieldSchema f) "type")).

(** The accessor texts of the fields, counted from place [i]. *)
Fixpoint accessorsFrom (i : nat) (fs : list BlockField) : list string :=
  match fs with
  | [] => []
  | f :: rest => accessorOf i f :: accessorsFrom (S i) rest
  end.

End Accessors.

End ExcelTerms.

(** *** Terms of the instance-inference front-end *)

Module InferrerTerms.
Import JsonToSchemaGeneratorUtil.

(** A kind is observed in a column when some row has a cell of that kind there. *)
Definition observed (rs : list json) (colIndex : nat) (k : string) : Prop :=
  exists r c, In r rs /\ cellOf r colIndex = Ret c /\ deriveJsonSchemaType c = k.

End InferrerTerms.

(** ** Examples *)

(** Scenario C: [A -> B -> C] in the definitions of a document. *)
Definition scenarioC_A : json := JObj [("$ref", JStr "#/definitions/B")].
Definition scenarioC_B : json := JObj [("$ref", JStr "#/definitions/C")].
Definition scenarioC_C : json := JObj [("type", JStr "object")].
Definition scenarioC_root : json :=
  JObj [("definitions",
         JObj [("A", scenarioC_A); ("B", scenarioC_B); ("C", scenarioC_C)])].

(** Scenario C with [B] removed. *)
Definition brokenC_root : json :=
  JObj [("definitions", JObj [("A", scenarioC_A); ("C", scenarioC_C)])].

(** A document with falsy values under some of its keys. *)
Definition falsyDoc : json :=
  JObj [("definitions", JObj [("off", JBool false); ("empty", JStr "")]);
        ("count", JNum (Finite "0"));
        ("nothing", JNull)].

(** Two renderings of one schema, the keys inserted in different orders. *)
Definition keysOneWay : json :=
  JObj [("type", JStr "array");
        ("items", JArr [JObj [("type", JStr "number"); ("minimum", JNum (Finite "0"))];
                        JObj [("enum", JArr [JStr "a"; JStr "b"]); ("type", JStr "string")]])].

Definition keysOtherWay : json :=
  JObj [("items", JArr [JObj [("minimum", JNum (Finite "0")); ("type", JStr "number")];
                        JObj [("type", JStr "string"); ("enum", JArr [JStr "a"; JStr "b"])]]);
        ("type", JStr "array")].

Module ExcelExamples.
Import ExcelToSchemaGeneratorUtil.

(** Scenario A: the four rows of the employee table. *)
Definition employeeRows : list row :=
  [ [CStr "employee_table"];
    [CStr "name"; CStr "null_allowed"; CStr "type"];
    [CStr "id"; CStr "No"; CStr "number"];
    [CStr "label"; CStr "Yes"; CStr "string"] ].

(** The block the scan reads from them. *)
Definition employeeTable : BlockModel :=
  {| name := "employee_table";
     entity := table;
     fields := [parseFieldRow [CStr "id"; CStr "No"; CStr "number"]
                  (findMetaColumns [CStr "name"; CStr "null_allowed"; CStr "type"]);
                parseFieldRow [CStr "label"; CStr "Yes"; CStr "string"]
                  (findMetaColumns [CStr "name"; CStr "null_allowed"; CStr "type"])] |}.

(** A meta row with a nullability column and a type column. *)
Definition nullableMeta : row := [CStr "name"; CStr "null_allowed"; CStr "type"].

(** The field row [label, Yes] with an empty type cell. *)
Definition untypedField : BlockField :=
  parseFieldRow [CStr "label"; CStr "Yes"; CStr ""] (findMetaColumns nullableMeta).

(** Two number fields whose [minimum] cells read [Infinity] and [-Infinity]. *)
Definition boundedAbove : BlockField :=
  {| fieldName := "score"; nullAllowed := "No"; type := "number";
     minimum := "Infinity"; maximum := ""; minLength := ""; maxLength := "";
     pattern := ""; enumValues := ""; description := ""; examples := "" |}.

Definition boundedBelow : BlockField :=
  {| fieldName := "score"; nullAllowed := "No"; type := "number";
     minimum := "-Infinity"; maximum := ""; minLength := ""; maxLength := "";
     pattern := ""; enumValues := ""; description := ""; examples := "" |}.

(** A sheet that holds one list block [address_list] with the given
    fields, all of type string. *)
Definition addressSheet (fieldNames : list string) : list row :=
  [CStr "address_list"] :: [CStr "name"; CStr "type"]
    :: map (fun f => [CStr f; CStr "string"]) fieldNames.

(** The model of a sheet, read from its rows. *)
Definition sheetOf (sheetName : string) (sheetData : list row) : SheetModel :=
  {| sheetName := sheetName; sheetEntity := "sheet"; blocks := parseBlocksInSheet sheetData |}.

(** Four sheets: two with the block [address_list] of one field, two with
    a block of the same name and two fields. *)
Definition collidingWorkbook : WorkbookModel :=
  {| workbookName := "addresses";
     workbookEntity := "workbook";
     sheets := [sheetOf "home" (addressSheet ["street"]);
                sheetOf "work" (addressSheet ["street"]);
                sheetOf "billing" (addressSheet ["street"; "city"]);
                sheetOf "shipping" (addressSheet ["street"; "city"])] |}.

(** The schemas of the one-field block and of the two-field block. *)
Definition streetOnly : json :=
  buildBlockSchema (builtins := WholeNumbers.builtins)
    {| name := "address_list"; entity := list_;
       fields := [parseFieldRow [CStr "street"; CStr "string"]
                    (findMetaColumns [CStr "name"; CStr "type"])] |}.

Definition streetAndCity : json :=
  buildBlockSchema (builtins := WholeNumbers.builtins)
    {| name := "address_list"; entity := list_;
       fields := [parseFieldRow [CStr "street"; CStr "string"]
                    (findMetaColumns [CStr "name"; CStr "type"]);
                  parseFieldRow [CStr "city"; CStr "string"]
                    (findMetaColumns [CStr "name"; CStr "type"])] |}.

(** The key-sorted copy of the two-field block, as it is read back from
    its canonical text. *)
Definition streetAndCityCanonical : json :=
  returned JNull (fromCanonicalJson (toCanonicalJson streetAndCity)).

End ExcelExamples.

Module InferrerExamples.
Import JsonToSchemaGeneratorUtil.

(** A table of two columns and two rows: [[1, x], [null, y]]. *)
Definition sampleBlock : Block :=
  {| name := "sample_table";
     entity := "table";
     header := Some ["a"; "b"];
     rows := Some [JArr [JNum (Finite "1"); JStr "x"]; JArr [JNull; JStr "y"]];
     items := None |}.

(** A table [scores] with the columns [a], [b] and one row. *)
Definition scores (r : json) : JsonToSchemaGeneratorUtil.Block :=
  {| JsonToSchemaGeneratorUtil.name := "scores";
     JsonToSchemaGeneratorUtil.entity := "table";
     JsonToSchemaGeneratorUtil.header := Some ["a"; "b"];
     JsonToSchemaGeneratorUtil.rows := Some [r];
     JsonToSchemaGeneratorUtil.items := None |}.

(** A sheet with one block. *)
Definition sheetWith (sheetName : string) (b : JsonToSchemaGeneratorUtil.Block)
  : JsonToSchemaGeneratorUtil.Sheet :=
  {| JsonToSchemaGeneratorUtil.sheetName := sheetName;
     JsonToSchemaGeneratorUtil.sheetEntity := "sheet";
     JsonToSchemaGeneratorUtil.blocks := [b] |}.

(** The two rows. *)
Definition numberThenText : json := JArr [JNum (Finite "1"); JStr "x"].
Definition textThenNumber : json := JArr [JStr "x"; JNum (Finite "1")].

(** Four sheets: two whose table has a number column and then a text
    column, two whose table of the same name has them the other way round. *)
Definition collidingData : JsonToSchemaGeneratorUtil.Workbook :=
  {| JsonToSchemaGeneratorUtil.workbookName := "results";
     JsonToSchemaGeneratorUtil.workbookEntity := "workbook";
     JsonToSchemaGeneratorUtil.sheets :=
       [sheetWith "spring" (scores numberThenText);
        sheetWith "summer" (scores numberThenText);
        sheetWith "autumn" (scores textThenNumber);
        sheetWith "winter" (scores textThenNumber)] |}.

(** The schemas of the two tables. *)
Definition numberColumnFirst : json :=
  returned JNull (JsonToSchemaGeneratorUtil.handleTableBlock (scores numberThenText) "scores").

Definition textColumnFirst : json :=
  returned JNull (JsonToSchemaGeneratorUtil.handleTableBlock (scores textThenNumber) "scores").

End InferrerExamples.

(** * Further parts of the code *)

(** ** ObjectGeneratorUtil *)

Module ObjectGeneratorUtil.

Definition malformedSheetsError : error :=
  Error ("Invalid JSON Schema: "
         ++ String JSON.dquote ("sheets" ++ String JSON.dquote " definition not found or malformed.")).

(** [sheetSchemas]: the value the generator iterates over, or the error of
    the check before it. *)
Definition sheetSchemas (schema : json) : outcome json :=
  match schema with
  | JNull => Throw TypeError
  | _ =>
      let sheetsSchema := optProp (prop schema "properties") "sheets" in
      if negb (isTruthy sheetsSchema)
         || negb (match optProp sheetsSchema "type" with
                  | Some (JStr t) => t =? "array"
                  | _ => false
                  end)
         || negb (isTruthy (optProp sheetsSchema "items"))
      then Throw malformedSheetsError
      else
        let items := orElse (optProp sheetsSchema "items") JNull in
        Ret (orElse (prop items "oneOf") (JArr [items]))
  end.

End ObjectGeneratorUtil.

(** ** SheetGeneratorUtil *)

Module SheetGeneratorUtil.
Import SchemaRefResolverUtil.

Definition malformedBlocksError : error :=
  Error ("Invalid JSON Schema: "
         ++ String JSON.dquote ("blocks" ++ String JSON.dquote " definition not found or malformed.")).

Definition missingItemsError : error :=
  Error ("Invalid JSON Schema: "
         ++ String JSON.dquote ("blocks.items" ++ String JSON.dquote " not found.")).

Definition missingOneOfError : error :=
  Error ("Invalid JSON Schema: "
         ++ String JSON.dquote
              ("blocks.items.oneOf" ++ String JSON.dquote " not found or not an array.")).

(** [resolveIfRef] on a value that may be [undefined]. *)
Definition resolveOptional (fuel : nat) (node : option json) (rootSchema : json)
  : outcome (option json) :=
  match node with
  | None => Ret None
  | Some n => let* r := resolveIfRef fuel n rootSchema in Ret (Some r)
  end.

(** [blockOneOf]: the alternation of blocks of a sheet, every step of the
    way resolved, or the error of the checks on the way. *)
Definition blockOneOf (fuel : nat) (rootSchema sheet : json) : outcome (list json) :=
  let* sheetSchema := resolveIfRef fuel sheet rootSchema in
  match sheetSchema with
  | JNull => Throw TypeError
  | _ =>
      let* blocksSchema :=
        resolveOptional fuel (optProp (prop sheetSchema "properties") "blocks") rootSchema in
      if negb (isTruthy blocksSchema)
         || negb (match optProp blocksSchema "type" with
                  | Some (JStr t) => t =? "array"
                  | _ => false
                  end)
      then Throw malformedBlocksError
      else
        let* blockItems := resolveOptional fuel (optProp blocksSchema "items") rootSchema in
        if negb (isTruthy blockItems) then Throw missingItemsError
        else
          let* blockOneOf := resolveOptional fuel (optProp blockItems "oneOf") rootSchema in
          match blockOneOf with
          | Some (JArr l) => Ret l
          | _ => Throw missingOneOfError
          end
  end.

(** [Boolean(block.$ref)] *)
Definition isCommon (block : json) : outcome bool :=
  match block with
  | JNull => Throw TypeError
  | _ => Ret (isTruthy (prop block "$ref"))
  end.

End SheetGeneratorUtil.

(** ** ListGeneratorUtil *)

Module ListGeneratorUtil.

Section Generate.
Context {util : GeneratorUtil}.

Definition nl : string := String (ascii_of_nat 10) "".

(** [s.includes(sub)] *)
Fixpoint includes (s sub : string) : bool :=
  String.prefix sub s
  || match s with
     | String _ rest => includes rest sub
     | EmptyString => false
     end.

(** The text of one pair of methods: the item is found by its key. *)
Definition accessorPair (key : string) (type : string) : string :=
  let camelKey := toCamelCase key in
  let validVarName :=
    if TableGeneratorUtil.startsWithDigit camelKey then "_" ++ camelKey else camelKey in
  let capitalizedKey := capitalize camelKey in
  let nullable := includes type "null" in
  nl
  ++ "                add" ++ capitalizedKey ++ "(" ++ validVarName ++ ": " ++ type ++ ") {" ++ nl
  ++ "                    super.addItem(new Item('" ++ key ++ "', "
  ++ (if nullable then validVarName ++ "!" else validVarName) ++ "));" ++ nl
  ++ "                }" ++ nl
  ++ "            " ++ nl
  ++ "                valueOf" ++ capitalizedKey ++ "(): " ++ type ++ " {" ++ nl
  ++ "                    return super.getItem('" ++ key ++ "')?.getValue() as " ++ type ++ ";" ++ nl
  ++ "                }".

Fixpoint indexedFrom (i : nat) (l : list json) : list (string * json) :=
  match l with
  | [] => []
  | v :: rest => (Js.natToString i, v) :: indexedFrom (S i) rest
  end.

(** [Object.entries] of a truthy value. *)
Definition entries (v : json) : list (string * json) :=
  match v with
  | JObj o => o
  | JArr l => indexedFrom 0 l
  | JStr s => indexedFrom 0 (map (fun c => JStr (String c "")) (list_ascii_of_string s))
  | _ => []
  end.

Fixpoint accessorPairsOf (es : list (string * json)) : outcome (list string) :=
  match es with
  | [] => Ret []
  | (key, value) :: rest =>
      match value with
      | JNull => Throw TypeError
      | _ =>
          let type := getTypeScriptType (prop value "type") in
          let* more := accessorPairsOf rest in
          Ret (accessorPair key type :: more)
      end
  end.

(** The pairs of methods of the list class, one per property of the items;
    [None] when the schema names no properties and no class is written. *)
Definition accessorPairs (blockSchema : json) : outcome (option (list string)) :=
  match blockSchema with
  | JNull => Throw TypeError
  | _ =>
      let properties :=
        optProp (optProp (optProp (prop blockSchema "properties") "items") "items")
                "properties" in
      if isTruthy properties
      then let* pairs := accessorPairsOf (entries (orElse properties JNull)) in
           Ret (Some pairs)
      else Ret None
  end.

(** [gettersSetters] *)
Definition gettersSetters (blockSchema : json) : outcome (option string) :=
  let* pairs := accessorPairs blockSchema in
  Ret (option_map (Js.join nl) pairs).

End Generate.

End ListGeneratorUtil.

(** ** MixinGeneratorUtil *)

(** The later of the two versions of the class, the one that takes the
    names of the common blocks.  [toKebabCase] belongs to [GeneratorUtil]. *)

Module MixinGeneratorUtil.

(** [set.add(x)] on a [Set], kept in insertion order. *)
Definition setAdd (set : list string) (x : string) : list string :=
  if existsb (String.eqb x) set then set else (set ++ [x])%list.

(** [new Set(xs)] *)
Definition setOf (xs : list string) : list string := fold_left setAdd xs [].

(** [s.replace(/pat/, rep)] for a pattern without special characters: the
    first occurrence is replaced. *)
Fixpoint replaceFirst (pat rep s : string) : string :=
  if String.prefix pat s then rep ++ Js.substringFrom (String.length pat) s
  else match s with
       | String c rest => String c (replaceFirst pat rep rest)
       | EmptyString => EmptyString
       end.

Section Generate.
Variable toKebabCase : string -> string.

Definition importFrom (className path : string) : string :=
  "import { " ++ className ++ " } from '" ++ path ++ "';".

(** The import line of a class name; none for an entity type that is not
    one of the five. *)
Definition importLine (entityType : string) (commonBlocks : option (list string))
           (className : string) : option string :=
  let has name :=
    match commonBlocks with
    | Some set => existsb (String.eqb name) set
    | None => false
    end in
  if entityType =? "workbook" then
    Some (importFrom className ("../workbook/" ++ className))
  else if entityType =? "sheet" then
    Some (importFrom className ("../sheets/" ++ toKebabCase className ++ "/" ++ className))
  else if entityType =? "table" then
    if has className
    then Some (importFrom className
                 ("../tables/common/" ++ toKebabCase className ++ "/" ++ className))
    else Some (importFrom className ("../tables/" ++ toKebabCase className ++ "/" ++ className))
  else if entityType =? "list" then
    if has className
    then Some (importFrom className
                 ("../lists/common/" ++ toKebabCase className ++ "/" ++ className))
    else Some (importFrom className ("../lists/" ++ toKebabCase className ++ "/" ++ className))
  else if entityType =? "row" then
    if has (replaceFirst "Row" "Table" className)
    then Some (importFrom className
                 ("../tables/common/" ++ replaceFirst "row" "table" (toKebabCase className)
                  ++ "/" ++ className))
    else Some (importFrom className
                 ("../tables/" ++ replaceFirst "row" "table" (toKebabCase className)
                  ++ "/" ++ className))
  else None.

(** [imports], as [Array.from] lists it. *)
Definition imports (names : list string) (entityType : string)
           (commonBlocks : option (list string)) : list string :=
  fold_left (fun set className =>
               match importLine entityType commonBlocks className with
               | Some line => setAdd set line
               | None => set
               end)
            names [].

(** The text between the brackets of the [subtypes] metadata. *)
Definition subtypes (names : list string) : string :=
  Js.join ", " (map (fun c => "() => " ++ c) (setOf names)).

End Generate.

End MixinGeneratorUtil.

(** ** Further terms *)

Module ScanTerms.
Import ExcelToSchemaGeneratorUtil.

(** The row opens a block. *)
Definition opensBlock (r : row) : bool := isBlockHeading (cellText (cellAt r 0)).

(** The row defines a field: it is not blank and opens no block. *)
Definition fieldRow (r : row) : bool := negb (isBlankRow r) && negb (opensBlock r).

(** The block a heading row opens, with the fields read under a meta row. *)
Definition blockOf (heading metaHeaderRow : row) (fieldRows : list row) : BlockModel :=
  {| name := cellText (cellAt heading 0);
     entity := if Js.endsWith (cellText (cellAt heading 0)) "_list" then list_ else table;
     fields := map (fun r => parseFieldRow r (findMetaColumns metaHeaderRow)) fieldRows |}.

(** Where the scan goes on after the fields of a block: a blank row that
    ends the block is consumed. *)
Definition afterBlock (post : list row) : list row :=
  match post with
  | r :: post' => if isBlankRow r then post' else post
  | [] => []
  end.

(** The meta name a header cell stands for, if any. *)
Definition metaNameAt (metaHeaderRow : row) (i : nat) : option string :=
  metaKey (Js.toLowerCase (cellText (cellAt metaHeaderRow i))).

(** The block was read from the sheet: a row of the sheet opens it, and
    its fields are read from field rows of the sheet under one meta row. *)
Definition readFrom (sheetData : list row) (b : BlockModel) : Prop :=
  exists heading metaHeaderRow fieldRows,
    In heading sheetData /\ opensBlock heading = true
    /\ Forall (fun r => In r sheetData /\ fieldRow r = true) fieldRows
    /\ b = blockOf heading metaHeaderRow fieldRows.

End ScanTerms.

(** A number as its rendering names it: when it is finite, its text is in
    the grammar of JSON numbers and is not the text of the negative zero. *)
Definition renderedNumber (x : number) : Prop :=
  match x with
  | Finite r => JSON.isJsonNumber r = true /\ r <> "-0"
  | _ => True
  end.

#[warnings="-register-all"]
Inductive rendered : json -> Prop :=
| rendered_null : rendered JNull
| rendered_bool : forall b, rendered (JBool b)
| rendered_num : forall x, renderedNumber x -> rendered (JNum x)
| rendered_str : forall s, rendered (JStr s)
| rendered_arr : forall items, Forall rendered items -> rendered (JArr items)
| rendered_obj : forall props,
    Forall (fun kv => rendered (snd kv)) props -> rendered (JObj props).

(** What JSON text keeps of a value: the numbers that are not finite
    become [null], the negative zero becomes zero. *)
Definition carriedNumber (x : number) : json :=
  match x with
  | Finite r => JNum (Finite r)
  | NegZero => JNum (Finite "0")
  | NaN | Infinity _ => JNull
  end.

Fixpoint carried (v : json) : json :=
  match v with
  | JNum x => carriedNumber x
  | JArr items => JArr (map carried items)
  | JObj props => JObj (map (fun kv => (fst kv, carried (snd kv))) props)
  | _ => v
  end.

(** A key that assignment [o[k] = v] defines as an own property: every
    key but [__proto__], which names the prototype of the object.  The
    embedding describes the code on objects whose keys are such. *)
Definition ordinaryKey (k : string) : Prop := k <> "__proto__".

#[warnings="-register-all"]
Inductive ordinaryKeys : json -> Prop :=
| ordinaryKeys_null : ordinaryKeys JNull
| ordinaryKeys_bool : forall b, ordinaryKeys (JBool b)
| ordinaryKeys_num : forall x, ordinaryKeys (JNum x)
| ordinaryKeys_str : forall s, ordinaryKeys (JStr s)
| ordinaryKeys_arr : forall items, Forall ordinaryKeys items -> ordinaryKeys (JArr items)
| ordinaryKeys_obj : forall props,
    Forall (fun kv => ordinaryKey (fst kv) /\ ordinaryKeys (snd kv)) props ->
    ordinaryKeys (JObj props).

(** The own-property order of an object: it grows from the empty object by
    new keys, and a new key that is an array index is greater than every
    key before it, all of which are array indices. *)
Inductive ownOrder : object -> Prop :=
| ownOrder_nil : ownOrder []
| ownOrder_snoc : forall o k v,
    ownOrder o ->
    obj_get k o = None ->
    (forall n, Js.arrayIndex k = Some n ->
               Forall (fun kv => exists n', Js.arrayIndex (fst kv) = Some n' /\ (n' < n)%N) o) ->
    ownOrder (o ++ [(k, v)])%list.

(** The key is an array index below [n]. *)
Definition indexBelow (n : N) (kv : string * json) : bool :=
  match Js.arrayIndex (fst kv) with
  | Some n' => (n' <? n)%N
  | None => false
  end.

(** Every object of the value is in own-property order. *)
#[warnings="-register-all"]
Inductive wellOrdered : json -> Prop :=
| wellOrdered_null : wellOrdered JNull
| wellOrdered_bool : forall b, wellOrdered (JBool b)
| wellOrdered_num : forall x, wellOrdered (JNum x)
| wellOrdered_str : forall s, wellOrdered (JStr s)
| wellOrdered_arr : forall items, Forall wellOrdered items -> wellOrdered (JArr items)
| wellOrdered_obj : forall props,
    ownOrder props ->
    Forall (fun kv => wellOrdered (snd kv)) props -> wellOrdered (JObj props).

(** An object under construction: in own-property order, with rendered,
    well-ordered values. *)
Definition soundObject (o : object) : Prop :=
  ownOrder o
  /\ Forall (fun kv => rendered (snd kv)) o
  /\ Forall (fun kv => wellOrdered (snd kv)) o.

(** The alternation of block schemas of one sheet, with the name and the
    entity of the sheet. *)
Record sheetSlots : Type := {
  slotsName : string;
  slotsEntity : string;
  slots : list json
}.

(** The schema of a sheet around its alternation, as both front-ends
    write it. *)
Definition sheetFrame (sh : sheetSlots) : json :=
  JObj [("type", JStr "object");
        ("properties",
          JObj [("name", JObj [("type", JStr "string"); ("enum", JArr [JStr sh.(slotsName)])]);
                ("@entity", JObj [("type", JStr "string"); ("enum", JArr [JStr sh.(slotsEntity)])]);
                ("blocks",
                  JObj [("type", JStr "array");
                        ("items", JObj [("oneOf", JArr sh.(slots))])])]);
        ("required", JArr [JStr "name"; JStr "@entity"; JStr "blocks"])].

(** The schema of a workbook around the schemas of its sheets. *)
Definition workbookFrame (name entity : string) (sheets : list sheetSlots) : json :=
  JObj [("$schema", JStr "http://json-schema.org/draft-07/schema#");
        ("type", JStr "object");
        ("properties",
          JObj [("name", JObj [("type", JStr "string"); ("enum", JArr [JStr name])]);
                ("@entity", JObj [("type", JStr "string"); ("enum", JArr [JStr entity])]);
                ("sheets",
                  JObj [("type", JStr "array");
                        ("items", JObj [("oneOf", JArr (map sheetFrame sheets))])])]);
        ("required", JArr [JStr "name"; JStr "@entity"; JStr "sheets"])].

(** The block locations of the sheets, counted from the sheet at place [s]. *)
Fixpoint locationsOf (s : nat) (sheets : list sheetSlots) : list location :=
  match sheets with
  | [] => []
  | sh :: rest => (locationsFrom s 0 sh.(slots) ++ locationsOf (S s) rest)%list
  end.

(** The sheets with the slot at place [i] of the sheet at place [s] set to [v]. *)
Fixpoint setSlots (sheets : list sheetSlots) (s i : nat) (v : json) : list sheetSlots :=
  match sheets, s with
  | [], _ => []
  | sh :: rest, 0 =>
      {| slotsName := sh.(slotsName); slotsEntity := sh.(slotsEntity);
         slots := updateAt i (fun _ => v) sh.(slots) |} :: rest
  | sh :: rest, S s' => sh :: setSlots rest s' i v
  end.

(** The sheets with every slot rewritten by [f]. *)
Definition mapSlots (f : json -> json) (sheets : list sheetSlots) : list sheetSlots :=
  map (fun sh => {| slotsName := sh.(slotsName); slotsEntity := sh.(slotsEntity);
                    slots := map f sh.(slots) |}) sheets.

(** All the block schemas of the sheets, in the order of the locations. *)
Definition allSlots (sheets : list sheetSlots) : list json :=
  flat_map slots sheets.

(** How often each text occurs, in the order of the first occurrences. *)
Definition tally (texts : list string) : list (string * nat) :=
  fold_left
    (fun usageCount canon =>
       mapSet usageCount canon
         (match mapGet canon usageCount with Some n => n | None => 0 end + 1))
    texts [].

(** The number of occurrences of a text. *)
Fixpoint occurrences (c : string) (texts : list string) : nat :=
  match texts with
  | [] => 0
  | t :: rest => (if t =? c then 1 else 0) + occurrences c rest
  end.

(** One round of the count. *)
Definition countStep (usageCount : list (string * nat)) (canon : string) : list (string * nat) :=
  mapSet usageCount canon
    (match mapGet canon usageCount with Some n => n | None => 0 end + 1).

Section Replace.
Variable choose : json -> option json.

(** One round of the loop that replaces repeated blocks. *)
Definition replaceStep (sheets : list sheetSlots) (loc : location) : list sheetSlots :=
  match choose loc.(blockSchema) with
  | Some v => setSlots sheets loc.(blocksOneOf) loc.(index) v
  | None => sheets
  end.

Definition chosen (b : json) : json :=
  match choose b with Some v => v | None => b end.

End Replace.

Module InferrerDedupTerms.
Import JsonToSchemaGeneratorUtil.

(** The block schemas the scan of a schema finds, in its order. *)
Definition blocksOf (schema : json) : list json :=
  map blockSchema (returned [] (findAllBlockSchemas schema)).

(** The block occurs more than once in the schema, by its text. *)
Definition repeatedIn (schema : json) (b : json) : bool :=
  (1 <? occurrences (JSON.stringify b) (map JSON.stringify (blocksOf schema)))%nat.

(** The name under which a repeated block is defined: its name, and the
    sum of the code units of its text. *)
Definition definitionNameOf (b : json) : string :=
  returned "" (blockNameOf b) ++ "_" ++ Js.natToString (charCodeSum (JSON.stringify b)).

(** What a slot holds after the deduplication. *)
Definition deduplicated (schema : json) (b : json) : json :=
  if repeatedIn schema b then refTo (definitionNameOf b) else b.

(** The first name of the item, if it has one, is an ordinary key; and so
    for all the items of all the blocks of a workbook. *)
Definition ordinaryItem (item : json) : Prop :=
  match firstEntry item with
  | Ret (key, _) => ordinaryKey key
  | _ => True
  end.

Definition ordinaryItems (data : Workbook) : Prop :=
  Forall (fun sheet =>
            Forall (fun block =>
                      match block.(items) with
                      | Some its => Forall ordinaryItem its
                      | None => True
                      end)
                   sheet.(blocks))
         data.(sheets).

(** A block schema as the two handlers build it. *)
Definition builtBlock (b : json) : Prop :=
  representable b /\ wellOrdered b /\ prop b "$ref" = None
  /\ exists name, blockNameOf b = Ret name.

End InferrerDedupTerms.

(** The last element of the list that satisfies [p]. *)
Fixpoint lastWith {A : Type} (p : A -> bool) (l : list A) : option A :=
  match l with
  | [] => None
  | x :: rest =>
      match lastWith p rest with
      | Some y => Some y
      | None => if p x then Some x else None
      end
  end.

(** The texts of a tally that occur more than once, in its order. *)
Definition repeatedTexts (usageCount : list (string * nat)) : list string :=
  map fst (filter (fun cn => (1 <? snd cn)%nat) usageCount).

Module InferrerTextTerms.
Import JsonToSchemaGeneratorUtil.

(** What the text of a block is parsed to, and the name its definition gets. *)
Definition parsedText (canonical : string) : json :=
  match JSON.parse canonical with Some b => b | None => JNull end.

Definition nameOfText (canonical : string) : string :=
  returned "" (blockNameOf (parsedText canonical)) ++ "_"
  ++ Js.natToString (charCodeSum canonical).

End InferrerTextTerms.

Module InferrerSharedExample.
Import JsonToSchemaGeneratorUtil InferrerExamples.

(** Three sheets: two with the same table [scores], one with a list. *)
Definition sharedData : Workbook :=
  {| workbookName := "results";
     workbookEntity := "workbook";
     sheets :=
       [sheetWith "spring" (scores numberThenText);
        sheetWith "summer" (scores numberThenText);
        sheetWith "notes"
          {| name := "remarks"; entity := "list"; header := None; rows := None;
             items := Some [JObj [("author", JStr "a")]; JObj [("pages", JNum (Finite "3"))]] |}] |}.

Definition sharedRoot : json := returned JNull (buildSchema sharedData).

End InferrerSharedExample.

Module ExcelDedupTerms.
Import ExcelToSchemaGeneratorUtil.

(** The numeric built-ins return numbers as their renderings name them. *)
Definition renderedBuiltins (builtins : NumericBuiltins) : Prop :=
  forall s, renderedNumber (parseFloat s) /\ renderedNumber (parseInt10 s).

(** The names of the blocks and of their fields are ordinary keys. *)
Definition ordinaryNames (workbook : WorkbookModel) : Prop :=
  Forall (fun sheet =>
            Forall (fun block =>
                      ordinaryKey block.(name)
                      /\ Forall (fun f => ordinaryKey f.(fieldName)) block.(fields))
                   sheet.(blocks))
         workbook.(sheets).

(** The block schemas the scan of a schema finds, in its order. *)
Definition blocksOf (rootSchema : json) : list json :=
  map blockSchema (returned [] (findAllBlockSchemas rootSchema)).

(** The block occurs more than once in the schema, by its canonical text. *)
Definition repeatedIn (rootSchema : json) (b : json) : bool :=
  (1 <? occurrences (toCanonicalJson b) (map toCanonicalJson (blocksOf rootSchema)))%nat.

(** The name under which a repeated block is defined. *)
Definition definitionNameOf (b : json) : string :=
  returned "" (definitionName (toCanonicalJson b)).

(** What a slot holds after the deduplication. *)
Definition deduplicated (rootSchema : json) (b : json) : json :=
  if repeatedIn rootSchema b then refTo (definitionNameOf b) else b.

(** The copy of a block that its definition holds: the canonical tree, as
    JSON text carries it. *)
Definition definedCopy (b : json) : json := carried (toTreeMapRecursive b).

(** What the resolver finds behind a slot after the deduplication. *)
Definition resolved (rootSchema : json) (b : json) : json :=
  if repeatedIn rootSchema b then definedCopy b else b.

(** The alternation of a sheet of the model. *)
Definition slotsOfSheet {builtins : NumericBuiltins} (sheet : SheetModel) : sheetSlots :=
  {| slotsName := sheet.(sheetName);
     slotsEntity := sheet.(sheetEntity);
     slots := map buildBlockSchema sheet.(blocks) |}.

(** A block schema as the model yields it. *)
Definition builtBlock (b : json) : Prop :=
  rendered b /\ wellOrdered b /\ truthy (definedCopy b) = true
  /\ prop (definedCopy b) "$ref" = None /\ prop b "$ref" = None
  /\ exists name, definitionName (toCanonicalJson b) = Ret name.

End ExcelDedupTerms.

Module ExcelCanonTerms.
Import ExcelToSchemaGeneratorUtil.

(** What a canonical text is parsed to, and the name its definition gets. *)
Definition parsedCanon (canon : string) : json :=
  returned JNull (fromCanonicalJson canon).

Definition nameOfCanon (canon : string) : string :=
  returned "" (definitionName canon).

End ExcelCanonTerms.

Module ExcelSharedExample.
Import ExcelToSchemaGeneratorUtil ExcelExamples.

(** Three sheets: two with the block [address_list] of one field, one
    with a table. *)
Definition sharedWorkbook : WorkbookModel :=
  {| workbookName := "addresses";
     workbookEntity := "workbook";
     sheets := [sheetOf "home" (addressSheet ["street"]);
                sheetOf "work" (addressSheet ["street"]);
                sheetOf "staff" employeeRows] |}.

End ExcelSharedExample.

(** [hops root node n target]: [n] local pointers lead from [node] to [target]. *)
Inductive hops (rootSchema : json) : json -> nat -> json -> Prop :=
| hops_zero : forall node, hops rootSchema node 0 node
| hops_step : forall node segs next n target,
    prop node "$ref" = Some (JStr (localRef segs)) ->
    pointsTo rootSchema segs next ->
    hops rootSchema next n target ->
    hops rootSchema node (S n) target.

(** A document whose definitions [ping] and [pong] refer to each other. *)
Definition pingPong : json :=
  JObj [("definitions",
         JObj [("ping", JObj [("$ref", JStr "#/definitions/pong")]);
               ("pong", JObj [("$ref", JStr "#/definitions/ping")])])].

(** The properties of the items of a list block schema. *)
Definition itemProperties (blockSchema : json) : option json :=
  optProp (optProp (optProp (prop blockSchema "properties") "items") "items") "properties".

Module InferrerEdgeTerms.
Import JsonToSchemaGeneratorUtil.

(** The item has a first name/value pair. *)
Definition hasEntry (item : json) : bool :=
  match firstEntry item with Ret _ => true | _ => false end.

(** The name of the first pair of an item, and the schema of its value. *)
Definition firstKey (item : json) : string :=
  fst (returned ("", JNull) (firstEntry item)).

Definition firstValueSchema (item : json) : json :=
  JObj [("type", JStr (deriveJsonSchemaType (Some (snd (returned ("", JNull) (firstEntry item))))))].

(** The entity of the block is one the front-end handles. *)
Definition handled (block : Block) : bool :=
  (block.(entity) =? "table") || (block.(entity) =? "list").

End InferrerEdgeTerms.

(** The elements of a list, each once, where it first occurs. *)
Fixpoint firstOccurrences (l : list string) : list string :=
  match l with
  | [] => []
  | x :: rest => x :: filter (fun y => negb (y =? x)) (firstOccurrences rest)
  end.

Module MixinTerms.
Import MixinGeneratorUtil.

(** The import lines of the listed classes, class by class in the order of
    the list: one for each class when the entity type is one of the five,
    none otherwise. *)
Definition linesOf (toKebabCase : string -> string) (names : list string)
           (entityType : string) (commonBlocks : option (list string)) : list string :=
  flat_map (fun className =>
              match importLine toKebabCase entityType commonBlocks className with
              | Some line => [line]
              | None => []
              end)
           names.

End MixinTerms.

(** * Properties *)

(** ** Strings *)

Module JsFacts.

Lemma split_no_sep (sep : ascii) (a : string) :
  hasChar sep a = false -> Js.split sep a = [a].
Proof.
  induction a as [|c a IH]; simpl; [reflexivity|].
  intros H. apply orb_false_iff in H as [Hc Ha].
  rewrite Hc, (IH Ha). reflexivity.
Qed.

Lemma split_app_sep (sep : ascii) (a b : string) :
  hasChar sep a = false ->
  Js.split sep (a ++ String sep b) = a :: Js.split sep b.
Proof.
  induction a as [|c a IH]; simpl.
  - intros _. rewrite Ascii.eqb_refl. reflexivity.
  - intros H. apply orb_false_iff in H as [Hc Ha].
    rewrite Hc, (IH Ha). reflexivity.
Qed.

Lemma split_join (segs : list string) :
  segs <> [] -> Forall segment segs ->
  Js.split "/" (Js.join "/" segs) = segs.
Proof.
  induction segs as [|s segs IH]; [congruence|].
  intros _ H. inversion H as [|? ? Hs Hrest]; subst.
  destruct segs as [|s' segs'].
  - simpl. apply split_no_sep, Hs.
  - change (Js.join "/" (s :: s' :: segs'))
      with (s ++ String "/" (Js.join "/" (s' :: segs'))).
    rewrite split_app_sep by exact Hs.
    rewrite IH; [reflexivity | congruence | exact Hrest].
Qed.

Lemma append_assoc (a b c : string) : (a ++ b) ++ c = a ++ (b ++ c).
Proof. induction a as [|x a IH]; simpl; [|rewrite IH]; reflexivity. Qed.

Lemma localRef_startsWith (segs : list string) :
  Js.startsWith (localRef segs) "#/" = true.
Proof. unfold localRef, Js.startsWith. simpl. destruct (Js.join "/" segs); reflexivity. Qed.

Lemma localRef_substring (segs : list string) :
  Js.substringFrom 2 (localRef segs) = Js.join "/" segs.
Proof. reflexivity. Qed.

End JsFacts.

(** ** The reference resolver *)

Module ResolverFacts.
Import SchemaRefResolverUtil.

Lemma last_cons_default (v : json) (vs : list json) (d : json) :
  last (v :: vs) d = last vs v.
Proof.
  revert v d. induction vs as [|w vs IH]; intros v d; [reflexivity|].
  change (last (w :: vs) d = last (w :: vs) v).
  rewrite (IH w d), (IH w v). reflexivity.
Qed.

Lemma getProperty_own (o : object) (s : string) (v : json) :
  obj_get s o = Some v -> getProperty (JObj o) s = Found v.
Proof. intros H. simpl. rewrite H. reflexivity. Qed.

(** Along mapping keys and truthy values the walk returns the value read last. *)
Lemma walk_truthy (pointer : string) (rootSchema : json) (segs : list string) (vs : list json) :
  ownPath rootSchema segs vs ->
  Forall (fun v => truthy v = true) vs ->
  walk pointer segs rootSchema = Ret (last vs rootSchema).
Proof.
  induction 1 as [v | o s v segs vs Hget Hpath IH]; intros Hall.
  - reflexivity.
  - inversion Hall as [|? ? Hv Hvs]; subst.
    cbn [walk]. rewrite (getProperty_own _ _ _ Hget), Hv.
    rewrite last_cons_default. apply IH, Hvs.
Qed.

(** A falsy value read on the way stops the walk with the pointer error,
    whatever follows. *)
Lemma walk_falsy (pointer : string) (rootSchema : json)
      (pre rest : list string) (vs : list json) :
  ownPath rootSchema pre vs ->
  Exists (fun v => truthy v = false) vs ->
  walk pointer (pre ++ rest)%list rootSchema = Throw (UnresolvedPointerError pointer).
Proof.
  induction 1 as [v | o s v segs vs Hget Hpath IH]; intros Hex.
  - inversion Hex.
  - cbn [app walk]. rewrite (getProperty_own _ _ _ Hget).
    destruct (truthy v) eqn:Hv; [|reflexivity].
    apply IH. inversion Hex as [? ? Hf | ? ? Hin]; subst; [congruence | exact Hin].
Qed.

(** A segment that is no key of the mapping reached, and no member every
    object inherits, stops the walk with the pointer error. *)
Lemma walk_missing (pointer : string) (rootSchema : json)
      (pre rest : list string) (vs : list json) (o : object) (s : string) :
  ownPath rootSchema pre vs ->
  Forall (fun v => truthy v = true) vs ->
  last vs rootSchema = JObj o ->
  obj_get s o = None ->
  inherited s = false ->
  walk pointer (pre ++ s :: rest)%list rootSchema = Throw (UnresolvedPointerError pointer).
Proof.
  induction 1 as [v | o' s' v segs vs Hget Hpath IH]; intros Hall Hlast Hnone Hinh.
  - simpl in Hlast. subst v. cbn [app walk getProperty]. rewrite Hnone, Hinh. reflexivity.
  - inversion Hall as [|? ? Hv Hvs]; subst.
    cbn [app walk]. rewrite (getProperty_own _ _ _ Hget), Hv.
    rewrite last_cons_default in Hlast. apply IH; assumption.
Qed.

Lemma resolvePointer_pointsTo (rootSchema : json) (segs : list string) (target : json) :
  pointsTo rootSchema segs target ->
  resolvePointer (Js.join "/" segs) rootSchema = Ret target.
Proof.
  intros (Hne & Hseg & vs & Hpath & Hall & Hlast).
  unfold resolvePointer. rewrite JsFacts.split_join by assumption.
  rewrite (walk_truthy _ _ _ _ Hpath Hall). congruence.
Qed.

Lemma follow_noRef (fuel : nat) (node rootSchema : json) :
  noRef node -> follow fuel node rootSchema = Ret node.
Proof. unfold noRef. intros H. destruct fuel; simpl; rewrite H; reflexivity. Qed.

Lemma follow_step (fuel : nat) (node rootSchema : json) (ref : string) :
  prop node "$ref" = Some (JStr ref) -> ref <> "" ->
  follow (S fuel) node rootSchema =
  if Js.startsWith ref "#/" then
    let* node' := resolvePointer (Js.substringFrom 2 ref) rootSchema in
    follow fuel node' rootSchema
  else Throw (UnsupportedReferenceError ref).
Proof.
  intros H Hne. cbn [follow]. rewrite H. cbn [isTruthy truthy].
  destruct (String.eqb_spec ref ""); [contradiction | reflexivity].
Qed.

Lemma localRef_nonempty (segs : list string) : localRef segs <> "".
Proof. unfold localRef. discriminate. Qed.

Lemma follow_chain (rootSchema node target : json) (n : nat) :
  chain rootSchema node n target ->
  forall fuel, n <= fuel -> follow fuel node rootSchema = Ret target.
Proof.
  induction 1 as [target Hno | node segs next n target Href Hpt Hch IH]; intros fuel Hle.
  - apply follow_noRef, Hno.
  - destruct fuel as [|fuel]; [lia|].
    rewrite (follow_step _ _ _ _ Href (localRef_nonempty segs)).
    rewrite JsFacts.localRef_startsWith, JsFacts.localRef_substring.
    rewrite (resolvePointer_pointsTo _ _ _ Hpt). cbn [bind].
    apply IH. lia.
Qed.

Lemma chain_target_noRef (rootSchema node target : json) (n : nat) :
  chain rootSchema node n target -> noRef target.
Proof. induction 1; assumption. Qed.

Lemma resolveIfRef_follow (fuel : nat) (node rootSchema : json) (r : json) :
  follow fuel node rootSchema = Ret r ->
  (truthy node = false -> r = node) ->
  resolveIfRef fuel node rootSchema = Ret r.
Proof.
  unfold resolveIfRef. intros H Hf. destruct (truthy node); simpl; [exact H|].
  rewrite Hf; reflexivity.
Qed.

Lemma has_ref_truthy (node : json) (x : json) :
  prop node "$ref" = Some x -> truthy node = true.
Proof. destruct node; simpl; try discriminate. reflexivity. Qed.

(** C4. A node that carries no [$ref] is returned as it is; along a chain
    of [n] local pointers that ends in a node without [$ref], the resolver
    returns that final node as soon as it may follow [n] pointers. *)
Theorem resolveIfRef_chain :
  (forall fuel node rootSchema,
      noRef node -> resolveIfRef fuel node rootSchema = Ret node)
  /\ (forall rootSchema node n target fuel,
      chain rootSchema node n target -> n <= fuel ->
      resolveIfRef fuel node rootSchema = Ret target /\ noRef target).
Proof.
  split.
  - intros fuel node rootSchema H.
    apply resolveIfRef_follow; [apply follow_noRef, H | reflexivity].
  - intros rootSchema node n target fuel Hch Hle. split.
    + apply resolveIfRef_follow; [apply (follow_chain _ _ _ _ Hch), Hle|].
      intros Hf. destruct Hch as [target Hno | node segs next n target Href Hpt Hch].
      * reflexivity.
      * rewrite (has_ref_truthy _ _ Href) in Hf. discriminate.
    + apply (chain_target_noRef _ _ _ _ Hch).
Qed.

Lemma scenarioC_pointsTo (k : string) (v : json) :
  obj_get k [("A", scenarioC_A); ("B", scenarioC_B); ("C", scenarioC_C)] = Some v ->
  truthy v = true -> hasChar "/" k = false ->
  pointsTo scenarioC_root ["definitions"; k] v.
Proof.
  intros Hk Hv Hs. split; [discriminate|]. split.
  - repeat constructor. exact Hs.
  - eexists. split; [|split].
    + apply ownPath_cons with (v := JObj [("A", scenarioC_A); ("B", scenarioC_B); ("C", scenarioC_C)]).
      * reflexivity.
      * apply ownPath_cons with (v := v); [exact Hk | apply ownPath_nil].
    + repeat constructor. exact Hv.
    + reflexivity.
Defined.

Lemma resolveIfRef_chain_witness :
  (resolveIfRef 0 scenarioC_C scenarioC_root = Ret scenarioC_C)
  /\ (resolveIfRef 2 scenarioC_A scenarioC_root = Ret scenarioC_C /\ noRef scenarioC_C).
Proof.
  split.
  - apply (proj1 resolveIfRef_chain). reflexivity.
  - apply (proj2 resolveIfRef_chain scenarioC_root scenarioC_A 2 scenarioC_C 2); [|lia].
    apply chain_step with (segs := ["definitions"; "B"]) (next := scenarioC_B).
    + reflexivity.
    + apply scenarioC_pointsTo; reflexivity.
    + apply chain_step with (segs := ["definitions"; "C"]) (next := scenarioC_C).
      * reflexivity.
      * apply scenarioC_pointsTo; reflexivity.
      * apply chain_end. reflexivity.
Defined.

(** C5, amended.  A [$ref] text that is not empty and does not begin with
    [#/] stops the resolver with the unsupported-reference error.  A local
    pointer one of whose segments is no key of the mapping reached along
    the path from the root, and no member every object inherits, stops it
    with the pointer error, whose message names the pointer. *)
Theorem resolveIfRef_errors :
  (forall fuel node rootSchema ref,
      prop node "$ref" = Some (JStr ref) ->
      ref <> "" ->
      Js.startsWith ref "#/" = false ->
      resolveIfRef (S fuel) node rootSchema
      = Throw (Error ("Unsupported $ref format (expected local ref): " ++ ref)))
  /\ (forall fuel node rootSchema pre s rest vs o,
      prop node "$ref" = Some (JStr (localRef (pre ++ s :: rest)%list)) ->
      Forall segment (pre ++ s :: rest)%list ->
      ownPath rootSchema pre vs ->
      Forall (fun v => truthy v = true) vs ->
      last vs rootSchema = JObj o ->
      obj_get s o = None ->
      inherited s = false ->
      resolveIfRef (S fuel) node rootSchema
      = Throw (Error ("Could not resolve pointer: " ++ Js.join "/" (pre ++ s :: rest)%list))).
Proof.
  split.
  - intros fuel node rootSchema ref Href Hne Hpre.
    unfold resolveIfRef. rewrite (has_ref_truthy _ _ Href). cbn [negb].
    rewrite (follow_step _ _ _ _ Href Hne), Hpre. reflexivity.
  - intros fuel node rootSchema pre s rest vs o Href Hseg Hpath Hall Hlast Hnone Hinh.
    unfold resolveIfRef. rewrite (has_ref_truthy _ _ Href). cbn [negb].
    rewrite (follow_step _ _ _ _ Href (localRef_nonempty _)).
    rewrite JsFacts.localRef_startsWith, JsFacts.localRef_substring.
    unfold resolvePointer. rewrite JsFacts.split_join.
    + rewrite (walk_missing _ _ _ _ _ _ _ Hpath Hall Hlast Hnone Hinh). reflexivity.
    + destruct pre; discriminate.
    + exact Hseg.
Qed.

Lemma resolveIfRef_errors_witness :
  resolveIfRef 1 (JObj [("$ref", JStr "http://example.org/schema.json")]) scenarioC_root
  = Throw (Error "Unsupported $ref format (expected local ref): http://example.org/schema.json")
  /\ resolveIfRef 1 scenarioC_A brokenC_root
     = Throw (Error "Could not resolve pointer: definitions/B").
Proof.
  split.
  - apply (proj1 resolveIfRef_errors 0); [reflexivity | discriminate | reflexivity].
  - apply (proj2 resolveIfRef_errors 0 scenarioC_A brokenC_root
             ["definitions"] "B" []
             [JObj [("A", scenarioC_A); ("C", scenarioC_C)]]
             [("A", scenarioC_A); ("C", scenarioC_C)]).
    + reflexivity.
    + repeat constructor.
    + apply ownPath_cons; [reflexivity | apply ownPath_nil].
    + repeat constructor.
    + reflexivity.
    + reflexivity.
    + reflexivity.
Defined.

(** C5 as first stated fails: an empty [$ref] text does not begin with
    [#/], yet the node is returned and nothing is thrown; and the segment
    [constructor], a key of no mapping of the document, is found on the
    prototype, so no pointer error is thrown. *)
Lemma resolveIfRef_errors_counterexample :
  (prop (JObj [("$ref", JStr "")]) "$ref" = Some (JStr "")
   /\ Js.startsWith "" "#/" = false
   /\ resolveIfRef 1 (JObj [("$ref", JStr "")]) (JObj [])
      = Ret (JObj [("$ref", JStr "")]))
  /\ (obj_get "constructor" [] = None
      /\ resolveIfRef 1 (JObj [("$ref", JStr "#/constructor")]) (JObj [])
         <> Throw (UnresolvedPointerError "constructor")).
Proof.
  split; [repeat split|split]; try reflexivity. discriminate.
Qed.

(** C10. When the segments of a local pointer are mapping keys along the
    path from the root and one of the values read there is falsy, the
    resolver throws the pointer error; and whenever the pointer resolves,
    every value read on the way is truthy. *)
Theorem resolveIfRef_falsy_unresolved :
  (forall fuel node rootSchema pre rest vs,
      prop node "$ref" = Some (JStr (localRef (pre ++ rest)%list)) ->
      Forall segment (pre ++ rest)%list ->
      ownPath rootSchema pre vs ->
      Exists (fun v => truthy v = false) vs ->
      resolveIfRef (S fuel) node rootSchema
      = Throw (UnresolvedPointerError (Js.join "/" (pre ++ rest)%list)))
  /\ (forall rootSchema segs vs target,
      segs <> [] -> Forall segment segs ->
      ownPath rootSchema segs vs ->
      resolvePointer (Js.join "/" segs) rootSchema = Ret target ->
      Forall (fun v => truthy v = true) vs /\ target = last vs rootSchema).
Proof.
  split.
  - intros fuel node rootSchema pre rest vs Href Hseg Hpath Hex.
    assert (Hne : (pre ++ rest)%list <> []).
    { destruct Hpath; [inversion Hex | discriminate]. }
    unfold resolveIfRef. rewrite (has_ref_truthy _ _ Href). cbn [negb].
    rewrite (follow_step _ _ _ _ Href (localRef_nonempty _)).
    rewrite JsFacts.localRef_startsWith, JsFacts.localRef_substring.
    unfold resolvePointer. rewrite JsFacts.split_join by assumption.
    rewrite (walk_falsy _ _ _ _ _ Hpath Hex). reflexivity.
  - intros rootSchema segs vs target Hne Hseg Hpath Hres.
    unfold resolvePointer in Hres. rewrite JsFacts.split_join in Hres by assumption.
    assert (Hall : Forall (fun v => truthy v = true) vs).
    { apply Forall_forall. intros v Hin.
      destruct (truthy v) eqn:Hv; [reflexivity | exfalso].
      assert (Hex : Exists (fun v => truthy v = false) vs).
      { apply Exists_exists. exists v. split; assumption. }
      pose proof (walk_falsy (Js.join "/" segs) _ _ [] _ Hpath Hex) as Hw.
      rewrite app_nil_r in Hw. congruence. }
    split; [exact Hall|].
    rewrite (walk_truthy _ _ _ _ Hpath Hall) in Hres. congruence.
Qed.

Lemma resolveIfRef_falsy_unresolved_witness :
  resolveIfRef 1 (JObj [("$ref", JStr "#/definitions/off/type")]) falsyDoc
  = Throw (UnresolvedPointerError "definitions/off/type")
  /\ (Forall (fun v => truthy v = true)
        [JObj [("A", scenarioC_A); ("B", scenarioC_B); ("C", scenarioC_C)]; scenarioC_C]
      /\ scenarioC_C
         = last [JObj [("A", scenarioC_A); ("B", scenarioC_B); ("C", scenarioC_C)]; scenarioC_C]
                scenarioC_root).
Proof.
  split.
  - apply (proj1 resolveIfRef_falsy_unresolved 0 _ falsyDoc
             ["definitions"; "off"] ["type"]
             [JObj [("off", JBool false); ("empty", JStr "")]; JBool false]).
    + reflexivity.
    + repeat constructor.
    + apply ownPath_cons; [reflexivity|].
      apply ownPath_cons; [reflexivity | apply ownPath_nil].
    + apply Exists_cons_tl, Exists_cons_hd. reflexivity.
  - apply (proj2 resolveIfRef_falsy_unresolved scenarioC_root ["definitions"; "C"]).
    + discriminate.
    + repeat constructor.
    + apply ownPath_cons; [reflexivity|].
      apply ownPath_cons; [reflexivity | apply ownPath_nil].
    + reflexivity.
Defined.

End ResolverFacts.

(** ** Objects *)

Module ObjectFacts.

Lemma obj_get_replace_other (k k' : string) (v : json) (o : object) :
  k <> k' -> obj_get k (obj_replace k' v o) = obj_get k o.
Proof.
  intros Hne. induction o as [|[k0 v0] o IH]; [reflexivity|].
  simpl. destruct (String.eqb_spec k0 k') as [->|Hk0]; simpl.
  - destruct (String.eqb_spec k' k); [congruence | reflexivity].
  - destruct (String.eqb_spec k0 k); [reflexivity | exact IH].
Qed.

Lemma obj_get_insert_other (n : N) (k k' : string) (v : json) (o : object) :
  k <> k' -> obj_get k (obj_insert_index n k' v o) = obj_get k o.
Proof.
  intros Hne. induction o as [|[k0 v0] o IH]; simpl.
  - destruct (String.eqb_spec k' k); [congruence | reflexivity].
  - destruct (Js.arrayIndex k0) as [n'|].
    + destruct (n' <? n)%N; simpl.
      * destruct (String.eqb_spec k0 k); [reflexivity | exact IH].
      * destruct (String.eqb_spec k' k); [congruence | reflexivity].
    + simpl. destruct (String.eqb_spec k' k); [congruence | reflexivity].
Qed.

Lemma obj_get_app_other (k k' : string) (v : json) (o : object) :
  k <> k' -> obj_get k (o ++ [(k', v)])%list = obj_get k o.
Proof.
  intros Hne. induction o as [|[k0 v0] o IH]; simpl.
  - destruct (String.eqb_spec k' k); [congruence | reflexivity].
  - destruct (String.eqb_spec k0 k); [reflexivity | exact IH].
Qed.

(** Assigning one property leaves every other property as it was. *)
Lemma obj_get_set_other (k k' : string) (v : json) (o : object) :
  k <> k' -> obj_get k (obj_set o k' v) = obj_get k o.
Proof.
  intros Hne. unfold obj_set. destruct (obj_has k' o).
  - apply obj_get_replace_other, Hne.
  - destruct (Js.arrayIndex k').
    + apply obj_get_insert_other, Hne.
    + apply obj_get_app_other, Hne.
Qed.

Lemma obj_get_replace_same (k : string) (v : json) (o : object) :
  obj_has k o = true -> obj_get k (obj_replace k v o) = Some v.
Proof.
  unfold obj_has. induction o as [|[k0 v0] o IH]; simpl; [discriminate|].
  destruct (String.eqb_spec k0 k) as [->|Hk0]; simpl.
  - rewrite String.eqb_refl. reflexivity.
  - destruct (String.eqb_spec k0 k); [congruence | exact IH].
Qed.

Lemma obj_get_insert_same (n : N) (k : string) (v : json) (o : object) :
  obj_has k o = false -> obj_get k (obj_insert_index n k v o) = Some v.
Proof.
  unfold obj_has. induction o as [|[k0 v0] o IH]; simpl.
  - rewrite String.eqb_refl. reflexivity.
  - destruct (String.eqb_spec k0 k) as [->|Hk0]; [discriminate|]. intros Hno.
    destruct (Js.arrayIndex k0) as [n'|].
    + destruct (n' <? n)%N; simpl.
      * destruct (String.eqb_spec k0 k); [congruence | exact (IH Hno)].
      * rewrite String.eqb_refl. reflexivity.
    + simpl. rewrite String.eqb_refl. reflexivity.
Qed.

Lemma obj_get_app_same (k : string) (v : json) (o : object) :
  obj_has k o = false -> obj_get k (o ++ [(k, v)])%list = Some v.
Proof.
  unfold obj_has. induction o as [|[k0 v0] o IH]; simpl.
  - rewrite String.eqb_refl. reflexivity.
  - destruct (String.eqb_spec k0 k); [discriminate | exact IH].
Qed.

(** Reading a property back returns what was assigned. *)
Lemma obj_get_set_same (k : string) (v : json) (o : object) :
  obj_get k (obj_set o k v) = Some v.
Proof.
  unfold obj_set. destruct (obj_has k o) eqn:Hhas.
  - apply obj_get_replace_same, Hhas.
  - destruct (Js.arrayIndex k).
    + apply obj_get_insert_same, Hhas.
    + apply obj_get_app_same, Hhas.
Qed.

End ObjectFacts.

(** ** The tabular extractor *)

Module ExcelFacts.
Import ExcelToSchemaGeneratorUtil ExcelTerms ExcelExamples.

(** The inner loop hands back a suffix no longer than what it was given. *)
Lemma gatherFields_length (metaCols : metaColumns) (rows : list row) :
  List.length (snd (gatherFields metaCols rows)) <= List.length rows.
Proof.
  induction rows as [|r rows IH]; simpl; [lia|].
  destruct (isBlankRow r); simpl; [lia|].
  destruct (isBlockHeading (cellText (cellAt r 0))); simpl; [lia|].
  destruct (gatherFields metaCols rows) as [fs remaining]. simpl in *. lia.
Qed.

(** The outer loop ends within as many rounds as there are rows: more fuel
    changes nothing. *)
Lemma scanBlocks_fuel (f1 f2 : nat) (rows : list row) :
  List.length rows <= f1 -> List.length rows <= f2 ->
  scanBlocks f1 rows = scanBlocks f2 rows.
Proof.
  revert f2 rows. induction f1 as [|f1 IH]; intros f2 rows H1 H2.
  - destruct rows; [|simpl in H1; lia]. destruct f2; reflexivity.
  - destruct f2 as [|f2].
    + destruct rows; [reflexivity | simpl in H2; lia].
    + destruct rows as [|r rest]; [reflexivity|]. simpl in H1, H2. cbn [scanBlocks].
      destruct (isBlockHeading (cellText (cellAt r 0))).
      * pose proof (gatherFields_length (findMetaColumns (hd [] rest)) (tl rest)) as Hlen.
        destruct (gatherFields (findMetaColumns (hd [] rest)) (tl rest)) as [fs remaining].
        simpl in Hlen. f_equal.
        assert (List.length (tl rest) <= List.length rest) by (destruct rest; simpl; lia).
        apply IH; lia.
      * apply IH; lia.
Qed.

(** A row that opens no block is passed over. *)
Lemma parseBlocksInSheet_skip (r : row) (rest : list row) :
  isBlockHeading (cellText (cellAt r 0)) = false ->
  parseBlocksInSheet (r :: rest) = parseBlocksInSheet rest.
Proof.
  intros H. unfold parseBlocksInSheet. cbn [List.length scanBlocks]. rewrite H. reflexivity.
Qed.

(** A heading opens a block: the next row is its meta row, the rows after
    it are its fields, and the scan goes on behind them. *)
Lemma parseBlocksInSheet_heading (r : row) (rest : list row) :
  isBlockHeading (cellText (cellAt r 0)) = true ->
  parseBlocksInSheet (r :: rest) =
  let firstCellVal := cellText (cellAt r 0) in
  let found := gatherFields (findMetaColumns (hd [] rest)) (tl rest) in
  {| name := firstCellVal;
     entity := if Js.endsWith firstCellVal "_list" then list_ else table;
     fields := fst found |} :: parseBlocksInSheet (snd found).
Proof.
  intros H. unfold parseBlocksInSheet. cbn [List.length scanBlocks]. rewrite H.
  pose proof (gatherFields_length (findMetaColumns (hd [] rest)) (tl rest)) as Hlen.
  destruct (gatherFields (findMetaColumns (hd [] rest)) (tl rest)) as [fs remaining].
  cbn [fst snd] in *. f_equal.
  assert (List.length (tl rest) <= List.length rest) by (destruct rest; simpl; lia).
  apply scanBlocks_fuel; lia.
Qed.

Lemma parseBlocksInSheet_skip_all (pre rest : list row) :
  Forall (fun r => isBlockHeading (cellText (cellAt r 0)) = false) pre ->
  parseBlocksInSheet (pre ++ rest)%list = parseBlocksInSheet rest.
Proof.
  induction 1 as [|r pre Hr Hpre IH]; [reflexivity|].
  cbn [app]. rewrite parseBlocksInSheet_skip by exact Hr. exact IH.
Qed.

Section WithBuiltins.
Context {builtins : NumericBuiltins}.

(** C1. Wherever the four rows of scenario A stand in a sheet, after rows
    that open no block and before the end of the sheet, a blank row or the
    next heading, the scan yields the table block [employee_table], whose
    schema has the header tuple of the string enums [id], [label] and the
    column tuple [{type: number}], [{type: [string, null]}]. *)
Theorem scenarioA_employee_table (pre post : list row) :
  Forall (fun r => isBlockHeading (cellText (cellAt r 0)) = false) pre ->
  blockEnds post ->
  exists block more,
    parseBlocksInSheet (pre ++ employeeRows ++ post)%list = block :: more
    /\ block.(name) = "employee_table"
    /\ block.(entity) = table
    /\ headerItems (buildTableBlockSchema block)
       = Some (JArr [JObj [("type", JStr "string"); ("enum", JArr [JStr "id"])];
                     JObj [("type", JStr "string"); ("enum", JArr [JStr "label"])]])
    /\ rowItems (buildTableBlockSchema block)
       = Some (JArr [JObj [("type", JStr "number")];
                     JObj [("type", JArr [JStr "string"; JStr "null"])]]).
Proof.
  intros Hpre Hpost.
  rewrite parseBlocksInSheet_skip_all by exact Hpre.
  unfold employeeRows. cbn [app].
  rewrite parseBlocksInSheet_heading by reflexivity.
  cbn [hd tl].
  assert (Hg : fst (gatherFields (findMetaColumns [CStr "name"; CStr "null_allowed"; CStr "type"])
                 ([CStr "id"; CStr "No"; CStr "number"]
                    :: [CStr "label"; CStr "Yes"; CStr "string"] :: post))
               = [parseFieldRow [CStr "id"; CStr "No"; CStr "number"]
                    (findMetaColumns [CStr "name"; CStr "null_allowed"; CStr "type"]);
                  parseFieldRow [CStr "label"; CStr "Yes"; CStr "string"]
                    (findMetaColumns [CStr "name"; CStr "null_allowed"; CStr "type"])]).
  { cbn [gatherFields].
    change (isBlankRow [CStr "id"; CStr "No"; CStr "number"]) with false.
    change (isBlankRow [CStr "label"; CStr "Yes"; CStr "string"]) with false.
    change (isBlockHeading (cellText (cellAt [CStr "id"; CStr "No"; CStr "number"] 0))) with false.
    change (isBlockHeading (cellText (cellAt [CStr "label"; CStr "Yes"; CStr "string"] 0))) with false.
    cbv iota.
    destruct post as [|r post]; [reflexivity|].
    cbn [gatherFields]. destruct Hpost as [Hb | Hh].
    - rewrite Hb. reflexivity.
    - rewrite Hh. destruct (isBlankRow r); reflexivity. }
  cbv zeta.
  match goal with
  | |- context [fst ?found] =>
      exists {| name := "employee_table"; entity := table;
                fields := [parseFieldRow [CStr "id"; CStr "No"; CStr "number"]
                             (findMetaColumns [CStr "name"; CStr "null_allowed"; CStr "type"]);
                           parseFieldRow [CStr "label"; CStr "Yes"; CStr "string"]
                             (findMetaColumns [CStr "name"; CStr "null_allowed"; CStr "type"])] |},
             (parseBlocksInSheet (snd found))
  end.
  split; [f_equal; f_equal; exact Hg|].
  repeat split; vm_compute; reflexivity.
Qed.

End WithBuiltins.

Lemma scenarioA_employee_table_witness :
  exists block more,
    parseBlocksInSheet ([[CStr "Employees"]; []] ++ employeeRows ++ [[]; [CStr "notes"]])%list
    = block :: more
    /\ block.(name) = "employee_table"
    /\ block.(entity) = table
    /\ headerItems (buildTableBlockSchema (builtins := WholeNumbers.builtins) block)
       = Some (JArr [JObj [("type", JStr "string"); ("enum", JArr [JStr "id"])];
                     JObj [("type", JStr "string"); ("enum", JArr [JStr "label"])]])
    /\ rowItems (buildTableBlockSchema (builtins := WholeNumbers.builtins) block)
       = Some (JArr [JObj [("type", JStr "number")];
                     JObj [("type", JArr [JStr "string"; JStr "null"])]]).
Proof.
  apply (scenarioA_employee_table (builtins := WholeNumbers.builtins)
           [[CStr "Employees"]; []] [[]; [CStr "notes"]]).
  - repeat constructor.
  - left. reflexivity.
Defined.

(** *** Field schemas *)

Section Fields.
Context {builtins : NumericBuiltins}.

Lemma obj_get_type_if (c : bool) (o : object) (k : string) (v : json) :
  k <> "type" ->
  obj_get "type" (if c then obj_set o k v else o) = obj_get "type" o.
Proof.
  intros Hk. destruct c; [|reflexivity].
  apply ObjectFacts.obj_get_set_other. congruence.
Qed.

(** The [type] of a field schema is what the first assignment made it. *)
Lemma buildFieldSchema_type (bf : BlockField) :
  prop (buildFieldSchema bf) "type"
  = Some (if nonEmpty bf.(type) then
            if nonEmpty bf.(nullAllowed) && (Js.toLowerCase bf.(nullAllowed) =? "no")
            then JStr bf.(type)
            else JArr [JStr bf.(type); JStr "null"]
          else JStr "string").
Proof.
  unfold buildFieldSchema. cbv zeta. cbn [prop].
  repeat (rewrite obj_get_type_if by discriminate).
  destruct (nonEmpty bf.(type)).
  - destruct (nonEmpty bf.(nullAllowed) && (Js.toLowerCase bf.(nullAllowed) =? "no"));
      apply ObjectFacts.obj_get_set_same.
  - apply ObjectFacts.obj_get_set_same.
Qed.

Lemma lower_no_nonEmpty (s : string) :
  Js.toLowerCase s = "no" -> nonEmpty s = true.
Proof. destruct s; [discriminate | reflexivity]. Qed.

(** C8, amended.  The nullability of a parsed field is the trimmed text of
    its cell in the [null_allowed] column, empty when there is no such
    column.  For a field whose declared type is not empty, that text is
    compared to [no] without regard to case: [no] keeps the declared type,
    anything else, and a missing column, yields the union of the declared
    type with [null].  A field without a declared type gets the type
    [string], whatever its nullability. *)
Theorem nullability_of_parsed_field (r : row) (metaCols : metaColumns) :
  let bf := parseFieldRow r metaCols in
  bf.(nullAllowed)
  = match metaGet "null_allowed" metaCols with
    | Some idx => cellText (cellAt r idx)
    | None => ""
    end
  /\ (bf.(type) <> "" ->
      (Js.toLowerCase bf.(nullAllowed) = "no" ->
       prop (buildFieldSchema bf) "type" = Some (JStr bf.(type)))
      /\ (Js.toLowerCase bf.(nullAllowed) <> "no" ->
          prop (buildFieldSchema bf) "type" = Some (JArr [JStr bf.(type); JStr "null"]))
      /\ (metaGet "null_allowed" metaCols = None ->
          prop (buildFieldSchema bf) "type" = Some (JArr [JStr bf.(type); JStr "null"])))
  /\ (bf.(type) = "" ->
      prop (buildFieldSchema bf) "type" = Some (JStr "string")).
Proof.
  intros bf. split; [reflexivity|]. split.
  - intros Hty. rewrite buildFieldSchema_type.
    assert (Hne : nonEmpty bf.(type) = true).
    { unfold nonEmpty. destruct (String.eqb_spec bf.(type) ""); [contradiction | reflexivity]. }
    rewrite Hne. repeat split.
    + intros Hno. rewrite (lower_no_nonEmpty _ Hno), Hno. reflexivity.
    + intros Hno. destruct (String.eqb_spec (Js.toLowerCase bf.(nullAllowed)) "no");
        [contradiction|]. rewrite andb_false_r. reflexivity.
    + intros Hcol. subst bf. cbn [nullAllowed parseFieldRow]. unfold getSafeVal.
      rewrite Hcol. reflexivity.
  - intros Hty. rewrite buildFieldSchema_type, Hty. reflexivity.
Qed.

End Fields.

Lemma nullability_of_parsed_field_witness :
  prop (buildFieldSchema (builtins := WholeNumbers.builtins)
          (parseFieldRow [CStr "id"; CStr " NO "; CStr "number"] (findMetaColumns nullableMeta)))
       "type" = Some (JStr "number")
  /\ prop (buildFieldSchema (builtins := WholeNumbers.builtins)
             (parseFieldRow [CStr "label"; CStr "maybe"; CStr "string"]
                            (findMetaColumns nullableMeta)))
          "type" = Some (JArr [JStr "string"; JStr "null"])
  /\ prop (buildFieldSchema (builtins := WholeNumbers.builtins)
             (parseFieldRow [CStr "label"; CStr "string"]
                            (findMetaColumns [CStr "name"; CStr "type"])))
          "type" = Some (JArr [JStr "string"; JStr "null"])
  /\ prop (buildFieldSchema (builtins := WholeNumbers.builtins)
             (parseFieldRow [CStr "label"; CStr "Yes"] (findMetaColumns nullableMeta)))
          "type" = Some (JStr "string").
Proof.
  split; [|split; [|split]].
  - destruct (nullability_of_parsed_field (builtins := WholeNumbers.builtins)
                [CStr "id"; CStr " NO "; CStr "number"] (findMetaColumns nullableMeta))
      as (_ & Htyped & _).
    destruct Htyped as (Hno & _ & _); [discriminate|].
    apply Hno. reflexivity.
  - destruct (nullability_of_parsed_field (builtins := WholeNumbers.builtins)
                [CStr "label"; CStr "maybe"; CStr "string"] (findMetaColumns nullableMeta))
      as (_ & Htyped & _).
    destruct Htyped as (_ & Hother & _); [discriminate|].
    apply Hother. discriminate.
  - destruct (nullability_of_parsed_field (builtins := WholeNumbers.builtins)
                [CStr "label"; CStr "string"] (findMetaColumns [CStr "name"; CStr "type"]))
      as (_ & Htyped & _).
    destruct Htyped as (_ & _ & Habsent); [discriminate|].
    apply Habsent. reflexivity.
  - destruct (nullability_of_parsed_field (builtins := WholeNumbers.builtins)
                [CStr "label"; CStr "Yes"] (findMetaColumns nullableMeta))
      as (_ & _ & Huntyped).
    apply Huntyped. reflexivity.
Defined.

(** C8 as first stated fails: the field row [label, Yes] with an empty type
    cell has a nullability other than [no], and its schema is the scalar
    [{type: string}], which does not admit [null]. *)
Lemma nullability_of_parsed_field_counterexample :
  Js.toLowerCase untypedField.(nullAllowed) <> "no"
  /\ buildFieldSchema (builtins := WholeNumbers.builtins) untypedField
     = JObj [("type", JStr "string")]
  /\ prop (buildFieldSchema (builtins := WholeNumbers.builtins) untypedField) "type"
     <> Some (JArr [JStr untypedField.(type); JStr "null"]).
Proof.
  split; [discriminate|]. split; [reflexivity | discriminate].
Qed.

End ExcelFacts.

(** ** Table blocks: header, columns and row accessors *)

Module TableFacts.
Import ExcelToSchemaGeneratorUtil TableGeneratorUtil ExcelTerms ExcelExamples.

Section Table.
Context {builtins : NumericBuiltins} {util : GeneratorUtil}.

Lemma accessorsFrom_length (i : nat) (fs : list BlockField) :
  List.length (accessorsFrom i fs) = List.length fs.
Proof. revert i. induction fs as [|f fs IH]; intros i; simpl; [|rewrite IH]; reflexivity. Qed.

Lemma accessorsFrom_nth (fs : list BlockField) (i k : nat) (f : BlockField) :
  nth_error fs k = Some f ->
  nth_error (accessorsFrom i fs) k = Some (accessorOf (i + k) f).
Proof.
  revert i k. induction fs as [|g fs IH]; intros i k H.
  - destruct k; discriminate.
  - destruct k as [|k]; simpl in *.
    + injection H as ->. rewrite Nat.add_0_r. reflexivity.
    + rewrite (IH (S i) k H). f_equal. f_equal. lia.
Qed.

Lemma firstEnums_fields (fs : list BlockField) :
  firstEnums (map (fun f => stringEnum f.(fieldName)) fs)
  = Ret (map (fun f => Some (JStr f.(fieldName))) fs).
Proof.
  induction fs as [|f fs IH]; [reflexivity|].
  cbn [map firstEnums]. rewrite IH. reflexivity.
Qed.

Lemma headerEnum_table (block : BlockModel) :
  headerEnum (buildTableBlockSchema block)
  = Ret (map (fun f => Some (JStr f.(fieldName))) block.(fields)).
Proof. unfold headerEnum. cbn. apply firstEnums_fields. Qed.

Lemma columnTypeAt_table (block : BlockModel) (i : nat) :
  columnTypeAt (buildTableBlockSchema block) i
  = optProp (nth_error (map buildFieldSchema block.(fields)) i) "type".
Proof. reflexivity. Qed.

Lemma accessorPairsFrom_fields (block : BlockModel) (done rest : list BlockField) :
  block.(fields) = (done ++ rest)%list ->
  accessorPairsFrom (buildTableBlockSchema block) (List.length done)
                    (map (fun f => Some (JStr f.(fieldName))) rest)
  = Ret (accessorsFrom (List.length done) rest).
Proof.
  revert done. induction rest as [|f rest IH]; intros done Hfs; [reflexivity|].
  cbn [map accessorPairsFrom accessorsFrom].
  assert (Hnext : block.(fields) = ((done ++ [f]) ++ rest)%list)
    by (rewrite <- app_assoc; exact Hfs).
  specialize (IH _ Hnext). rewrite length_app, Nat.add_1_r in IH. rewrite IH.
  cbn [bind]. do 2 f_equal. unfold accessorOf. do 2 f_equal.
  rewrite columnTypeAt_table, Hfs, map_app, nth_error_app2 by (rewrite length_map; lia).
  rewrite length_map, Nat.sub_diag. reflexivity.
Qed.

Lemma accessorPairs_table (block : BlockModel) :
  accessorPairs (buildTableBlockSchema block) = Ret (accessorsFrom 0 block.(fields)).
Proof.
  unfold accessorPairs. rewrite headerEnum_table. cbn [bind].
  apply (accessorPairsFrom_fields block []). reflexivity.
Qed.

(** Every accessor pair holds the index of its column twice: in the
    getter's [return this[i]] and in the setter's [this[i] = ...]. *)
Lemma accessorPair_index (header type : string) (i : nat) :
  exists a b c,
    accessorPair header i type
    = a ++ "return this[" ++ Js.natToString i ++ "] as " ++ b
        ++ "        this[" ++ Js.natToString i ++ "] = " ++ c.
Proof.
  exists (nl ++ nl ++ "    get" ++ capitalize (toCamelCase header) ++ "(): " ++ type ++ " {"
          ++ nl ++ "            " ++ nl ++ "        "),
         (type ++ ";" ++ nl ++ "    }" ++ nl ++ nl
          ++ "    set" ++ capitalize (toCamelCase header) ++ "("
          ++ (if startsWithDigit (toCamelCase header)
              then "_" ++ toCamelCase header else toCamelCase header)
          ++ ": " ++ type ++ "): void {" ++ nl),
         ((if startsWithDigit (toCamelCase header)
           then "_" ++ toCamelCase header else toCamelCase header)
          ++ ";" ++ nl ++ "    }").
  unfold accessorPair. cbv zeta.
  repeat rewrite JsFacts.append_assoc. reflexivity.
Qed.

(** C3. A table block with [N] fields has a header tuple of [N] string
    enums, one per field name in the order of the fields, with
    [minItems = maxItems = N]; a row tuple of [N] column schemas, the one at
    place [i] built from the field at place [i]; and [N] accessor pairs,
    the pair at place [i] named after the field at place [i] and reading and
    writing [this[i]]. *)
Theorem table_block_positions (block : BlockModel) :
  let N := List.length block.(fields) in
  let schema := buildTableBlockSchema block in
  exists hs cols pairs,
    headerItems schema = Some (JArr hs)
    /\ rowItems schema = Some (JArr cols)
    /\ accessorPairs schema = Ret pairs
    /\ List.length hs = N /\ List.length cols = N /\ List.length pairs = N
    /\ optProp (optProp (prop schema "properties") "header") "minItems"
       = Some (JNum (numberOfNat N))
    /\ optProp (optProp (prop schema "properties") "header") "maxItems"
       = Some (JNum (numberOfNat N))
    /\ forall i f,
        nth_error block.(fields) i = Some f ->
        nth_error hs i
        = Some (JObj [("type", JStr "string"); ("enum", JArr [JStr f.(fieldName)])])
        /\ nth_error cols i = Some (buildFieldSchema f)
        /\ nth_error pairs i
           = Some (accessorPair f.(fieldName) i
                     (getTypeScriptType (prop (buildFieldSchema f) "type")))
        /\ exists a b c,
             nth_error pairs i
             = Some (a ++ "return this[" ++ Js.natToString i ++ "] as " ++ b
                       ++ "        this[" ++ Js.natToString i ++ "] = " ++ c).
Proof.
  intros N schema.
  exists (map (fun f => stringEnum f.(fieldName)) block.(fields)),
         (map buildFieldSchema block.(fields)),
         (accessorsFrom 0 block.(fields)).
  split; [reflexivity|]. split; [reflexivity|]. split; [apply accessorPairs_table|].
  split; [apply length_map|]. split; [apply length_map|].
  split; [apply accessorsFrom_length|].
  split; [subst schema N; cbn; rewrite length_map; reflexivity|].
  split; [subst schema N; cbn; rewrite length_map; reflexivity|].
  intros i f Hf. split; [|split; [|split]].
  - rewrite nth_error_map, Hf. reflexivity.
  - rewrite nth_error_map, Hf. reflexivity.
  - rewrite (accessorsFrom_nth _ 0 i f Hf). reflexivity.
  - rewrite (accessorsFrom_nth _ 0 i f Hf). unfold accessorOf. cbn [Nat.add].
    destruct (accessorPair_index f.(fieldName)
                (getTypeScriptType (prop (buildFieldSchema f) "type")) i) as (a & b & c & E).
    exists a, b, c. rewrite E. reflexivity.
Qed.

End Table.

Lemma table_block_positions_witness :
  exists pairs,
    accessorPairs (util := PlainNames.util)
      (buildTableBlockSchema (builtins := WholeNumbers.builtins) employeeTable) = Ret pairs
    /\ List.length pairs = 2
    /\ exists a b c,
         nth_error pairs 1
         = Some (a ++ "return this[1] as " ++ b ++ "        this[1] = " ++ c).
Proof.
  destruct (table_block_positions (builtins := WholeNumbers.builtins)
              (util := PlainNames.util) employeeTable)
    as (hs & cols & pairs & _ & _ & Hpairs & _ & _ & Hlen & _ & _ & Hpos).
  exists pairs. split; [exact Hpairs|]. split; [exact Hlen|].
  destruct (Hpos 1 (parseFieldRow [CStr "label"; CStr "Yes"; CStr "string"]
                      (findMetaColumns [CStr "name"; CStr "null_allowed"; CStr "type"])))
    as (_ & _ & _ & Hidx); [reflexivity|].
  exact Hidx.
Defined.

End TableFacts.

(** ** The instance inferrer *)

Module InferrerFacts.
Import JsonToSchemaGeneratorUtil InferrerTerms InferrerExamples.

Lemma existsb_eqb_In (t : string) (l : list string) :
  existsb (String.eqb t) l = true <-> In t l.
Proof.
  rewrite existsb_exists. split.
  - intros (x & Hin & Heq). apply String.eqb_eq in Heq. subst. exact Hin.
  - intros Hin. exists t. split; [exact Hin | apply String.eqb_refl].
Qed.

Lemma setAdd_In (l : list string) (t k : string) :
  In k (setAdd l t) <-> In k l \/ k = t.
Proof.
  unfold setAdd. destruct (existsb (String.eqb t) l) eqn:E.
  - apply existsb_eqb_In in E. split; [auto|]. intros [H | ->]; assumption.
  - rewrite in_app_iff. simpl. intuition.
Qed.

Lemma setAdd_NoDup (l : list string) (t : string) :
  NoDup l -> NoDup (setAdd l t).
Proof.
  intros Hnd. unfold setAdd. destruct (existsb (String.eqb t) l) eqn:E; [exact Hnd|].
  assert (Hnot : ~ In t l).
  { intros Hin. apply existsb_eqb_In in Hin. congruence. }
  apply NoDup_app; [exact Hnd | repeat constructor; intros [] | ].
  intros x Hx [Hxt | []]. subst. contradiction.
Qed.

Lemma cellOf_returns (r : json) (colIndex : nat) :
  r <> JNull -> exists c, cellOf r colIndex = Ret c.
Proof. destruct r; intros H; try (eexists; reflexivity). contradiction. Qed.

Lemma deriveJsonSchemaType_nonempty (c : option json) :
  (deriveJsonSchemaType c =? "") = false.
Proof. destruct c as [[]|]; reflexivity. Qed.

Lemma collectTypes_spec (colIndex : nat) (rs : list json) (acc : list string) :
  Forall (fun r => r <> JNull) rs -> NoDup acc ->
  exists kinds,
    collectTypes colIndex rs acc = Ret kinds
    /\ NoDup kinds
    /\ forall k, In k kinds <-> In k acc \/ observed rs colIndex k.
Proof.
  intros Hrs. revert acc. induction Hrs as [|r rs Hr Hrs IH]; intros acc Hnd.
  - exists acc. split; [reflexivity|]. split; [exact Hnd|].
    intros k. split; [auto|]. intros [H | (r & c & [] & _)]. exact H.
  - destruct (cellOf_returns r colIndex Hr) as (c & Hc).
    cbn [collectTypes]. rewrite Hc. cbn [bind].
    rewrite deriveJsonSchemaType_nonempty.
    destruct (IH _ (setAdd_NoDup acc (deriveJsonSchemaType c) Hnd))
      as (kinds & Hret & Hnd' & Hin).
    exists kinds. split; [exact Hret|]. split; [exact Hnd'|].
    intros k. rewrite Hin, setAdd_In. split.
    + intros [[H | ->] | (r' & c' & Hin' & Hc' & Hk)].
      * left. exact H.
      * right. exists r, c. split; [left; reflexivity | split; [exact Hc | reflexivity]].
      * right. exists r', c'. split; [right; exact Hin' | split; assumption].
    + intros [H | (r' & c' & [<- | Hin'] & Hc' & Hk)].
      * left. left. exact H.
      * left. right. rewrite Hc in Hc'. injection Hc' as <-. symmetry. exact Hk.
      * right. exists r', c'. split; [exact Hin' | split; assumption].
Qed.

Lemma columnTypesFrom_spec (block : Block) (hs : list string) (colIndex : nat) :
  (forall i, exists c, columnType block i = Ret c) ->
  exists cols,
    columnTypesFrom block colIndex hs = Ret cols
    /\ List.length cols = List.length hs
    /\ forall i c, nth_error cols i = Some c -> columnType block (colIndex + i) = Ret c.
Proof.
  intros Hcol. revert colIndex. induction hs as [|h hs IH]; intros colIndex.
  - exists []. split; [reflexivity|]. split; [reflexivity|]. intros [|i] c H; discriminate.
  - destruct (Hcol colIndex) as (c0 & Hc0). destruct (IH (S colIndex)) as (cols & Hret & Hlen & Hnth).
    exists (c0 :: cols). cbn [columnTypesFrom]. rewrite Hc0. cbn [bind]. rewrite Hret. cbn [bind].
    split; [reflexivity|]. split; [simpl; congruence|].
    intros [|i] c H; simpl in H.
    + injection H as <-. rewrite Nat.add_0_r. exact Hc0.
    + rewrite <- Nat.add_succ_comm. apply Hnth, H.
Qed.

(** C9. The kind of a sample value is [null] for null, else [boolean],
    [number], [array], [object], else [string].  For a table block whose
    rows are not null, the schema of a column is made from the kinds
    observed in that column over all rows, each once: one kind gives
    [{type: k}], several give [{type: [k1, ...]}], none gives
    [{type: null}]; and the row tuple of the block schema holds the schema
    of column [i] at place [i]. *)
Theorem column_kinds (block : Block) (blockName : string) (rs : list json) :
  (deriveJsonSchemaType (Some JNull) = "null"
   /\ (forall b, deriveJsonSchemaType (Some (JBool b)) = "boolean")
   /\ (forall x, deriveJsonSchemaType (Some (JNum x)) = "number")
   /\ (forall l, deriveJsonSchemaType (Some (JArr l)) = "array")
   /\ (forall o, deriveJsonSchemaType (Some (JObj o)) = "object")
   /\ (forall s, deriveJsonSchemaType (Some (JStr s)) = "string")
   /\ deriveJsonSchemaType None = "string")
  /\ (block.(rows) = Some rs ->
      Forall (fun r => r <> JNull) rs ->
      (forall colIndex,
          exists kinds,
            NoDup kinds
            /\ (forall k, In k kinds <-> observed rs colIndex k)
            /\ columnType block colIndex
               = Ret (match kinds with
                      | [] => JObj [("type", JStr "null")]
                      | [k] => JObj [("type", JStr k)]
                      | _ => JObj [("type", JArr (map JStr kinds))]
                      end))
      /\ (forall h hs,
          block.(header) = Some (h :: hs) ->
          exists schema cols,
            handleTableBlock block blockName = Ret schema
            /\ rowItems schema = Some (JArr cols)
            /\ List.length cols = List.length (h :: hs)
            /\ forall i c, nth_error cols i = Some c -> columnType block i = Ret c))
  /\ (block.(rows) = None ->
      forall colIndex, columnType block colIndex = Ret (JObj [("type", JStr "null")])).
Proof.
  split; [repeat split|].
  split; [|intros Hrows colIndex; unfold columnType; rewrite Hrows; reflexivity].
  intros Hrows Hrs.
  assert (Hcol : forall colIndex,
             exists kinds,
               NoDup kinds
               /\ (forall k, In k kinds <-> observed rs colIndex k)
               /\ columnType block colIndex = Ret (typeSchema kinds)).
  { intros colIndex.
    destruct (collectTypes_spec colIndex rs [] Hrs (NoDup_nil _)) as (kinds & Hret & Hnd & Hin).
    exists kinds. split; [exact Hnd|]. split.
    - intros k. rewrite Hin. split; [intros [[] | H]; exact H | auto].
    - unfold columnType. rewrite Hrows, Hret. reflexivity. }
  split.
  - intros colIndex. destruct (Hcol colIndex) as (kinds & Hnd & Hin & Hret).
    exists kinds. split; [exact Hnd|]. split; [exact Hin|].
    rewrite Hret. destruct kinds as [|k [|k' kinds]]; reflexivity.
  - intros h hs Hheader.
    destruct (columnTypesFrom_spec block (h :: hs) 0) as (cols & Hret & Hlen & Hnth).
    { intros i. destruct (Hcol i) as (kinds & _ & _ & H). eexists. exact H. }
    unfold handleTableBlock. rewrite Hheader, Hret. cbn [bind].
    eexists. exists cols. split; [reflexivity|]. split; [reflexivity|].
    split; [exact Hlen|]. exact Hnth.
Qed.

Lemma column_kinds_witness :
  columnType sampleBlock 0 = Ret (JObj [("type", JArr [JStr "number"; JStr "null"])])
  /\ columnType sampleBlock 1 = Ret (JObj [("type", JStr "string")])
  /\ exists schema cols,
       handleTableBlock sampleBlock "sample_table" = Ret schema
       /\ rowItems schema = Some (JArr cols)
       /\ List.length cols = 2.
Proof.
  destruct (column_kinds sampleBlock "sample_table"
              [JArr [JNum (Finite "1"); JStr "x"]; JArr [JNull; JStr "y"]])
    as (_ & Hrows & _).
  destruct Hrows as (_ & Hblock); [reflexivity | repeat constructor; discriminate |].
  split; [reflexivity|]. split; [reflexivity|].
  destruct (Hblock "a" ["b"]) as (schema & cols & Hs & Hitems & Hlen & _); [reflexivity|].
  exists schema, cols. split; [exact Hs|]. split; [exact Hitems | exact Hlen].
Defined.

End InferrerFacts.

(** ** Sorting keys *)

Module SortFacts.

Lemma ascii_compare_refl (c : ascii) : Ascii.compare c c = Eq.
Proof. unfold Ascii.compare. apply N.compare_refl. Qed.

Lemma ascii_compare_lt_trans (x y z : ascii) :
  Ascii.compare x y = Lt -> Ascii.compare y z = Lt -> Ascii.compare x z = Lt.
Proof.
  unfold Ascii.compare. rewrite !N.compare_lt_iff. apply N.lt_trans.
Qed.

Lemma compare_not_gt_trans (a b c : string) :
  String.compare a b <> Gt -> String.compare b c <> Gt -> String.compare a c <> Gt.
Proof.
  revert b c. induction a as [|x a IH]; intros [|y b] [|z c]; simpl; try congruence.
  destruct (Ascii.compare x y) eqn:Exy; [| |congruence].
  - apply Ascii.compare_eq_iff in Exy. subst y.
    destruct (Ascii.compare x z) eqn:Exz; [apply IH | congruence | congruence].
  - destruct (Ascii.compare y z) eqn:Eyz; [| |congruence].
    + apply Ascii.compare_eq_iff in Eyz. subst z. rewrite Exy. congruence.
    + rewrite (ascii_compare_lt_trans _ _ _ Exy Eyz). congruence.
Qed.

Lemma leb_not_gt (a b : string) : Js.codeUnitLeb a b = true <-> String.compare a b <> Gt.
Proof.
  unfold Js.codeUnitLeb, String.leb. destruct (String.compare a b); split; congruence.
Qed.

Lemma leb_trans (a b c : string) :
  Js.codeUnitLeb a b = true -> Js.codeUnitLeb b c = true -> Js.codeUnitLeb a c = true.
Proof. rewrite !leb_not_gt. apply compare_not_gt_trans. Qed.

Lemma leb_false_flip (a b : string) :
  Js.codeUnitLeb a b = false -> Js.codeUnitLeb b a = true.
Proof.
  intros H. destruct (String.leb_total a b) as [H' | H']; [|exact H'].
  unfold Js.codeUnitLeb in H. congruence.
Qed.

Ltac order :=
  repeat match goal with
  | H : Js.codeUnitLeb _ _ = false |- _ => apply leb_false_flip in H
  end;
  try reflexivity;
  match goal with
  | H1 : Js.codeUnitLeb ?a ?b = true, H2 : Js.codeUnitLeb ?b ?a = true |- _ =>
      pose proof (String.leb_antisym a b H1 H2); subst; reflexivity
  end.

Lemma insertSorted_comm (a b : string) (l : list string) :
  Js.insertSorted a (Js.insertSorted b l) = Js.insertSorted b (Js.insertSorted a l).
Proof.
  induction l as [|x l IH]; simpl.
  - destruct (Js.codeUnitLeb a b) eqn:Eab, (Js.codeUnitLeb b a) eqn:Eba; order.
  - destruct (Js.codeUnitLeb b x) eqn:Ebx, (Js.codeUnitLeb a x) eqn:Eax; simpl.
    + destruct (Js.codeUnitLeb a b) eqn:Eab, (Js.codeUnitLeb b a) eqn:Eba;
        rewrite ?Eax, ?Ebx; order.
    + destruct (Js.codeUnitLeb a b) eqn:Eab.
      * pose proof (leb_trans _ _ _ Eab Ebx). congruence.
      * rewrite Eax, Ebx. reflexivity.
    + destruct (Js.codeUnitLeb b a) eqn:Eba.
      * pose proof (leb_trans _ _ _ Eba Eax). congruence.
      * rewrite Eax, Ebx. reflexivity.
    + rewrite Eax, Ebx, IH. reflexivity.
Qed.

(** Sorting sees the keys, not the order they come in. *)
Lemma sort_permutation (l1 l2 : list string) :
  Permutation l1 l2 -> Js.sort l1 = Js.sort l2.
Proof.
  induction 1 as [| x l1 l2 _ IH | x y l | l1 l2 l3 _ IH1 _ IH2]; simpl.
  - reflexivity.
  - rewrite IH. reflexivity.
  - apply insertSorted_comm.
  - congruence.
Qed.

Lemma insertSorted_In (k x : string) (l : list string) :
  In x (Js.insertSorted k l) <-> x = k \/ In x l.
Proof.
  induction l as [|y l IH]; simpl.
  - intuition.
  - destruct (Js.codeUnitLeb k y); simpl; [intuition|]. rewrite IH. intuition.
Qed.

Lemma sort_In (x : string) (l : list string) : In x (Js.sort l) <-> In x l.
Proof.
  induction l as [|y l IH]; simpl; [reflexivity|].
  rewrite insertSorted_In, IH. intuition.
Qed.

End SortFacts.

(** ** The canonical tree *)

Module CanonicalFacts.
Import ExcelToSchemaGeneratorUtil.

Lemma obj_get_In (k : string) (a : json) (o : object) :
  obj_get k o = Some a -> In (k, a) o.
Proof.
  induction o as [|[k' v] o IH]; simpl; [discriminate|].
  destruct (String.eqb_spec k' k) as [->|Hne].
  - intros H. injection H as ->. left. reflexivity.
  - intros H. right. apply IH, H.
Qed.

Lemma obj_get_None_keys (k : string) (o : object) :
  obj_get k o = None <-> ~ In k (obj_keys o).
Proof.
  induction o as [|[k' v] o IH]; simpl.
  - intuition.
  - destruct (String.eqb_spec k' k) as [->|Hne].
    + split; [discriminate | intros H; exfalso; apply H; left; reflexivity].
    + rewrite IH. intuition.
Qed.

Lemma obj_get_map_values (f : json -> json) (k : string) (o : object) :
  obj_get k (map (fun kv => (fst kv, f (snd kv))) o) = option_map f (obj_get k o).
Proof.
  induction o as [|[k' v] o IH]; simpl; [reflexivity|].
  destruct (k' =? k); [reflexivity | exact IH].
Qed.

Lemma toTreeMapRecursive_obj (props : object) :
  toTreeMapRecursive (JObj props)
  = JObj (fold_left
            (rebuildStep (map (fun kv => (fst kv, toTreeMapRecursive (snd kv))) props))
            (Js.sort (obj_keys props)) []).
Proof. reflexivity. Qed.

(** After the loop, a key holds the value of [sub] if the loop met it, and
    what it held before otherwise. *)
Lemma rebuild_get (sub : object) (ks : list string) (acc : object) (k : string) :
  obj_get k (fold_left (rebuildStep sub) ks acc)
  = if existsb (String.eqb k) ks
    then match obj_get k sub with
         | Some v => Some v
         | None => obj_get k acc
         end
    else obj_get k acc.
Proof.
  revert acc. induction ks as [|k0 ks IH]; intros acc; [reflexivity|].
  cbn [fold_left existsb]. rewrite IH. unfold rebuildStep.
  destruct (String.eqb_spec k k0) as [->|Hne]; cbn [orb].
  - destruct (obj_get k0 sub) as [v|] eqn:Hsub.
    + rewrite ObjectFacts.obj_get_set_same. destruct (existsb _ ks); reflexivity.
    + destruct (existsb _ ks); reflexivity.
  - destruct (obj_get k0 sub) as [v0|] eqn:Hsub0; [|reflexivity].
    rewrite (ObjectFacts.obj_get_set_other k k0) by exact Hne. reflexivity.
Qed.

(** Under every key the rebuilt object holds the canonical tree of what
    the object held there. *)
Lemma toTree_get (props : object) (rebuilt : object) (k : string) :
  toTreeMapRecursive (JObj props) = JObj rebuilt ->
  obj_get k rebuilt = option_map toTreeMapRecursive (obj_get k props).
Proof.
  rewrite toTreeMapRecursive_obj. intros H. injection H as <-.
  rewrite rebuild_get, obj_get_map_values. cbn [obj_get].
  destruct (existsb (String.eqb k) (Js.sort (obj_keys props))) eqn:E.
  - destruct (obj_get k props); reflexivity.
  - destruct (obj_get k props) as [a|] eqn:Hget; [|reflexivity]. exfalso.
    assert (Hin : In k (Js.sort (obj_keys props))).
    { apply SortFacts.sort_In. destruct (in_dec string_dec k (obj_keys props)) as [H|H];
        [exact H|]. apply obj_get_None_keys in H. congruence. }
    assert (existsb (String.eqb k) (Js.sort (obj_keys props)) = true); [|congruence].
    apply existsb_exists. exists k. split; [exact Hin | apply String.eqb_refl].
Qed.

Lemma rebuild_ext (sub1 sub2 : object) (ks : list string) (acc : object) :
  (forall k, In k ks -> obj_get k sub1 = obj_get k sub2) ->
  fold_left (rebuildStep sub1) ks acc = fold_left (rebuildStep sub2) ks acc.
Proof.
  revert acc. induction ks as [|k ks IH]; intros acc H; [reflexivity|].
  cbn [fold_left]. unfold rebuildStep at 2 4. rewrite (H k (or_introl eq_refl)).
  apply IH. intros k' Hin. apply H. right. exact Hin.
Qed.

Lemma map_toTree_same (l1 l2 : list json) :
  Forall (fun a => forall b, sameUpToKeyOrder a b ->
                             toTreeMapRecursive a = toTreeMapRecursive b) l1 ->
  Forall2 sameUpToKeyOrder l1 l2 ->
  map toTreeMapRecursive l1 = map toTreeMapRecursive l2.
Proof.
  intros IH H. induction H as [|a b l1 l2 Hab Hrest IHrest]; [reflexivity|].
  inversion IH as [|? ? Ha Hl]; subst. cbn [map]. f_equal; [apply Ha, Hab | apply IHrest, Hl].
Qed.

Lemma map_toTree_inj (l1 : list json) :
  Forall (fun a => forall b, uniqueKeys a -> uniqueKeys b ->
                             toTreeMapRecursive a = toTreeMapRecursive b ->
                             sameUpToKeyOrder a b) l1 ->
  forall l2, Forall uniqueKeys l1 -> Forall uniqueKeys l2 ->
             map toTreeMapRecursive l1 = map toTreeMapRecursive l2 ->
             Forall2 sameUpToKeyOrder l1 l2.
Proof.
  induction 1 as [|a l1 Ha Hl IHl]; intros [|b l2] Hu1 Hu2 Heq; try discriminate Heq;
    [constructor|].
  cbn [map] in Heq. injection Heq as Hab Hrest.
  inversion Hu1; inversion Hu2; subst.
  constructor; [apply Ha; assumption | apply IHl; assumption].
Qed.

Lemma same_keys_permutation (o1 o2 : object) :
  NoDup (obj_keys o1) -> NoDup (obj_keys o2) ->
  (forall k a, obj_get k o1 = Some a -> exists b, obj_get k o2 = Some b /\ sameUpToKeyOrder a b) ->
  (forall k, obj_get k o1 = None -> obj_get k o2 = None) ->
  Permutation (obj_keys o1) (obj_keys o2).
Proof.
  intros Hnd1 Hnd2 HS HN. apply NoDup_Permutation; [assumption | assumption |].
  intros k. split; intros Hin.
  - destruct (obj_get k o1) as [a|] eqn:Hget.
    + destruct (HS _ _ Hget) as (b & Hb & _).
      destruct (in_dec string_dec k (obj_keys o2)) as [H|H]; [exact H|].
      apply obj_get_None_keys in H. congruence.
    + apply obj_get_None_keys in Hget. contradiction.
  - destruct (obj_get k o1) as [a|] eqn:Hget.
    + destruct (in_dec string_dec k (obj_keys o1)) as [H|H]; [exact H|].
      apply obj_get_None_keys in H. congruence.
    + apply HN in Hget. apply obj_get_None_keys in Hget. contradiction.
Qed.

(** Values that differ in the order of keys only have the same canonical tree. *)
Lemma same_toTree (v1 : json) :
  forall v2, sameUpToKeyOrder v1 v2 -> toTreeMapRecursive v1 = toTreeMapRecursive v2.
Proof.
  induction v1 as [| | | | l1 IH | o1 IH] using json_nested_ind; intros v2 Hsame.
  - inversion Hsame. reflexivity.
  - inversion Hsame. reflexivity.
  - inversion Hsame. reflexivity.
  - inversion Hsame. reflexivity.
  - inversion Hsame as [| | | | ? l2 Hl |]; subst.
    cbn [toTreeMapRecursive]. f_equal. apply map_toTree_same; assumption.
  - inversion Hsame as [| | | | | ? o2 Hnd1 Hnd2 HS HN]; subst.
    rewrite !toTreeMapRecursive_obj. f_equal.
    rewrite (SortFacts.sort_permutation _ _ (same_keys_permutation _ _ Hnd1 Hnd2 HS HN)).
    apply rebuild_ext. intros k _. rewrite !obj_get_map_values.
    destruct (obj_get k o1) as [a|] eqn:Hget.
    + destruct (HS _ _ Hget) as (b & Hb & Hab). rewrite Hb. cbn [option_map]. f_equal.
      rewrite Forall_forall in IH. apply (IH (k, a) (obj_get_In _ _ _ Hget)). exact Hab.
    + rewrite (HN _ Hget). reflexivity.
Qed.

(** Values with unique keys and the same canonical tree differ in the
    order of keys only. *)
Lemma toTree_same (v1 : json) :
  forall v2, uniqueKeys v1 -> uniqueKeys v2 ->
             toTreeMapRecursive v1 = toTreeMapRecursive v2 -> sameUpToKeyOrder v1 v2.
Proof.
  induction v1 as [| | | | l1 IH | o1 IH] using json_nested_ind;
    intros v2 Hu1 Hu2 Heq.
  - destruct v2; try discriminate Heq. constructor.
  - destruct v2; try discriminate Heq. injection Heq as <-. constructor.
  - destruct v2; try discriminate Heq. injection Heq as <-. constructor.
  - destruct v2; try discriminate Heq. injection Heq as <-. constructor.
  - destruct v2 as [| | | | l2 |]; try discriminate Heq.
    cbn [toTreeMapRecursive] in Heq. injection Heq as Heq.
    inversion Hu1; inversion Hu2; subst.
    constructor. apply map_toTree_inj; assumption.
  - destruct v2 as [| | | | | o2]; try discriminate Heq.
    destruct (toTreeMapRecursive (JObj o1)) as [| | | | |r1] eqn:E1;
      try (rewrite toTreeMapRecursive_obj in E1; discriminate E1).
    symmetry in Heq.
    pose proof (toTree_get o1 r1) as G1.
    pose proof (toTree_get o2 r1) as G2.
    inversion Hu1 as [| | | | | ? Hnd1 Hv1]; inversion Hu2 as [| | | | | ? Hnd2 Hv2]; subst.
    rewrite Forall_forall in IH, Hv1, Hv2.
    constructor; [assumption | assumption | |].
    + intros k a Hget.
      pose proof (G1 k E1) as Hk1. pose proof (G2 k Heq) as Hk2.
      rewrite Hget in Hk1. rewrite Hk1 in Hk2. cbn [option_map] in Hk2.
      destruct (obj_get k o2) as [b|] eqn:Hget2; [|discriminate Hk2].
      exists b. split; [reflexivity|]. injection Hk2 as Hab.
      apply (IH (k, a) (obj_get_In _ _ _ Hget)).
      * apply (Hv1 (k, a) (obj_get_In _ _ _ Hget)).
      * apply (Hv2 (k, b) (obj_get_In _ _ _ Hget2)).
      * exact Hab.
    + intros k Hget.
      pose proof (G1 k E1) as Hk1. pose proof (G2 k Heq) as Hk2.
      rewrite Hget in Hk1. rewrite Hk1 in Hk2. cbn [option_map] in Hk2.
      destruct (obj_get k o2); [discriminate Hk2 | reflexivity].
Qed.

End CanonicalFacts.

(** ** JSON text *)

Module JsonFacts.
Import JSON.

(** *** Strings *)

Lemma parseStringBody_quoteChar (c : ascii) (tail : string) :
  parseStringBody (quoteChar c ++ tail) = consTo c (parseStringBody tail).
Proof.
  destruct c as [[] [] [] [] [] [] [] []]; reflexivity.
Qed.

Lemma parseStringBody_quoteBody (s rest : string) :
  parseStringBody (quoteBody s ++ String dquote rest) = Some (s, rest).
Proof.
  induction s as [|c s IH]; [reflexivity|].
  cbn [quoteBody]. rewrite JsFacts.append_assoc, parseStringBody_quoteChar, IH. reflexivity.
Qed.

Lemma quote_append (s rest : string) :
  quote s ++ rest = String dquote (quoteBody s ++ String dquote rest).
Proof. unfold quote. cbn [String.append]. rewrite JsFacts.append_assoc. reflexivity. Qed.

(** *** Numbers *)

Lemma digit_numberChar (c : ascii) : Js.is_digit c = true -> isNumberChar c = true.
Proof. intros H. unfold isNumberChar. rewrite H. reflexivity. Qed.

Lemma dropDigits_chars (s : string) :
  allChars isNumberChar (dropDigits s) = true -> allChars isNumberChar s = true.
Proof.
  induction s as [|c s IH]; [reflexivity|]. cbn [dropDigits allChars].
  destruct (Js.is_digit c) eqn:Hd; [|exact (fun H => H)].
  intros H. rewrite (digit_numberChar _ Hd), (IH H). reflexivity.
Qed.

Lemma dropDigits_empty_chars (s : string) :
  dropDigits s = "" -> allChars isNumberChar s = true.
Proof. intros H. apply dropDigits_chars. rewrite H. reflexivity. Qed.

Lemma numExp_chars (s : string) : numExp s = true -> allChars isNumberChar s = true.
Proof.
  destruct s as [|c r]; [reflexivity|]. unfold numExp.
  destruct (Ascii.eqb c "e" || Ascii.eqb c "E") eqn:He; [|discriminate].
  intros H. apply andb_true_iff in H as [_ H]. apply String.eqb_eq in H.
  cbn [allChars].
  assert (Hc : isNumberChar c = true).
  { unfold isNumberChar. apply orb_true_iff in He as [-> | ->];
      rewrite ?orb_true_r; reflexivity. }
  rewrite Hc. cbn [andb].
  destruct r as [|sg r']; [reflexivity|].
  destruct (Ascii.eqb sg "+" || Ascii.eqb sg "-") eqn:Hs.
  - cbn [allChars].
    assert (Hsg : isNumberChar sg = true).
    { unfold isNumberChar. apply orb_true_iff in Hs as [-> | ->];
        rewrite ?orb_true_r; reflexivity. }
    rewrite Hsg. apply dropDigits_empty_chars, H.
  - apply dropDigits_empty_chars, H.
Qed.

Lemma numFrac_chars (s : string) : numFrac s = true -> allChars isNumberChar s = true.
Proof.
  destruct s as [|c r]; [reflexivity|]. unfold numFrac.
  destruct (Ascii.eqb c ".") eqn:Hdot; [|apply numExp_chars].
  intros H. apply andb_true_iff in H as [_ H]. cbn [allChars].
  assert (Hc : isNumberChar c = true).
  { unfold isNumberChar. rewrite Hdot, ?orb_true_r. reflexivity. }
  rewrite Hc. apply dropDigits_chars, numExp_chars, H.
Qed.

Lemma numInt_chars (s : string) :
  numInt s = true ->
  allChars isNumberChar s = true /\ exists c r, s = String c r /\ Js.is_digit c = true.
Proof.
  destruct s as [|c r]; [discriminate|]. unfold numInt.
  destruct (Ascii.eqb_spec c "0") as [->|Hz].
  - intros H. split; [|exists "0"%char, r; split; reflexivity].
    cbn [allChars]. rewrite (numFrac_chars _ H). reflexivity.
  - destruct (Js.is_digit c) eqn:Hd; [|discriminate].
    intros H. split; [|exists c, r; split; [reflexivity | exact Hd]].
    cbn [allChars]. rewrite (digit_numberChar _ Hd).
    apply dropDigits_chars, numFrac_chars, H.
Qed.

Lemma isJsonNumber_chars (r : string) :
  isJsonNumber r = true ->
  allChars isNumberChar r = true /\ exists c r', r = String c r' /\ numberStart c = true.
Proof.
  destruct r as [|c r']; [discriminate|]. unfold isJsonNumber.
  destruct (Ascii.eqb_spec c "-") as [->|Hm].
  - intros H. destruct (numInt_chars _ H) as [Hall _]. split.
    + cbn [allChars]. rewrite Hall. reflexivity.
    + exists "-"%char, r'. split; reflexivity.
  - intros H. destruct (numInt_chars _ H) as [Hall (c' & r'' & E & Hd)].
    injection E as <- <-. split; [exact Hall|].
    exists c, r'. split; [reflexivity|]. unfold numberStart. rewrite Hd. reflexivity.
Qed.

Lemma spanNumber_app (r rest : string) :
  allChars isNumberChar r = true -> delimited rest = true ->
  spanNumber (r ++ rest) = (r, rest).
Proof.
  intros Hall Hd. induction r as [|c r IH].
  - destruct rest as [|c rest]; [reflexivity|]. cbn in *.
    apply negb_true_iff in Hd. rewrite Hd. reflexivity.
  - cbn [allChars] in Hall. apply andb_true_iff in Hall as [Hc Hall].
    cbn [String.append spanNumber]. rewrite Hc, (IH Hall). reflexivity.
Qed.

Lemma parseNumber_app (r rest : string) :
  representableNumber (Finite r) -> delimited rest = true ->
  parseNumber (r ++ rest) = Some (JNum (Finite r), rest).
Proof.
  intros [Hnum Hnz] Hd. unfold parseNumber.
  rewrite (spanNumber_app _ _ (proj1 (isJsonNumber_chars _ Hnum)) Hd), Hnum.
  destruct (String.eqb_spec r "-0"); [contradiction | reflexivity].
Qed.

Lemma numberStart_dispatch (c : ascii) (s : string) (fuel : nat) :
  numberStart c = true ->
  parseValue (S fuel) (String c s) = parseNumber (String c s).
Proof.
  destruct c as [[] [] [] [] [] [] [] []]; try discriminate; intros _; reflexivity.
Qed.

Lemma parseValue_number (r rest : string) (fuel : nat) :
  representableNumber (Finite r) -> delimited rest = true ->
  parseValue (S fuel) (r ++ rest) = Some (JNum (Finite r), rest).
Proof.
  intros Hr Hd. destruct (isJsonNumber_chars _ (proj1 Hr)) as [_ (c & r' & -> & Hc)].
  cbn [String.append]. rewrite (numberStart_dispatch _ _ _ Hc).
  apply (parseNumber_app (String c r') rest Hr Hd).
Qed.

(** *** Values *)

Lemma weight_pos (v : json) : 1 <= weight v.
Proof. destruct v; simpl; lia. Qed.

Lemma weight_items (items : list json) :
  List.length items <= fold_right (fun x n => weight x + n) 0 items
  /\ forall x, In x items -> weight x <= fold_right (fun x n => weight x + n) 0 items.
Proof.
  induction items as [|y items [IHlen IHin]]; simpl.
  - split; [lia | intros x []].
  - pose proof (weight_pos y). split; [lia|].
    intros x [<- | Hin]; [lia|]. specialize (IHin x Hin). lia.
Qed.

Lemma weight_props (props : object) :
  List.length props <= fold_right (fun kv n => weight (snd kv) + n) 0 props
  /\ forall kv, In kv props ->
                weight (snd kv) <= fold_right (fun kv n => weight (snd kv) + n) 0 props.
Proof.
  induction props as [|y props [IHlen IHin]]; simpl.
  - split; [lia | intros x []].
  - pose proof (weight_pos (snd y)). split; [lia|].
    intros x [<- | Hin]; [lia|]. specialize (IHin x Hin). lia.
Qed.

Lemma numberStart_opens (c : ascii) : numberStart c = true -> opensValue c = true.
Proof. destruct c as [[] [] [] [] [] [] [] []]; try discriminate; reflexivity. Qed.

Lemma stringify_opens (v : json) :
  representable v -> exists c s, stringify v = String c s /\ opensValue c = true.
Proof.
  intros Hv. destruct v as [|[]|x|s|l|o]; try (eexists; eexists; split; reflexivity).
  inversion Hv as [| |? Hx| | |]; subst. destruct x as [r| | |]; try contradiction.
  destruct (isJsonNumber_chars _ (proj1 Hx)) as [_ (c & r' & -> & Hc)].
  exists c, r'. split; [reflexivity | apply numberStart_opens, Hc].
Qed.

Lemma array_dispatch (c : ascii) (t : string) (fuel : nat) :
  opensValue c = true ->
  parseValue (S fuel) (String "[" (String c t))
  = match parseElements (parseValue fuel) fuel (String c t) with
    | Some (vs, r) => Some (JArr vs, r)
    | None => None
    end.
Proof.
  destruct c as [[] [] [] [] [] [] [] []]; try discriminate; intros _; reflexivity.
Qed.

Lemma object_dispatch (c : ascii) (t : string) (fuel : nat) :
  opensValue c = true ->
  parseValue (S fuel) (String "{" (String c t))
  = match parseMembers (parseValue fuel) fuel (String c t) with
    | Some (kvs, r) => Some (JObj kvs, r)
    | None => None
    end.
Proof.
  destruct c as [[] [] [] [] [] [] [] []]; try discriminate; intros _; reflexivity.
Qed.

Section Containers.
Variable pv : string -> option (json * string).

Lemma parseElements_comma (fuel : nat) (s r : string) (x : json) :
  pv s = Some (x, String "," r) ->
  parseElements pv (S fuel) s
  = match parseElements pv fuel r with
    | Some (vs, r') => Some (x :: vs, r')
    | None => None
    end.
Proof. intros H. cbn [parseElements]. rewrite H. reflexivity. Qed.

Lemma parseElements_close (fuel : nat) (s r : string) (x : json) :
  pv s = Some (x, String "]" r) ->
  parseElements pv (S fuel) s = Some ([x], r).
Proof. intros H. cbn [parseElements]. rewrite H. reflexivity. Qed.

Lemma parseElements_join (items : list json) :
  items <> [] ->
  (forall x, In x items -> forall rest, delimited rest = true ->
                                        pv (stringify x ++ rest) = Some (x, rest)) ->
  forall fuel rest, List.length items <= fuel ->
    parseElements pv fuel (Js.join "," (map stringify items) ++ String "]" rest)
    = Some (items, rest).
Proof.
  induction items as [|x items IH]; [congruence|]. intros _ Hpv fuel rest Hfuel.
  destruct fuel as [|fuel]; [simpl in Hfuel; lia|].
  destruct items as [|y items].
  - apply parseElements_close. apply (Hpv x (or_introl eq_refl)). reflexivity.
  - change (Js.join "," (map stringify (x :: y :: items)))
      with (stringify x ++ String "," (Js.join "," (map stringify (y :: items)))).
    rewrite JsFacts.append_assoc.
    rewrite (parseElements_comma fuel _
               (Js.join "," (map stringify (y :: items)) ++ String "]" rest) x).
    + rewrite IH; [reflexivity | discriminate | | simpl in *; lia].
      intros z Hz. apply Hpv. right. exact Hz.
    + apply (Hpv x (or_introl eq_refl)). reflexivity.
Qed.

Lemma member_append (k : string) (v : json) (rest : string) :
  member (k, v) ++ rest
  = String dquote (quoteBody k ++ String dquote (String ":" (stringify v ++ rest))).
Proof.
  unfold member. cbn [fst snd]. rewrite JsFacts.append_assoc, quote_append.
  cbn [String.append]. reflexivity.
Qed.

Lemma parseMembers_comma (fuel : nat) (k : string) (v : json) (r2 r4 : string) :
  pv r2 = Some (v, String "," r4) ->
  parseMembers pv (S fuel) (String dquote (quoteBody k ++ String dquote (String ":" r2)))
  = match parseMembers pv fuel r4 with
    | Some (kvs, r5) => Some ((k, v) :: kvs, r5)
    | None => None
    end.
Proof.
  intros H. cbn [parseMembers skipWs]. change (isJsonWs dquote) with false. cbv iota.
  rewrite Ascii.eqb_refl, parseStringBody_quoteBody.
  cbn [skipWs]. change (isJsonWs ":") with false. cbv iota.
  rewrite Ascii.eqb_refl, H. reflexivity.
Qed.

Lemma parseMembers_close (fuel : nat) (k : string) (v : json) (r2 r4 : string) :
  pv r2 = Some (v, String "}" r4) ->
  parseMembers pv (S fuel) (String dquote (quoteBody k ++ String dquote (String ":" r2)))
  = Some ([(k, v)], r4).
Proof.
  intros H. cbn [parseMembers skipWs]. change (isJsonWs dquote) with false. cbv iota.
  rewrite Ascii.eqb_refl, parseStringBody_quoteBody.
  cbn [skipWs]. change (isJsonWs ":") with false. cbv iota.
  rewrite Ascii.eqb_refl, H. reflexivity.
Qed.

Lemma parseMembers_join (props : object) :
  props <> [] ->
  (forall kv, In kv props -> forall rest, delimited rest = true ->
              pv (stringify (snd kv) ++ rest) = Some (snd kv, rest)) ->
  forall fuel rest, List.length props <= fuel ->
    parseMembers pv fuel (Js.join "," (map member props) ++ String "}" rest)
    = Some (props, rest).
Proof.
  induction props as [|[k v] props IH]; [congruence|]. intros _ Hpv fuel rest Hfuel.
  destruct fuel as [|fuel]; [simpl in Hfuel; lia|].
  destruct props as [|y props].
  - cbn [map Js.join]. rewrite member_append.
    apply parseMembers_close. apply (Hpv (k, v) (or_introl eq_refl)). reflexivity.
  - change (Js.join "," (map member ((k, v) :: y :: props)))
      with (member (k, v) ++ String "," (Js.join "," (map member (y :: props)))).
    rewrite JsFacts.append_assoc, member_append.
    change (String "," (Js.join "," (map member (y :: props))) ++ String "}" rest)
      with (String "," (Js.join "," (map member (y :: props)) ++ String "}" rest)).
    rewrite (parseMembers_comma fuel k v _
               (Js.join "," (map member (y :: props)) ++ String "}" rest)).
    + rewrite IH; [reflexivity | discriminate | | simpl in *; lia].
      intros z Hz. apply Hpv. right. exact Hz.
    + apply (Hpv (k, v) (or_introl eq_refl)). reflexivity.
Qed.

End Containers.

Lemma stringify_arr (items : list json) (rest : string) :
  stringify (JArr items) ++ rest
  = String "[" (Js.join "," (map stringify items) ++ String "]" rest).
Proof.
  cbn [stringify String.append]. rewrite JsFacts.append_assoc. reflexivity.
Qed.

Lemma stringify_obj (props : object) (rest : string) :
  stringify (JObj props) ++ rest
  = String "{" (Js.join "," (map member props) ++ String "}" rest).
Proof.
  cbn [stringify String.append]. rewrite JsFacts.append_assoc. reflexivity.
Qed.

Lemma join_cons_opens (f : json -> string) (x : json) (xs : list json) (rest : string) :
  (exists c s, f x = String c s /\ opensValue c = true) ->
  exists c s, Js.join "," (map f (x :: xs)) ++ rest = String c s /\ opensValue c = true.
Proof.
  intros (c & s & E & Hc). destruct xs as [|y ys]; cbn [map Js.join]; rewrite E;
    eexists; eexists; (split; [reflexivity | exact Hc]).
Qed.

(** Reading back what [stringify] wrote returns the value and the text
    that followed it. *)
Lemma parseValue_stringify (v : json) :
  representable v ->
  forall fuel rest, weight v <= fuel -> delimited rest = true ->
                    parseValue fuel (stringify v ++ rest) = Some (v, rest).
Proof.
  induction v as [|b|x|s|items IH|props IH] using json_nested_ind;
    intros Hv fuel rest Hfuel Hrest;
    (destruct fuel as [|fuel]; [pose proof (weight_pos JNull); simpl in Hfuel; lia|]).
  - destruct rest; reflexivity.
  - destruct b, rest; reflexivity.
  - inversion Hv as [| |? Hx| | |]; subst. destruct x as [r| | |]; try contradiction.
    apply parseValue_number; assumption.
  - change (stringify (JStr s)) with (quote s).
    rewrite quote_append. cbn [parseValue skipWs]. change (isJsonWs dquote) with false.
    cbv iota. rewrite Ascii.eqb_refl, parseStringBody_quoteBody. reflexivity.
  - rewrite stringify_arr. inversion Hv as [| | | |? Hitems|]; subst.
    destruct items as [|x xs]; [reflexivity|].
    destruct (weight_items (x :: xs)) as [Hlen Hin]. cbn [weight] in Hfuel.
    rewrite Forall_forall in IH, Hitems.
    destruct (join_cons_opens stringify x xs (String "]" rest)
                (stringify_opens x (Hitems x (or_introl eq_refl)))) as (c & t & E & Hc).
    rewrite E, (array_dispatch _ _ _ Hc), <- E.
    rewrite parseElements_join; [reflexivity | discriminate | | lia].
    intros z Hz rest' Hrest'. apply IH; [exact Hz | apply Hitems, Hz | | exact Hrest'].
    specialize (Hin z Hz). lia.
  - rewrite stringify_obj. inversion Hv as [| | | | |? Hprops]; subst.
    destruct props as [|[k x] xs]; [reflexivity|].
    destruct (weight_props ((k, x) :: xs)) as [Hlen Hin]. cbn [weight] in Hfuel.
    rewrite Forall_forall in IH, Hprops.
    assert (E : exists t, Js.join "," (map member ((k, x) :: xs)) ++ String "}" rest
                          = String dquote t).
    { destruct xs as [|y ys]; cbn [map Js.join]; unfold member at 1; cbn [fst];
        unfold quote; cbn [String.append]; eexists; reflexivity. }
    destruct E as (t & E).
    rewrite E, (object_dispatch dquote t fuel eq_refl), <- E.
    rewrite parseMembers_join; [reflexivity | discriminate | | lia].
    intros z Hz rest' Hrest'. apply IH; [exact Hz | apply Hprops, Hz | | exact Hrest'].
    specialize (Hin z Hz). lia.
Qed.

(** [stringify] tells representable values apart. *)
Lemma stringify_inj (a b : json) :
  representable a -> representable b -> stringify a = stringify b -> a = b.
Proof.
  intros Ha Hb E.
  pose proof (parseValue_stringify a Ha (weight a + weight b) "" ltac:(lia) eq_refl) as Pa.
  pose proof (parseValue_stringify b Hb (weight a + weight b) "" ltac:(lia) eq_refl) as Pb.
  rewrite E in Pa. rewrite Pa in Pb. congruence.
Qed.

End JsonFacts.

(** ** The canonical fingerprint *)

Module FingerprintFacts.
Import ExcelToSchemaGeneratorUtil ExcelExamples CanonicalFacts.

Section Values.
Variable P : json -> Prop.

Lemma obj_replace_Forall (k : string) (v : json) (o : object) :
  Forall (fun kv => P (snd kv)) o -> P v ->
  Forall (fun kv => P (snd kv)) (obj_replace k v o).
Proof.
  intros Ho Hv. induction Ho as [|[k' v'] o Hkv Ho IH]; simpl; [constructor|].
  destruct (k' =? k); constructor; assumption.
Qed.

Lemma obj_insert_index_Forall (n : N) (k : string) (v : json) (o : object) :
  Forall (fun kv => P (snd kv)) o -> P v ->
  Forall (fun kv => P (snd kv)) (obj_insert_index n k v o).
Proof.
  intros Ho Hv. induction Ho as [|[k' v'] o Hkv Ho IH]; simpl.
  - repeat constructor. exact Hv.
  - destruct (Js.arrayIndex k') as [n'|]; [destruct (n' <? n)%N|];
      repeat (constructor; try assumption).
Qed.

Lemma obj_set_Forall (k : string) (v : json) (o : object) :
  Forall (fun kv => P (snd kv)) o -> P v ->
  Forall (fun kv => P (snd kv)) (obj_set o k v).
Proof.
  intros Ho Hv. unfold obj_set. destruct (obj_has k o).
  - apply obj_replace_Forall; assumption.
  - destruct (Js.arrayIndex k).
    + apply obj_insert_index_Forall; assumption.
    + apply Forall_app. split; [exact Ho | repeat constructor; exact Hv].
Qed.

Lemma rebuild_Forall (sub : object) (ks : list string) (acc : object) :
  Forall (fun kv => P (snd kv)) sub ->
  Forall (fun kv => P (snd kv)) acc ->
  Forall (fun kv => P (snd kv)) (fold_left (rebuildStep sub) ks acc).
Proof.
  intros Hsub. revert acc. induction ks as [|k ks IH]; intros acc Hacc; [exact Hacc|].
  cbn [fold_left]. apply IH. unfold rebuildStep.
  destruct (obj_get k sub) as [v|] eqn:Hget; [|exact Hacc].
  apply obj_set_Forall; [exact Hacc|].
  rewrite Forall_forall in Hsub. apply (Hsub (k, v)), obj_get_In, Hget.
Qed.
End Values.

(** The canonical tree of a representable value is representable. *)
Lemma toTree_representable (v : json) :
  representable v -> representable (toTreeMapRecursive v).
Proof.
  induction v as [| | | |items IH|props IH] using json_nested_ind; intros Hv;
    try exact Hv.
  - inversion Hv as [| | | |? Hitems|]; subst. cbn [toTreeMapRecursive]. constructor.
    apply Forall_map. rewrite Forall_forall in *. intros x Hx. apply IH; auto.
  - inversion Hv as [| | | | |? Hprops]; subst. rewrite toTreeMapRecursive_obj. constructor.
    apply rebuild_Forall; [|constructor].
    apply Forall_map. rewrite Forall_forall in *. intros kv Hkv. cbn [snd]. apply IH; auto.
Qed.

(** C7, amended.  Of values none of whose mappings has the key
    [__proto__]: two that differ only in the insertion order of the keys
    of their mappings, at any depth, have the same canonical text; two
    with unique keys whose numbers are all representable, and that differ
    in anything else (a primitive value, the elements of an array or their
    order, the keys of a mapping), have different canonical texts. *)
Theorem canonical_fingerprint :
  (forall v1 v2,
      ordinaryKeys v1 -> ordinaryKeys v2 ->
      sameUpToKeyOrder v1 v2 -> toCanonicalJson v1 = toCanonicalJson v2)
  /\ (forall v1 v2,
      ordinaryKeys v1 -> ordinaryKeys v2 ->
      representable v1 -> representable v2 ->
      uniqueKeys v1 -> uniqueKeys v2 ->
      ~ sameUpToKeyOrder v1 v2 ->
      toCanonicalJson v1 <> toCanonicalJson v2).
Proof.
  split.
  - intros v1 v2 _ _ H. unfold toCanonicalJson. rewrite (same_toTree _ _ H). reflexivity.
  - intros v1 v2 _ _ Hr1 Hr2 Hu1 Hu2 Hdiff Heq. apply Hdiff.
    apply toTree_same; [assumption | assumption |].
    apply JsonFacts.stringify_inj; [apply toTree_representable, Hr1
                                   | apply toTree_representable, Hr2 | exact Heq].
Qed.

Lemma same_obj_by_keys (o1 o2 : object) :
  NoDup (obj_keys o1) -> NoDup (obj_keys o2) ->
  List.length o2 <= List.length o1 ->
  Forall (fun kv => exists b, obj_get (fst kv) o2 = Some b /\ sameUpToKeyOrder (snd kv) b) o1 ->
  sameUpToKeyOrder (JObj o1) (JObj o2).
Proof.
  intros Hnd1 Hnd2 Hlen Hall. rewrite Forall_forall in Hall.
  constructor; [assumption | assumption | |].
  - intros k a Hget. apply (Hall (k, a)), obj_get_In, Hget.
  - intros k Hget. apply obj_get_None_keys. apply obj_get_None_keys in Hget.
    intros Hin. apply Hget.
    assert (Hincl : incl (obj_keys o2) (obj_keys o1)); [|apply Hincl, Hin].
    apply NoDup_length_incl; [exact Hnd1 | unfold obj_keys; rewrite !length_map; exact Hlen |].
    intros k' Hk'. apply in_map_iff in Hk' as ([k'' a] & <- & Hin').
    destruct (Hall _ Hin') as (b & Hb & _). cbn [fst] in *.
    destruct (in_dec string_dec k'' (obj_keys o2)) as [H|H]; [exact H|].
    apply obj_get_None_keys in H. congruence.
Qed.

Ltac distinct_keys := repeat constructor; simpl; intuition discriminate.

Ltac same_values :=
  repeat first
    [ apply same_null | apply same_bool | apply same_num | apply same_str
    | apply same_arr
    | apply Forall2_nil | apply Forall2_cons
    | apply same_obj_by_keys; [distinct_keys | distinct_keys | simpl; lia |]
    | apply Forall_nil | apply Forall_cons
    | eexists; split; [reflexivity|] ].

Lemma keys_same : sameUpToKeyOrder keysOneWay keysOtherWay.
Proof. unfold keysOneWay, keysOtherWay. same_values. Defined.

Ltac ordinary_keys := repeat (constructor || (intro; discriminate)).

Lemma canonical_fingerprint_witness :
  toCanonicalJson keysOneWay = toCanonicalJson keysOtherWay
  /\ toCanonicalJson (JObj [("a", JArr [JStr "x"; JStr "y"])])
     <> toCanonicalJson (JObj [("a", JArr [JStr "y"; JStr "x"])])
  /\ toCanonicalJson (JObj [("a", JStr "x")]) <> toCanonicalJson (JObj [("b", JStr "x")]).
Proof.
  split; [|split].
  - apply (proj1 canonical_fingerprint).
    + unfold keysOneWay. ordinary_keys.
    + unfold keysOtherWay. ordinary_keys.
    + exact keys_same.
  - apply (proj2 canonical_fingerprint).
    + ordinary_keys.
    + ordinary_keys.
    + repeat constructor.
    + repeat constructor.
    + distinct_keys.
    + distinct_keys.
    + intros H. inversion H as [| | | | |o1 o2 Hnd1 Hnd2 Hsome Hnone]; subst.
      destruct (Hsome "a" _ eq_refl) as (b & Hb & Hab). injection Hb as <-.
      inversion Hab as [| | | |? ? Hl|]; subst.
      inversion Hl as [|? ? ? ? Hxy _]; subst. inversion Hxy.
  - apply (proj2 canonical_fingerprint).
    + ordinary_keys.
    + ordinary_keys.
    + repeat constructor.
    + repeat constructor.
    + distinct_keys.
    + distinct_keys.
    + intros H. inversion H as [| | | | |o1 o2 Hnd1 Hnd2 Hsome Hnone]; subst.
      destruct (Hsome "a" _ eq_refl) as (b & Hb & _). discriminate Hb.
Defined.

(** C7 as first stated fails: the field schemas read from the cells
    [Infinity] and [-Infinity] differ in a primitive value and have the
    same canonical text, in which either bound is written [null]. *)
Lemma canonical_fingerprint_counterexample :
  buildFieldSchema (builtins := WholeNumbers.builtins) boundedAbove
  = JObj [("type", JStr "number"); ("minimum", JNum (Infinity false))]
  /\ buildFieldSchema (builtins := WholeNumbers.builtins) boundedBelow
     = JObj [("type", JStr "number"); ("minimum", JNum (Infinity true))]
  /\ ~ sameUpToKeyOrder (buildFieldSchema (builtins := WholeNumbers.builtins) boundedAbove)
                        (buildFieldSchema (builtins := WholeNumbers.builtins) boundedBelow)
  /\ toCanonicalJson (buildFieldSchema (builtins := WholeNumbers.builtins) boundedAbove)
     = toCanonicalJson (buildFieldSchema (builtins := WholeNumbers.builtins) boundedBelow).
Proof.
  split; [reflexivity|]. split; [reflexivity|]. split; [|reflexivity].
  change (~ sameUpToKeyOrder
            (JObj [("type", JStr "number"); ("minimum", JNum (Infinity false))])
            (JObj [("type", JStr "number"); ("minimum", JNum (Infinity true))])).
  intros H. inversion H as [| | | | |o1 o2 Hnd1 Hnd2 Hsome Hnone]; subst.
  destruct (Hsome "minimum" (JNum (Infinity false)) eq_refl) as (b & Hb & Hab).
  injection Hb as <-. inversion Hab.
Qed.

End FingerprintFacts.

(** ** Deduplication *)

Module DedupFacts.
Import ExcelToSchemaGeneratorUtil ExcelExamples InferrerExamples.

(** C2 at the failing input.  Before deduplication the first slot of the
    first sheet holds the one-field block.  Deduplication names both
    repeated blocks [address_list], keeps the definition written last, and
    puts the same reference in all four slots: the first slot of the first
    sheet now resolves to the two-field block. *)
Theorem dedup_changes_resolution :
  slotAt (buildJsonSchema (builtins := WholeNumbers.builtins) collidingWorkbook) 0 0
  = Some streetOnly
  /\ toCanonicalJson streetOnly <> toCanonicalJson streetAndCity
  /\ exists schema resolved,
       generate (builtins := WholeNumbers.builtins) collidingWorkbook = Ret schema
       /\ slotAt schema 0 0 = Some (refTo "address_list")
       /\ SchemaRefResolverUtil.resolveIfRef 1 (refTo "address_list") schema = Ret resolved
       /\ toCanonicalJson resolved = toCanonicalJson streetAndCity
       /\ toCanonicalJson resolved <> toCanonicalJson streetOnly.
Proof.
  split; [vm_compute; reflexivity|].
  split; [vm_compute; discriminate|].
  exists (returned JNull (generate (builtins := WholeNumbers.builtins) collidingWorkbook)).
  exists streetAndCityCanonical.
  split; [vm_compute; reflexivity|].
  split; [vm_compute; reflexivity|].
  split; [vm_compute; reflexivity|].
  split; [vm_compute; reflexivity | vm_compute; discriminate].
Qed.

(** *** The instance-inference front-end *)

(** C6 at the failing input.  The two block schemas have different
    fingerprints, each used twice, and the same sum of code units, hence
    the same definition name.  After deduplication the definitions hold
    one entry, the block written last, and all four slots refer to it: the
    first block, used twice, is in no definition, and is merged with a
    block of another shape. *)
Theorem dedup_merges_distinct_blocks :
  JsonToSchemaGeneratorUtil.handleTableBlock (scores numberThenText) "scores"
  = Ret numberColumnFirst
  /\ JsonToSchemaGeneratorUtil.handleTableBlock (scores textThenNumber) "scores"
     = Ret textColumnFirst
  /\ JSON.stringify numberColumnFirst <> JSON.stringify textColumnFirst
  /\ Js.natToString (JsonToSchemaGeneratorUtil.charCodeSum (JSON.stringify numberColumnFirst))
     = Js.natToString (JsonToSchemaGeneratorUtil.charCodeSum (JSON.stringify textColumnFirst))
  /\ exists pre schema,
       JsonToSchemaGeneratorUtil.buildSchema collidingData = Ret pre
       /\ map (fun sheet => slotAt pre sheet 0) [0; 1; 2; 3]
          = [Some numberColumnFirst; Some numberColumnFirst;
             Some textColumnFirst; Some textColumnFirst]
       /\ JsonToSchemaGeneratorUtil.generate collidingData = Ret schema
       /\ prop schema "definitions" = Some (JObj [("scores_39532", textColumnFirst)])
       /\ map (fun sheet => slotAt schema sheet 0) [0; 1; 2; 3]
          = [Some (refTo "scores_39532"); Some (refTo "scores_39532");
             Some (refTo "scores_39532"); Some (refTo "scores_39532")].
Proof.
  split; [vm_compute; reflexivity|].
  split; [vm_compute; reflexivity|].
  split; [vm_compute; discriminate|].
  split; [vm_compute; reflexivity|].
  exists (returned JNull (JsonToSchemaGeneratorUtil.buildSchema collidingData)),
         (returned JNull (JsonToSchemaGeneratorUtil.generate collidingData)).
  split; [vm_compute; reflexivity|].
  split; [vm_compute; reflexivity|].
  split; [vm_compute; reflexivity|].
  split; vm_compute; reflexivity.
Qed.

End DedupFacts.

(** * Further properties of the code *)

(** Two steps of the examples: the keys of a given value are ordinary; a
    member of a given list is one of its elements. *)
Ltac ordinary := vm_compute; repeat (constructor || (intro; discriminate)).

Ltac either :=
  repeat match goal with
         | H : _ \/ _ |- _ => destruct H
         | H : False |- _ => destruct H
         end.

Module SheetScanFacts.
Import ExcelToSchemaGeneratorUtil ExcelTerms ScanTerms.

Lemma blank_opens_nothing (r : row) : isBlankRow r = true -> opensBlock r = false.
Proof.
  unfold opensBlock, cellAt. destruct r as [|c r]; [reflexivity|].
  cbn [isBlankRow forallb nth]. intros H. apply andb_true_iff in H as [H _].
  apply Nat.eqb_eq in H. destruct (cellText c); [reflexivity | discriminate].
Qed.

(** The inner loop takes the field rows and stops where the block ends. *)
Lemma gatherFields_fieldRows (metaCols : metaColumns) (fieldRows post : list row) :
  Forall (fun r => fieldRow r = true) fieldRows ->
  blockEnds post ->
  gatherFields metaCols (fieldRows ++ post)%list
  = (map (fun r => parseFieldRow r metaCols) fieldRows, afterBlock post).
Proof.
  intros Hf Hpost. induction Hf as [|r rs Hr Hrs IH].
  - cbn [app map]. destruct post as [|p post]; [reflexivity|].
    cbn [gatherFields afterBlock]. destruct (isBlankRow p) eqn:Hb; [reflexivity|].
    destruct Hpost as [Hp | Hp]; [congruence|]. rewrite Hp. reflexivity.
  - cbn [app map gatherFields]. unfold fieldRow in Hr.
    apply andb_true_iff in Hr as [Hb Hh].
    apply negb_true_iff in Hb. apply negb_true_iff in Hh. unfold opensBlock in Hh.
    rewrite Hb, Hh, IH. reflexivity.
Qed.

(** What the inner loop returns, whatever the rows: the fields of a run of
    field rows, and a suffix of the rows as the rest. *)
Lemma gatherFields_split (metaCols : metaColumns) (rows : list row) :
  exists taken,
    fst (gatherFields metaCols rows) = map (fun r => parseFieldRow r metaCols) taken
    /\ Forall (fun r => fieldRow r = true) taken
    /\ exists dropped, rows = (taken ++ dropped ++ snd (gatherFields metaCols rows))%list
                       /\ Forall (fun r => opensBlock r = false) dropped.
Proof.
  induction rows as [|r rows IH].
  - exists []. repeat split; [constructor|]. exists []. split; [reflexivity | constructor].
  - cbn [gatherFields]. destruct (isBlankRow r) eqn:Hb.
    + exists []. repeat split; [constructor|]. exists [r]. split; [reflexivity|].
      constructor; [apply blank_opens_nothing, Hb | constructor].
    + destruct (isBlockHeading (cellText (cellAt r 0))) eqn:Hh.
      * exists []. repeat split; [constructor|]. exists []. split; [reflexivity | constructor].
      * destruct IH as (taken & Hfs & Htaken & dropped & Hrows & Hdropped).
        destruct (gatherFields metaCols rows) as [fs remaining]. cbn [fst snd] in *.
        exists (r :: taken). split; [cbn [map]; rewrite Hfs; reflexivity|].
        split.
        { constructor; [|exact Htaken]. unfold fieldRow, opensBlock. rewrite Hb, Hh. reflexivity. }
        exists dropped. split; [|exact Hdropped]. cbn [app]. rewrite <- Hrows. reflexivity.
Qed.

(** X1.  A block in a sheet.  Rows that open no block are skipped.  A row
    whose first cell ends in [_list] or [_table] opens a block; the row
    after it is the meta row, and the rows after that which are not blank
    and open no block are its fields, one field per row, up to the end of
    the sheet, a blank row or the next heading.  The scan yields that block
    first and goes on behind it; a blank row that ends the block is
    consumed. *)
Theorem parseBlocksInSheet_segment
        (pre : list row) (heading metaHeaderRow : row) (fieldRows post : list row) :
  Forall (fun r => opensBlock r = false) pre ->
  opensBlock heading = true ->
  Forall (fun r => fieldRow r = true) fieldRows ->
  blockEnds post ->
  parseBlocksInSheet (pre ++ heading :: metaHeaderRow :: fieldRows ++ post)%list
  = blockOf heading metaHeaderRow fieldRows :: parseBlocksInSheet (afterBlock post).
Proof.
  intros Hpre Hh Hf Hpost.
  rewrite ExcelFacts.parseBlocksInSheet_skip_all by exact Hpre.
  rewrite ExcelFacts.parseBlocksInSheet_heading by exact Hh.
  cbn [hd tl]. cbv zeta. rewrite gatherFields_fieldRows by assumption.
  reflexivity.
Qed.

Lemma scan_blocks (sheetData : list row) (n : nat) :
  forall rows, List.length rows <= n -> incl rows sheetData ->
    Forall (readFrom sheetData) (parseBlocksInSheet rows)
    /\ List.length (parseBlocksInSheet rows) <= List.length (filter opensBlock rows).
Proof.
  induction n as [|n IH]; intros rows Hlen Hincl.
  - destruct rows; [|simpl in Hlen; lia]. split; [constructor | simpl; lia].
  - destruct rows as [|r rest]; [split; [constructor | simpl; lia]|].
    cbn [List.length] in Hlen. cbn [filter].
    destruct (opensBlock r) eqn:Hr.
    + rewrite ExcelFacts.parseBlocksInSheet_heading by exact Hr. cbv zeta.
      destruct (gatherFields_split (findMetaColumns (hd [] rest)) (tl rest))
        as (taken & Hfs & Htaken & dropped & Hrows & Hdropped).
      set (remaining := snd (gatherFields (findMetaColumns (hd [] rest)) (tl rest))) in *.
      assert (Htl : incl (tl rest) sheetData).
      { intros x Hx. apply Hincl. right. destruct rest; [destruct Hx | right; exact Hx]. }
      assert (Htllen : List.length (tl rest) <= List.length rest) by (destruct rest; simpl; lia).
      assert (Hrem : incl remaining sheetData).
      { intros x Hx. apply Htl. rewrite Hrows. apply in_or_app. right.
        apply in_or_app. right. exact Hx. }
      assert (Hremlen : List.length remaining <= List.length (tl rest)).
      { pose proof (f_equal (@List.length _) Hrows) as E. rewrite !length_app in E. lia. }
      destruct (IH remaining ltac:(lia) Hrem) as [Hall Hcount].
      split.
      * constructor; [|exact Hall].
        exists r, (hd [] rest), taken. split; [apply Hincl; left; reflexivity|].
        split; [exact Hr|]. split.
        { apply Forall_forall. intros x Hx. split.
          - apply Htl. rewrite Hrows. apply in_or_app. left. exact Hx.
          - rewrite Forall_forall in Htaken. apply Htaken, Hx. }
        unfold blockOf. rewrite Hfs. reflexivity.
      * cbn [List.length].
        assert (List.length (filter opensBlock remaining)
                <= List.length (filter opensBlock rest)); [|lia].
        assert (List.length (filter opensBlock (tl rest))
                <= List.length (filter opensBlock rest)).
        { destruct rest as [|x rest]; [simpl; lia|]. cbn [tl filter].
          destruct (opensBlock x); simpl; lia. }
        pose proof (f_equal (fun l => List.length (filter opensBlock l)) Hrows) as E.
        cbv beta in E. rewrite !filter_app, !length_app in E. lia.
    + rewrite ExcelFacts.parseBlocksInSheet_skip by exact Hr.
      apply IH; [lia|]. intros x Hx. apply Hincl. right. exact Hx.
Qed.

(** X2.  Every block the scan of a sheet yields was opened by a heading row
    of the sheet, and its fields were read from field rows of the sheet
    under one meta row.  The scan yields at most as many blocks as the sheet
    has heading rows. *)
Theorem parseBlocksInSheet_blocks (sheetData : list row) :
  Forall (readFrom sheetData) (parseBlocksInSheet sheetData)
  /\ List.length (parseBlocksInSheet sheetData) <= List.length (filter opensBlock sheetData).
Proof. apply (scan_blocks sheetData (List.length sheetData)); [lia | apply incl_refl]. Qed.

(** The lookup in the map the meta row yields, from column [index] on. *)
Lemma findMetaColumnsFrom_lookup (colName : string) (cells : row) :
  forall index map,
    match metaGet colName (findMetaColumnsFrom index cells map) with
    | Some i =>
        (index <= i /\ i < index + List.length cells
         /\ metaNameAt cells (i - index) = Some colName
         /\ forall j, i - index < j -> j < List.length cells -> metaNameAt cells j <> Some colName)
        \/ (metaGet colName map = Some i
            /\ forall j, j < List.length cells -> metaNameAt cells j <> Some colName)
    | None =>
        metaGet colName map = None
        /\ forall j, j < List.length cells -> metaNameAt cells j <> Some colName
    end.
Proof.
  induction cells as [|value rest IH]; intros index map.
  - cbn [findMetaColumnsFrom]. destruct (metaGet colName map) eqn:Hm.
    + right. split; [reflexivity|]. intros j Hj. simpl in Hj. lia.
    + split; [reflexivity|]. intros j Hj. simpl in Hj. lia.
  - cbn [findMetaColumnsFrom]. cbv zeta.
    match goal with
    | |- context [findMetaColumnsFrom (S index) rest ?m] => set (map' := m)
    end.
    specialize (IH (S index) map').
    assert (Hshift : forall j, metaNameAt (value :: rest) (S j) = metaNameAt rest j) by reflexivity.
    assert (Hhead : metaNameAt (value :: rest) 0 = metaKey (Js.toLowerCase (cellText value)))
      by reflexivity.
    assert (Hmap' : metaGet colName map'
                    = if match metaNameAt (value :: rest) 0 with
                         | Some k => k =? colName | None => false end
                      then Some index else metaGet colName map).
    { rewrite Hhead. unfold map'. destruct (metaKey (Js.toLowerCase (cellText value))); [|reflexivity].
      reflexivity. }
    destruct (metaGet colName (findMetaColumnsFrom (S index) rest map')) as [i|] eqn:Hres;
      cbv beta iota.
    + destruct IH as [(Hle & Hlt & Hname & Hlast) | (Hget & Hnone)].
      * left. cbn [List.length]. split; [lia|]. split; [lia|].
        replace (i - index) with (S (i - S index)) by lia. rewrite Hshift. split; [exact Hname|].
        intros j Hj Hjlen. destruct j as [|j]; [lia|]. rewrite Hshift. apply Hlast; lia.
      * rewrite Hmap' in Hget.
        destruct (metaNameAt (value :: rest) 0) as [k|] eqn:Hk.
        -- destruct (String.eqb_spec k colName) as [Heq | Hne].
           ++ inversion Hget; subst i. left. cbn [List.length].
              split; [lia|]. split; [lia|]. rewrite Nat.sub_diag. split; [congruence|].
              intros j Hj Hjlen. destruct j as [|j]; [lia|]. rewrite Hshift. apply Hnone. lia.
           ++ right. split; [exact Hget|]. intros j Hjlen. destruct j as [|j].
              ** rewrite Hk. congruence.
              ** rewrite Hshift. apply Hnone. simpl in Hjlen. lia.
        -- right. split; [exact Hget|]. intros j Hjlen. destruct j as [|j].
           ++ rewrite Hk. discriminate.
           ++ rewrite Hshift. apply Hnone. simpl in Hjlen. lia.
    + destruct IH as (Hget & Hnone). rewrite Hmap' in Hget.
      destruct (metaNameAt (value :: rest) 0) as [k|] eqn:Hk.
      * destruct (String.eqb_spec k colName) as [Heq | Hne]; [discriminate|].
        split; [exact Hget|]. intros j Hjlen. destruct j as [|j].
        -- rewrite Hk. congruence.
        -- rewrite Hshift. apply Hnone. simpl in Hjlen. lia.
      * split; [exact Hget|]. intros j Hjlen. destruct j as [|j].
        -- rewrite Hk. discriminate.
        -- rewrite Hshift. apply Hnone. simpl in Hjlen. lia.
Qed.

(** X3.  The columns of a meta row.  A meta name is mapped to the last
    column of the meta row whose cell, trimmed and in lower case, stands for
    it; a name for which no column of the row stands is not mapped. *)
Theorem findMetaColumns_last_wins (metaHeaderRow : row) (colName : string) :
  match metaGet colName (findMetaColumns metaHeaderRow) with
  | Some i =>
      i < List.length metaHeaderRow
      /\ metaNameAt metaHeaderRow i = Some colName
      /\ forall j, i < j -> j < List.length metaHeaderRow ->
                   metaNameAt metaHeaderRow j <> Some colName
  | None =>
      forall j, j < List.length metaHeaderRow -> metaNameAt metaHeaderRow j <> Some colName
  end.
Proof.
  unfold findMetaColumns.
  pose proof (findMetaColumnsFrom_lookup colName metaHeaderRow 0 []) as H.
  destruct (metaGet colName (findMetaColumnsFrom 0 metaHeaderRow [])) as [i|].
  - destruct H as [(Hle & Hlt & Hname & Hlast) | (Hget & _)]; [|discriminate].
    rewrite Nat.sub_0_r in *. repeat split; [lia | exact Hname | exact Hlast].
  - apply H.
Qed.

Lemma parseBlocksInSheet_segment_witness :
  parseBlocksInSheet
    ([[CStr "Staff"]]
       ++ [CStr "address_list"] :: [CStr "name"; CStr "type"]
       :: [[CStr "street"; CStr "string"]; [CStr "city"; CStr "string"]]
       ++ [[]; [CStr "left over"]])%list
  = blockOf [CStr "address_list"] [CStr "name"; CStr "type"]
      [[CStr "street"; CStr "string"]; [CStr "city"; CStr "string"]]
      :: parseBlocksInSheet (afterBlock [[]; [CStr "left over"]]).
Proof.
  apply parseBlocksInSheet_segment.
  - repeat constructor.
  - reflexivity.
  - repeat constructor.
  - left. reflexivity.
Defined.

End SheetScanFacts.

Module NumeralFacts.
Import JSON.

Lemma dropDigits_uint (d : Decimal.uint) (rest : string) :
  dropDigits (NilEmpty.string_of_uint d) = "".
Proof. induction d; simpl; try reflexivity; exact IHd. Qed.

Lemma unorm_json (d : Decimal.uint) :
  isJsonNumber (NilEmpty.string_of_uint (Decimal.unorm d)) = true
  /\ exists c r, NilEmpty.string_of_uint (Decimal.unorm d) = String c r /\ Js.is_digit c = true
                 /\ (c = "0"%char -> r = "").
Proof.
  unfold Decimal.unorm.
  pose proof (DecimalFacts.nzhead_nonzero d) as Hnz.
  destruct (Decimal.nzhead d) as [|u|u|u|u|u|u|u|u|u|u] eqn:E.
  - split; [reflexivity|]. exists "0"%char, "". repeat split.
  - exfalso. apply (Hnz u). reflexivity.
  - split; [cbn; rewrite (dropDigits_uint u ""); reflexivity|].
    eexists _, _. split; [reflexivity|]. split; [reflexivity | discriminate].
  - split; [cbn; rewrite (dropDigits_uint u ""); reflexivity|].
    eexists _, _. split; [reflexivity|]. split; [reflexivity | discriminate].
  - split; [cbn; rewrite (dropDigits_uint u ""); reflexivity|].
    eexists _, _. split; [reflexivity|]. split; [reflexivity | discriminate].
  - split; [cbn; rewrite (dropDigits_uint u ""); reflexivity|].
    eexists _, _. split; [reflexivity|]. split; [reflexivity | discriminate].
  - split; [cbn; rewrite (dropDigits_uint u ""); reflexivity|].
    eexists _, _. split; [reflexivity|]. split; [reflexivity | discriminate].
  - split; [cbn; rewrite (dropDigits_uint u ""); reflexivity|].
    eexists _, _. split; [reflexivity|]. split; [reflexivity | discriminate].
  - split; [cbn; rewrite (dropDigits_uint u ""); reflexivity|].
    eexists _, _. split; [reflexivity|]. split; [reflexivity | discriminate].
  - split; [cbn; rewrite (dropDigits_uint u ""); reflexivity|].
    eexists _, _. split; [reflexivity|]. split; [reflexivity | discriminate].
  - split; [cbn; rewrite (dropDigits_uint u ""); reflexivity|].
    eexists _, _. split; [reflexivity|]. split; [reflexivity | discriminate].
Qed.

Lemma to_uint_unorm (n : nat) : Nat.to_uint n = Decimal.unorm (Nat.to_uint n).
Proof.
  rewrite <- DecimalNat.Unsigned.to_of. rewrite DecimalNat.Unsigned.of_to. reflexivity.
Qed.

(** The decimal numeral of a natural number is a JSON number. *)
Lemma numberOfNat_representable (n : nat) : representableNumber (numberOfNat n).
Proof.
  unfold numberOfNat, representableNumber, Js.natToString. rewrite to_uint_unorm.
  destruct (unorm_json (Nat.to_uint n)) as (Hjson & c & r & Heq & Hdigit & _).
  split; [exact Hjson|]. rewrite Heq. intros H. inversion H; subst. discriminate.
Qed.

Lemma N_to_uint_unorm (n : N) : N.to_uint n = Decimal.unorm (N.to_uint n).
Proof.
  rewrite <- DecimalN.Unsigned.to_of. rewrite DecimalN.Unsigned.of_to. reflexivity.
Qed.

End NumeralFacts.

Module OwnOrderFacts.

Lemma arrayIndex_inj (k k' : string) (n : N) :
  Js.arrayIndex k = Some n -> Js.arrayIndex k' = Some n -> k = k'.
Proof.
  unfold Js.arrayIndex. intros H H'.
  destruct k as [|c k]; [discriminate|]. destruct k' as [|c' k']; [discriminate|].
  destruct (Js.digitsValue 0 (String c k)) as [m|]; [|discriminate].
  destruct (Js.digitsValue 0 (String c' k')) as [m'|]; [|discriminate].
  destruct ((Js.NToString m =? String c k) && (m <? 4294967295)%N) eqn:E; [|discriminate].
  destruct ((Js.NToString m' =? String c' k') && (m' <? 4294967295)%N) eqn:E'; [|discriminate].
  injection H as ->. injection H' as ->.
  apply andb_true_iff in E as [E _]. apply andb_true_iff in E' as [E' _].
  apply String.eqb_eq in E, E'. congruence.
Qed.

Lemma obj_get_app (k : string) (o o' : object) :
  obj_get k (o ++ o')%list
  = match obj_get k o with Some v => Some v | None => obj_get k o' end.
Proof.
  induction o as [|[k0 v0] o IH]; [reflexivity|]. simpl.
  destruct (k0 =? k); [reflexivity | exact IH].
Qed.

Lemma obj_keys_replace (k : string) (v : json) (o : object) :
  obj_keys (obj_replace k v o) = obj_keys o.
Proof.
  induction o as [|[k0 v0] o IH]; [reflexivity|]. simpl.
  destruct (k0 =? k); simpl; [reflexivity | rewrite IH; reflexivity].
Qed.

Lemma obj_replace_app_found (k : string) (v : json) (o o' : object) :
  obj_has k o = true -> obj_replace k v (o ++ o')%list = (obj_replace k v o ++ o')%list.
Proof.
  unfold obj_has. induction o as [|[k0 v0] o IH]; simpl; [discriminate|].
  destruct (k0 =? k); [reflexivity|]. intros H. simpl. rewrite IH by exact H. reflexivity.
Qed.

Lemma obj_replace_app_last (k : string) (v v' : json) (o : object) :
  obj_get k o = None -> obj_replace k v (o ++ [(k, v')])%list = (o ++ [(k, v)])%list.
Proof.
  induction o as [|[k0 v0] o IH]; simpl.
  - rewrite String.eqb_refl. reflexivity.
  - destruct (k0 =? k); [discriminate|]. intros H. rewrite IH by exact H. reflexivity.
Qed.

Lemma indexBelow_spec (n : N) (o : object) :
  forallb (indexBelow n) o = true
  <-> Forall (fun kv => exists n', Js.arrayIndex (fst kv) = Some n' /\ (n' < n)%N) o.
Proof.
  rewrite forallb_forall, Forall_forall. unfold indexBelow. split; intros H kv Hin.
  - specialize (H kv Hin). destruct (Js.arrayIndex (fst kv)) as [n'|]; [|discriminate].
    exists n'. split; [reflexivity | apply N.ltb_lt, H].
  - destruct (H kv Hin) as (n' & -> & Hlt). apply N.ltb_lt, Hlt.
Qed.

Lemma obj_insert_index_app (n : N) (k : string) (v : json) (o : object) (x : string * json) :
  obj_insert_index n k v (o ++ [x])%list
  = if forallb (indexBelow n) o
    then if indexBelow n x then (o ++ [x; (k, v)])%list else (o ++ [(k, v); x])%list
    else (obj_insert_index n k v o ++ [x])%list.
Proof.
  induction o as [|[k0 v0] o IH].
  - cbn [app forallb obj_insert_index]. unfold indexBelow. destruct x as [kx vx]. cbn [fst].
    destruct (Js.arrayIndex kx) as [n'|]; [destruct (n' <? n)%N|]; reflexivity.
  - cbn [app forallb obj_insert_index]. unfold indexBelow at 1. cbn [fst].
    destruct (Js.arrayIndex k0) as [n'|]; [destruct (n' <? n)%N|]; cbn [andb]; try reflexivity.
    rewrite IH. destruct (forallb (indexBelow n) o); [destruct (indexBelow n x)|]; reflexivity.
Qed.

Lemma obj_insert_index_last (n : N) (k : string) (v : json) (o : object) :
  forallb (indexBelow n) o = true -> obj_insert_index n k v o = (o ++ [(k, v)])%list.
Proof.
  induction o as [|[k0 v0] o IH]; [reflexivity|].
  cbn [forallb obj_insert_index app]. unfold indexBelow at 1. cbn [fst].
  destruct (Js.arrayIndex k0) as [n'|]; [|discriminate].
  destruct (n' <? n)%N; [|discriminate]. cbn [andb]. intros H. rewrite IH by exact H. reflexivity.
Qed.

(** A property definition at the end of an object in own-property order
    appends to it. *)
Lemma obj_set_snoc (o : object) (k : string) (v : json) :
  obj_get k o = None ->
  (forall n, Js.arrayIndex k = Some n ->
             Forall (fun kv => exists n', Js.arrayIndex (fst kv) = Some n' /\ (n' < n)%N) o) ->
  obj_set o k v = (o ++ [(k, v)])%list.
Proof.
  intros Hnone Hidx. unfold obj_set, obj_has. rewrite Hnone.
  destruct (Js.arrayIndex k) as [n|]; [|reflexivity].
  apply obj_insert_index_last, indexBelow_spec, Hidx. reflexivity.
Qed.

(** An object in own-property order is the one its members define, taken
    in their order. *)
Lemma objectOfMembers_ownOrder (o : object) :
  ownOrder o -> JSON.objectOfMembers o = o.
Proof.
  unfold JSON.objectOfMembers. induction 1 as [|o k v Ho IH Hnone Hidx]; [reflexivity|].
  rewrite fold_left_app. cbn [fold_left fst snd]. rewrite IH. apply obj_set_snoc; assumption.
Qed.

Lemma ownOrder_keys (o o' : object) :
  obj_keys o = obj_keys o' -> ownOrder o -> ownOrder o'.
Proof.
  intros Hk Ho. revert o' Hk. induction Ho as [|o k v Ho IH Hnone Hidx]; intros o' Hk.
  - destruct o'; [constructor | discriminate].
  - destruct (exists_last (l := o')) as (p & [k' v'] & ->).
    { intros ->. unfold obj_keys in Hk. rewrite map_app in Hk. destruct (map fst o); discriminate. }
    unfold obj_keys in Hk. rewrite !map_app in Hk. apply app_inj_tail in Hk as [Hk Hlast].
    cbn in Hlast. subst k'. constructor.
    + apply IH, Hk.
    + apply CanonicalFacts.obj_get_None_keys. unfold obj_keys. rewrite <- Hk.
      apply CanonicalFacts.obj_get_None_keys, Hnone.
    + intros n Hn. specialize (Hidx n Hn).
      apply Forall_forall. intros kv Hin.
      assert (Hkey : In (fst kv) (map fst o)) by (rewrite Hk; apply in_map, Hin).
      apply in_map_iff in Hkey as (kv0 & Heq & Hin0).
      rewrite Forall_forall in Hidx. rewrite <- Heq. apply Hidx, Hin0.
Qed.

Lemma ownOrder_map_values (f : json -> json) (o : object) :
  ownOrder o -> ownOrder (map (fun kv => (fst kv, f (snd kv))) o).
Proof.
  apply ownOrder_keys. unfold obj_keys. rewrite map_map. reflexivity.
Qed.

(** A property assignment keeps the own-property order. *)
Lemma obj_set_ownOrder (o : object) (k : string) (v : json) :
  ownOrder o -> ownOrder (obj_set o k v).
Proof.
  induction 1 as [|o k' v' Ho IH Hnone Hidx].
  - rewrite obj_set_snoc; [|reflexivity | intros; constructor].
    apply (ownOrder_snoc [] k v); [constructor | reflexivity | intros; constructor].
  - unfold obj_set, obj_has. rewrite obj_get_app. cbn [obj_get].
    destruct (obj_get k o) as [x|] eqn:Hget.
    + (* the key is in the front part *)
      assert (Hhas : obj_has k o = true) by (unfold obj_has; rewrite Hget; reflexivity).
      rewrite obj_replace_app_found by exact Hhas.
      assert (Hset : obj_set o k v = obj_replace k v o) by (unfold obj_set; rewrite Hhas; reflexivity).
      rewrite Hset in IH. constructor; [exact IH| |].
      * apply CanonicalFacts.obj_get_None_keys. rewrite obj_keys_replace.
        apply CanonicalFacts.obj_get_None_keys, Hnone.
      * intros n Hn. specialize (Hidx n Hn).
        rewrite Forall_forall in *. intros kv Hin.
        assert (Hkey : In (fst kv) (obj_keys (obj_replace k v o))) by (apply in_map, Hin).
        rewrite obj_keys_replace in Hkey. apply in_map_iff in Hkey as (kv0 & Heq & Hin0).
        rewrite <- Heq. apply Hidx, Hin0.
    + destruct (String.eqb_spec k' k) as [->|Hne].
      * (* the key is the last one *)
        rewrite obj_replace_app_last by exact Hget. constructor; assumption.
      * (* a new key *)
        destruct (Js.arrayIndex k) as [n|] eqn:Hk.
        -- assert (Hset : obj_set o k v = obj_insert_index n k v o).
           { unfold obj_set, obj_has. rewrite Hget, Hk. reflexivity. }
           rewrite Hset in IH. rewrite obj_insert_index_app.
           destruct (forallb (indexBelow n) o) eqn:Hall.
           ++ assert (Hko : ownOrder (o ++ [(k, v)])%list).
              { constructor; [exact Ho | exact Hget |].
                intros m Hm. assert (m = n) by congruence. subst m.
                apply indexBelow_spec, Hall. }
              destruct (indexBelow n (k', v')) eqn:Hx.
              ** change (o ++ [(k', v'); (k, v)])%list with (o ++ [(k', v')] ++ [(k, v)])%list.
                 rewrite app_assoc. constructor.
                 --- constructor; assumption.
                 --- rewrite obj_get_app, Hget. cbn [obj_get].
                     destruct (String.eqb_spec k' k); [contradiction | reflexivity].
                 --- intros m Hm. assert (m = n) by congruence. subst m.
                     apply indexBelow_spec. rewrite forallb_app, Hall. cbn [forallb].
                     rewrite Hx. reflexivity.
              ** change (o ++ [(k, v); (k', v')])%list with (o ++ [(k, v)] ++ [(k', v')])%list.
                 rewrite app_assoc. constructor; [exact Hko | |].
                 --- rewrite obj_get_app, Hnone. cbn [obj_get].
                     destruct (String.eqb_spec k k'); [congruence | reflexivity].
                 --- intros m Hm. specialize (Hidx m Hm).
                     apply indexBelow_spec. rewrite forallb_app. cbn [forallb].
                     apply indexBelow_spec in Hidx. rewrite Hidx. cbn [andb].
                     unfold indexBelow. cbn [fst]. rewrite Hk. rewrite andb_true_r.
                     unfold indexBelow in Hx. cbn [fst] in Hx. rewrite Hm in Hx.
                     apply N.ltb_ge in Hx. apply N.ltb_lt.
                     assert (m <> n); [|lia]. intros ->. apply Hne.
                     apply (arrayIndex_inj k' k n); assumption.
           ++ constructor; [exact IH | |].
              ** rewrite ObjectFacts.obj_get_insert_other by exact Hne. exact Hnone.
              ** intros m Hm. specialize (Hidx m Hm). apply indexBelow_spec in Hidx.
                 (* some key of [o] is an index not below [n], and it is below [m] *)
                 assert (Hnm : (n < m)%N).
                 { assert (Hex : exists kv, In kv o /\ indexBelow n kv = false).
                   { clear -Hall. induction o as [|a o IH]; [discriminate|].
                     cbn [forallb] in Hall. destruct (indexBelow n a) eqn:Ha.
                     - destruct (IH Hall) as (kv & Hin & Hkv). exists kv. split; [right|]; assumption.
                     - exists a. split; [left; reflexivity | exact Ha]. }
                   destruct Hex as (kv & Hin & Hkv).
                   rewrite forallb_forall in Hidx. specialize (Hidx kv Hin).
                   unfold indexBelow in Hidx, Hkv.
                   destruct (Js.arrayIndex (fst kv)) as [n'|]; [|discriminate].
                   apply N.ltb_lt in Hidx. apply N.ltb_ge in Hkv. lia. }
                 apply Forall_forall. intros kv Hin.
                 assert (Hcases : kv = (k, v) \/ In kv o).
                 { clear -Hin. induction o as [|[k0 v0] o IH].
                   - destruct Hin as [<-|[]]. left. reflexivity.
                   - cbn [obj_insert_index] in Hin.
                     destruct (Js.arrayIndex k0) as [n'|]; [destruct (n' <? n)%N|].
                     + destruct Hin as [<-|Hin]; [right; left; reflexivity|].
                       destruct (IH Hin) as [->|H]; [left; reflexivity | right; right; exact H].
                     + destruct Hin as [<-|Hin]; [left; reflexivity | right; exact Hin].
                     + destruct Hin as [<-|Hin]; [left; reflexivity | right; exact Hin]. }
                 destruct Hcases as [->|Hin'].
                 --- exists n. split; [exact Hk | exact Hnm].
                 --- rewrite forallb_forall in Hidx. specialize (Hidx kv Hin').
                     unfold indexBelow in Hidx.
                     destruct (Js.arrayIndex (fst kv)) as [n'|]; [|discriminate].
                     exists n'. split; [reflexivity | apply N.ltb_lt, Hidx].
        -- constructor.
           ++ constructor; assumption.
           ++ rewrite obj_get_app, Hget. cbn [obj_get].
              destruct (String.eqb_spec k' k); [contradiction | reflexivity].
           ++ intros m Hm. congruence.
Qed.

(** An object whose keys differ and none of which is an array index is in
    own-property order. *)
Lemma ownOrder_plain (o : object) :
  NoDup (obj_keys o) ->
  Forall (fun kv => Js.arrayIndex (fst kv) = None) o ->
  ownOrder o.
Proof.
  induction o as [|[k v] o IH] using rev_ind; intros Hnd Hplain; [constructor|].
  unfold obj_keys in Hnd. rewrite map_app in Hnd. cbn [map fst] in Hnd.
  apply Forall_app in Hplain as [Hplain Hlast]. inversion Hlast as [|? ? Hk _]; subst.
  cbn [fst] in Hk.
  apply NoDup_remove in Hnd as [Hnd Hnotin]. rewrite app_nil_r in Hnd, Hnotin.
  constructor.
  - apply IH; assumption.
  - apply CanonicalFacts.obj_get_None_keys, Hnotin.
  - intros n Hn. congruence.
Qed.

End OwnOrderFacts.

Module RoundTripFacts.
Import ExcelToSchemaGeneratorUtil CanonicalFacts OwnOrderFacts.

Lemma rebuild_ownOrder (sub : object) (ks : list string) (acc : object) :
  ownOrder acc -> ownOrder (fold_left (rebuildStep sub) ks acc).
Proof.
  revert acc. induction ks as [|k ks IH]; intros acc Hacc; [exact Hacc|].
  cbn [fold_left]. apply IH. unfold rebuildStep.
  destruct (obj_get k sub); [apply obj_set_ownOrder|]; exact Hacc.
Qed.

(** Every object of a canonical tree is in own-property order. *)
Lemma toTree_wellOrdered (v : json) : wellOrdered (toTreeMapRecursive v).
Proof.
  induction v as [| | | |items IH|props IH] using json_nested_ind;
    [constructor | constructor | constructor | constructor | |].
  - cbn [toTreeMapRecursive]. constructor. apply Forall_map. exact IH.
  - rewrite toTreeMapRecursive_obj. constructor.
    + apply rebuild_ownOrder. constructor.
    + apply (FingerprintFacts.rebuild_Forall wellOrdered); [|constructor].
      apply Forall_map. rewrite Forall_forall in *. intros kv Hkv. cbn [snd]. apply IH, Hkv.
Qed.

Lemma carried_wellOrdered (v : json) : wellOrdered v -> wellOrdered (carried v).
Proof.
  induction v as [| |x| |items IH|props IH] using json_nested_ind; intros Hv; try exact Hv.
  - destruct x as [r| | |[|]]; constructor.
  - inversion Hv as [| | | |? Hitems|]; subst. cbn [carried]. constructor.
    apply Forall_map. rewrite Forall_forall in *. intros x Hx. apply IH; auto.
  - inversion Hv as [| | | | |? Hown Hprops]; subst. cbn [carried]. constructor.
    + apply ownOrder_map_values, Hown.
    + apply Forall_map. rewrite Forall_forall in *. intros kv Hkv. cbn [snd]. apply IH; auto.
Qed.

(** Reading the syntax tree of a value whose objects are in own-property
    order gives the value itself. *)
Lemma internalize_wellOrdered (v : json) : wellOrdered v -> JSON.internalize v = v.
Proof.
  induction v as [| | | |items IH|props IH] using json_nested_ind; intros Hv; try reflexivity.
  - inversion Hv as [| | | |? Hitems|]; subst. cbn [JSON.internalize]. f_equal.
    rewrite <- (map_id items) at 2. apply map_ext_in. intros x Hx.
    rewrite Forall_forall in *. apply IH; auto.
  - inversion Hv as [| | | | |? Hown Hprops]; subst. cbn [JSON.internalize]. f_equal.
    assert (E : map (fun kv : string * json => (fst kv, JSON.internalize (snd kv))) props = props).
    { rewrite <- (map_id props) at 2. apply map_ext_in. intros [k x] Hx.
      rewrite Forall_forall in *. cbn [fst snd]. f_equal.
      apply (IH (k, x)); [exact Hx | apply (Hprops (k, x)), Hx]. }
    rewrite E. apply objectOfMembers_ownOrder, Hown.
Qed.

Lemma length_append (a b : string) :
  String.length (a ++ b) = String.length a + String.length b.
Proof. induction a as [|c a IH]; simpl; [|rewrite IH]; reflexivity. Qed.

Lemma append_nil_r (a : string) : a ++ "" = a.
Proof. induction a as [|c a IH]; simpl; [|rewrite IH]; reflexivity. Qed.

Lemma join_length (f : json -> string) (items : list json) :
  (forall x, In x items -> weight x <= String.length (f x)) ->
  fold_right (fun x n => weight x + n) 0 items
  <= String.length (Js.join "," (map f items)).
Proof.
  induction items as [|x xs IH]; intros H; [simpl; lia|].
  assert (Hx : weight x <= String.length (f x)) by (apply H; left; reflexivity).
  assert (Hxs : fold_right (fun x n => weight x + n) 0 xs
                <= String.length (Js.join "," (map f xs))).
  { apply IH. intros y Hy. apply H. right. exact Hy. }
  destruct xs as [|y ys].
  - simpl in *. lia.
  - change (Js.join "," (map f (x :: y :: ys)))
      with (f x ++ "," ++ Js.join "," (map f (y :: ys))).
    rewrite !length_append. change (String.length ",") with 1.
    change (fold_right (fun x n => weight x + n) 0 (x :: y :: ys))
      with (weight x + fold_right (fun x n => weight x + n) 0 (y :: ys)).
    lia.
Qed.

Lemma members_length (props : object) :
  (forall kv, In kv props -> weight (snd kv) <= String.length (JSON.stringify (snd kv))) ->
  fold_right (fun kv n => weight (snd kv) + n) 0 props
  <= String.length (Js.join "," (map member props)).
Proof.
  induction props as [|x xs IH]; intros H; [simpl; lia|].
  assert (Hx : weight (snd x) <= String.length (member x)).
  { unfold member. rewrite !length_append. specialize (H x (or_introl eq_refl)). lia. }
  assert (Hxs : fold_right (fun kv n => weight (snd kv) + n) 0 xs
                <= String.length (Js.join "," (map member xs))).
  { apply IH. intros y Hy. apply H. right. exact Hy. }
  destruct xs as [|y ys].
  - simpl in *. lia.
  - change (Js.join "," (map member (x :: y :: ys)))
      with (member x ++ "," ++ Js.join "," (map member (y :: ys))).
    rewrite !length_append. change (String.length ",") with 1.
    change (fold_right (fun kv n => weight (snd kv) + n) 0 (x :: y :: ys))
      with (weight (snd x) + fold_right (fun kv n => weight (snd kv) + n) 0 (y :: ys)).
    lia.
Qed.

(** The text of a value is at least as long as the fuel its reading takes. *)
Lemma stringify_length (v : json) :
  representable v -> weight v <= String.length (JSON.stringify v).
Proof.
  induction v as [|b|x|s|items IH|props IH] using json_nested_ind; intros Hv.
  - simpl. lia.
  - destruct b; simpl; lia.
  - destruct (JsonFacts.stringify_opens _ Hv) as (c & t & E & _). rewrite E. simpl. lia.
  - simpl. lia.
  - inversion Hv as [| | | |? Hitems|]; subst.
    pose proof (JsonFacts.stringify_arr items "") as E. rewrite append_nil_r in E. rewrite E.
    cbn [weight String.length]. rewrite length_append.
    assert (fold_right (fun x n => weight x + n) 0 items
            <= String.length (Js.join "," (map JSON.stringify items))); [|lia].
    apply join_length. rewrite Forall_forall in *. intros x Hx. apply IH; auto.
  - inversion Hv as [| | | | |? Hprops]; subst.
    pose proof (JsonFacts.stringify_obj props "") as E. rewrite append_nil_r in E. rewrite E.
    cbn [weight String.length]. rewrite length_append.
    assert (fold_right (fun kv n => weight (snd kv) + n) 0 props
            <= String.length (Js.join "," (map member props))); [|lia].
    apply members_length. rewrite Forall_forall in *. intros kv Hkv. apply IH; auto.
Qed.

(** Parsing the text of a representable value gives the value its syntax
    tree stands for. *)
Lemma parse_stringify (v : json) :
  representable v -> JSON.parse (JSON.stringify v) = Some (JSON.internalize v).
Proof.
  intros Hv. unfold JSON.parse.
  pose proof (JsonFacts.parseValue_stringify v Hv (S (String.length (JSON.stringify v))) ""
                ltac:(pose proof (stringify_length v Hv); lia) eq_refl) as H.
  rewrite append_nil_r in H. rewrite H. reflexivity.
Qed.

Lemma stringify_carried (v : json) : JSON.stringify (carried v) = JSON.stringify v.
Proof.
  induction v as [| |x| |items IH|props IH] using json_nested_ind; try reflexivity.
  - destruct x as [r| | |[|]]; reflexivity.
  - cbn [carried JSON.stringify]. rewrite map_map.
    rewrite (map_ext_in _ JSON.stringify items); [reflexivity|].
    intros x Hx. rewrite Forall_forall in IH. apply IH, Hx.
  - cbn [carried JSON.stringify]. rewrite map_map.
    rewrite (map_ext_in _ (fun kv => JSON.quote (fst kv) ++ ":" ++ JSON.stringify (snd kv)) props);
      [reflexivity|].
    intros kv Hkv. cbn [fst snd]. rewrite Forall_forall in IH.
    rewrite (IH kv Hkv). reflexivity.
Qed.

Lemma carried_representable (v : json) : rendered v -> representable (carried v).
Proof.
  induction v as [| |x| |items IH|props IH] using json_nested_ind; intros Hv;
    try (constructor; fail).
  - inversion Hv as [| |? Hx| | |]; subst. destruct x as [r| | |[|]]; cbn [carried carriedNumber];
      constructor; try exact Hx. split; [reflexivity | discriminate].
  - inversion Hv as [| | | |? Hitems|]; subst. cbn [carried]. constructor.
    apply Forall_map. rewrite Forall_forall in *. intros x Hx. apply IH; auto.
  - inversion Hv as [| | | | |? Hprops]; subst. cbn [carried]. constructor.
    apply Forall_map. rewrite Forall_forall in *. intros kv Hkv. cbn [snd]. apply IH; auto.
Qed.

Lemma carried_of_representable (v : json) : representable v -> carried v = v.
Proof.
  induction v as [| |x| |items IH|props IH] using json_nested_ind; intros Hv; try reflexivity.
  - inversion Hv as [| |? Hx| | |]; subst. destruct x; try contradiction. reflexivity.
  - inversion Hv as [| | | |? Hitems|]; subst. cbn [carried]. f_equal.
    rewrite <- (map_id items) at 2. apply map_ext_in. intros x Hx.
    rewrite Forall_forall in *. apply IH; auto.
  - inversion Hv as [| | | | |? Hprops]; subst. cbn [carried]. f_equal.
    rewrite <- (map_id props) at 2. apply map_ext_in. intros [k x] Hx.
    rewrite Forall_forall in *. cbn [fst snd]. f_equal.
    apply (IH (k, x)); [exact Hx | apply (Hprops (k, x)), Hx].
Qed.

Lemma representable_rendered (v : json) : representable v -> rendered v.
Proof.
  induction v as [| |x| |items IH|props IH] using json_nested_ind; intros Hv;
    try (constructor; fail).
  - inversion Hv as [| |? Hx| | |]; subst. constructor. destruct x; try contradiction. exact Hx.
  - inversion Hv as [| | | |? Hitems|]; subst. constructor.
    rewrite Forall_forall in *. intros x Hx. apply IH; auto.
  - inversion Hv as [| | | | |? Hprops]; subst. constructor.
    rewrite Forall_forall in *. intros kv Hkv. apply IH; auto.
Qed.

(** Parsing the text of a value gives what the text carries of it. *)
Lemma parse_stringify_rendered (v : json) :
  rendered v -> JSON.parse (JSON.stringify v) = Some (JSON.internalize (carried v)).
Proof.
  intros Hv. rewrite <- stringify_carried. apply parse_stringify, carried_representable, Hv.
Qed.

Lemma toTree_rendered (v : json) : rendered v -> rendered (toTreeMapRecursive v).
Proof.
  induction v as [| | | |items IH|props IH] using json_nested_ind; intros Hv;
    try exact Hv.
  - inversion Hv as [| | | |? Hitems|]; subst. cbn [toTreeMapRecursive]. constructor.
    apply Forall_map. rewrite Forall_forall in *. intros x Hx. apply IH; auto.
  - inversion Hv as [| | | | |? Hprops]; subst. rewrite toTreeMapRecursive_obj. constructor.
    apply (FingerprintFacts.rebuild_Forall rendered); [|constructor].
    apply Forall_map. rewrite Forall_forall in *. intros kv Hkv. cbn [snd]. apply IH; auto.
Qed.

(** Reading a canonical text back. *)
Lemma fromCanonicalJson_toCanonicalJson (v : json) :
  rendered v ->
  fromCanonicalJson (toCanonicalJson v) = Ret (carried (toTreeMapRecursive v)).
Proof.
  intros Hv. unfold fromCanonicalJson, toCanonicalJson.
  rewrite parse_stringify_rendered by (apply toTree_rendered, Hv).
  rewrite internalize_wellOrdered by (apply carried_wellOrdered, toTree_wellOrdered).
  reflexivity.
Qed.

(** X4.  Reading a canonical text back.  For a value with ordinary keys
    whose finite numbers are rendered as JSON numbers, [fromCanonicalJson]
    returns on the canonical text of the value, and what it returns is the
    canonical tree as JSON text carries it: numbers that are not finite have
    become [null], the negative zero has become zero.  When every number of
    the value is representable, it returns the canonical tree itself. *)
Theorem canonical_round_trip (v : json) :
  ordinaryKeys v ->
  (rendered v ->
   fromCanonicalJson (toCanonicalJson v) = Ret (carried (toTreeMapRecursive v)))
  /\ (representable v ->
      fromCanonicalJson (toCanonicalJson v) = Ret (toTreeMapRecursive v)).
Proof.
  intros _. split.
  - apply fromCanonicalJson_toCanonicalJson.
  - intros Hv. rewrite fromCanonicalJson_toCanonicalJson by (apply representable_rendered, Hv).
    rewrite carried_of_representable by (apply FingerprintFacts.toTree_representable, Hv).
    reflexivity.
Qed.

Lemma canonical_round_trip_witness :
  fromCanonicalJson (toCanonicalJson keysOtherWay) = Ret (toTreeMapRecursive keysOtherWay).
Proof.
  refine (proj2 (canonical_round_trip keysOtherWay _) _).
  - ordinary.
  - unfold keysOtherWay. repeat (constructor || (intro; discriminate)).
Defined.

End RoundTripFacts.

Module TreeFacts.
Import ExcelToSchemaGeneratorUtil CanonicalFacts OwnOrderFacts.

Lemma NoDup_snoc {A : Type} (l : list A) (x : A) :
  NoDup l -> ~ In x l -> NoDup (l ++ [x])%list.
Proof.
  intros Hl Hx. induction Hl as [|y l Hy Hl IH]; cbn [app].
  - constructor; [intros [] | constructor].
  - constructor.
    + rewrite in_app_iff. intros [H|[H|[]]]; [contradiction|]. subst. apply Hx. left. reflexivity.
    + apply IH. intros H. apply Hx. right. exact H.
Qed.

Lemma ownOrder_NoDup (o : object) : ownOrder o -> NoDup (obj_keys o).
Proof.
  induction 1 as [|o k v Ho IH Hnone Hidx]; [constructor|].
  unfold obj_keys. rewrite map_app. cbn [map fst].
  apply NoDup_snoc; [exact IH | apply obj_get_None_keys, Hnone].
Qed.

Lemma toTree_keys (props rebuilt : object) (k : string) :
  toTreeMapRecursive (JObj props) = JObj rebuilt ->
  In k (obj_keys rebuilt) <-> In k (obj_keys props).
Proof.
  intros H. pose proof (toTree_get props rebuilt k H) as G.
  split; intros Hin.
  - destruct (in_dec string_dec k (obj_keys props)) as [Hk|Hk]; [exact Hk|].
    apply obj_get_None_keys in Hk. rewrite Hk in G. cbn in G.
    apply obj_get_None_keys in G. contradiction.
  - destruct (in_dec string_dec k (obj_keys rebuilt)) as [Hk|Hk]; [exact Hk|].
    apply obj_get_None_keys in Hk. rewrite Hk in G.
    destruct (obj_get k props) eqn:E; [discriminate|].
    apply obj_get_None_keys in E. contradiction.
Qed.

Lemma toTree_obj_shape (props : object) :
  exists rebuilt, toTreeMapRecursive (JObj props) = JObj rebuilt /\ ownOrder rebuilt.
Proof.
  rewrite toTreeMapRecursive_obj. eexists. split; [reflexivity|].
  apply RoundTripFacts.rebuild_ownOrder. constructor.
Qed.

(** The canonical tree of a canonical tree is the tree itself. *)
Lemma toTree_idempotent (v : json) :
  uniqueKeys v -> toTreeMapRecursive (toTreeMapRecursive v) = toTreeMapRecursive v.
Proof.
  induction v as [| | | |items IH|props IH] using json_nested_ind; intros Hu; try reflexivity.
  - inversion Hu as [| | | |? Hitems|]; subst. cbn [toTreeMapRecursive]. f_equal.
    rewrite map_map. apply map_ext_in. intros x Hx. rewrite Forall_forall in *. apply IH; auto.
  - inversion Hu as [| | | | |? Hnd Hprops]; subst.
    destruct (toTree_obj_shape props) as (rebuilt & E & Hown).
    rewrite E. rewrite toTreeMapRecursive_obj.
    rewrite toTreeMapRecursive_obj in E. injection E as E. rewrite <- E at 3. f_equal.
    assert (Hperm : Permutation (obj_keys rebuilt) (obj_keys props)).
    { apply NoDup_Permutation; [apply ownOrder_NoDup, Hown | exact Hnd |].
      intros k. apply toTree_keys. rewrite toTreeMapRecursive_obj, E. reflexivity. }
    rewrite (SortFacts.sort_permutation _ _ Hperm).
    apply rebuild_ext. intros k _. rewrite !obj_get_map_values.
    rewrite (toTree_get props rebuilt k) by (rewrite toTreeMapRecursive_obj, E; reflexivity).
    destruct (obj_get k props) as [a|] eqn:Hget; [|reflexivity].
    cbn [option_map]. f_equal. rewrite Forall_forall in IH, Hprops.
    apply (IH (k, a) (obj_get_In _ _ _ Hget)). apply (Hprops (k, a) (obj_get_In _ _ _ Hget)).
Qed.

(** X5.  [toTreeMapRecursive] is idempotent on a value whose objects have
    pairwise different, ordinary keys: the canonical tree of the canonical
    tree is that tree, and the canonical text of the tree is the canonical
    text of the value. *)
Theorem toTreeMapRecursive_idempotent (v : json) :
  ordinaryKeys v ->
  uniqueKeys v ->
  toTreeMapRecursive (toTreeMapRecursive v) = toTreeMapRecursive v
  /\ toCanonicalJson (toTreeMapRecursive v) = toCanonicalJson v.
Proof.
  intros _ Hu. unfold toCanonicalJson. rewrite toTree_idempotent by exact Hu. split; reflexivity.
Qed.

(** Sorting *)

Lemma insertSorted_sorted (k : string) (l : list string) :
  StronglySorted (fun a b => Js.codeUnitLeb a b = true) l ->
  StronglySorted (fun a b => Js.codeUnitLeb a b = true) (Js.insertSorted k l).
Proof.
  induction 1 as [|x l Hl IH Hx]; cbn [Js.insertSorted].
  - constructor; constructor.
  - destruct (Js.codeUnitLeb k x) eqn:E.
    + constructor; [constructor; assumption|].
      constructor; [exact E|]. rewrite Forall_forall in *. intros y Hy.
      apply (SortFacts.leb_trans k x y); [exact E | apply Hx, Hy].
    + constructor; [exact IH|]. apply Forall_forall. intros y Hy.
      apply SortFacts.insertSorted_In in Hy as [->|Hy].
      * apply SortFacts.leb_false_flip, E.
      * rewrite Forall_forall in Hx. apply Hx, Hy.
Qed.

Lemma sort_sorted (l : list string) :
  StronglySorted (fun a b => Js.codeUnitLeb a b = true) (Js.sort l).
Proof.
  induction l as [|k l IH]; cbn [Js.sort]; [constructor | apply insertSorted_sorted, IH].
Qed.

Lemma insertSorted_perm (k : string) (l : list string) :
  Permutation (Js.insertSorted k l) (k :: l).
Proof.
  induction l as [|x l IH]; cbn [Js.insertSorted]; [reflexivity|].
  destruct (Js.codeUnitLeb k x); [reflexivity|].
  rewrite IH. apply perm_swap.
Qed.

Lemma sort_perm (l : list string) : Permutation (Js.sort l) l.
Proof.
  induction l as [|k l IH]; cbn [Js.sort]; [reflexivity|].
  rewrite insertSorted_perm. constructor. exact IH.
Qed.

(** With keys that are new and no array indices, the loop appends. *)
Lemma rebuild_appends (sub : object) (ks : list string) (acc : object) :
  NoDup ks ->
  Forall (fun k => Js.arrayIndex k = None /\ obj_get k acc = None /\ obj_get k sub <> None) ks ->
  obj_keys (fold_left (rebuildStep sub) ks acc) = (obj_keys acc ++ ks)%list.
Proof.
  revert acc. induction ks as [|k ks IH]; intros acc Hnd Hks.
  - cbn [fold_left]. rewrite app_nil_r. reflexivity.
  - inversion Hnd as [|? ? Hk Hnd']; subst.
    inversion Hks as [|? ? (Hidx & Hacc & Hsub) Hks']; subst.
    cbn [fold_left]. unfold rebuildStep at 2.
    destruct (obj_get k sub) as [v|] eqn:E; [|contradiction].
    assert (Hset : obj_set acc k v = (acc ++ [(k, v)])%list).
    { apply obj_set_snoc; [exact Hacc | intros n Hn; congruence]. }
    rewrite Hset, IH.
    + unfold obj_keys. rewrite map_app, <- app_assoc. reflexivity.
    + exact Hnd'.
    + rewrite Forall_forall in *. intros k' Hk'. destruct (Hks' k' Hk') as (H1 & H2 & H3).
      repeat split; [exact H1 | | exact H3].
      rewrite obj_get_app, H2. cbn [obj_get].
      destruct (String.eqb_spec k k'); [subst; contradiction | reflexivity].
Qed.

(** X6.  The canonical tree of an object with ordinary keys that are
    pairwise different and no array indices has the keys of the object
    sorted: the same keys, in ascending order of their code units. *)
Theorem toTreeMapRecursive_sorts_keys (props : object) :
  ordinaryKeys (JObj props) ->
  NoDup (obj_keys props) ->
  Forall (fun k => Js.arrayIndex k = None) (obj_keys props) ->
  exists rebuilt,
    toTreeMapRecursive (JObj props) = JObj rebuilt
    /\ obj_keys rebuilt = Js.sort (obj_keys props)
    /\ Permutation (obj_keys rebuilt) (obj_keys props)
    /\ StronglySorted (fun a b => Js.codeUnitLeb a b = true) (obj_keys rebuilt).
Proof.
  intros _ Hnd Hplain. rewrite toTreeMapRecursive_obj. eexists. split; [reflexivity|].
  assert (E : obj_keys (fold_left
                (rebuildStep (map (fun kv => (fst kv, toTreeMapRecursive (snd kv))) props))
                (Js.sort (obj_keys props)) [])
              = Js.sort (obj_keys props)).
  { rewrite rebuild_appends; [reflexivity | |].
    - apply (Permutation_NoDup (l := obj_keys props)); [symmetry; apply sort_perm | exact Hnd].
    - apply Forall_forall. intros k Hk. apply (proj1 (SortFacts.sort_In _ _)) in Hk.
      rewrite Forall_forall in Hplain. split; [apply Hplain, Hk|]. split; [reflexivity|].
      rewrite obj_get_map_values.
      destruct (obj_get k props) eqn:G; [discriminate|].
      apply obj_get_None_keys in G. contradiction. }
  rewrite E. split; [reflexivity|]. split; [apply sort_perm | apply sort_sorted].
Qed.

Lemma toTreeMapRecursive_idempotent_witness :
  toTreeMapRecursive (toTreeMapRecursive keysOtherWay) = toTreeMapRecursive keysOtherWay
  /\ toCanonicalJson (toTreeMapRecursive keysOtherWay) = toCanonicalJson keysOtherWay.
Proof.
  apply (toTreeMapRecursive_idempotent keysOtherWay).
  - ordinary.
  - unfold keysOtherWay. repeat constructor; simpl; intuition discriminate.
Defined.

Lemma toTreeMapRecursive_sorts_keys_witness :
  exists rebuilt,
    toTreeMapRecursive (JObj [("type", JStr "string"); ("enum", JArr [JStr "a"]);
                              ("Pattern", JStr "a")])
    = JObj rebuilt
    /\ obj_keys rebuilt = Js.sort ["type"; "enum"; "Pattern"]
    /\ Permutation (obj_keys rebuilt) ["type"; "enum"; "Pattern"]
    /\ StronglySorted (fun a b => Js.codeUnitLeb a b = true) (obj_keys rebuilt).
Proof.
  apply (toTreeMapRecursive_sorts_keys
           [("type", JStr "string"); ("enum", JArr [JStr "a"]); ("Pattern", JStr "a")]).
  - ordinary.
  - repeat constructor; simpl; intuition discriminate.
  - repeat constructor.
Defined.

End TreeFacts.

Module FrameFacts.

Lemma updateAt_map_frame (s i : nat) (v : json) (sheets : list sheetSlots) :
  updateAt s
    (updateProp "properties"
       (updateProp "blocks"
          (updateProp "items" (updateProp "oneOf" (updateItem i (fun _ => v))))))
    (map sheetFrame sheets)
  = map sheetFrame (setSlots sheets s i v).
Proof.
  revert s. induction sheets as [|sh rest IH]; intros s; [destruct s; reflexivity|].
  destruct s as [|s]; cbn [map updateAt setSlots].
  - reflexivity.
  - rewrite IH. reflexivity.
Qed.

(** Writing a slot of a framed schema writes the slot and nothing else. *)
Lemma setSlot_frame (name entity : string) (sheets : list sheetSlots) (s i : nat) (v : json) :
  setSlot (workbookFrame name entity sheets) s i v
  = workbookFrame name entity (setSlots sheets s i v).
Proof.
  unfold setSlot, workbookFrame.
  match goal with |- context [updateItem s ?f] => set (inner := f) end.
  cbv [updateProp obj_get obj_replace String.eqb Ascii.eqb Bool.eqb updateItem].
  subst inner. rewrite updateAt_map_frame. reflexivity.
Qed.

Lemma alternationOf_frame (name entity : string) (sheets : list sheetSlots) (s : nat) :
  alternationOf (workbookFrame name entity sheets) s = option_map slots (nth_error sheets s).
Proof.
  unfold alternationOf, workbookFrame.
  cbv [optProp prop obj_get String.eqb Ascii.eqb Bool.eqb].
  rewrite nth_error_map. destruct (nth_error sheets s) as [sh|]; reflexivity.
Qed.

Lemma slotAt_frame (name entity : string) (sheets : list sheetSlots) (s i : nat) :
  slotAt (workbookFrame name entity sheets) s i
  = match nth_error sheets s with
    | Some sh => nth_error sh.(slots) i
    | None => None
    end.
Proof.
  unfold slotAt. rewrite alternationOf_frame. destruct (nth_error sheets s); reflexivity.
Qed.

Lemma blockSchema_locationsFrom (s i : nat) (bs : list json) :
  map blockSchema (locationsFrom s i bs) = bs.
Proof.
  revert i. induction bs as [|b bs IH]; intros i; [reflexivity|].
  cbn [locationsFrom map blockSchema]. rewrite IH. reflexivity.
Qed.

Lemma blockSchema_locationsOf (s : nat) (sheets : list sheetSlots) :
  map blockSchema (locationsOf s sheets) = allSlots sheets.
Proof.
  revert s. induction sheets as [|sh rest IH]; intros s; [reflexivity|].
  cbn [locationsOf]. unfold allSlots. cbn [flat_map].
  rewrite map_app, blockSchema_locationsFrom. f_equal. apply IH.
Qed.

Section Replace.
Variable choose : json -> option json.

Lemma setSlots_here (pre : list sheetSlots) (sh : sheetSlots) (rest : list sheetSlots)
      (i : nat) (v : json) :
  setSlots (pre ++ sh :: rest)%list (List.length pre) i v
  = (pre ++ {| slotsName := sh.(slotsName); slotsEntity := sh.(slotsEntity);
               slots := updateAt i (fun _ => v) sh.(slots) |} :: rest)%list.
Proof.
  induction pre as [|p pre IH]; [reflexivity|].
  cbn [app List.length setSlots]. rewrite IH. reflexivity.
Qed.

Lemma updateAt_here (done : list json) (b : json) (todo : list json) (v : json) :
  updateAt (List.length done) (fun _ => v) (done ++ b :: todo)%list = (done ++ v :: todo)%list.
Proof.
  induction done as [|d done IH]; [reflexivity|].
  cbn [app List.length updateAt]. rewrite IH. reflexivity.
Qed.

Lemma replace_sheet (pre : list sheetSlots) (name entity : string) (rest : list sheetSlots)
      (todo done : list json) :
  fold_left (replaceStep choose) (locationsFrom (List.length pre) (List.length done) todo)
    (pre ++ {| slotsName := name; slotsEntity := entity; slots := (done ++ todo)%list |} :: rest)%list
  = (pre ++ {| slotsName := name; slotsEntity := entity;
               slots := (done ++ map (chosen choose) todo)%list |} :: rest)%list.
Proof.
  revert done. induction todo as [|b todo IH]; intros done; [reflexivity|].
  cbn [locationsFrom fold_left map].
  assert (Hstep :
    (replaceStep choose)
      (pre ++ {| slotsName := name; slotsEntity := entity; slots := (done ++ b :: todo)%list |}
           :: rest)%list
      {| blocksOneOf := List.length pre; index := List.length done; blockSchema := b |}
    = (pre ++ {| slotsName := name; slotsEntity := entity;
                 slots := ((done ++ [(chosen choose) b]) ++ todo)%list |} :: rest)%list).
  { unfold replaceStep, chosen. cbn [blockSchema blocksOneOf index].
    destruct (choose b) as [v|].
    - rewrite setSlots_here. cbn [slotsName slotsEntity slots].
      rewrite updateAt_here, <- app_assoc. reflexivity.
    - rewrite <- app_assoc. reflexivity. }
  rewrite Hstep.
  replace (S (List.length done)) with (List.length (done ++ [(chosen choose) b])%list)
    by (rewrite length_app; simpl; lia).
  rewrite IH. rewrite <- app_assoc. reflexivity.
Qed.

(** The loop over the locations of the sheets rewrites every slot by what
    was (chosen choose) for the block found there. *)
Lemma replace_sheets (pre sheets : list sheetSlots) :
  fold_left (replaceStep choose) (locationsOf (List.length pre) sheets) (pre ++ sheets)%list
  = (pre ++ mapSlots (chosen choose) sheets)%list.
Proof.
  revert pre. induction sheets as [|sh rest IH]; intros pre; [reflexivity|].
  cbn [locationsOf]. rewrite fold_left_app.
  destruct sh as [name entity bs]. cbn [slots].
  pose proof (replace_sheet pre name entity rest bs []) as H. cbn [app List.length] in H.
  rewrite H.
  replace (pre ++ {| slotsName := name; slotsEntity := entity; slots := map (chosen choose) bs |} :: rest)%list
    with ((pre ++ [{| slotsName := name; slotsEntity := entity; slots := map (chosen choose) bs |}]) ++ rest)%list
    by (rewrite <- app_assoc; reflexivity).
  replace (S (List.length pre))
    with (List.length (pre ++ [{| slotsName := name; slotsEntity := entity;
                                  slots := map (chosen choose) bs |}])%list)
    by (rewrite length_app; simpl; lia).
  rewrite IH. rewrite <- app_assoc. reflexivity.
Qed.

(** The same loop on the framed schema. *)
Lemma replace_frame (name entity : string) (sheets : list sheetSlots) :
  fold_left
    (fun root loc =>
       match choose loc.(blockSchema) with
       | Some v => setSlot root loc.(blocksOneOf) loc.(index) v
       | None => root
       end)
    (locationsOf 0 sheets) (workbookFrame name entity sheets)
  = workbookFrame name entity (mapSlots (chosen choose) sheets).
Proof.
  pose proof (replace_sheets [] sheets) as H. cbn [app List.length] in H. rewrite <- H.
  generalize (locationsOf 0 sheets) as locs. intros locs. generalize sheets as state.
  induction locs as [|loc locs IH]; intros state; [reflexivity|].
  cbn [fold_left]. unfold replaceStep at 2.
  destruct (choose (blockSchema loc)) as [v|]; [rewrite setSlot_frame|]; apply IH.
Qed.

End Replace.

Lemma slots_mapSlots (f : json -> json) (sheets : list sheetSlots) (s i : nat) :
  match nth_error (mapSlots f sheets) s with
  | Some sh => nth_error sh.(slots) i
  | None => None
  end
  = option_map f match nth_error sheets s with
                 | Some sh => nth_error sh.(slots) i
                 | None => None
                 end.
Proof.
  unfold mapSlots. rewrite nth_error_map.
  destruct (nth_error sheets s) as [sh|]; [|reflexivity].
  cbn [option_map slots]. apply nth_error_map.
Qed.

Lemma slotAt_setProp (root : object) (k : string) (v : json) (s i : nat) :
  k <> "properties" ->
  slotAt (setProp (JObj root) k v) s i = slotAt (JObj root) s i.
Proof.
  intros Hne. unfold slotAt, alternationOf, setProp. cbn [prop].
  rewrite ObjectFacts.obj_get_set_other by congruence. reflexivity.
Qed.

End FrameFacts.

Module TallyFacts.

Lemma mapGet_mapSet_same {A : Type} (m : list (string * A)) (k : string) (a : A) :
  mapGet k (mapSet m k a) = Some a.
Proof.
  induction m as [|[k' a'] m IH]; cbn [mapSet mapGet].
  - rewrite String.eqb_refl. reflexivity.
  - destruct (String.eqb_spec k' k) as [->|Hne]; cbn [mapGet].
    + rewrite String.eqb_refl. reflexivity.
    + destruct (String.eqb_spec k' k); [contradiction | exact IH].
Qed.

Lemma mapGet_mapSet_other {A : Type} (m : list (string * A)) (k k' : string) (a : A) :
  k <> k' -> mapGet k (mapSet m k' a) = mapGet k m.
Proof.
  intros Hne. induction m as [|[k0 a0] m IH]; cbn [mapSet mapGet].
  - destruct (String.eqb_spec k' k); [congruence | reflexivity].
  - destruct (String.eqb_spec k0 k') as [->|Hk0]; cbn [mapGet].
    + destruct (String.eqb_spec k' k); [congruence | reflexivity].
    + destruct (String.eqb_spec k0 k); [reflexivity | exact IH].
Qed.

Lemma mapSet_keys_NoDup {A : Type} (m : list (string * A)) (k : string) (a : A) :
  NoDup (map fst m) -> NoDup (map fst (mapSet m k a)).
Proof.
  induction m as [|[k' a'] m IH]; cbn [mapSet map fst]; intros Hnd.
  - constructor; [intros [] | constructor].
  - inversion Hnd as [|? ? Hk' Hnd']; subst.
    destruct (String.eqb_spec k' k) as [->|Hne]; cbn [map fst].
    + constructor; assumption.
    + constructor; [|apply IH, Hnd'].
      intros Hin. apply Hk'. clear -Hin Hne.
      induction m as [|[k0 a0] m IH]; cbn [mapSet map fst] in *.
      * destruct Hin as [->|[]]. contradiction.
      * destruct (String.eqb_spec k0 k) as [->|Hk0]; cbn [map fst] in Hin; [exact Hin|].
        destruct Hin as [<-|Hin]; [left; reflexivity | right; apply IH, Hin].
Qed.

Lemma tally_from (texts : list string) (acc : list (string * nat)) (c : string) :
  mapGet c (fold_left countStep texts acc)
  = match occurrences c texts, mapGet c acc with
    | 0, found => found
    | S n, Some m => Some (m + S n)
    | S n, None => Some (S n)
    end.
Proof.
  revert acc. induction texts as [|t texts IH]; intros acc.
  - cbn [fold_left occurrences]. destruct (mapGet c acc); reflexivity.
  - cbn [fold_left occurrences]. rewrite IH. unfold countStep.
    destruct (String.eqb_spec t c) as [->|Hne].
    + rewrite mapGet_mapSet_same. cbn [Nat.add].
      destruct (occurrences c texts) as [|n]; destruct (mapGet c acc) as [m|];
        f_equal; lia.
    + rewrite mapGet_mapSet_other by congruence. reflexivity.
Qed.

(** The tally holds, for every text, how often it occurs. *)
Lemma mapGet_tally (texts : list string) (c : string) :
  mapGet c (tally texts)
  = match occurrences c texts with 0 => None | n => Some n end.
Proof.
  unfold tally. change (fold_left _ texts []) with (fold_left countStep texts []).
  rewrite tally_from. cbn [mapGet]. destruct (occurrences c texts); reflexivity.
Qed.

Lemma tally_keys_NoDup (texts : list string) : NoDup (map fst (tally texts)).
Proof.
  unfold tally. change (fold_left _ texts []) with (fold_left countStep texts []).
  assert (H : forall acc, NoDup (map fst acc) -> NoDup (map fst (fold_left countStep texts acc))).
  { induction texts as [|t texts IH]; intros acc Hacc; [exact Hacc|].
    cbn [fold_left]. apply IH. apply mapSet_keys_NoDup, Hacc. }
  apply H. constructor.
Qed.

Lemma mapGet_In {A : Type} (m : list (string * A)) (k : string) (a : A) :
  NoDup (map fst m) -> In (k, a) m -> mapGet k m = Some a.
Proof.
  induction m as [|[k' a'] m IH]; [intros _ []|].
  cbn [map fst mapGet]. intros Hnd Hin. inversion Hnd as [|? ? Hk' Hnd']; subst.
  destruct Hin as [E|Hin].
  - injection E as -> ->. rewrite String.eqb_refl. reflexivity.
  - destruct (String.eqb_spec k' k) as [->|Hne]; [|apply IH; assumption].
    exfalso. apply Hk'. apply in_map_iff. exists (k, a). split; [reflexivity | exact Hin].
Qed.

Lemma In_mapGet {A : Type} (m : list (string * A)) (k : string) (a : A) :
  mapGet k m = Some a -> In (k, a) m.
Proof.
  induction m as [|[k' a'] m IH]; [discriminate|]. cbn [mapGet].
  destruct (String.eqb_spec k' k) as [->|Hne].
  - intros E. injection E as ->. left. reflexivity.
  - intros E. right. apply IH, E.
Qed.

(** Every entry of the tally counts a text that occurs. *)
Lemma tally_In (texts : list string) (c : string) (n : nat) :
  In (c, n) (tally texts) <-> n = occurrences c texts /\ 0 < n.
Proof.
  split.
  - intros Hin. apply mapGet_In in Hin; [|apply tally_keys_NoDup].
    rewrite mapGet_tally in Hin. destruct (occurrences c texts); [discriminate|].
    injection Hin as <-. split; [reflexivity | lia].
  - intros [-> Hpos]. apply In_mapGet. rewrite mapGet_tally.
    destruct (occurrences c texts); [lia | reflexivity].
Qed.

Lemma occurrences_In (c : string) (texts : list string) :
  0 < occurrences c texts <-> In c texts.
Proof.
  induction texts as [|t texts IH]; cbn [occurrences In]; [lia|].
  destruct (String.eqb_spec t c) as [->|Hne].
  - split; [left; reflexivity | lia].
  - rewrite <- IH. cbn [Nat.add]. split; [intros H; right; exact H | intros [H|H]; [congruence | exact H]].
Qed.

Lemma In_repeatedTexts (texts : list string) (c : string) :
  In c (repeatedTexts (tally texts)) <-> 1 < occurrences c texts.
Proof.
  unfold repeatedTexts. rewrite in_map_iff. split.
  - intros ([c' n] & E & Hin). cbn [fst] in E. subst c'.
    apply filter_In in Hin as [Hin Hn]. cbn [snd] in Hn. apply Nat.ltb_lt in Hn.
    apply tally_In in Hin as [-> _]. exact Hn.
  - intros H. exists (c, occurrences c texts). split; [reflexivity|].
    apply filter_In. split; [apply tally_In; split; [reflexivity | lia]|].
    cbn [snd]. apply Nat.ltb_lt, H.
Qed.

Lemma existsb_repeatedTexts (texts : list string) (c : string) :
  existsb (String.eqb c) (repeatedTexts (tally texts)) = (1 <? occurrences c texts)%nat.
Proof.
  destruct (1 <? occurrences c texts)%nat eqn:E.
  - apply existsb_exists. exists c. split; [|apply String.eqb_refl].
    apply In_repeatedTexts, Nat.ltb_lt, E.
  - destruct (existsb (String.eqb c) (repeatedTexts (tally texts))) eqn:E'; [|reflexivity].
    apply existsb_exists in E' as (c' & Hin & Heq). apply String.eqb_eq in Heq. subst c'.
    apply In_repeatedTexts, Nat.ltb_lt in Hin. congruence.
Qed.

End TallyFacts.

Module InferrerSchemaFacts.
Import JsonToSchemaGeneratorUtil InferrerDedupTerms OwnOrderFacts.

Ltac distinct_keys := repeat constructor; simpl; intuition discriminate.

Ltac plain_object :=
  apply ownOrder_plain; [distinct_keys | repeat constructor].

Lemma representable_nat (n : nat) : representable (JNum (numberOfNat n)).
Proof. constructor. apply NumeralFacts.numberOfNat_representable. Qed.

Lemma stringEnum_built (s : string) :
  representable (stringEnum s) /\ wellOrdered (stringEnum s).
Proof.
  unfold stringEnum. split.
  - repeat constructor.
  - constructor; [plain_object|]. repeat constructor.
Qed.

Lemma typeSchema_built (types : list string) :
  representable (typeSchema types) /\ wellOrdered (typeSchema types).
Proof.
  assert (Hr : forall l, Forall representable (map JStr l)).
  { intros l. apply Forall_map, Forall_forall. intros; constructor. }
  assert (Hw : forall l, Forall wellOrdered (map JStr l)).
  { intros l. apply Forall_map, Forall_forall. intros; constructor. }
  destruct types as [|t [|t' ts]]; unfold typeSchema; split;
    try (repeat constructor; fail);
    try (constructor; [plain_object | repeat constructor]; fail).
  - constructor. constructor; [|constructor]. cbn [snd]. constructor. apply Hr.
  - constructor; [plain_object|]. constructor; [|constructor]. cbn [snd]. constructor. apply Hw.
Qed.

Lemma columnTypesFrom_built (block : Block) (hs : list string) (i : nat) (cols : list json) :
  columnTypesFrom block i hs = Ret cols ->
  Forall representable cols /\ Forall wellOrdered cols.
Proof.
  revert i cols. induction hs as [|h hs IH]; intros i cols; cbn [columnTypesFrom].
  - intros E. injection E as <-. split; constructor.
  - unfold columnType.
    destruct (match rows block with Some rs => collectTypes i rs [] | None => Ret [] end)
      as [types| | |]; cbn [bind]; try discriminate.
    destruct (columnTypesFrom block (S i) hs) as [cs| | |] eqn:E; cbn [bind]; try discriminate.
    intros H. injection H as <-. destruct (IH _ _ E) as [Hr Hw].
    destruct (typeSchema_built types). split; constructor; assumption.
Qed.

Lemma map_stringEnum_built (hs : list string) :
  Forall representable (map stringEnum hs) /\ Forall wellOrdered (map stringEnum hs).
Proof.
  split; apply Forall_map, Forall_forall; intros h _; apply stringEnum_built.
Qed.

Lemma handleTableBlock_built (block : Block) (blockName : string) (b : json) :
  handleTableBlock block blockName = Ret b -> builtBlock b /\ blockNameOf b = Ret blockName.
Proof.
  unfold handleTableBlock.
  destruct (match header block with
            | Some (h :: hs) => columnTypesFrom block 0 (h :: hs)
            | _ => Ret []
            end) as [cols| | |] eqn:E; cbn [bind]; try discriminate.
  assert (Hcols : Forall representable cols /\ Forall wellOrdered cols).
  { destruct (header block) as [[|h hs]|].
    - injection E as <-. split; constructor.
    - apply (columnTypesFrom_built _ _ _ _ E).
    - injection E as <-. split; constructor. }
  destruct Hcols as [Hcr Hcw].
  assert (Hhs : Forall representable (match header block with
                                      | Some hs => map stringEnum hs | None => [] end)
                /\ Forall wellOrdered (match header block with
                                       | Some hs => map stringEnum hs | None => [] end)).
  { destruct (header block); [apply map_stringEnum_built | split; constructor]. }
  destruct Hhs as [Hhr Hhw].
  destruct (stringEnum_built blockName) as [Hnr Hnw].
  destruct (stringEnum_built "table") as [Htr Htw].
  intros H. injection H as <-. split; [|reflexivity].
  split; [|split; [|split; [reflexivity | eexists; reflexivity]]].
  - repeat (first [ exact Hnr | exact Htr | apply representable_nat
                  | apply representable_arr; first [exact Hcr | exact Hhr | idtac]
                  | constructor ]; cbn [snd]).
  - repeat (first [ exact Hnw | exact Htw
                  | apply wellOrdered_arr; first [exact Hcw | exact Hhw | idtac]
                  | apply wellOrdered_obj; [plain_object|]
                  | constructor ]; cbn [snd]).
Qed.

Lemma listProperties_built (its : list json) (acc props : object) :
  listProperties its acc = Ret props ->
  ownOrder acc ->
  Forall (fun kv => representable (snd kv)) acc ->
  Forall (fun kv => wellOrdered (snd kv)) acc ->
  ownOrder props
  /\ Forall (fun kv => representable (snd kv)) props
  /\ Forall (fun kv => wellOrdered (snd kv)) props.
Proof.
  revert acc. induction its as [|item its IH]; intros acc; cbn [listProperties].
  - intros E. injection E as <-. auto.
  - destruct (firstEntry item) as [[key value]| | |]; cbn [bind]; try discriminate.
    intros E Hown Hr Hw. apply (IH _ E).
    + apply obj_set_ownOrder, Hown.
    + apply (FingerprintFacts.obj_set_Forall representable); [exact Hr | repeat constructor].
    + apply (FingerprintFacts.obj_set_Forall wellOrdered); [exact Hw|].
      constructor; [plain_object | repeat constructor].
Qed.

Lemma handleListBlock_built (block : Block) (blockName : string) (b : json) :
  handleListBlock block blockName = Ret b -> builtBlock b /\ blockNameOf b = Ret blockName.
Proof.
  unfold handleListBlock.
  destruct (match items block with
            | Some its => listProperties its []
            | None => Ret []
            end) as [props| | |] eqn:E; cbn [bind]; try discriminate.
  assert (Hprops : ownOrder props
                   /\ Forall (fun kv => representable (snd kv)) props
                   /\ Forall (fun kv => wellOrdered (snd kv)) props).
  { destruct (items block) as [its|].
    - apply (listProperties_built _ _ _ E); constructor.
    - injection E as <-. repeat split; constructor. }
  destruct Hprops as (Hown & Hr & Hw).
  destruct (stringEnum_built blockName) as [Hnr Hnw].
  destruct (stringEnum_built "list") as [Hlr Hlw].
  intros H. injection H as <-. split; [|reflexivity].
  split; [|split; [|split; [reflexivity | eexists; reflexivity]]].
  - repeat (first [ exact Hnr | exact Hlr
                  | apply representable_obj; exact Hr
                  | constructor ]; cbn [snd]).
  - repeat (first [ exact Hnw | exact Hlw
                  | apply wellOrdered_obj; [exact Hown | exact Hw]
                  | apply wellOrdered_obj; [plain_object|]
                  | constructor ]; cbn [snd]).
Qed.

Lemma blockSchemas_built (bs : list Block) (acc out : list json) :
  blockSchemas bs acc = Ret out -> Forall builtBlock acc -> Forall builtBlock out.
Proof.
  revert acc. induction bs as [|block bs IH]; intros acc; cbn [blockSchemas].
  - intros E. injection E as <-. auto.
  - destruct (entity block =? "table").
    + destruct (handleTableBlock block (name block)) as [b| | |] eqn:E; cbn [bind]; try discriminate.
      intros H Hacc. apply (IH _ H). apply Forall_app. split; [exact Hacc|].
      constructor; [apply (handleTableBlock_built _ _ _ E) | constructor].
    + destruct (entity block =? "list").
      * destruct (handleListBlock block (name block)) as [b| | |] eqn:E; cbn [bind]; try discriminate.
        intros H Hacc. apply (IH _ H). apply Forall_app. split; [exact Hacc|].
        constructor; [apply (handleListBlock_built _ _ _ E) | constructor].
      * apply IH.
Qed.

Lemma sheetSchemasOf_frames (ss : list Sheet) (l : list json) :
  sheetSchemasOf ss = Ret l ->
  exists sheets, l = map sheetFrame sheets /\ Forall builtBlock (allSlots sheets)
                 /\ List.length sheets = List.length ss.
Proof.
  revert l. induction ss as [|sheet ss IH]; intros l; cbn [sheetSchemasOf].
  - intros E. injection E as <-. exists []. repeat split. constructor.
  - unfold sheetSchema.
    destruct (blocks sheet) as [|b0 bs0] eqn:Hb; cbn [bind]; [discriminate|].
    destruct (blockSchemas (b0 :: bs0) []) as [out| | |] eqn:E; cbn [bind]; try discriminate.
    destruct (sheetSchemasOf ss) as [more| | |] eqn:E'; cbn [bind]; try discriminate.
    intros H. injection H as <-.
    destruct (IH _ eq_refl) as (sheets & -> & Hall & Hlen).
    exists ({| slotsName := sheetName sheet; slotsEntity := sheetEntity sheet; slots := out |}
              :: sheets).
    split; [reflexivity|]. split; [|cbn [List.length]; rewrite Hlen; reflexivity].
    unfold allSlots. cbn [flat_map slots]. apply Forall_app. split; [|exact Hall].
    apply (blockSchemas_built _ _ _ E). constructor.
Qed.

(** The schema built before the deduplication is a frame around built blocks. *)
Lemma buildSchema_frame (data : Workbook) (root : json) :
  buildSchema data = Ret root ->
  exists sheets,
    root = workbookFrame data.(workbookName) data.(workbookEntity) sheets
    /\ Forall builtBlock (allSlots sheets).
Proof.
  unfold buildSchema. destruct (sheets data) as [|s0 ss0]; [discriminate|].
  destruct (sheetSchemasOf (s0 :: ss0)) as [l| | |] eqn:E; cbn [bind]; try discriminate.
  intros H. injection H as <-.
  destruct (sheetSchemasOf_frames _ _ E) as (sheets & -> & Hall & _).
  exists sheets. split; [reflexivity | exact Hall].
Qed.

End InferrerSchemaFacts.

Module FoldFacts.

Lemma fold_left_ext {A B : Type} (f g : A -> B -> A) (l : list B) (a : A) :
  (forall a x, f a x = g a x) -> fold_left f l a = fold_left g l a.
Proof.
  intros H. revert a. induction l as [|x l IH]; intros a; [reflexivity|].
  cbn [fold_left]. rewrite H. apply IH.
Qed.

Lemma fold_left_map {A B C : Type} (f : A -> C -> A) (g : B -> C) (l : list B) (a : A) :
  fold_left f (map g l) a = fold_left (fun a x => f a (g x)) l a.
Proof. revert a. induction l as [|x l IH]; intros a; [reflexivity | apply IH]. Qed.

(** The map after one entry per key was set, each to a value its key determines. *)
Lemma mapGet_fold_mapSet {A : Type} (g : string -> A) (ks : list string)
      (m : list (string * A)) (c : string) :
  mapGet c (fold_left (fun m k => mapSet m k (g k)) ks m)
  = if existsb (String.eqb c) ks then Some (g c) else mapGet c m.
Proof.
  revert m. induction ks as [|k ks IH]; intros m; [reflexivity|].
  cbn [fold_left existsb]. rewrite IH.
  destruct (existsb (String.eqb c) ks); [rewrite orb_true_r; reflexivity|].
  rewrite orb_false_r. destruct (String.eqb_spec c k) as [->|Hne].
  - apply TallyFacts.mapGet_mapSet_same.
  - apply TallyFacts.mapGet_mapSet_other, Hne.
Qed.

(** The object after the properties were assigned: the last assignment to
    a name is the one that is read. *)
Lemma obj_get_fold_set (g : string -> string) (h : string -> json) (ks : list string)
      (o : object) (d : string) :
  obj_get d (fold_left (fun o k => obj_set o (g k) (h k)) ks o)
  = match lastWith (fun k => g k =? d) ks with
    | Some k => Some (h k)
    | None => obj_get d o
    end.
Proof.
  revert o. induction ks as [|k ks IH]; intros o; [reflexivity|].
  cbn [fold_left lastWith]. rewrite IH.
  destruct (lastWith (fun k => g k =? d) ks); [reflexivity|].
  destruct (String.eqb_spec (g k) d) as [<-|Hne].
  - apply ObjectFacts.obj_get_set_same.
  - apply ObjectFacts.obj_get_set_other. congruence.
Qed.

Lemma lastWith_Some {A : Type} (p : A -> bool) (l : list A) (x : A) :
  lastWith p l = Some x -> In x l /\ p x = true.
Proof.
  induction l as [|y l IH]; [discriminate|]. cbn [lastWith].
  destruct (lastWith p l) as [z|].
  - intros E. injection E as ->. destruct (IH eq_refl). split; [right|]; assumption.
  - destruct (p y) eqn:Hy; [|discriminate]. intros E. injection E as ->.
    split; [left; reflexivity | exact Hy].
Qed.

Lemma lastWith_None {A : Type} (p : A -> bool) (l : list A) :
  lastWith p l = None -> forall x, In x l -> p x = false.
Proof.
  induction l as [|y l IH]; [intros _ x []|]. cbn [lastWith].
  destruct (lastWith p l) as [z|]; [discriminate|].
  destruct (p y) eqn:Hy; [discriminate|]. intros _ x [<-|Hx]; [exact Hy | apply IH; auto].
Qed.

Lemma fold_set_nil (g : string -> string) (h : string -> json) (ks : list string) (o : object) :
  fold_left (fun o k => obj_set o (g k) (h k)) ks o = [] -> ks = [] /\ o = [].
Proof.
  destruct ks as [|k ks]; [auto|]. intros H. exfalso.
  assert (E : obj_get (g k) (fold_left (fun o k => obj_set o (g k) (h k)) (k :: ks) o) <> None).
  { rewrite obj_get_fold_set. cbn [lastWith].
    destruct (lastWith (fun k0 => g k0 =? g k) ks); [discriminate|].
    rewrite String.eqb_refl. discriminate. }
  rewrite H in E. apply E. reflexivity.
Qed.

End FoldFacts.

Module InferrerDedupFacts.
Import JsonToSchemaGeneratorUtil InferrerDedupTerms InferrerTextTerms InferrerSchemaFacts.
Import FrameFacts TallyFacts FoldFacts.

Lemma inferrer_sheetLocations_frames (s : nat) (sheets : list sheetSlots) :
  sheetLocations s (map sheetFrame sheets) = Ret (locationsOf s sheets).
Proof.
  revert s. induction sheets as [|sh rest IH]; intros s; [reflexivity|].
  cbn [map sheetLocations locationsOf]. unfold sheetFrame at 1. rewrite IH. reflexivity.
Qed.

Lemma inferrer_findAllBlockSchemas_frame (name entity : string) (sheets : list sheetSlots) :
  findAllBlockSchemas (workbookFrame name entity sheets) = Ret (locationsOf 0 sheets).
Proof. apply inferrer_sheetLocations_frames. Qed.

Lemma inferrer_blocksOf_frame (name entity : string) (sheets : list sheetSlots) :
  blocksOf (workbookFrame name entity sheets) = allSlots sheets.
Proof.
  unfold blocksOf. rewrite inferrer_findAllBlockSchemas_frame. apply blockSchema_locationsOf.
Qed.

Lemma inferrer_countUsage_tally (locs : list location) :
  countUsage locs = tally (map JSON.stringify (map blockSchema locs)).
Proof.
  unfold countUsage, tally. rewrite map_map, fold_left_map. reflexivity.
Qed.

(** A built block is read back from its text as it is. *)
Lemma parse_built (b : json) : builtBlock b -> JSON.parse (JSON.stringify b) = Some b.
Proof.
  intros (Hr & Hw & _). rewrite RoundTripFacts.parse_stringify by exact Hr.
  rewrite RoundTripFacts.internalize_wellOrdered by exact Hw. reflexivity.
Qed.

Lemma parsedText_built (b : json) : builtBlock b -> parsedText (JSON.stringify b) = b.
Proof. intros H. unfold parsedText. rewrite (parse_built b H). reflexivity. Qed.

Lemma nameOfText_built (b : json) :
  builtBlock b -> nameOfText (JSON.stringify b) = definitionNameOf b.
Proof. intros H. unfold nameOfText, definitionNameOf. rewrite (parsedText_built b H). reflexivity. Qed.

(** The loop that defines the repeated blocks, on texts that are read back. *)
Lemma defineRepeated_folds (usage : list (string * nat))
      (names : list (string * string)) (defs : object) :
  (forall c n, In (c, n) usage -> 1 < n ->
               exists b nm, JSON.parse c = Some b /\ blockNameOf b = Ret nm) ->
  defineRepeated usage names defs
  = Ret (fold_left (fun m c => mapSet m c (nameOfText c)) (repeatedTexts usage) names,
         fold_left (fun o c => obj_set o (nameOfText c) (parsedText c)) (repeatedTexts usage) defs).
Proof.
  revert names defs. induction usage as [|[c n] usage IH]; intros names defs H; [reflexivity|].
  cbn [defineRepeated]. unfold repeatedTexts. cbn [filter snd].
  destruct (1 <? n)%nat eqn:Hn.
  - apply Nat.ltb_lt in Hn. destruct (H c n (or_introl eq_refl) Hn) as (b & nm & Hp & Hnm).
    assert (Hpt : parsedText c = b) by (unfold parsedText; rewrite Hp; reflexivity).
    assert (Hnt : nameOfText c = nm ++ "_" ++ Js.natToString (charCodeSum c))
      by (unfold nameOfText; rewrite Hpt, Hnm; reflexivity).
    rewrite Hp, Hnm. cbn [bind map fst fold_left]. rewrite Hnt, Hpt.
    apply IH. intros c' n' Hin. apply H. right. exact Hin.
  - apply IH. intros c' n' Hin. apply H. right. exact Hin.
Qed.

Lemma blockNameOf_truthy (b : json) (nm : string) : blockNameOf b = Ret nm -> truthy b = true.
Proof. destruct b; cbn; try discriminate. reflexivity. Qed.

Section Generate.
Variables (name entity : string) (sheets : list sheetSlots).
Hypothesis Hbuilt : Forall builtBlock (allSlots sheets).

Let root : json := workbookFrame name entity sheets.
Let texts : list string := map JSON.stringify (allSlots sheets).
Let names : list (string * string) :=
  fold_left (fun m c => mapSet m c (nameOfText c)) (repeatedTexts (tally texts)) [].
Let defs : object :=
  fold_left (fun o c => obj_set o (nameOfText c) (parsedText c)) (repeatedTexts (tally texts)) [].

Lemma inferrer_repeatedIn_frame (b : json) :
  repeatedIn root b = (1 <? occurrences (JSON.stringify b) texts)%nat.
Proof. unfold repeatedIn, root. rewrite inferrer_blocksOf_frame. reflexivity. Qed.

Lemma inferrer_text_of_slot (c : string) :
  In c texts -> exists b, In b (allSlots sheets) /\ builtBlock b /\ c = JSON.stringify b.
Proof.
  intros Hin. apply in_map_iff in Hin as (b & <- & Hb). exists b.
  rewrite Forall_forall in Hbuilt. auto.
Qed.

Lemma inferrer_deduplicateBlocks_frame :
  deduplicateBlocks root
  = Ret (workbookFrame name entity (mapSlots (deduplicated root) sheets), defs).
Proof.
  unfold deduplicateBlocks, root. rewrite inferrer_findAllBlockSchemas_frame. cbn [bind].
  rewrite inferrer_countUsage_tally, blockSchema_locationsOf. fold texts.
  rewrite defineRepeated_folds.
  2:{ intros c n Hin Hn. apply tally_In in Hin as [-> Hpos].
      apply occurrences_In in Hpos. destruct (inferrer_text_of_slot c Hpos) as (b & _ & Hb & ->).
      exists b. destruct Hb as (Hr & Hw & Href & nm & Hnm) eqn:E.
      exists nm. split; [apply parse_built; exact (conj Hr (conj Hw (conj Href (ex_intro _ nm Hnm)))) | exact Hnm]. }
  cbn [bind]. fold names defs. f_equal. f_equal.
  unfold replaceRepeated.
  rewrite (fold_left_ext _
             (fun r loc =>
                match option_map refTo (mapGet (JSON.stringify (blockSchema loc)) names) with
                | Some v => setSlot r (blocksOneOf loc) (index loc) v
                | None => r
                end)).
  2:{ intros r loc. destruct (mapGet (JSON.stringify (blockSchema loc)) names); reflexivity. }
  rewrite (replace_frame (fun b => option_map refTo (mapGet (JSON.stringify b) names))).
  f_equal. unfold mapSlots. apply map_ext_in. intros sh Hsh. f_equal.
  apply map_ext_in. intros b Hb.
  assert (Hb' : builtBlock b).
  { rewrite Forall_forall in Hbuilt. apply Hbuilt. unfold allSlots.
    apply in_flat_map. exists sh. split; assumption. }
  unfold chosen, deduplicated. rewrite inferrer_repeatedIn_frame.
  unfold names. rewrite mapGet_fold_mapSet, existsb_repeatedTexts. cbn [mapGet].
  destruct (1 <? occurrences (JSON.stringify b) texts)%nat; [|reflexivity].
  cbn [option_map]. rewrite (nameOfText_built b Hb'). reflexivity.
Qed.

Lemma inferrer_defs_empty :
  defs = [] <-> forall b, In b (allSlots sheets) -> repeatedIn root b = false.
Proof.
  split.
  - intros E b Hb. apply fold_set_nil in E as [E _]. rewrite inferrer_repeatedIn_frame.
    destruct (1 <? occurrences (JSON.stringify b) texts)%nat eqn:Hn; [|reflexivity].
    apply Nat.ltb_lt, In_repeatedTexts in Hn. rewrite E in Hn. destruct Hn.
  - intros H. unfold defs.
    destruct (repeatedTexts (tally texts)) as [|c cs] eqn:E; [reflexivity|]. exfalso.
    assert (Hc : In c (repeatedTexts (tally texts))) by (rewrite E; left; reflexivity).
    apply In_repeatedTexts in Hc.
    assert (Hin : In c texts) by (apply occurrences_In; lia).
    destruct (inferrer_text_of_slot c Hin) as (b & Hb & _ & ->).
    specialize (H b Hb). rewrite inferrer_repeatedIn_frame in H. apply Nat.ltb_ge in H. lia.
Qed.

Lemma inferrer_mapSlots_id :
  (forall b, In b (allSlots sheets) -> repeatedIn root b = false) ->
  mapSlots (deduplicated root) sheets = sheets.
Proof.
  intros H. unfold mapSlots. rewrite <- (map_id sheets) at 2.
  apply map_ext_in. intros [n e bs] Hsh. cbn [slotsName slotsEntity slots]. f_equal.
  rewrite <- (map_id bs) at 2. apply map_ext_in. intros b Hb.
  unfold deduplicated. rewrite H; [reflexivity|].
  unfold allSlots. apply in_flat_map. eexists. split; [exact Hsh | exact Hb].
Qed.

(** The definition a repeated block is stored under holds a repeated block
    of the same definition name. *)
Lemma inferrer_defs_lookup (b : json) :
  In b (allSlots sheets) -> repeatedIn root b = true ->
  exists b', In b' (allSlots sheets) /\ repeatedIn root b' = true
             /\ definitionNameOf b' = definitionNameOf b
             /\ obj_get (definitionNameOf b) defs = Some b'.
Proof.
  intros Hb Hrep. unfold defs. rewrite obj_get_fold_set.
  destruct (lastWith (fun k => nameOfText k =? definitionNameOf b) (repeatedTexts (tally texts)))
    as [c|] eqn:E.
  - apply lastWith_Some in E as [Hin Hname]. apply String.eqb_eq in Hname.
    apply In_repeatedTexts in Hin.
    assert (Hc : In c texts) by (apply occurrences_In; lia).
    destruct (inferrer_text_of_slot c Hc) as (b' & Hb' & Hbuilt' & ->).
    exists b'. split; [exact Hb'|]. split; [rewrite inferrer_repeatedIn_frame; apply Nat.ltb_lt, Hin|].
    rewrite (nameOfText_built b' Hbuilt') in Hname. split; [exact Hname|].
    rewrite (parsedText_built b' Hbuilt'). reflexivity.
  - exfalso. rewrite inferrer_repeatedIn_frame in Hrep. apply Nat.ltb_lt in Hrep.
    pose proof (lastWith_None _ _ E (JSON.stringify b)
                  (proj2 (In_repeatedTexts texts _) Hrep)) as H.
    cbv beta in H. rewrite nameOfText_built in H.
    + rewrite String.eqb_refl in H. discriminate.
    + rewrite Forall_forall in Hbuilt. apply Hbuilt, Hb.
Qed.

End Generate.

End InferrerDedupFacts.

Module ResolutionFacts.
Import SchemaRefResolverUtil.

Lemma hasChar_append (c : ascii) (a b : string) :
  hasChar c (a ++ b) = hasChar c a || hasChar c b.
Proof.
  induction a as [|x a IH]; [reflexivity|]. cbn [String.append hasChar].
  rewrite IH, orb_assoc. reflexivity.
Qed.

Lemma hasChar_uint (d : Decimal.uint) : hasChar "/" (NilEmpty.string_of_uint d) = false.
Proof. induction d; cbn; try reflexivity; exact IHd. Qed.

Lemma natToString_segment (n : nat) : segment (Js.natToString n).
Proof. apply hasChar_uint. Qed.

(** A reference to a definition that holds a node without [$ref] resolves
    to that node in one round. *)
Lemma resolve_definition (root defs : object) (d : string) (b : json) :
  obj_get "definitions" root = Some (JObj defs) ->
  obj_get d defs = Some b ->
  segment d ->
  truthy b = true ->
  prop b "$ref" = None ->
  resolveIfRef 1 (refTo d) (JObj root) = Ret b.
Proof.
  intros Hdefs Hd Hseg Hb Href.
  apply ResolverFacts.resolveIfRef_follow; [|discriminate].
  apply (ResolverFacts.follow_chain (JObj root) (refTo d) b 1); [|lia].
  apply chain_step with (segs := ["definitions"; d]) (next := b).
  - reflexivity.
  - split; [discriminate|]. split.
    + constructor; [reflexivity|]. constructor; [exact Hseg | constructor].
    + exists [JObj defs; b]. split; [|split].
      * apply ownPath_cons; [exact Hdefs|]. apply ownPath_cons; [exact Hd | apply ownPath_nil].
      * constructor; [reflexivity|]. constructor; [exact Hb | constructor].
      * reflexivity.
  - apply chain_end. exact Href.
Qed.

Lemma resolve_inline (fuel : nat) (b root : json) :
  prop b "$ref" = None -> resolveIfRef fuel b root = Ret b.
Proof.
  intros H. apply ResolverFacts.resolveIfRef_follow; [|reflexivity].
  apply ResolverFacts.follow_noRef, H.
Qed.

End ResolutionFacts.

Module InferrerGenerateFacts.
Import JsonToSchemaGeneratorUtil InferrerDedupTerms InferrerTextTerms InferrerSchemaFacts.
Import FrameFacts TallyFacts FoldFacts InferrerDedupFacts InferrerExamples InferrerSharedExample.

(** What [generate] returns on the frame of built blocks. *)
Lemma inferrer_generate_frame (data : Workbook) (sheets : list sheetSlots) :
  buildSchema data = Ret (workbookFrame data.(workbookName) data.(workbookEntity) sheets) ->
  Forall builtBlock (allSlots sheets) ->
  exists defs,
    generate data
    = Ret (match defs with
           | [] => workbookFrame data.(workbookName) data.(workbookEntity)
                     (mapSlots (deduplicated
                        (workbookFrame data.(workbookName) data.(workbookEntity) sheets)) sheets)
           | _ => setProp (workbookFrame data.(workbookName) data.(workbookEntity)
                     (mapSlots (deduplicated
                        (workbookFrame data.(workbookName) data.(workbookEntity) sheets)) sheets))
                    "definitions" (JObj defs)
           end)
    /\ (defs = [] <-> forall b, In b (allSlots sheets) ->
                        repeatedIn (workbookFrame data.(workbookName) data.(workbookEntity) sheets) b
                        = false)
    /\ (forall b, In b (allSlots sheets) ->
          repeatedIn (workbookFrame data.(workbookName) data.(workbookEntity) sheets) b = true ->
          exists b', In b' (allSlots sheets)
                     /\ repeatedIn (workbookFrame data.(workbookName) data.(workbookEntity) sheets) b'
                        = true
                     /\ definitionNameOf b' = definitionNameOf b
                     /\ obj_get (definitionNameOf b) defs = Some b').
Proof.
  intros Hroot Hbuilt. eexists. split; [|split].
  - unfold generate. rewrite Hroot. cbn [bind].
    rewrite (inferrer_deduplicateBlocks_frame _ _ _ Hbuilt). cbn [bind]. reflexivity.
  - apply (inferrer_defs_empty _ _ _ Hbuilt).
  - apply (inferrer_defs_lookup _ _ _ Hbuilt).
Qed.

(** X7.  The deduplication of the instance front-end.  When the first names
    of the list items are ordinary keys and the schema of the workbook is
    built, [generate] returns a schema in which the slot of every block
    holds the block built there, or, when the text of the block occurs more
    than once among the blocks, a reference to its definition.  The schema
    has no [definitions] exactly when no block repeats, and is then the
    schema as built. *)
Theorem inferrer_generate_replaces_repeated_blocks (data : Workbook) (root : json) :
  ordinaryItems data ->
  buildSchema data = Ret root ->
  exists schema,
    generate data = Ret schema
    /\ (forall s i, slotAt schema s i = option_map (deduplicated root) (slotAt root s i))
    /\ (prop schema "definitions" = None
        <-> forall b, In b (blocksOf root) -> repeatedIn root b = false)
    /\ ((forall b, In b (blocksOf root) -> repeatedIn root b = false) -> schema = root).
Proof.
  intros _ Hroot. destruct (buildSchema_frame _ _ Hroot) as (sheets & -> & Hbuilt).
  destruct (inferrer_generate_frame data sheets Hroot Hbuilt) as (defs & Hgen & Hempty & _).
  rewrite inferrer_blocksOf_frame.
  eexists. split; [exact Hgen|]. split; [|split].
  - intros s i. rewrite (slotAt_frame _ _ sheets). rewrite <- slots_mapSlots.
    destruct defs as [|d defs].
    + apply slotAt_frame.
    + unfold workbookFrame at 1. rewrite slotAt_setProp by discriminate. apply slotAt_frame.
  - rewrite <- Hempty. destruct defs as [|d defs].
    + split; reflexivity.
    + unfold workbookFrame at 1. unfold setProp. cbn [prop].
      rewrite ObjectFacts.obj_get_set_same. split; discriminate.
  - intros Hnone. pose proof (proj2 Hempty Hnone) as ->.
    rewrite (inferrer_mapSlots_id _ _ _ Hnone). reflexivity.
Qed.

(** X8.  Resolution after the deduplication of the instance front-end.  Let
    the first names of the list items be ordinary keys and the schema of the
    workbook be built.  When repeated blocks that get the same definition
    name are the same block, and the names of the repeated blocks contain no
    [/], the resolver finds behind every slot of the schema [generate]
    returns the block that was built there, following at most one pointer.
    *)
Theorem inferrer_generate_keeps_resolution (data : Workbook) (root : json) :
  ordinaryItems data ->
  buildSchema data = Ret root ->
  (forall b b', In b (blocksOf root) -> In b' (blocksOf root) ->
                repeatedIn root b = true -> repeatedIn root b' = true ->
                definitionNameOf b = definitionNameOf b' -> b = b') ->
  (forall b, In b (blocksOf root) -> repeatedIn root b = true ->
             segment (returned "" (blockNameOf b))) ->
  exists schema,
    generate data = Ret schema
    /\ forall s i b,
         slotAt root s i = Some b ->
         exists slot,
           slotAt schema s i = Some slot
           /\ SchemaRefResolverUtil.resolveIfRef 1 slot schema = Ret b.
Proof.
  intros _ Hroot Hdistinct Hseg. destruct (buildSchema_frame _ _ Hroot) as (sheets & -> & Hbuilt).
  destruct (inferrer_generate_frame data sheets Hroot Hbuilt) as (defs & Hgen & Hempty & Hlookup).
  rewrite inferrer_blocksOf_frame in Hdistinct, Hseg.
  eexists. split; [exact Hgen|].
  intros s i b Hslot.
  assert (Hin : In b (allSlots sheets)).
  { rewrite slotAt_frame in Hslot. destruct (nth_error sheets s) as [sh|] eqn:Hs; [|discriminate].
    unfold allSlots. apply in_flat_map. exists sh.
    split; [apply (nth_error_In _ _ Hs) | apply (nth_error_In _ _ Hslot)]. }
  assert (Hb : builtBlock b) by (rewrite Forall_forall in Hbuilt; apply Hbuilt, Hin).
  destruct Hb as (_ & _ & Href & nm & Hnm).
  exists (deduplicated (workbookFrame (workbookName data) (workbookEntity data) sheets) b).
  assert (Hafter : forall r : object,
             r = match workbookFrame (workbookName data) (workbookEntity data)
                         (mapSlots (deduplicated
                            (workbookFrame (workbookName data) (workbookEntity data) sheets)) sheets)
                 with JObj o => o | _ => [] end ->
             slotAt (JObj r) s i
             = Some (deduplicated (workbookFrame (workbookName data) (workbookEntity data) sheets) b)).
  { intros r ->. unfold workbookFrame at 1.
    change (JObj _) with (workbookFrame (workbookName data) (workbookEntity data)
                            (mapSlots (deduplicated
                               (workbookFrame (workbookName data) (workbookEntity data) sheets)) sheets)).
    rewrite slotAt_frame, slots_mapSlots.
    rewrite slotAt_frame in Hslot. rewrite Hslot. reflexivity. }
  destruct defs as [|d0 defs0] eqn:Hdefs.
  - split; [apply (Hafter _ eq_refl)|].
    unfold deduplicated. rewrite (proj1 Hempty eq_refl b Hin).
    apply ResolutionFacts.resolve_inline, Href.
  - split.
    + unfold workbookFrame at 1. rewrite slotAt_setProp by discriminate.
      apply (Hafter _ eq_refl).
    + unfold deduplicated.
      destruct (repeatedIn (workbookFrame (workbookName data) (workbookEntity data) sheets) b)
        eqn:Hrep.
      * destruct (Hlookup b Hin Hrep) as (b' & Hin' & Hrep' & Hname & Hget).
        assert (b' = b) by (apply Hdistinct; assumption). subst b'.
        unfold workbookFrame at 1. unfold setProp.
        apply (ResolutionFacts.resolve_definition _ (d0 :: defs0)).
        -- apply ObjectFacts.obj_get_set_same.
        -- exact Hget.
        -- unfold definitionNameOf, segment. rewrite !ResolutionFacts.hasChar_append.
           rewrite (Hseg b Hin Hrep). cbn [hasChar orb Ascii.eqb Bool.eqb].
           apply ResolutionFacts.natToString_segment.
        -- apply (blockNameOf_truthy _ _ Hnm).
        -- exact Href.
      * apply ResolutionFacts.resolve_inline, Href.
Qed.

Lemma inferrer_generate_replaces_repeated_blocks_witness :
  exists schema,
    generate sharedData = Ret schema
    /\ (forall s i, slotAt schema s i = option_map (deduplicated sharedRoot) (slotAt sharedRoot s i))
    /\ (prop schema "definitions" = None
        <-> forall b, In b (blocksOf sharedRoot) -> repeatedIn sharedRoot b = false)
    /\ ((forall b, In b (blocksOf sharedRoot) -> repeatedIn sharedRoot b = false) ->
        schema = sharedRoot).
Proof.
  apply (inferrer_generate_replaces_repeated_blocks sharedData sharedRoot); [ordinary | reflexivity].
Defined.

Lemma inferrer_generate_keeps_resolution_witness :
  exists schema,
    generate sharedData = Ret schema
    /\ forall s i b,
         slotAt sharedRoot s i = Some b ->
         exists slot,
           slotAt schema s i = Some slot
           /\ SchemaRefResolverUtil.resolveIfRef 1 slot schema = Ret b.
Proof.
  apply (inferrer_generate_keeps_resolution sharedData sharedRoot).
  - ordinary.
  - reflexivity.
  - intros b b' Hb Hb' Hr Hr' _. vm_compute in Hb, Hb'. either; subst;
      first [reflexivity | vm_compute in Hr; discriminate | vm_compute in Hr'; discriminate].
  - intros b Hb Hr. vm_compute in Hb. either; subst;
      first [reflexivity | vm_compute in Hr; discriminate].
Defined.

End InferrerGenerateFacts.

Module WholeNumbersFacts.
Import WholeNumbers.

Lemma NToString_json (n : N) :
  n <> 0%N ->
  JSON.isJsonNumber (Js.NToString n) = true
  /\ JSON.isJsonNumber ("-" ++ Js.NToString n) = true
  /\ "-" ++ Js.NToString n <> "-0"
  /\ Js.NToString n <> "-0".
Proof.
  intros Hn. unfold Js.NToString.
  assert (Hz : N.to_uint n <> Decimal.zero).
  { intros E. apply Hn. rewrite <- (DecimalN.Unsigned.of_to n), E. reflexivity. }
  rewrite NumeralFacts.N_to_uint_unorm in *.
  destruct (NumeralFacts.unorm_json (N.to_uint n)) as (Hjson & c & r & Heq & Hdigit & Hzero).
  rewrite Heq in *. split; [exact Hjson|]. split; [|split].
  - cbn [String.append]. unfold JSON.isJsonNumber. cbn [Ascii.eqb Bool.eqb].
    unfold JSON.isJsonNumber in Hjson.
    destruct (Ascii.eqb c "-") eqn:Hc; [|exact Hjson].
    apply Ascii.eqb_eq in Hc. subst c. discriminate.
  - cbn [String.append]. intros E. injection E as -> ->.
    apply Hz. revert Heq. generalize (Decimal.unorm (N.to_uint n)). intros d Hd.
    destruct d; cbn in Hd; try discriminate. destruct d; cbn in Hd; try discriminate. reflexivity.
  - intros E. injection E as -> _. discriminate.
Qed.

Lemma ofInteger_rendered (negative : bool) (n : N) : renderedNumber (ofInteger negative n).
Proof.
  unfold ofInteger. destruct (N.eqb_spec n 0) as [->|Hn].
  - destruct negative; cbn; [exact I | split; [reflexivity | discriminate]].
  - destruct (NToString_json n Hn) as (H1 & H2 & H3 & H4).
    destruct negative; cbn [renderedNumber]; split; assumption.
Qed.

Lemma read_rendered (infinities : bool) (t : string) : renderedNumber (read infinities t).
Proof.
  unfold read. destruct (signedValue t) as [[negative n]|]; [apply ofInteger_rendered|].
  destruct (infinities && ((t =? "Infinity") || (t =? "+Infinity"))); [exact I|].
  destruct (infinities && (t =? "-Infinity")); exact I.
Qed.

(** The whole-number instance returns rendered numbers. *)
Lemma builtins_rendered : ExcelDedupTerms.renderedBuiltins builtins.
Proof. intros s. split; apply read_rendered. Qed.

End WholeNumbersFacts.

Module DefinedCopyFacts.
Import ExcelToSchemaGeneratorUtil ExcelDedupTerms CanonicalFacts OwnOrderFacts.

Lemma wellOrdered_uniqueKeys (v : json) : wellOrdered v -> uniqueKeys v.
Proof.
  induction v as [| | | |items IH|props IH] using json_nested_ind; intros Hv;
    try (constructor; fail).
  - inversion Hv as [| | | |? Hitems|]; subst. constructor.
    rewrite Forall_forall in *. intros x Hx. apply IH; auto.
  - inversion Hv as [| | | | |? Hown Hprops]; subst. constructor.
    + apply TreeFacts.ownOrder_NoDup, Hown.
    + rewrite Forall_forall in *. intros kv Hkv. apply IH; auto.
Qed.

Lemma obj_has_map_values (f : json -> json) (k : string) (o : object) :
  obj_has k (map (fun kv => (fst kv, f (snd kv))) o) = obj_has k o.
Proof. unfold obj_has. rewrite obj_get_map_values. destruct (obj_get k o); reflexivity. Qed.

Lemma obj_set_map_values (f : json -> json) (o : object) (k : string) (v : json) :
  map (fun kv => (fst kv, f (snd kv))) (obj_set o k v)
  = obj_set (map (fun kv => (fst kv, f (snd kv))) o) k (f v).
Proof.
  unfold obj_set. rewrite obj_has_map_values. destruct (obj_has k o).
  - induction o as [|[k0 v0] o IH]; [reflexivity|]. cbn [obj_replace map fst snd].
    destruct (k0 =? k); cbn [map fst snd]; [reflexivity | rewrite IH; reflexivity].
  - destruct (Js.arrayIndex k) as [n|].
    + induction o as [|[k0 v0] o IH]; [reflexivity|]. cbn [obj_insert_index map fst snd].
      destruct (Js.arrayIndex k0) as [n'|]; [destruct (n' <? n)%N|]; cbn [map fst snd];
        try reflexivity. rewrite IH. reflexivity.
    + rewrite map_app. reflexivity.
Qed.

Lemma rebuild_map_values (f : json -> json) (sub : object) (ks : list string) (acc : object) :
  map (fun kv => (fst kv, f (snd kv))) (fold_left (rebuildStep sub) ks acc)
  = fold_left (rebuildStep (map (fun kv => (fst kv, f (snd kv))) sub)) ks
      (map (fun kv => (fst kv, f (snd kv))) acc).
Proof.
  revert acc. induction ks as [|k ks IH]; intros acc; [reflexivity|].
  cbn [fold_left]. rewrite IH. f_equal. unfold rebuildStep. rewrite obj_get_map_values.
  destruct (obj_get k sub); cbn [option_map]; [apply obj_set_map_values | reflexivity].
Qed.

(** The canonical tree of what JSON text carries is what the text carries
    of the canonical tree. *)
Lemma toTree_carried (v : json) :
  toTreeMapRecursive (carried v) = carried (toTreeMapRecursive v).
Proof.
  induction v as [| |x| |items IH|props IH] using json_nested_ind; try reflexivity.
  - destruct x as [r| | |[|]]; reflexivity.
  - cbn [carried toTreeMapRecursive]. f_equal. rewrite !map_map.
    apply map_ext_in. intros x Hx. rewrite Forall_forall in IH. apply IH, Hx.
  - cbn [carried]. rewrite !toTreeMapRecursive_obj. cbn [carried]. f_equal.
    rewrite rebuild_map_values. cbn [map].
    assert (Hkeys : obj_keys (map (fun kv => (fst kv, carried (snd kv))) props) = obj_keys props).
    { unfold obj_keys. rewrite map_map. reflexivity. }
    rewrite Hkeys. apply rebuild_ext. intros k _. rewrite !obj_get_map_values.
    destruct (obj_get k props) as [a|] eqn:Hget; [|reflexivity]. cbn [option_map]. f_equal.
    rewrite Forall_forall in IH. apply (IH (k, a) (obj_get_In _ _ _ Hget)).
Qed.

(** The copy a definition holds has the canonical text of the block. *)
Lemma toCanonicalJson_definedCopy (b : json) :
  uniqueKeys b -> toCanonicalJson (definedCopy b) = toCanonicalJson b.
Proof.
  intros Hu. unfold toCanonicalJson, definedCopy.
  rewrite toTree_carried, RoundTripFacts.stringify_carried.
  rewrite TreeFacts.toTree_idempotent by exact Hu. reflexivity.
Qed.

Lemma definedCopy_obj (o : object) :
  exists copy, definedCopy (JObj o) = JObj copy
               /\ forall k, obj_get k copy = option_map definedCopy (obj_get k o).
Proof.
  unfold definedCopy. destruct (TreeFacts.toTree_obj_shape o) as (R & E & _).
  rewrite E. cbn [carried]. eexists. split; [reflexivity|].
  intros k. rewrite obj_get_map_values, (toTree_get o R k E).
  destruct (obj_get k o); reflexivity.
Qed.

(** The name of the definition of a block, read from its shape. *)
Lemma definitionName_shape (o po no : object) (name : string) :
  rendered (JObj o) ->
  obj_get "properties" o = Some (JObj po) ->
  obj_get "name" po = Some (JObj no) ->
  obj_get "enum" no = Some (JArr [JStr name]) ->
  definitionName (toCanonicalJson (JObj o)) = Ret (if name =? "" then "Block" else name).
Proof.
  intros Hr Hp Hn He. unfold definitionName.
  rewrite RoundTripFacts.fromCanonicalJson_toCanonicalJson by exact Hr. cbn [bind].
  fold (definedCopy (JObj o)).
  destruct (definedCopy_obj o) as (c & -> & Hc).
  destruct (definedCopy_obj po) as (cp & Ecp & Hcp).
  destruct (definedCopy_obj no) as (cn & Ecn & Hcn).
  cbn [prop]. rewrite Hc, Hp. cbn [option_map]. rewrite Ecp. cbn [orElse truthy prop].
  rewrite Hcp, Hn. cbn [option_map]. rewrite Ecn. cbn [orElse truthy prop].
  rewrite Hcn, He. cbn [option_map]. cbn.
  destruct (name =? ""); reflexivity.
Qed.

End DefinedCopyFacts.

Module ExcelSchemaFacts.
Import ExcelToSchemaGeneratorUtil ExcelDedupTerms OwnOrderFacts DefinedCopyFacts.

Ltac distinct_keys := repeat constructor; simpl; intuition discriminate.
Ltac plain_object := apply ownOrder_plain; [distinct_keys | repeat constructor].

Lemma soundObject_set (o : object) (k : string) (v : json) :
  soundObject o -> rendered v -> wellOrdered v -> soundObject (obj_set o k v).
Proof.
  intros (Hown & Hr & Hw) Hv Hv'. split; [|split].
  - apply obj_set_ownOrder, Hown.
  - apply (FingerprintFacts.obj_set_Forall rendered); assumption.
  - apply (FingerprintFacts.obj_set_Forall wellOrdered); assumption.
Qed.

Lemma soundObject_if (c : bool) (o : object) (k : string) (v : json) :
  soundObject o -> rendered v -> wellOrdered v ->
  soundObject (if c then obj_set o k v else o).
Proof. intros. destruct c; [apply soundObject_set|]; assumption. Qed.

Lemma soundObject_json (o : object) : soundObject o -> rendered (JObj o) /\ wellOrdered (JObj o).
Proof. intros (Hown & Hr & Hw). split; constructor; assumption. Qed.

Lemma strings_sound (l : list string) :
  rendered (JArr (map JStr l)) /\ wellOrdered (JArr (map JStr l)).
Proof.
  split; constructor; apply Forall_map, Forall_forall; intros; constructor.
Qed.

Lemma nat_rendered (n : nat) : rendered (JNum (numberOfNat n)).
Proof.
  constructor. pose proof (NumeralFacts.numberOfNat_representable n) as H. exact H.
Qed.

Section Built.
Context {builtins : NumericBuiltins}.
Hypothesis Hnum : renderedBuiltins builtins.

Lemma buildFieldSchema_sound (bf : BlockField) :
  rendered (buildFieldSchema bf) /\ wellOrdered (buildFieldSchema bf).
Proof.
  unfold buildFieldSchema. apply soundObject_json.
  repeat (apply soundObject_if;
          [| first [ constructor; apply Hnum | apply strings_sound | repeat constructor ]
           | first [ apply strings_sound | repeat constructor ] ]).
  assert (Hnil : soundObject []) by (repeat split; constructor).
  destruct (nonEmpty (type bf)); [destruct (_ && _)|];
    apply soundObject_set; try exact Hnil; repeat constructor.
Qed.

Lemma stringEnum_sound (s : string) : rendered (stringEnum s) /\ wellOrdered (stringEnum s).
Proof.
  unfold stringEnum. split; [repeat constructor|].
  constructor; [plain_object | repeat constructor].
Qed.

Lemma map_sound (A : Type) (f : A -> json) (l : list A) :
  (forall x, rendered (f x) /\ wellOrdered (f x)) ->
  Forall rendered (map f l) /\ Forall wellOrdered (map f l).
Proof.
  intros H. split; apply Forall_map, Forall_forall; intros x _; apply H.
Qed.

Lemma itemProps_sound (fs : list BlockField) (acc : object) :
  soundObject acc ->
  soundObject (fold_left (fun itemProps bf => obj_set itemProps bf.(fieldName) (buildFieldSchema bf))
                         fs acc).
Proof.
  revert acc. induction fs as [|f fs IH]; intros acc Hacc; [exact Hacc|].
  cbn [fold_left]. apply IH. apply soundObject_set; [exact Hacc | |]; apply buildFieldSchema_sound.
Qed.

Lemma buildTableBlockSchema_built (block : BlockModel) :
  builtBlock (buildTableBlockSchema block)
  /\ definitionName (toCanonicalJson (buildTableBlockSchema block))
     = Ret (if block.(name) =? "" then "Block" else block.(name)).
Proof.
  destruct (map_sound _ (fun f => stringEnum f.(fieldName)) block.(fields)
              (fun f => stringEnum_sound _)) as [Hhr Hhw].
  destruct (map_sound _ buildFieldSchema block.(fields) buildFieldSchema_sound) as [Hcr Hcw].
  destruct (stringEnum_sound block.(name)) as [Hnr Hnw].
  destruct (stringEnum_sound "table") as [Htr Htw].
  assert (Hr : rendered (buildTableBlockSchema block)).
  { unfold buildTableBlockSchema.
    repeat (first [ exact Hnr | exact Htr | apply nat_rendered
                  | apply rendered_arr; first [exact Hcr | exact Hhr | idtac]
                  | constructor ]; cbn [snd]). }
  assert (Hname : definitionName (toCanonicalJson (buildTableBlockSchema block))
                  = Ret (if block.(name) =? "" then "Block" else block.(name))).
  { unfold buildTableBlockSchema in *. eapply definitionName_shape; [exact Hr | reflexivity..]. }
  split; [|exact Hname].
  split; [exact Hr|]. split; [|split; [|split; [|split; [reflexivity|]]]].
  - unfold buildTableBlockSchema.
    repeat (first [ exact Hnw | exact Htw
                  | apply wellOrdered_arr; first [exact Hcw | exact Hhw | idtac]
                  | apply wellOrdered_obj; [plain_object|]
                  | constructor ]; cbn [snd]).
  - unfold buildTableBlockSchema.
    match goal with |- truthy (definedCopy (JObj ?o)) = _ =>
      destruct (definedCopy_obj o) as (c & -> & Hc) end.
    reflexivity.
  - unfold buildTableBlockSchema.
    match goal with |- prop (definedCopy (JObj ?o)) _ = _ =>
      destruct (definedCopy_obj o) as (c & -> & Hc) end.
    cbn [prop]. rewrite Hc. reflexivity.
  - eexists. exact Hname.
Qed.

Lemma buildListBlockSchema_built (block : BlockModel) :
  builtBlock (buildListBlockSchema block)
  /\ definitionName (toCanonicalJson (buildListBlockSchema block))
     = Ret (if block.(name) =? "" then "Block" else block.(name)).
Proof.
  destruct (itemProps_sound block.(fields) []) as (Hown & Hpr & Hpw);
    [repeat split; constructor|].
  destruct (stringEnum_sound block.(name)) as [Hnr Hnw].
  destruct (stringEnum_sound "list") as [Hlr Hlw].
  assert (Hr : rendered (buildListBlockSchema block)).
  { unfold buildListBlockSchema.
    repeat (first [ exact Hnr | exact Hlr
                  | apply rendered_obj; exact Hpr
                  | constructor ]; cbn [snd]). }
  assert (Hname : definitionName (toCanonicalJson (buildListBlockSchema block))
                  = Ret (if block.(name) =? "" then "Block" else block.(name))).
  { unfold buildListBlockSchema in *. eapply definitionName_shape; [exact Hr | reflexivity..]. }
  split; [|exact Hname].
  split; [exact Hr|]. split; [|split; [|split; [|split; [reflexivity|]]]].
  - unfold buildListBlockSchema.
    repeat (first [ exact Hnw | exact Hlw
                  | apply wellOrdered_obj; [exact Hown | exact Hpw]
                  | apply wellOrdered_obj; [plain_object|]
                  | constructor ]; cbn [snd]).
  - unfold buildListBlockSchema.
    match goal with |- truthy (definedCopy (JObj ?o)) = _ =>
      destruct (definedCopy_obj o) as (c & -> & Hc) end.
    reflexivity.
  - unfold buildListBlockSchema.
    match goal with |- prop (definedCopy (JObj ?o)) _ = _ =>
      destruct (definedCopy_obj o) as (c & -> & Hc) end.
    cbn [prop]. rewrite Hc. reflexivity.
  - eexists. exact Hname.
Qed.

Lemma buildBlockSchema_built (block : BlockModel) :
  builtBlock (buildBlockSchema block)
  /\ definitionName (toCanonicalJson (buildBlockSchema block))
     = Ret (if block.(name) =? "" then "Block" else block.(name)).
Proof.
  unfold buildBlockSchema. destruct (entity block);
    [apply buildListBlockSchema_built | apply buildTableBlockSchema_built].
Qed.

(** The schema of a workbook model is the frame around the schemas of its blocks. *)
Lemma buildJsonSchema_frame (workbook : WorkbookModel) :
  buildJsonSchema workbook
  = workbookFrame workbook.(workbookName) workbook.(workbookEntity)
      (map slotsOfSheet workbook.(sheets)).
Proof.
  unfold buildJsonSchema, workbookFrame. rewrite map_map. reflexivity.
Qed.

Lemma allSlots_built (workbook : WorkbookModel) :
  Forall builtBlock (allSlots (map slotsOfSheet workbook.(sheets))).
Proof.
  apply Forall_forall. intros b Hb. unfold allSlots in Hb.
  apply in_flat_map in Hb as (sh & Hsh & Hb). apply in_map_iff in Hsh as (sheet & <- & _).
  cbn [slotsOfSheet slots] in Hb. apply in_map_iff in Hb as (block & <- & _).
  apply buildBlockSchema_built.
Qed.

End Built.

End ExcelSchemaFacts.

Module ExcelDedupFacts.
Import ExcelToSchemaGeneratorUtil ExcelDedupTerms ExcelCanonTerms ExcelSchemaFacts DefinedCopyFacts.
Import FrameFacts TallyFacts FoldFacts.

Lemma excel_sheetLocations_frames (s : nat) (sheets : list sheetSlots) :
  sheetLocations s (map sheetFrame sheets) = Ret (locationsOf s sheets).
Proof.
  revert s. induction sheets as [|sh rest IH]; intros s; [reflexivity|].
  cbn [map sheetLocations locationsOf]. unfold sheetFrame at 1. rewrite IH. reflexivity.
Qed.

Lemma excel_findAllBlockSchemas_frame (name entity : string) (sheets : list sheetSlots) :
  findAllBlockSchemas (workbookFrame name entity sheets) = Ret (locationsOf 0 sheets).
Proof. apply excel_sheetLocations_frames. Qed.

Lemma excel_blocksOf_frame (name entity : string) (sheets : list sheetSlots) :
  blocksOf (workbookFrame name entity sheets) = allSlots sheets.
Proof.
  unfold blocksOf. rewrite excel_findAllBlockSchemas_frame. apply blockSchema_locationsOf.
Qed.

Lemma excel_countUsage_tally (locs : list location) :
  countUsage locs = tally (map toCanonicalJson (map blockSchema locs)).
Proof.
  unfold countUsage, tally. rewrite map_map, fold_left_map. reflexivity.
Qed.

Lemma parsedCanon_built (b : json) : builtBlock b -> parsedCanon (toCanonicalJson b) = definedCopy b.
Proof.
  intros (Hr & _). unfold parsedCanon.
  rewrite RoundTripFacts.fromCanonicalJson_toCanonicalJson by exact Hr. reflexivity.
Qed.

Lemma nameOfCanon_built (b : json) : nameOfCanon (toCanonicalJson b) = definitionNameOf b.
Proof. reflexivity. Qed.

(** The loop that names the repeated blocks. *)
Lemma nameRepeated_map (usage : list (string * nat)) :
  (forall c n, In (c, n) usage -> 1 < n -> exists nm, definitionName c = Ret nm) ->
  nameRepeated usage = Ret (map (fun c => (c, nameOfCanon c)) (repeatedTexts usage)).
Proof.
  induction usage as [|[c n] usage IH]; intros H; [reflexivity|].
  cbn [nameRepeated]. unfold repeatedTexts. cbn [filter snd].
  assert (Hrest : nameRepeated usage = Ret (map (fun c => (c, nameOfCanon c)) (repeatedTexts usage))).
  { apply IH. intros c' n' Hin. apply H. right. exact Hin. }
  destruct (1 <? n)%nat eqn:Hn.
  - apply Nat.ltb_lt in Hn. destruct (H c n (or_introl eq_refl) Hn) as (nm & Hnm).
    assert (Hnc : nameOfCanon c = nm) by (unfold nameOfCanon; rewrite Hnm; reflexivity).
    rewrite Hnm, Hrest. cbn [bind map fst]. rewrite Hnc. reflexivity.
  - exact Hrest.
Qed.

(** The loop that builds the definitions. *)
Lemma buildDefinitions_fold (texts : list string) (defs : object) :
  (forall c, In c texts -> exists v, fromCanonicalJson c = Ret v) ->
  buildDefinitions (map (fun c => (c, nameOfCanon c)) texts) defs
  = Ret (fold_left (fun o c => obj_set o (nameOfCanon c) (parsedCanon c)) texts defs).
Proof.
  revert defs. induction texts as [|c texts IH]; intros defs H; [reflexivity|].
  cbn [map buildDefinitions]. destruct (H c (or_introl eq_refl)) as (v & Hv).
  assert (Hpc : parsedCanon c = v) by (unfold parsedCanon; rewrite Hv; reflexivity).
  rewrite Hv. cbn [bind fold_left]. rewrite Hpc. apply IH.
  intros c' Hin. apply H. right. exact Hin.
Qed.

Lemma mapGet_map_keys (g : string -> string) (ks : list string) (c : string) :
  mapGet c (map (fun k => (k, g k)) ks)
  = if existsb (String.eqb c) ks then Some (g c) else None.
Proof.
  induction ks as [|k ks IH]; [reflexivity|]. cbn [map mapGet existsb].
  destruct (String.eqb_spec k c) as [->|Hne].
  - rewrite String.eqb_refl. reflexivity.
  - destruct (String.eqb_spec c k); [congruence | exact IH].
Qed.

Section Generate.
Variables (name entity : string) (sheets : list sheetSlots).
Hypothesis Hbuilt : Forall builtBlock (allSlots sheets).

Let root : json := workbookFrame name entity sheets.
Let texts : list string := map toCanonicalJson (allSlots sheets).
Let defs : object :=
  fold_left (fun o c => obj_set o (nameOfCanon c) (parsedCanon c)) (repeatedTexts (tally texts)) [].

Lemma excel_repeatedIn_frame (b : json) :
  repeatedIn root b = (1 <? occurrences (toCanonicalJson b) texts)%nat.
Proof. unfold repeatedIn, root. rewrite excel_blocksOf_frame. reflexivity. Qed.

Lemma excel_text_of_slot (c : string) :
  In c texts -> exists b, In b (allSlots sheets) /\ builtBlock b /\ c = toCanonicalJson b.
Proof.
  intros Hin. apply in_map_iff in Hin as (b & <- & Hb). exists b.
  rewrite Forall_forall in Hbuilt. auto.
Qed.

Lemma repeated_text_of_slot (c : string) :
  In c (repeatedTexts (tally texts)) ->
  exists b, In b (allSlots sheets) /\ builtBlock b /\ c = toCanonicalJson b
            /\ repeatedIn root b = true.
Proof.
  intros Hin. apply TallyFacts.In_repeatedTexts in Hin.
  assert (Hc : In c texts) by (apply occurrences_In; lia).
  destruct (excel_text_of_slot c Hc) as (b & Hb & Hbb & ->).
  exists b. split; [exact Hb|]. split; [exact Hbb|]. split; [reflexivity|].
  rewrite excel_repeatedIn_frame. apply Nat.ltb_lt, Hin.
Qed.

Lemma excel_deduplicateBlocks_frame :
  deduplicateBlocks root
  = Ret (workbookFrame name entity (mapSlots (deduplicated root) sheets), defs).
Proof.
  unfold deduplicateBlocks, root. rewrite excel_findAllBlockSchemas_frame. cbn [bind].
  rewrite excel_countUsage_tally, blockSchema_locationsOf. fold texts.
  rewrite nameRepeated_map.
  2:{ intros c n Hin Hn. apply tally_In in Hin as [-> Hpos].
      apply occurrences_In in Hpos. destruct (excel_text_of_slot c Hpos) as (b & _ & Hb & ->).
      destruct Hb as (_ & _ & _ & _ & _ & nm & Hnm). exists nm. exact Hnm. }
  cbn [bind]. rewrite buildDefinitions_fold.
  2:{ intros c Hin. destruct (repeated_text_of_slot c Hin) as (b & _ & (Hr & _) & -> & _).
      eexists. apply RoundTripFacts.fromCanonicalJson_toCanonicalJson, Hr. }
  cbn [bind]. fold defs. f_equal. f_equal.
  unfold replaceRepeated.
  rewrite (fold_left_ext _
             (fun r loc =>
                match option_map refTo
                        (mapGet (toCanonicalJson (blockSchema loc))
                           (map (fun c => (c, nameOfCanon c)) (repeatedTexts (tally texts)))) with
                | Some v => setSlot r (blocksOneOf loc) (index loc) v
                | None => r
                end)).
  2:{ intros r loc.
      destruct (mapGet (toCanonicalJson (blockSchema loc))
                  (map (fun c => (c, nameOfCanon c)) (repeatedTexts (tally texts)))); reflexivity. }
  rewrite (replace_frame
             (fun b => option_map refTo
                         (mapGet (toCanonicalJson b)
                            (map (fun c => (c, nameOfCanon c)) (repeatedTexts (tally texts)))))).
  f_equal. unfold mapSlots. apply map_ext_in. intros sh Hsh. f_equal.
  apply map_ext_in. intros b Hb.
  unfold chosen, deduplicated. rewrite excel_repeatedIn_frame.
  rewrite mapGet_map_keys, TallyFacts.existsb_repeatedTexts.
  destruct (1 <? occurrences (toCanonicalJson b) texts)%nat; reflexivity.
Qed.

Lemma excel_defs_empty :
  defs = [] <-> forall b, In b (allSlots sheets) -> repeatedIn root b = false.
Proof.
  split.
  - intros E b Hb. apply fold_set_nil in E as [E _]. rewrite excel_repeatedIn_frame.
    destruct (1 <? occurrences (toCanonicalJson b) texts)%nat eqn:Hn; [|reflexivity].
    apply Nat.ltb_lt, TallyFacts.In_repeatedTexts in Hn. rewrite E in Hn. destruct Hn.
  - intros H. unfold defs.
    destruct (repeatedTexts (tally texts)) as [|c cs] eqn:E; [reflexivity|]. exfalso.
    assert (Hc : In c (repeatedTexts (tally texts))) by (rewrite E; left; reflexivity).
    destruct (repeated_text_of_slot c Hc) as (b & Hb & _ & _ & Hrep).
    rewrite (H b Hb) in Hrep. discriminate.
Qed.

Lemma excel_mapSlots_id :
  (forall b, In b (allSlots sheets) -> repeatedIn root b = false) ->
  mapSlots (deduplicated root) sheets = sheets.
Proof.
  intros H. unfold mapSlots. rewrite <- (map_id sheets) at 2.
  apply map_ext_in. intros [n e bs] Hsh. cbn [slotsName slotsEntity slots]. f_equal.
  rewrite <- (map_id bs) at 2. apply map_ext_in. intros b Hb.
  unfold deduplicated. rewrite H; [reflexivity|].
  unfold allSlots. apply in_flat_map. eexists. split; [exact Hsh | exact Hb].
Qed.

(** The definition a repeated block is stored under holds the copy of a
    repeated block of the same definition name. *)
Lemma excel_defs_lookup (b : json) :
  In b (allSlots sheets) -> repeatedIn root b = true ->
  exists b', In b' (allSlots sheets) /\ repeatedIn root b' = true
             /\ definitionNameOf b' = definitionNameOf b
             /\ obj_get (definitionNameOf b) defs = Some (definedCopy b').
Proof.
  intros Hb Hrep. unfold defs. rewrite obj_get_fold_set.
  destruct (lastWith (fun k => nameOfCanon k =? definitionNameOf b) (repeatedTexts (tally texts)))
    as [c|] eqn:E.
  - apply lastWith_Some in E as [Hin Hname]. apply String.eqb_eq in Hname.
    destruct (repeated_text_of_slot c Hin) as (b' & Hb' & Hbuilt' & -> & Hrep').
    exists b'. split; [exact Hb'|]. split; [exact Hrep'|]. split; [exact Hname|].
    rewrite (parsedCanon_built b' Hbuilt'). reflexivity.
  - exfalso. rewrite excel_repeatedIn_frame in Hrep. apply Nat.ltb_lt in Hrep.
    pose proof (lastWith_None _ _ E (toCanonicalJson b)
                  (proj2 (TallyFacts.In_repeatedTexts texts _) Hrep)) as H.
    cbv beta in H. rewrite nameOfCanon_built, String.eqb_refl in H. discriminate.
Qed.

End Generate.

Section Theorems.
Context {builtins : NumericBuiltins}.
Hypothesis Hnum : renderedBuiltins builtins.

Lemma excel_generate_frame (workbook : WorkbookModel) :
  let sheets := map slotsOfSheet workbook.(sheets) in
  let root := workbookFrame workbook.(workbookName) workbook.(workbookEntity) sheets in
  exists defs,
    generate workbook
    = Ret (match defs with
           | [] => workbookFrame workbook.(workbookName) workbook.(workbookEntity)
                     (mapSlots (deduplicated root) sheets)
           | _ => setProp (workbookFrame workbook.(workbookName) workbook.(workbookEntity)
                     (mapSlots (deduplicated root) sheets))
                    "definitions" (JObj defs)
           end)
    /\ (defs = [] <-> forall b, In b (allSlots sheets) -> repeatedIn root b = false)
    /\ (forall b, In b (allSlots sheets) -> repeatedIn root b = true ->
          exists b', In b' (allSlots sheets) /\ repeatedIn root b' = true
                     /\ definitionNameOf b' = definitionNameOf b
                     /\ obj_get (definitionNameOf b) defs = Some (definedCopy b')).
Proof.
  intros sheets root. pose proof (allSlots_built Hnum workbook) as Hbuilt.
  eexists. split; [|split].
  - unfold generate. rewrite buildJsonSchema_frame.
    rewrite (excel_deduplicateBlocks_frame _ _ _ Hbuilt). cbn [bind]. reflexivity.
  - apply (excel_defs_empty _ _ _ Hbuilt).
  - apply (excel_defs_lookup _ _ _ Hbuilt).
Qed.

(** X9.  The deduplication of the spreadsheet front-end.  With numeric
    built-ins that return rendered numbers, and names of blocks and fields
    that are ordinary keys, [generate] returns a schema in which the slot of
    every block holds the block built there, or, when the canonical text of
    the block occurs more than once among the blocks, a reference to its
    definition.  The schema has no [definitions] exactly when no block
    repeats, and is then the schema as built. *)
Theorem excel_generate_replaces_repeated_blocks (workbook : WorkbookModel) :
  ordinaryNames workbook ->
  exists schema,
    generate workbook = Ret schema
    /\ (forall s i,
          slotAt schema s i
          = option_map (deduplicated (buildJsonSchema workbook))
                       (slotAt (buildJsonSchema workbook) s i))
    /\ (prop schema "definitions" = None
        <-> forall b, In b (blocksOf (buildJsonSchema workbook)) ->
                      repeatedIn (buildJsonSchema workbook) b = false)
    /\ ((forall b, In b (blocksOf (buildJsonSchema workbook)) ->
                   repeatedIn (buildJsonSchema workbook) b = false) ->
        schema = buildJsonSchema workbook).
Proof.
  intros _. destruct (excel_generate_frame workbook) as (defs & Hgen & Hempty & _).
  rewrite buildJsonSchema_frame, excel_blocksOf_frame.
  eexists. split; [exact Hgen|]. split; [|split].
  - intros s i. rewrite (slotAt_frame _ _ (map slotsOfSheet (sheets workbook))).
    rewrite <- slots_mapSlots.
    destruct defs as [|d defs].
    + apply slotAt_frame.
    + unfold workbookFrame at 1. rewrite FrameFacts.slotAt_setProp by discriminate.
      apply slotAt_frame.
  - rewrite <- Hempty. destruct defs as [|d defs].
    + split; reflexivity.
    + unfold workbookFrame at 1. unfold setProp. cbn [prop].
      rewrite ObjectFacts.obj_get_set_same. split; discriminate.
  - intros Hnone. pose proof (proj2 Hempty Hnone) as ->.
    rewrite (excel_mapSlots_id _ _ _ Hnone). reflexivity.
Qed.

(** X10.  Resolution after the deduplication of the spreadsheet front-end.
    Let the numeric built-ins return rendered numbers and the names of
    blocks and fields be ordinary keys.  When repeated blocks that get the
    same definition name have the same canonical text, and the definition
    names contain no [/], the resolver finds behind every slot of the schema
    [generate] returns the block built there, or, for a repeated block, its
    copy read back from the canonical text; either has the canonical text of
    the block built there. *)
Theorem excel_generate_keeps_resolution (workbook : WorkbookModel) :
  ordinaryNames workbook ->
  (forall b b', In b (blocksOf (buildJsonSchema workbook)) ->
                In b' (blocksOf (buildJsonSchema workbook)) ->
                repeatedIn (buildJsonSchema workbook) b = true ->
                repeatedIn (buildJsonSchema workbook) b' = true ->
                definitionNameOf b = definitionNameOf b' ->
                toCanonicalJson b = toCanonicalJson b') ->
  (forall b, In b (blocksOf (buildJsonSchema workbook)) ->
             repeatedIn (buildJsonSchema workbook) b = true ->
             segment (definitionNameOf b)) ->
  exists schema,
    generate workbook = Ret schema
    /\ forall s i b,
         slotAt (buildJsonSchema workbook) s i = Some b ->
         exists slot,
           slotAt schema s i = Some slot
           /\ SchemaRefResolverUtil.resolveIfRef 1 slot schema
              = Ret (resolved (buildJsonSchema workbook) b)
           /\ toCanonicalJson (resolved (buildJsonSchema workbook) b) = toCanonicalJson b.
Proof.
  intros _ Hdistinct Hseg.
  destruct (excel_generate_frame workbook) as (defs & Hgen & Hempty & Hlookup).
  pose proof (allSlots_built Hnum workbook) as Hbuilt.
  rewrite buildJsonSchema_frame in *. rewrite excel_blocksOf_frame in Hdistinct, Hseg.
  set (sheets := map slotsOfSheet (ExcelToSchemaGeneratorUtil.sheets workbook)) in *.
  set (root := workbookFrame (workbookName workbook) (workbookEntity workbook) sheets) in *.
  eexists. split; [exact Hgen|].
  intros s i b Hslot.
  assert (Hin : In b (allSlots sheets)).
  { unfold root in Hslot. rewrite slotAt_frame in Hslot.
    destruct (nth_error sheets s) as [sh|] eqn:Hs; [|discriminate].
    unfold allSlots. apply in_flat_map. exists sh.
    split; [apply (nth_error_In _ _ Hs) | apply (nth_error_In _ _ Hslot)]. }
  assert (Hb : builtBlock b) by (rewrite Forall_forall in Hbuilt; apply Hbuilt, Hin).
  destruct Hb as (Hr & Hw & Htruthy & Hcopyref & Href & nm & Hnm).
  exists (deduplicated root b).
  assert (Hafter : slotAt (workbookFrame (workbookName workbook) (workbookEntity workbook)
                             (mapSlots (deduplicated root) sheets)) s i
                   = Some (deduplicated root b)).
  { rewrite slotAt_frame, slots_mapSlots.
    unfold root in Hslot. rewrite slotAt_frame in Hslot. rewrite Hslot. reflexivity. }
  assert (Hcanon : toCanonicalJson (resolved root b) = toCanonicalJson b).
  { unfold resolved. destruct (repeatedIn root b); [|reflexivity].
    apply toCanonicalJson_definedCopy, wellOrdered_uniqueKeys, Hw. }
  destruct defs as [|d0 defs0] eqn:Hdefs.
  - split; [exact Hafter|]. split; [|exact Hcanon].
    unfold deduplicated, resolved. rewrite (proj1 Hempty eq_refl b Hin).
    apply ResolutionFacts.resolve_inline, Href.
  - split; [|split; [|exact Hcanon]].
    + unfold workbookFrame at 1. rewrite FrameFacts.slotAt_setProp by discriminate.
      exact Hafter.
    + unfold deduplicated, resolved. destruct (repeatedIn root b) eqn:Hrep.
      * destruct (Hlookup b Hin Hrep) as (b' & Hin' & Hrep' & Hname & Hget).
        assert (Hsame : definedCopy b' = definedCopy b).
        { assert (Hb' : builtBlock b') by (rewrite Forall_forall in Hbuilt; apply Hbuilt, Hin').
          rewrite <- (parsedCanon_built b' Hb').
          rewrite <- (parsedCanon_built b (conj Hr (conj Hw (conj Htruthy (conj Hcopyref
                        (conj Href (ex_intro _ nm Hnm))))))).
          f_equal. apply Hdistinct; assumption. }
        rewrite Hsame in Hget.
        unfold workbookFrame at 1. unfold setProp.
        apply (ResolutionFacts.resolve_definition _ (d0 :: defs0)).
        -- apply ObjectFacts.obj_get_set_same.
        -- exact Hget.
        -- apply (Hseg b Hin Hrep).
        -- exact Htruthy.
        -- exact Hcopyref.
      * apply ResolutionFacts.resolve_inline, Href.
Qed.

End Theorems.

Import ExcelExamples ExcelSharedExample.

Lemma excel_generate_replaces_repeated_blocks_witness :
  exists schema,
    generate (builtins := WholeNumbers.builtins) sharedWorkbook = Ret schema
    /\ (forall s i,
          slotAt schema s i
          = option_map (deduplicated (buildJsonSchema (builtins := WholeNumbers.builtins) sharedWorkbook))
                       (slotAt (buildJsonSchema (builtins := WholeNumbers.builtins) sharedWorkbook) s i))
    /\ (prop schema "definitions" = None
        <-> forall b, In b (blocksOf (buildJsonSchema (builtins := WholeNumbers.builtins) sharedWorkbook)) ->
                      repeatedIn (buildJsonSchema (builtins := WholeNumbers.builtins) sharedWorkbook) b = false)
    /\ ((forall b, In b (blocksOf (buildJsonSchema (builtins := WholeNumbers.builtins) sharedWorkbook)) ->
                   repeatedIn (buildJsonSchema (builtins := WholeNumbers.builtins) sharedWorkbook) b = false) ->
        schema = buildJsonSchema (builtins := WholeNumbers.builtins) sharedWorkbook).
Proof.
  apply (excel_generate_replaces_repeated_blocks (builtins := WholeNumbers.builtins)
           WholeNumbersFacts.builtins_rendered sharedWorkbook).
  ordinary.
Defined.

Lemma excel_generate_keeps_resolution_witness :
  exists schema,
    generate (builtins := WholeNumbers.builtins) sharedWorkbook = Ret schema
    /\ forall s i b,
         slotAt (buildJsonSchema (builtins := WholeNumbers.builtins) sharedWorkbook) s i = Some b ->
         exists slot,
           slotAt schema s i = Some slot
           /\ SchemaRefResolverUtil.resolveIfRef 1 slot schema
              = Ret (resolved (buildJsonSchema (builtins := WholeNumbers.builtins) sharedWorkbook) b)
           /\ toCanonicalJson (resolved (buildJsonSchema (builtins := WholeNumbers.builtins) sharedWorkbook) b)
              = toCanonicalJson b.
Proof.
  apply (excel_generate_keeps_resolution (builtins := WholeNumbers.builtins)
           WholeNumbersFacts.builtins_rendered sharedWorkbook).
  - ordinary.
  - intros b b' Hb Hb' Hr Hr' _. vm_compute in Hb, Hb'. either; subst;
      first [reflexivity | vm_compute in Hr; discriminate | vm_compute in Hr'; discriminate].
  - intros b Hb Hr. vm_compute in Hb. either; subst;
      first [reflexivity | vm_compute in Hr; discriminate].
Defined.

End ExcelDedupFacts.

Module CycleFacts.
Import SchemaRefResolverUtil.

Lemma follow_hops (rootSchema a b : json) (k : nat) :
  hops rootSchema a k b ->
  forall fuel,
    follow fuel a rootSchema
    = if (fuel <? k)%nat then Timeout else follow (fuel - k) b rootSchema.
Proof.
  induction 1 as [node | node segs next n target Href Hpt Hh IH]; intros fuel.
  - rewrite Nat.sub_0_r. reflexivity.
  - destruct fuel as [|fuel].
    + cbn [follow]. rewrite Href. reflexivity.
    + rewrite (ResolverFacts.follow_step _ _ _ _ Href (ResolverFacts.localRef_nonempty segs)).
      rewrite JsFacts.localRef_startsWith, JsFacts.localRef_substring.
      rewrite (ResolverFacts.resolvePointer_pointsTo _ _ _ Hpt). cbn [bind].
      rewrite IH. reflexivity.
Qed.

Lemma follow_cycle (rootSchema node : json) (n : nat) :
  hops rootSchema node (S n) node ->
  forall fuel, follow fuel node rootSchema = Timeout.
Proof.
  intros Hcycle fuel. induction fuel as [fuel IH] using lt_wf_ind.
  rewrite (follow_hops _ _ _ _ Hcycle).
  destruct (Nat.ltb_spec fuel (S n)); [reflexivity|]. apply IH. lia.
Qed.

(** X11.  A cycle of references.  When following [n + 1] local pointers from
    a node leads back to the node, [resolveIfRef] does not return on it:
    whatever the bound on the pointers followed, the loop is still running
    when the bound is reached. *)
Theorem resolveIfRef_cycle (rootSchema node : json) (n : nat) :
  hops rootSchema node (S n) node ->
  forall fuel, resolveIfRef fuel node rootSchema = Timeout.
Proof.
  intros Hcycle fuel. unfold resolveIfRef.
  assert (Ht : truthy node = true).
  { inversion Hcycle as [|? segs next ? ? Href _ _]; subst.
    apply (ResolverFacts.has_ref_truthy _ _ Href). }
  rewrite Ht. cbn [negb]. apply (follow_cycle _ _ _ Hcycle).
Qed.

Lemma split_nonempty (sep : ascii) (s : string) : Js.split sep s <> [].
Proof.
  destruct s as [|c s]; cbn [Js.split]; [discriminate|].
  destruct (Ascii.eqb c sep); [discriminate|]. destruct (Js.split sep s); discriminate.
Qed.

Lemma walk_result (pointer : string) (parts : list string) (current r : json) :
  walk pointer parts current = Ret r ->
  parts <> [] \/ truthy current = true ->
  truthy r = true.
Proof.
  revert current. induction parts as [|part rest IH]; intros current; cbn [walk].
  - intros H [Hne|Ht]; [contradiction|]. injection H as <-. exact Ht.
  - destruct (getProperty current part) as [v| | |]; try discriminate.
    destruct (truthy v) eqn:Hv; [|discriminate].
    intros H _. apply (IH v H). right. exact Hv.
Qed.

Lemma follow_result (fuel : nat) (node rootSchema r : json) :
  follow fuel node rootSchema = Ret r ->
  isTruthy (prop r "$ref") = false /\ (truthy node = true -> truthy r = true).
Proof.
  revert node. induction fuel as [|fuel IH]; intros node; cbn [follow].
  - destruct (isTruthy (prop node "$ref")) eqn:E; [discriminate|].
    intros H. injection H as <-. split; [exact E | auto].
  - destruct (isTruthy (prop node "$ref")) eqn:E.
    + destruct (prop node "$ref") as [[| | |ref| |]|]; try discriminate.
      destruct (Js.startsWith ref "#/"); [|discriminate].
      destruct (resolvePointer (Js.substringFrom 2 ref) rootSchema) as [node'| | |] eqn:Hp;
        cbn [bind]; try discriminate.
      intros H. destruct (IH _ H) as (Href & Ht). split; [exact Href|].
      intros _. apply Ht. apply (walk_result _ _ _ _ Hp). left. apply split_nonempty.
    + intros H. injection H as <-. split; [exact E | auto].
Qed.

(** X12.  What [resolveIfRef] returns carries no truthy [$ref]; it is truthy
    exactly when the node given is, and a falsy node is returned as it is.
    *)
Theorem resolveIfRef_result (fuel : nat) (node rootSchema r : json) :
  SchemaRefResolverUtil.resolveIfRef fuel node rootSchema = Ret r ->
  isTruthy (prop r "$ref") = false
  /\ truthy r = truthy node
  /\ (truthy node = false -> r = node).
Proof.
  unfold resolveIfRef. destruct (truthy node) eqn:Ht; cbn [negb].
  - intros H. destruct (follow_result _ _ _ _ H) as (Href & Hr).
    split; [exact Href|]. split; [apply Hr, Ht | discriminate].
  - intros H. injection H as <-. split; [|split; [exact Ht | reflexivity]].
    destruct node as [|[|]|x|s| |]; cbn in Ht; try discriminate; reflexivity.
Qed.

Lemma pingPong_pointsTo (k : string) (v : json) :
  obj_get k [("ping", JObj [("$ref", JStr "#/definitions/pong")]);
             ("pong", JObj [("$ref", JStr "#/definitions/ping")])] = Some v ->
  truthy v = true -> hasChar "/" k = false ->
  pointsTo pingPong ["definitions"; k] v.
Proof.
  intros Hk Hv Hs. split; [discriminate|]. split.
  - repeat constructor. exact Hs.
  - eexists. split; [|split].
    + apply ownPath_cons with
        (v := JObj [("ping", JObj [("$ref", JStr "#/definitions/pong")]);
                    ("pong", JObj [("$ref", JStr "#/definitions/ping")])]).
      * reflexivity.
      * apply ownPath_cons with (v := v); [exact Hk | apply ownPath_nil].
    + repeat constructor. exact Hv.
    + reflexivity.
Defined.

Lemma resolveIfRef_cycle_witness :
  resolveIfRef 0 (JObj [("$ref", JStr "#/definitions/pong")]) pingPong = Timeout
  /\ resolveIfRef 9 (JObj [("$ref", JStr "#/definitions/pong")]) pingPong = Timeout.
Proof.
  assert (H : hops pingPong (JObj [("$ref", JStr "#/definitions/pong")]) 2
                   (JObj [("$ref", JStr "#/definitions/pong")])).
  { apply hops_step with (segs := ["definitions"; "pong"])
                         (next := JObj [("$ref", JStr "#/definitions/ping")]).
    - reflexivity.
    - apply pingPong_pointsTo; reflexivity.
    - apply hops_step with (segs := ["definitions"; "ping"])
                           (next := JObj [("$ref", JStr "#/definitions/pong")]).
      + reflexivity.
      + apply pingPong_pointsTo; reflexivity.
      + apply hops_zero. }
  split; apply (resolveIfRef_cycle pingPong _ 1 H).
Defined.

Lemma resolveIfRef_result_witness :
  isTruthy (prop scenarioC_C "$ref") = false
  /\ truthy scenarioC_C = truthy scenarioC_A
  /\ (truthy scenarioC_A = false -> scenarioC_C = scenarioC_A).
Proof.
  apply (resolveIfRef_result 2 scenarioC_A scenarioC_root scenarioC_C). reflexivity.
Defined.

End CycleFacts.

Module InferrerEdgeFacts.
Import JsonToSchemaGeneratorUtil InferrerTerms InferrerDedupTerms InferrerEdgeTerms.

Lemma blockSchemas_unhandled (bs : list Block) (acc : list json) :
  Forall (fun b => handled b = false) bs -> blockSchemas bs acc = Ret acc.
Proof.
  intros H. revert acc. induction H as [|b bs Hb Hbs IH]; intros acc; [reflexivity|].
  cbn [blockSchemas]. unfold handled in Hb. apply orb_false_iff in Hb as [Ht Hl].
  rewrite Ht, Hl. apply IH.
Qed.

Lemma sheetSchemasOf_stops (pre : list Sheet) (sheet : Sheet) (post : list Sheet) (e : error) :
  Forall (fun s => exists schema, sheetSchema s = Ret schema) pre ->
  sheetSchema sheet = Throw e ->
  sheetSchemasOf (pre ++ sheet :: post)%list = Throw e.
Proof.
  intros Hpre He. induction Hpre as [|s pre (schema & Hs) Hpre IH]; cbn [app sheetSchemasOf].
  - rewrite He. reflexivity.
  - rewrite Hs. cbn [bind]. rewrite IH. reflexivity.
Qed.

(** X13.  What the instance front-end refuses.  A workbook without sheets is
    refused with the error [Invalid data: No sheets found.]; the first sheet
    without blocks, the sheets before it having yielded their schemas, is
    refused with the error that names the sheet.  A sheet all of whose
    blocks have an entity other than [table] and [list] is accepted: its
    schema has an empty alternation. *)
Theorem generate_refuses (data : Workbook) :
  (data.(sheets) = [] -> generate data = Throw (Error "Invalid data: No sheets found."))
  /\ (forall pre sheet post,
        data.(sheets) = (pre ++ sheet :: post)%list ->
        Forall (fun s => exists schema, sheetSchema s = Ret schema) pre ->
        sheet.(blocks) = [] ->
        generate data
        = Throw (Error ("Invalid data: No blocks found in sheet "
                        ++ String (ascii_of_nat 34)
                             (sheet.(sheetName) ++ String (ascii_of_nat 34) "."))))
  /\ (forall sheet,
        sheet.(blocks) <> [] ->
        Forall (fun b => handled b = false) sheet.(blocks) ->
        sheetSchema sheet
        = Ret (sheetFrame {| slotsName := sheet.(sheetName);
                             slotsEntity := sheet.(sheetEntity);
                             slots := [] |})).
Proof.
  split; [|split].
  - intros H. unfold generate, buildSchema. rewrite H. reflexivity.
  - intros pre sheet post Hs Hpre Hb. unfold generate, buildSchema. rewrite Hs.
    assert (E : sheetSchemasOf (pre ++ sheet :: post)%list
                = Throw (noBlocksError sheet.(sheetName))).
    { apply sheetSchemasOf_stops; [exact Hpre|]. unfold sheetSchema. rewrite Hb. reflexivity. }
    destruct (pre ++ sheet :: post)%list eqn:El; [destruct pre; discriminate|].
    rewrite E. reflexivity.
  - intros sheet Hne Hun. unfold sheetSchema.
    destruct (blocks sheet) as [|b bs] eqn:E; [contradiction|].
    rewrite (blockSchemas_unhandled _ _ Hun). reflexivity.
Qed.

(** The list handler *)

Lemma listProperties_throws (its : list json) (acc : object) :
  forallb hasEntry its = false -> listProperties its acc = Throw TypeError.
Proof.
  revert acc. induction its as [|item its IH]; intros acc; [discriminate|].
  cbn [forallb listProperties]. unfold hasEntry at 1.
  destruct item as [| | |[|c s]|[|v l]|[|[k v] o]]; cbn [firstEntry bind]; try reflexivity;
    cbn [andb]; intros H; apply IH, H.
Qed.

Lemma firstEntry_returns (item : json) :
  hasEntry item = true ->
  firstEntry item
  = Ret (firstKey item, snd (returned ("", JNull) (firstEntry item))).
Proof.
  unfold hasEntry, firstKey.
  destruct (firstEntry item) as [[k v]| | |]; try discriminate. reflexivity.
Qed.

Lemma obj_get_fold_items {A : Type} (g : A -> string) (h : A -> json) (l : list A)
      (o : object) (d : string) :
  obj_get d (fold_left (fun o x => obj_set o (g x) (h x)) l o)
  = match lastWith (fun x => g x =? d) l with
    | Some x => Some (h x)
    | None => obj_get d o
    end.
Proof.
  revert o. induction l as [|x l IH]; intros o; [reflexivity|].
  cbn [fold_left lastWith]. rewrite IH.
  destruct (lastWith (fun x => g x =? d) l); [reflexivity|].
  destruct (String.eqb_spec (g x) d) as [<-|Hne].
  - apply ObjectFacts.obj_get_set_same.
  - apply ObjectFacts.obj_get_set_other. congruence.
Qed.

Lemma listProperties_fold (its : list json) (acc : object) :
  forallb hasEntry its = true ->
  listProperties its acc
  = Ret (fold_left (fun o item => obj_set o (firstKey item) (firstValueSchema item)) its acc).
Proof.
  revert acc. induction its as [|item its IH]; intros acc; [reflexivity|].
  cbn [forallb listProperties fold_left]. intros H. apply andb_true_iff in H as [Hi Hits].
  rewrite (firstEntry_returns item Hi). cbn [bind]. apply IH, Hits.
Qed.

(** X14.  The list handler.  Without items the item properties are empty.
    With items whose first names are ordinary keys, the handler returns when
    every item has a first name/value pair and throws a TypeError otherwise;
    when it returns, the item properties hold, under the first name of an
    item, the type of the first value of the last item with that first name,
    and nothing under any other name. *)
Theorem handleListBlock_items (block : Block) (blockName : string) :
  (block.(items) = None ->
   exists b, handleListBlock block blockName = Ret b
             /\ itemProperties b = Some (JObj []))
  /\ (forall its,
        block.(items) = Some its ->
        Forall ordinaryItem its ->
        if forallb hasEntry its
        then exists b props,
               handleListBlock block blockName = Ret b
               /\ itemProperties b = Some (JObj props)
               /\ forall key,
                    obj_get key props
                    = option_map firstValueSchema
                        (lastWith (fun item => firstKey item =? key) its)
        else handleListBlock block blockName = Throw TypeError).
Proof.
  unfold handleListBlock. split.
  - intros ->. cbn [bind]. eexists. split; reflexivity.
  - intros its -> _. destruct (forallb hasEntry its) eqn:E.
    + rewrite (listProperties_fold its [] E). cbn [bind].
      eexists _, _. split; [reflexivity|]. split; [reflexivity|].
      intros key. rewrite obj_get_fold_items. cbn [obj_get].
      destruct (lastWith _ its); reflexivity.
    + rewrite (listProperties_throws its [] E). reflexivity.
Qed.

(** The table handler *)

Lemma collectTypes_null (colIndex : nat) (rs : list json) (acc : list string) :
  In JNull rs -> collectTypes colIndex rs acc = Throw TypeError.
Proof.
  revert acc. induction rs as [|r rs IH]; intros acc; [intros []|].
  intros [->|Hin]; cbn [collectTypes].
  - reflexivity.
  - destruct r; cbn [cellOf bind]; try reflexivity; apply IH, Hin.
Qed.

(** X15.  The table handler.  Without a header, or with an empty one, it
    returns a schema with no header items and no columns, whatever the rows
    are.  With a header that is not empty, a row that is [null] makes it
    throw a TypeError. *)
Theorem handleTableBlock_header (block : Block) (blockName : string) :
  ((block.(header) = None \/ block.(header) = Some []) ->
   exists b, handleTableBlock block blockName = Ret b
             /\ headerItems b = Some (JArr [])
             /\ rowItems b = Some (JArr []))
  /\ (forall h hs rs,
        block.(header) = Some (h :: hs) ->
        block.(rows) = Some rs ->
        In JNull rs ->
        handleTableBlock block blockName = Throw TypeError).
Proof.
  split.
  - intros [H|H];
      (unfold handleTableBlock; rewrite H; cbn [bind];
       eexists; split; [reflexivity | split; reflexivity]).
  - intros h hs rs Hh Hr Hin. unfold handleTableBlock. rewrite Hh.
    cbn [columnTypesFrom]. unfold columnType at 1. rewrite Hr.
    rewrite (collectTypes_null 0 rs [] Hin). reflexivity.
Qed.

Import InferrerExamples.

Lemma generate_refuses_witness :
  generate {| workbookName := "results"; workbookEntity := "workbook";
              sheets := [sheetWith "spring" (scores numberThenText);
                         {| sheetName := "empty"; sheetEntity := "sheet"; blocks := [] |};
                         sheetWith "summer" (scores numberThenText)] |}
  = Throw (Error ("Invalid data: No blocks found in sheet "
                  ++ String (ascii_of_nat 34) ("empty" ++ String (ascii_of_nat 34) "."))).
Proof.
  apply (proj1 (proj2 (generate_refuses _))
           [sheetWith "spring" (scores numberThenText)]
           {| sheetName := "empty"; sheetEntity := "sheet"; blocks := [] |}
           [sheetWith "summer" (scores numberThenText)]).
  - reflexivity.
  - constructor; [|constructor]. eexists. reflexivity.
  - reflexivity.
Defined.

Lemma handleListBlock_items_witness :
  exists b props,
    handleListBlock {| name := "remarks"; entity := "list"; header := None; rows := None;
                       items := Some [JObj [("pages", JStr "three")];
                                      JObj [("pages", JNum (Finite "3"))]] |}
                    "remarks"
    = Ret b
    /\ itemProperties b = Some (JObj props)
    /\ forall key,
         obj_get key props
         = option_map firstValueSchema
             (lastWith (fun item => firstKey item =? key)
                [JObj [("pages", JStr "three")]; JObj [("pages", JNum (Finite "3"))]]).
Proof.
  apply (proj2 (handleListBlock_items
                  {| name := "remarks"; entity := "list"; header := None; rows := None;
                     items := Some [JObj [("pages", JStr "three")];
                                    JObj [("pages", JNum (Finite "3"))]] |}
                  "remarks")
           [JObj [("pages", JStr "three")]; JObj [("pages", JNum (Finite "3"))]]).
  - reflexivity.
  - ordinary.
Defined.

Lemma handleTableBlock_header_witness :
  handleTableBlock {| name := "scores"; entity := "table"; header := Some ["points"];
                      rows := Some [JArr [JNum (Finite "1")]; JNull]; items := None |}
                   "scores"
  = Throw TypeError.
Proof.
  apply (proj2 (handleTableBlock_header _ _) "points" [] [JArr [JNum (Finite "1")]; JNull]).
  - reflexivity.
  - reflexivity.
  - right. left. reflexivity.
Defined.

End InferrerEdgeFacts.

Module ExcelFieldFacts.
Import ExcelToSchemaGeneratorUtil.

Lemma splitCommaAux_no_comma (s cur ws : string) :
  hasChar "," s = false ->
  Js.splitCommaAux s cur ws false = [cur ++ ws ++ s].
Proof.
  revert cur ws. induction s as [|c s IH]; intros cur ws H.
  - cbn [Js.splitCommaAux]. rewrite RoundTripFacts.append_nil_r. reflexivity.
  - cbn [hasChar] in H. apply orb_false_iff in H as [Hc Hs].
    cbn [Js.splitCommaAux]. rewrite Hc.
    destruct (Js.is_ws c).
    + rewrite IH by exact Hs. rewrite !JsFacts.append_assoc. reflexivity.
    + rewrite IH by exact Hs. cbn [String.append]. rewrite !JsFacts.append_assoc.
      reflexivity.
Qed.

Lemma splitCommaAux_pieces (s cur ws : string) (fresh : bool) :
  hasChar "," cur = false -> hasChar "," ws = false ->
  Forall (fun p => hasChar "," p = false) (Js.splitCommaAux s cur ws fresh)
  /\ Js.splitCommaAux s cur ws fresh <> [].
Proof.
  revert cur ws fresh. induction s as [|c s IH]; intros cur ws fresh Hcur Hws.
  - cbn [Js.splitCommaAux]. split; [|discriminate].
    constructor; [|constructor]. rewrite ResolutionFacts.hasChar_append, Hcur, Hws. reflexivity.
  - cbn [Js.splitCommaAux]. destruct (Ascii.eqb c ",") eqn:Hc.
    + split; [|discriminate]. constructor; [exact Hcur|]. apply IH; reflexivity.
    + destruct (Js.is_ws c).
      * destruct fresh; apply IH; try reflexivity; try exact Hcur.
        rewrite ResolutionFacts.hasChar_append, Hws. cbn [hasChar]. rewrite Hc. reflexivity.
      * apply IH; [|reflexivity].
        rewrite !ResolutionFacts.hasChar_append, Hcur, Hws. cbn [hasChar]. rewrite Hc. reflexivity.
Qed.

Section Fields.
Context {builtins : NumericBuiltins}.

Lemma obj_get_if_other (c : bool) (o : object) (k k' : string) (v : json) :
  k <> k' ->
  obj_get k (if c then obj_set o k' v else o) = obj_get k o.
Proof. intros H. destruct c; [apply ObjectFacts.obj_get_set_other, H | reflexivity]. Qed.

(** X16.  The enumeration of a field.  The schema of a field has an [enum]
    exactly when the enum cell is not empty; it lists the pieces of the cell
    text between the commas.  No piece contains a comma, there is at least
    one piece, and a text without comma is its only piece. *)
Theorem buildFieldSchema_enum (bf : BlockField) :
  prop (buildFieldSchema bf) "enum"
  = (if nonEmpty bf.(enumValues)
     then Some (JArr (map JStr (Js.splitComma bf.(enumValues))))
     else None)
  /\ Forall (fun p => hasChar "," p = false) (Js.splitComma bf.(enumValues))
  /\ Js.splitComma bf.(enumValues) <> []
  /\ (hasChar "," bf.(enumValues) = false ->
      Js.splitComma bf.(enumValues) = [bf.(enumValues)]).
Proof.
  split; [|split; [|split]].
  - unfold buildFieldSchema. cbn [prop].
    rewrite !(obj_get_if_other _ _ "enum") by discriminate.
    destruct (nonEmpty (enumValues bf)).
    + apply ObjectFacts.obj_get_set_same.
    + rewrite !(obj_get_if_other _ _ "enum") by discriminate.
      destruct (nonEmpty (type bf)); [destruct (_ && _)|];
        rewrite ObjectFacts.obj_get_set_other by discriminate; reflexivity.
  - apply (splitCommaAux_pieces _ "" "" false); reflexivity.
  - apply (splitCommaAux_pieces _ "" "" false); reflexivity.
  - intros H. unfold Js.splitComma. rewrite splitCommaAux_no_comma by exact H. reflexivity.
Qed.

(** X17.  The item properties of a list block whose field names are ordinary
    keys have one entry per field name; under a name declared more than once
    stands the schema of the last field declared with that name. *)
Theorem buildListBlockSchema_properties (block : BlockModel) :
  Forall (fun f => ordinaryKey f.(fieldName)) block.(fields) ->
  exists props,
    itemProperties (buildListBlockSchema block) = Some (JObj props)
    /\ NoDup (obj_keys props)
    /\ (forall k, In k (obj_keys props) <-> exists f, In f block.(fields) /\ f.(fieldName) = k)
    /\ (forall k, obj_get k props
                  = option_map buildFieldSchema
                      (lastWith (fun f => f.(fieldName) =? k) block.(fields))).
Proof.
  intros _. eexists. split; [reflexivity|].
  assert (Hget : forall k,
             obj_get k (fold_left (fun itemProps bf =>
                                     obj_set itemProps bf.(fieldName) (buildFieldSchema bf))
                                  block.(fields) [])
             = option_map buildFieldSchema
                 (lastWith (fun f => f.(fieldName) =? k) block.(fields))).
  { intros k. rewrite InferrerEdgeFacts.obj_get_fold_items. cbn [obj_get].
    destruct (lastWith _ (fields block)); reflexivity. }
  split; [|split; [|exact Hget]].
  - apply TreeFacts.ownOrder_NoDup. clear Hget.
    generalize (@nil (string * json)) (ownOrder_nil).
    induction (fields block) as [|f fs IH]; intros acc Hacc; [exact Hacc|].
    cbn [fold_left]. apply IH. apply OwnOrderFacts.obj_set_ownOrder. exact Hacc.
  - intros k. split.
    + intros Hin. destruct (lastWith (fun f => f.(fieldName) =? k) block.(fields)) as [f|] eqn:E.
      * apply FoldFacts.lastWith_Some in E as [Hf Hk]. apply String.eqb_eq in Hk.
        exists f. split; assumption.
      * exfalso. specialize (Hget k). rewrite E in Hget. cbn in Hget.
        apply CanonicalFacts.obj_get_None_keys in Hget. contradiction.
    + intros (f & Hf & Hk).
      destruct (in_dec string_dec k (obj_keys
                  (fold_left (fun itemProps bf =>
                                obj_set itemProps bf.(fieldName) (buildFieldSchema bf))
                             block.(fields) []))) as [H|H]; [exact H|].
      exfalso. apply CanonicalFacts.obj_get_None_keys in H. rewrite Hget in H.
      destruct (lastWith (fun f => f.(fieldName) =? k) block.(fields)) eqn:E; [discriminate|].
      pose proof (FoldFacts.lastWith_None _ _ E f Hf) as Hnone. cbv beta in Hnone.
      rewrite Hk, String.eqb_refl in Hnone. discriminate.
Qed.

End Fields.

Lemma buildFieldSchema_enum_witness :
  Js.splitComma (enumValues {| fieldName := "state"; nullAllowed := "No"; type := "string";
                               minimum := ""; maximum := ""; minLength := ""; maxLength := "";
                               pattern := ""; enumValues := "on hold"; description := "";
                               examples := "" |})
  = ["on hold"].
Proof.
  apply (proj2 (proj2 (proj2 (buildFieldSchema_enum (builtins := WholeNumbers.builtins)
           {| fieldName := "state"; nullAllowed := "No"; type := "string";
              minimum := ""; maximum := ""; minLength := ""; maxLength := "";
              pattern := ""; enumValues := "on hold"; description := "";
              examples := "" |})))).
  reflexivity.
Defined.

Lemma buildListBlockSchema_properties_witness :
  exists props,
    itemProperties
      (buildListBlockSchema (builtins := WholeNumbers.builtins)
         {| name := "address_list"; entity := list_;
            fields := [parseFieldRow [CStr "street"; CStr "string"]
                         (findMetaColumns [CStr "name"; CStr "type"]);
                       parseFieldRow [CStr "street"; CStr "number"]
                         (findMetaColumns [CStr "name"; CStr "type"])] |})
    = Some (JObj props)
    /\ NoDup (obj_keys props)
    /\ (forall k, In k (obj_keys props)
                  <-> exists f,
                        In f [parseFieldRow [CStr "street"; CStr "string"]
                                (findMetaColumns [CStr "name"; CStr "type"]);
                              parseFieldRow [CStr "street"; CStr "number"]
                                (findMetaColumns [CStr "name"; CStr "type"])]
                        /\ f.(fieldName) = k)
    /\ (forall k, obj_get k props
                  = option_map (buildFieldSchema (builtins := WholeNumbers.builtins))
                      (lastWith (fun f => f.(fieldName) =? k)
                         [parseFieldRow [CStr "street"; CStr "string"]
                            (findMetaColumns [CStr "name"; CStr "type"]);
                          parseFieldRow [CStr "street"; CStr "number"]
                            (findMetaColumns [CStr "name"; CStr "type"])])).
Proof.
  apply (buildListBlockSchema_properties (builtins := WholeNumbers.builtins)
           {| name := "address_list"; entity := list_;
              fields := [parseFieldRow [CStr "street"; CStr "string"]
                           (findMetaColumns [CStr "name"; CStr "type"]);
                         parseFieldRow [CStr "street"; CStr "number"]
                           (findMetaColumns [CStr "name"; CStr "type"])] |}).
  ordinary.
Defined.

End ExcelFieldFacts.

Module GeneratorFacts.
Import SchemaRefResolverUtil FrameFacts.

Lemma blockOneOf_frame (fuel : nat) (rootSchema : json) (sh : sheetSlots) :
  SheetGeneratorUtil.blockOneOf fuel rootSchema (sheetFrame sh) = Ret sh.(slots).
Proof.
  unfold SheetGeneratorUtil.blockOneOf.
  rewrite (ResolutionFacts.resolve_inline fuel (sheetFrame sh) rootSchema eq_refl).
  cbn [bind sheetFrame prop optProp obj_get String.eqb Ascii.eqb Bool.eqb
       SheetGeneratorUtil.resolveOptional].
  rewrite ResolutionFacts.resolve_inline by reflexivity.
  cbn [bind sheetFrame prop optProp obj_get String.eqb Ascii.eqb Bool.eqb isTruthy truthy negb orb
       SheetGeneratorUtil.resolveOptional].
  rewrite ResolutionFacts.resolve_inline by reflexivity.
  cbn [bind sheetFrame prop optProp obj_get String.eqb Ascii.eqb Bool.eqb isTruthy truthy negb orb
       SheetGeneratorUtil.resolveOptional].
  rewrite ResolutionFacts.resolve_inline by reflexivity.
  reflexivity.
Qed.

Lemma alternationOf_defined (name entity : string) (sheets : list sheetSlots) (defs : json)
      (s : nat) :
  alternationOf (setProp (workbookFrame name entity sheets) "definitions" defs) s
  = alternationOf (workbookFrame name entity sheets) s.
Proof. reflexivity. Qed.

(** What the class generator reads off a schema that is a frame, with or
    without definitions. *)
Lemma frame_accepted (fuel : nat) (name entity : string) (sheets : list sheetSlots)
      (defs : object) (schema : json) :
  schema = match defs with
           | [] => workbookFrame name entity sheets
           | _ => setProp (workbookFrame name entity sheets) "definitions" (JObj defs)
           end ->
  exists sheetList,
    ObjectGeneratorUtil.sheetSchemas schema = Ret (JArr sheetList)
    /\ List.length sheetList = List.length sheets
    /\ forall s sheet,
         nth_error sheetList s = Some sheet ->
         exists blocks,
           SheetGeneratorUtil.blockOneOf fuel schema sheet = Ret blocks
           /\ alternationOf schema s = Some blocks.
Proof.
  intros ->. exists (map sheetFrame sheets). split; [|split].
  - destruct defs; reflexivity.
  - apply length_map.
  - intros s sheet Hs. rewrite nth_error_map in Hs.
    destruct (nth_error sheets s) as [sh|] eqn:E; [|discriminate]. injection Hs as <-.
    exists sh.(slots). split; [apply blockOneOf_frame|].
    assert (H : alternationOf (workbookFrame name entity sheets) s = Some sh.(slots)).
    { rewrite alternationOf_frame, E. reflexivity. }
    destruct defs; [exact H|]. rewrite alternationOf_defined. exact H.
Qed.

End GeneratorFacts.

Module ListClassFacts.
Import ExcelToSchemaGeneratorUtil.


Section Accessors.
Context {builtins : NumericBuiltins} {util : GeneratorUtil}.




End Accessors.


End ListClassFacts.

Module PipelineFacts.
Import FrameFacts GeneratorFacts.

(** The slots of a frame after a rewriting of the slots that leaves a
    reference or the block itself. *)
Lemma frame_slots_common (fuel : nat) (name entity : string) (sheets : list sheetSlots)
      (repeated : json -> bool) (nameOf : json -> string) (defs : object) (schema : json) :
  Forall (fun b => b <> JNull /\ prop b "$ref" = None) (allSlots sheets) ->
  schema = match defs with
           | [] => workbookFrame name entity
                     (mapSlots (fun b => if repeated b then refTo (nameOf b) else b) sheets)
           | _ => setProp (workbookFrame name entity
                     (mapSlots (fun b => if repeated b then refTo (nameOf b) else b) sheets))
                    "definitions" (JObj defs)
           end ->
  exists sheetList,
    ObjectGeneratorUtil.sheetSchemas schema = Ret (JArr sheetList)
    /\ List.length sheetList = List.length sheets
    /\ forall s sheet,
         nth_error sheetList s = Some sheet ->
         exists blocks,
           SheetGeneratorUtil.blockOneOf fuel schema sheet = Ret blocks
           /\ alternationOf schema s = Some blocks
           /\ forall i b,
                slotAt (workbookFrame name entity sheets) s i = Some b ->
                exists slot,
                  nth_error blocks i = Some slot
                  /\ SheetGeneratorUtil.isCommon slot = Ret (repeated b).
Proof.
  intros Hbuilt Hschema.
  destruct (frame_accepted fuel name entity _ defs schema Hschema)
    as (sheetList & Hlist & Hlen & Hsheets).
  exists sheetList. split; [exact Hlist|]. split.
  { rewrite Hlen. unfold mapSlots. apply length_map. }
  intros s sheet Hs. destruct (Hsheets s sheet Hs) as (blocks & Hone & Halt).
  exists blocks. split; [exact Hone|]. split; [exact Halt|].
  intros i b Hslot.
  assert (Hafter : slotAt schema s i
                   = Some (if repeated b then refTo (nameOf b) else b)).
  { assert (H : slotAt (workbookFrame name entity
                          (mapSlots (fun b => if repeated b then refTo (nameOf b) else b) sheets))
                       s i
                = Some (if repeated b then refTo (nameOf b) else b)).
    { rewrite slotAt_frame, slots_mapSlots. rewrite slotAt_frame in Hslot.
      rewrite Hslot. reflexivity. }
    rewrite Hschema. destruct defs; [exact H|].
    unfold workbookFrame at 1. rewrite FrameFacts.slotAt_setProp by discriminate.
    exact H. }
  unfold slotAt in Hafter. rewrite Halt in Hafter.
  eexists. split; [exact Hafter|].
  destruct (repeated b); [reflexivity|].
  assert (Hin : In b (allSlots sheets)).
  { rewrite slotAt_frame in Hslot. destruct (nth_error sheets s) as [sh|] eqn:E; [|discriminate].
    unfold allSlots. apply in_flat_map. exists sh.
    split; [apply (nth_error_In _ _ E) | apply (nth_error_In _ _ Hslot)]. }
  rewrite Forall_forall in Hbuilt. destruct (Hbuilt b Hin) as (Hnull & Href).
  unfold SheetGeneratorUtil.isCommon. rewrite Href. destruct b; try reflexivity. contradiction.
Qed.

End PipelineFacts.

Module ExcelPipelineFacts.
Import ExcelToSchemaGeneratorUtil ExcelDedupTerms FrameFacts ExcelSchemaFacts ExcelDedupFacts.

Section Accepted.
Context {builtins : NumericBuiltins}.
Hypothesis Hnum : renderedBuiltins builtins.

(** X19.  The class generator accepts what the spreadsheet front-end writes.
    With numeric built-ins that return rendered numbers, and names of blocks
    and fields that are ordinary keys: on the schema [generate] returns,
    [sheetSchemas] yields one sheet schema per sheet of the workbook, and
    [blockOneOf] yields the alternation of blocks of each, whatever the
    bound on the references followed; a slot of it counts as common exactly
    when the block built there repeats. *)
Theorem excel_schema_is_accepted (fuel : nat) (workbook : WorkbookModel) :
  ordinaryNames workbook ->
  exists schema sheetList,
    generate workbook = Ret schema
    /\ ObjectGeneratorUtil.sheetSchemas schema = Ret (JArr sheetList)
    /\ List.length sheetList = List.length workbook.(sheets)
    /\ forall s sheet,
         nth_error sheetList s = Some sheet ->
         exists blocks,
           SheetGeneratorUtil.blockOneOf fuel schema sheet = Ret blocks
           /\ alternationOf schema s = Some blocks
           /\ forall i b,
                slotAt (buildJsonSchema workbook) s i = Some b ->
                exists slot,
                  nth_error blocks i = Some slot
                  /\ SheetGeneratorUtil.isCommon slot
                     = Ret (repeatedIn (buildJsonSchema workbook) b).
Proof.
  intros _. destruct (excel_generate_frame Hnum workbook) as (defs & Hgen & _).
  pose proof (allSlots_built Hnum workbook) as Hbuilt.
  rewrite buildJsonSchema_frame.
  set (sheets := map slotsOfSheet (ExcelToSchemaGeneratorUtil.sheets workbook)) in *.
  set (root := workbookFrame (workbookName workbook) (workbookEntity workbook) sheets) in *.
  assert (Hplain : Forall (fun b => b <> JNull /\ prop b "$ref" = None) (allSlots sheets)).
  { apply (Forall_impl _ (P := builtBlock)); [|exact Hbuilt].
    intros b (_ & _ & Ht & _ & Href & _). split; [|exact Href]. intros ->. discriminate. }
  destruct (PipelineFacts.frame_slots_common fuel (workbookName workbook) (workbookEntity workbook)
              sheets (repeatedIn root) definitionNameOf defs _ Hplain eq_refl)
    as (sheetList & Hlist & Hlen & Hsheets).
  eexists _, sheetList. split; [exact Hgen|]. split; [exact Hlist|]. split.
  { rewrite Hlen. unfold sheets. apply length_map. }
  exact Hsheets.
Qed.

End Accepted.

Import ExcelExamples ExcelSharedExample.

Lemma excel_schema_is_accepted_witness :
  exists schema sheetList,
    generate (builtins := WholeNumbers.builtins) sharedWorkbook = Ret schema
    /\ ObjectGeneratorUtil.sheetSchemas schema = Ret (JArr sheetList)
    /\ List.length sheetList = List.length sharedWorkbook.(sheets)
    /\ forall s sheet,
         nth_error sheetList s = Some sheet ->
         exists blocks,
           SheetGeneratorUtil.blockOneOf 0 schema sheet = Ret blocks
           /\ alternationOf schema s = Some blocks
           /\ forall i b,
                slotAt (buildJsonSchema (builtins := WholeNumbers.builtins) sharedWorkbook) s i = Some b ->
                exists slot,
                  nth_error blocks i = Some slot
                  /\ SheetGeneratorUtil.isCommon slot
                     = Ret (repeatedIn (buildJsonSchema (builtins := WholeNumbers.builtins) sharedWorkbook) b).
Proof.
  apply (excel_schema_is_accepted (builtins := WholeNumbers.builtins)
           WholeNumbersFacts.builtins_rendered 0 sharedWorkbook).
  ordinary.
Defined.

End ExcelPipelineFacts.

Module InferrerPipelineFacts.
Import JsonToSchemaGeneratorUtil InferrerDedupTerms FrameFacts InferrerSchemaFacts.
Import InferrerDedupFacts InferrerGenerateFacts.

Lemma buildSchema_sheets (data : Workbook) (root : json) :
  buildSchema data = Ret root ->
  exists sheets,
    root = workbookFrame data.(workbookName) data.(workbookEntity) sheets
    /\ Forall builtBlock (allSlots sheets)
    /\ List.length sheets = List.length data.(JsonToSchemaGeneratorUtil.sheets).
Proof.
  unfold buildSchema. destruct (JsonToSchemaGeneratorUtil.sheets data) as [|s0 ss0]; [discriminate|].
  destruct (sheetSchemasOf (s0 :: ss0)) as [l| | |] eqn:E; cbn [bind]; try discriminate.
  intros H. injection H as <-.
  destruct (sheetSchemasOf_frames _ _ E) as (sheets & -> & Hall & Hlen).
  exists sheets. split; [reflexivity|]. split; [exact Hall | exact Hlen].
Qed.

(** X20.  The class generator accepts what the instance front-end writes.
    When the first names of the list items are ordinary keys and the schema
    of the workbook is built, then on the schema [generate] returns
    [sheetSchemas] yields one sheet schema per sheet of the workbook, and
    [blockOneOf] yields the alternation of blocks of each, whatever the
    bound on the references followed; a slot of it counts as common exactly
    when the block built there repeats. *)
Theorem inferred_schema_is_accepted (fuel : nat) (data : Workbook) (root : json) :
  ordinaryItems data ->
  buildSchema data = Ret root ->
  exists schema sheetList,
    generate data = Ret schema
    /\ ObjectGeneratorUtil.sheetSchemas schema = Ret (JArr sheetList)
    /\ List.length sheetList = List.length data.(sheets)
    /\ forall s sheet,
         nth_error sheetList s = Some sheet ->
         exists blocks,
           SheetGeneratorUtil.blockOneOf fuel schema sheet = Ret blocks
           /\ alternationOf schema s = Some blocks
           /\ forall i b,
                slotAt root s i = Some b ->
                exists slot,
                  nth_error blocks i = Some slot
                  /\ SheetGeneratorUtil.isCommon slot = Ret (repeatedIn root b).
Proof.
  intros _ Hroot. destruct (buildSchema_sheets _ _ Hroot) as (sheets & -> & Hbuilt & Hsame).
  destruct (inferrer_generate_frame data sheets Hroot Hbuilt) as (defs & Hgen & _).
  set (frame := workbookFrame (workbookName data) (workbookEntity data) sheets) in *.
  assert (Hplain : Forall (fun b => b <> JNull /\ prop b "$ref" = None) (allSlots sheets)).
  { apply (Forall_impl _ (P := builtBlock)); [|exact Hbuilt].
    intros b (_ & _ & Href & nm & Hnm). split; [|exact Href]. intros ->. discriminate. }
  destruct (PipelineFacts.frame_slots_common fuel (workbookName data) (workbookEntity data)
              sheets (repeatedIn frame) definitionNameOf defs _ Hplain eq_refl)
    as (sheetList & Hlist & Hlen & Hsheets).
  eexists _, sheetList. split; [exact Hgen|]. split; [exact Hlist|]. split; [|exact Hsheets].
  rewrite Hlen. exact Hsame.
Qed.

Import InferrerExamples InferrerSharedExample.

Lemma inferred_schema_is_accepted_witness :
  exists schema sheetList,
    generate sharedData = Ret schema
    /\ ObjectGeneratorUtil.sheetSchemas schema = Ret (JArr sheetList)
    /\ List.length sheetList = List.length sharedData.(sheets)
    /\ forall s sheet,
         nth_error sheetList s = Some sheet ->
         exists blocks,
           SheetGeneratorUtil.blockOneOf 0 schema sheet = Ret blocks
           /\ alternationOf schema s = Some blocks
           /\ forall i b,
                slotAt sharedRoot s i = Some b ->
                exists slot,
                  nth_error blocks i = Some slot
                  /\ SheetGeneratorUtil.isCommon slot = Ret (repeatedIn sharedRoot b).
Proof.
  apply (inferred_schema_is_accepted 0 sharedData sharedRoot);
    [ordinary | reflexivity].
Defined.

End InferrerPipelineFacts.

Module MixinFacts.
Import MixinGeneratorUtil MixinTerms.

Lemma existsb_eqb_iff (x : string) (l : list string) :
  existsb (String.eqb x) l = true <-> In x l.
Proof.
  rewrite existsb_exists. split.
  - intros (y & Hy & E). apply String.eqb_eq in E. subst. exact Hy.
  - intros H. exists x. split; [exact H | apply String.eqb_refl].
Qed.

Lemma mixin_setAdd_NoDup (set : list string) (x : string) : NoDup set -> NoDup (setAdd set x).
Proof.
  intros H. unfold setAdd. destruct (existsb (String.eqb x) set) eqn:E; [exact H|].
  apply TreeFacts.NoDup_snoc; [exact H|].
  intros Hin. apply existsb_eqb_iff in Hin. congruence.
Qed.

Lemma mixin_setAdd_In (set : list string) (x y : string) :
  In y (setAdd set x) <-> In y set \/ y = x.
Proof.
  unfold setAdd. destruct (existsb (String.eqb x) set) eqn:E.
  - apply existsb_eqb_iff in E. split; [auto|]. intros [H| ->]; assumption.
  - rewrite in_app_iff. cbn [In]. split; intros [H|H]; auto.
    + destruct H as [<-|[]]. auto.
Qed.

Lemma setAdd_fresh (set : list string) (x : string) :
  ~ In x set -> setAdd set x = (set ++ [x])%list.
Proof.
  intros H. unfold setAdd. destruct (existsb (String.eqb x) set) eqn:E; [|reflexivity].
  apply existsb_eqb_iff in E. contradiction.
Qed.

(** A fold that adds, for every element, at most one line to a set. *)
Lemma fold_setAdd {A : Type} (line : A -> option string) (l : list A) (set : list string) :
  NoDup set ->
  NoDup (fold_left (fun set x => match line x with
                                 | Some s => setAdd set s
                                 | None => set
                                 end) l set)
  /\ forall s, In s (fold_left (fun set x => match line x with
                                             | Some s => setAdd set s
                                             | None => set
                                             end) l set)
               <-> In s set \/ exists x, In x l /\ line x = Some s.
Proof.
  revert set. induction l as [|x l IH]; intros set Hset.
  - cbn [fold_left]. split; [exact Hset|]. intros s. split; [auto|].
    intros [H|(x & [] & _)]. exact H.
  - cbn [fold_left]. destruct (line x) as [sx|] eqn:Hx.
    + destruct (IH (setAdd set sx) (mixin_setAdd_NoDup _ _ Hset)) as (Hnd & Hin).
      split; [exact Hnd|]. intros s. rewrite Hin, mixin_setAdd_In. split.
      * intros [[H| ->]|(y & Hy & E)]; [auto| |].
        -- right. exists x. split; [left; reflexivity | exact Hx].
        -- right. exists y. split; [right; exact Hy | exact E].
      * intros [H|(y & [<-|Hy] & E)]; [auto| |].
        -- left. right. congruence.
        -- right. exists y. split; assumption.
    + destruct (IH set Hset) as (Hnd & Hin).
      split; [exact Hnd|]. intros s. rewrite Hin. split.
      * intros [H|(y & Hy & E)]; [auto|]. right. exists y. split; [right; exact Hy | exact E].
      * intros [H|(y & [<-|Hy] & E)]; [auto|congruence|]. right. exists y. split; assumption.
Qed.

Lemma setOf_from (xs set : list string) :
  NoDup (set ++ xs) -> fold_left setAdd xs set = (set ++ xs)%list.
Proof.
  revert set. induction xs as [|x xs IH]; intros set H.
  - rewrite app_nil_r. reflexivity.
  - cbn [fold_left]. rewrite setAdd_fresh.
    + rewrite IH; rewrite <- app_assoc; [reflexivity | exact H].
    + apply NoDup_remove_2 in H. intros Hin. apply H. apply in_or_app. left. exact Hin.
Qed.

Lemma filter_twice {A : Type} (p q : A -> bool) (l : list A) :
  filter p (filter q l) = filter (fun y => q y && p y) l.
Proof.
  induction l as [|x l IH]; [reflexivity|]. cbn [filter].
  destruct (q x); cbn [andb filter]; [destruct (p x)|]; rewrite IH; reflexivity.
Qed.

(** Adding the elements of a list to a set appends those that are new, each
    where it first occurs. *)
Lemma fold_setAdd_first (l set : list string) :
  fold_left setAdd l set
  = (set ++ filter (fun y => negb (existsb (String.eqb y) set)) (firstOccurrences l))%list.
Proof.
  revert set. induction l as [|x l IH]; intros set.
  - cbn [fold_left firstOccurrences filter]. rewrite app_nil_r. reflexivity.
  - cbn [fold_left firstOccurrences filter]. rewrite IH, filter_twice. unfold setAdd.
    destruct (existsb (String.eqb x) set) eqn:E; cbn [negb].
    + f_equal. apply filter_ext_in. intros y _.
      destruct (String.eqb_spec y x) as [->|Hne]; [rewrite E|]; reflexivity.
    + rewrite <- app_assoc. cbn [app]. do 2 f_equal. apply filter_ext_in. intros y _.
      rewrite existsb_app. cbn [existsb]. rewrite orb_false_r, negb_orb, andb_comm.
      reflexivity.
Qed.

Lemma setOf_first (names : list string) : setOf names = firstOccurrences names.
Proof.
  unfold setOf. rewrite fold_setAdd_first. cbn [app existsb negb].
  induction (firstOccurrences names) as [|x l IH]; [reflexivity|].
  cbn [filter]. rewrite IH. reflexivity.
Qed.

Lemma fold_lines {A : Type} (line : A -> option string) (l : list A) (set : list string) :
  fold_left (fun set x => match line x with
                          | Some s => setAdd set s
                          | None => set
                          end) l set
  = fold_left setAdd (flat_map (fun x => match line x with
                                         | Some s => [s]
                                         | None => []
                                         end) l) set.
Proof.
  revert set. induction l as [|x l IH]; intros set; [reflexivity|].
  cbn [fold_left flat_map]. rewrite IH. destruct (line x); reflexivity.
Qed.

Section Sets.
Variable toKebabCase : string -> string.

(** X21.  What a mixin file lists.  The import lines are the lines of the
    listed classes in the order of the list, each line where it first
    occurs: every line once, and no other line.  The text of the subtypes
    names, as [() => C] joined by a comma and a space, the listed classes
    in the order of the list, each class where it first occurs: every
    listed class once, and the list itself when no class is listed
    twice. *)
Theorem mixin_lists_each_class_once (names : list string) (entityType : string)
        (commonBlocks : option (list string)) :
  imports toKebabCase names entityType commonBlocks
  = firstOccurrences (linesOf toKebabCase names entityType commonBlocks)
  /\ NoDup (imports toKebabCase names entityType commonBlocks)
  /\ (forall line,
        In line (imports toKebabCase names entityType commonBlocks)
        <-> exists className,
              In className names
              /\ importLine toKebabCase entityType commonBlocks className = Some line)
  /\ exists classes,
       subtypes names = Js.join ", " (map (fun c => "() => " ++ c) classes)
       /\ classes = firstOccurrences names
       /\ NoDup classes
       /\ (forall className, In className classes <-> In className names)
       /\ (NoDup names -> classes = names).
Proof.
  destruct (fold_setAdd (importLine toKebabCase entityType commonBlocks) names [] (NoDup_nil _))
    as (Hnd & Hin).
  split.
  { unfold imports, linesOf. rewrite fold_lines. apply setOf_first. }
  split; [exact Hnd|]. split.
  { intros line. unfold imports. rewrite Hin. split; [intros [[]|H]; exact H | auto]. }
  exists (setOf names). split; [reflexivity|]. split; [apply setOf_first|].
  destruct (fold_setAdd (fun c => Some c) names [] (NoDup_nil _)) as (Hnd' & Hin').
  split; [exact Hnd'|]. split.
  - intros c. unfold setOf.
    change (fold_left setAdd names [])
      with (fold_left (fun set x => match Some x with Some s => setAdd set s | None => set end)
                      names []).
    rewrite Hin'. split.
    + intros [[]|(x & Hx & E)]. injection E as <-. exact Hx.
    + intros H. right. exists c. split; [exact H | reflexivity].
  - intros H. unfold setOf. apply (setOf_from names []). exact H.
Qed.

End Sets.

End MixinFacts.

Module InferredTableFacts.
Import JsonToSchemaGeneratorUtil TableGeneratorUtil.

Section Accessors.
Context {util : GeneratorUtil}.





End Accessors.


End InferredTableFacts.
